(** * Tabix record parser, reference dictionary and region parser

    A shallow embedding of [src/paper/index.c] (the tabix part of the
    index: [get_tid], [tbx_parse1], [get_intv], [adjust_n_lvls],
    [index_load], [hts_parse_region]) and the properties the
    specification states about it.

    Conventions of the embedding.
    - A [char] is a [Z]; a buffer is a [list Z] that is followed in memory
      by NUL bytes, so that a read past the list yields [0].  A pointer
      into a buffer is a [nat] offset, a pointer that may be [NULL] is an
      [option nat].
    - [int64_t] arithmetic that can overflow on coordinates read from the
      input is written with its two's complement wrap-around ([wrap64]);
      [int] accumulators with [wrap32].  Counters that are bounded by the
      length of the buffer ([id], [d], [pos], the dictionary size) are
      plain integers: buffers are shorter than [2^31] bytes.
    - [malloc], [strdup] and [kputsn] do not fail. *)

From Stdlib Require Import ZArith Lia String Ascii.
From stdpp Require Import base list gmap.

Local Open Scope Z_scope.

(** ** Machine integers *)

Definition wrap64 (z : Z) : Z := (z + 2 ^ 63) mod 2 ^ 64 - 2 ^ 63.
Definition wrap32 (z : Z) : Z := (z + 2 ^ 31) mod 2 ^ 32 - 2 ^ 31.

Definition LLONG_MAX : Z := 2 ^ 63 - 1.
Definition LLONG_MIN : Z := - 2 ^ 63.

(** [strtoll] saturates instead of wrapping. *)
Definition clamp64 (z : Z) : Z := Z.max LLONG_MIN (Z.min LLONG_MAX z).

(** [llabs]; [llabs(LLONG_MIN)] wraps to [LLONG_MIN]. *)
Definition llabs (z : Z) : Z := wrap64 (Z.abs z).

(** ** Characters and string literals *)

Definition chr (a : ascii) : Z := Z.of_N (N_of_ascii a).

Fixpoint lit (s : string) : list Z :=
  match s with
  | EmptyString => []
  | String a s' => chr a :: lit s'
  end.

Arguments lit : simpl never.

Definition TAB : Z := 9.
Definition NUL : Z := 0.
Definition COMMA : Z := 44.
Definition COLON : Z := 58.
Definition DOT : Z := 46.
Definition LBRACE : Z := 123.
Definition RBRACE : Z := 125.

(** [toupper_c] in the C locale. *)
Definition toupper_c (c : Z) : Z :=
  if (97 <=? c) && (c <=? 122) then c - 32 else c.

(** [isspace] in the C locale: space, and [\t \n \v \f \r]. *)
Definition isspace (c : Z) : bool :=
  (c =? 32) || ((9 <=? c) && (c <=? 13)).

(** ** Buffers *)

Definition rd (buf : list Z) (p : nat) : Z := default 0 (buf !! p).
Definition wr (buf : list Z) (p : nat) (c : Z) : list Z := <[p := c]> buf.

(** The C string that starts at the head of [l]: the bytes before the
    first NUL. *)
Fixpoint cstr (l : list Z) : list Z :=
  match l with
  | [] => []
  | c :: l' => if c =? 0 then [] else c :: cstr l'
  end.

Definition cstr_at (buf : list Z) (p : nat) : list Z := cstr (drop p buf).

Definition strlen (l : list Z) : nat := length (cstr l).

(** [strcmp(lit, s) == 0] for a NUL-free literal. *)
Definition streq (buf : list Z) (p : nat) (s : list Z) : bool :=
  bool_decide (cstr_at buf p = s).

(** [strchr] for a character other than NUL, as an offset from the head. *)
Fixpoint find_char (c : Z) (l : list Z) : option nat :=
  match l with
  | [] => None
  | x :: l' =>
      if x =? 0 then None
      else if x =? c then Some 0%nat
      else S <$> find_char c l'
  end.

Definition strchr (buf : list Z) (p : nat) (c : Z) : option nat :=
  (λ k, (p + k)%nat) <$> find_char c (drop p buf).

(** [memchr(s, c, n)]. *)
Fixpoint memchr_off (c : Z) (l : list Z) (n : nat) : option nat :=
  match n with
  | O => None
  | S n' =>
      match l with
      | [] => if c =? 0 then Some 0%nat else S <$> memchr_off c [] n'
      | x :: l' => if x =? c then Some 0%nat else S <$> memchr_off c l' n'
      end
  end.

(** [hts_memrchr(s, c, n)]: the last occurrence among the first [n]
    bytes. *)
Fixpoint memrchr_off (c : Z) (l : list Z) (n : nat) {struct n} : option nat :=
  match n with
  | O => None
  | S n' =>
      match l with
      | [] => None
      | x :: l' =>
          match memrchr_off c l' n' with
          | Some k => Some (S k)
          | None => if x =? c then Some 0%nat else None
          end
      end
  end.

(** [s] is a prefix of [l] ([strncmp(l, s, strlen(s)) == 0], [s] NUL-free). *)
Fixpoint starts_with (s l : list Z) : bool :=
  match s with
  | [] => true
  | a :: s' =>
      match l with
      | [] => false
      | x :: l' => (x =? a) && starts_with s' l'
      end
  end.

(** [strstr] for a non-empty NUL-free needle, as an offset from the head. *)
Fixpoint find_str (s l : list Z) : option nat :=
  match l with
  | [] => None
  | x :: l' =>
      if starts_with s l then Some 0%nat
      else if x =? 0 then None
      else S <$> find_str s l'
  end.

Definition strstr (buf : list Z) (p : nat) (s : list Z) : option nat :=
  (λ k, (p + k)%nat) <$> find_str s (drop p buf).

(** ** [strtoll]

    Leading white space, an optional sign, a base prefix when [base] is
    [0] or [16], then the digits.  The result is the value, saturated to
    the range of [long long], and the number of bytes consumed, which is
    [0] when no digit was found. *)

Definition digit_val (c : Z) : option Z :=
  if (48 <=? c) && (c <=? 57) then Some (c - 48)
  else if (97 <=? c) && (c <=? 122) then Some (c - 87)
  else if (65 <=? c) && (c <=? 90) then Some (c - 55)
  else None.

Definition is_digit (base c : Z) : bool :=
  match digit_val c with
  | Some d => d <? base
  | None => false
  end.

Fixpoint skip_space (l : list Z) : nat :=
  match l with
  | c :: l' => if isspace c then S (skip_space l') else O
  | [] => O
  end.

Fixpoint read_digits (base acc : Z) (l : list Z) : Z * nat :=
  match l with
  | c :: l' =>
      match digit_val c with
      | Some d =>
          if d <? base then
            let '(v, n) := read_digits base (acc * base + d) l' in (v, S n)
          else (acc, O)
      | None => (acc, O)
      end
  | [] => (acc, O)
  end.

Definition read_sign (l : list Z) : bool * nat :=
  match l with
  | 45 :: _ => (true, 1%nat)
  | 43 :: _ => (false, 1%nat)
  | _ => (false, O)
  end.

Definition read_base (base : Z) (l : list Z) : Z * nat :=
  let hex :=
    match l with
    | 48 :: x :: h :: _ => ((x =? 120) || (x =? 88)) && is_digit 16 h
    | _ => false
    end in
  if ((base =? 0) || (base =? 16)) && hex then (16, 2%nat)
  else if base =? 0 then
    match l with
    | 48 :: _ => (8, O)
    | _ => (10, O)
    end
  else (base, O).

Definition strtoll_list (l : list Z) (base : Z) : Z * nat :=
  let k0 := skip_space l in
  let l1 := drop k0 l in
  let '(neg, k1) := read_sign l1 in
  let l2 := drop k1 l1 in
  let '(base', k2) := read_base base l2 in
  let '(v, n) := read_digits base' 0 (drop k2 l2) in
  match n with
  | O => (0, O)
  | _ => (clamp64 (if neg then - v else v), (k0 + k1 + k2 + n)%nat)
  end.

(** [strtoll(buf + p, &t, base)]: the value and [t]. *)
Definition strtoll (buf : list Z) (p : nat) (base : Z) : Z * nat :=
  let '(v, n) := strtoll_list (drop p buf) base in (v, (p + n)%nat).

(** [long] is 64 bits wide. *)
Definition strtol := strtoll.

Definition atoll (buf : list Z) (p : nat) : Z := fst (strtoll buf p 10).


(** ** Presets and configurations

    Modelled from the spec: the preset tags and the flag of
    [htslib/tbx.h], which is not under [src/] (the low 16 bits of
    [preset] are the format tag, [GENERIC] is [0], [UCSC] is a high
    bit). *)

Definition TBX_GENERIC : Z := 0.
Definition TBX_SAM : Z := 1.
Definition TBX_VCF : Z := 2.
Definition TBX_GAF : Z := 3.
Definition TBX_UCSC : Z := 65536.

Record tbx_conf_t := mk_conf {
  preset : Z;
  sc : Z;
  bc : Z;
  ec : Z;
  meta_char : Z;
  line_skip : Z
}.

Definition tbx_conf_gff : tbx_conf_t := mk_conf 0 1 4 5 35 0.
Definition tbx_conf_bed : tbx_conf_t := mk_conf TBX_UCSC 1 2 3 35 0.
Definition tbx_conf_psltbl : tbx_conf_t := mk_conf TBX_UCSC 15 17 18 35 0.
Definition tbx_conf_sam : tbx_conf_t := mk_conf TBX_SAM 3 4 0 64 0.
Definition tbx_conf_vcf : tbx_conf_t := mk_conf TBX_VCF 1 2 0 35 0.
Definition tbx_conf_gaf : tbx_conf_t := mk_conf TBX_GAF 1 6 0 35 0.

(** [conf->preset & 0xffff] *)
Definition fmt_tag (conf : tbx_conf_t) : Z := Z.land (preset conf) 65535.

(** [conf->preset & TBX_UCSC] *)
Definition is_ucsc (conf : tbx_conf_t) : bool :=
  negb (Z.land (preset conf) TBX_UCSC =? 0).

(** ** The reference dictionary

    The [khash] table [s2i] from names to [int64_t]; [dict == 0] is
    [None]. *)

Record tbx_t := mk_tbx {
  conf : tbx_conf_t;
  dict : option (gmap (list Z) Z)
}.

Definition get_tid (tbx : tbx_t) (ss : list Z) (is_add : bool) : Z * tbx_t :=
  if fmt_tag (conf tbx) =? TBX_GAF then (0, tbx)
  else
    let d := default ∅ (dict tbx) in
    if is_add then
      match d !! ss with
      | Some v => (v, mk_tbx (conf tbx) (Some d))
      | None =>
          (* kh_put, then kh_val(d, k) = kh_size(d) - 1 *)
          let v := Z.of_nat (size (<[ss := 0]> d)) - 1 in
          (v, mk_tbx (conf tbx) (Some (<[ss := v]> d)))
      end
    else
      (default (-1) (d !! ss), mk_tbx (conf tbx) (Some d)).

Definition tbx_name2id (tbx : tbx_t) (ss : list Z) : Z * tbx_t :=
  get_tid tbx ss false.

(** ** [tbx_parse1]

    The machine state of one call: the caller's buffer, the fields of
    [intv], the locals of the function, and the two things that outlive
    the call, the [static int reported] latch and the warnings written
    by [hts_log_warning]. *)

Inductive warning :=
  | WarnCoordinate
  | WarnInfoEnd (e : Z) (name : list Z) (pos : Z).

Record vars := mk_vars {
  line : list Z;
  ss : option nat;
  se : option nat;
  beg : Z;
  end_ : Z;
  b : nat;
  id : Z;
  getlen : bool;
  alcnt : Z;
  use_svlen : bool;
  lenpos : Z;
  svlenals : list Z;
  reflen : Z;
  svlen : Z;
  fmtlen : Z;
  reported : bool;
  log : list warning
}.

Definition set_line (x : list Z) (v : vars) : vars :=
  mk_vars x (ss v) (se v) (beg v) (end_ v) (b v) (id v) (getlen v) (alcnt v) (use_svlen v) (lenpos v) (svlenals v) (reflen v) (svlen v) (fmtlen v) (reported v) (log v).

Definition set_ss (x : option nat) (v : vars) : vars :=
  mk_vars (line v) x (se v) (beg v) (end_ v) (b v) (id v) (getlen v) (alcnt v) (use_svlen v) (lenpos v) (svlenals v) (reflen v) (svlen v) (fmtlen v) (reported v) (log v).

Definition set_se (x : option nat) (v : vars) : vars :=
  mk_vars (line v) (ss v) x (beg v) (end_ v) (b v) (id v) (getlen v) (alcnt v) (use_svlen v) (lenpos v) (svlenals v) (reflen v) (svlen v) (fmtlen v) (reported v) (log v).

Definition set_beg (x : Z) (v : vars) : vars :=
  mk_vars (line v) (ss v) (se v) x (end_ v) (b v) (id v) (getlen v) (alcnt v) (use_svlen v) (lenpos v) (svlenals v) (reflen v) (svlen v) (fmtlen v) (reported v) (log v).

Definition set_end_ (x : Z) (v : vars) : vars :=
  mk_vars (line v) (ss v) (se v) (beg v) x (b v) (id v) (getlen v) (alcnt v) (use_svlen v) (lenpos v) (svlenals v) (reflen v) (svlen v) (fmtlen v) (reported v) (log v).

Definition set_b (x : nat) (v : vars) : vars :=
  mk_vars (line v) (ss v) (se v) (beg v) (end_ v) x (id v) (getlen v) (alcnt v) (use_svlen v) (lenpos v) (svlenals v) (reflen v) (svlen v) (fmtlen v) (reported v) (log v).

Definition set_id (x : Z) (v : vars) : vars :=
  mk_vars (line v) (ss v) (se v) (beg v) (end_ v) (b v) x (getlen v) (alcnt v) (use_svlen v) (lenpos v) (svlenals v) (reflen v) (svlen v) (fmtlen v) (reported v) (log v).

Definition set_getlen (x : bool) (v : vars) : vars :=
  mk_vars (line v) (ss v) (se v) (beg v) (end_ v) (b v) (id v) x (alcnt v) (use_svlen v) (lenpos v) (svlenals v) (reflen v) (svlen v) (fmtlen v) (reported v) (log v).

Definition set_alcnt (x : Z) (v : vars) : vars :=
  mk_vars (line v) (ss v) (se v) (beg v) (end_ v) (b v) (id v) (getlen v) x (use_svlen v) (lenpos v) (svlenals v) (reflen v) (svlen v) (fmtlen v) (reported v) (log v).

Definition set_use_svlen (x : bool) (v : vars) : vars :=
  mk_vars (line v) (ss v) (se v) (beg v) (end_ v) (b v) (id v) (getlen v) (alcnt v) x (lenpos v) (svlenals v) (reflen v) (svlen v) (fmtlen v) (reported v) (log v).

Definition set_lenpos (x : Z) (v : vars) : vars :=
  mk_vars (line v) (ss v) (se v) (beg v) (end_ v) (b v) (id v) (getlen v) (alcnt v) (use_svlen v) x (svlenals v) (reflen v) (svlen v) (fmtlen v) (reported v) (log v).

Definition set_svlenals (x : list Z) (v : vars) : vars :=
  mk_vars (line v) (ss v) (se v) (beg v) (end_ v) (b v) (id v) (getlen v) (alcnt v) (use_svlen v) (lenpos v) x (reflen v) (svlen v) (fmtlen v) (reported v) (log v).

Definition set_reflen (x : Z) (v : vars) : vars :=
  mk_vars (line v) (ss v) (se v) (beg v) (end_ v) (b v) (id v) (getlen v) (alcnt v) (use_svlen v) (lenpos v) (svlenals v) x (svlen v) (fmtlen v) (reported v) (log v).

Definition set_svlen (x : Z) (v : vars) : vars :=
  mk_vars (line v) (ss v) (se v) (beg v) (end_ v) (b v) (id v) (getlen v) (alcnt v) (use_svlen v) (lenpos v) (svlenals v) (reflen v) x (fmtlen v) (reported v) (log v).

Definition set_fmtlen (x : Z) (v : vars) : vars :=
  mk_vars (line v) (ss v) (se v) (beg v) (end_ v) (b v) (id v) (getlen v) (alcnt v) (use_svlen v) (lenpos v) (svlenals v) (reflen v) (svlen v) x (reported v) (log v).

Definition set_reported (x : bool) (v : vars) : vars :=
  mk_vars (line v) (ss v) (se v) (beg v) (end_ v) (b v) (id v) (getlen v) (alcnt v) (use_svlen v) (lenpos v) (svlenals v) (reflen v) (svlen v) (fmtlen v) x (log v).

Definition set_log (x : list warning) (v : vars) : vars :=
  mk_vars (line v) (ss v) (se v) (beg v) (end_ v) (b v) (id v) (getlen v) (alcnt v) (use_svlen v) (lenpos v) (svlenals v) (reflen v) (svlen v) (fmtlen v) (reported v) x.

(** What the body of the [for] loop does next: fall through to
    [b = i + 1; ++id], [break], or [return r]. *)
Inductive ctl :=
  | Next (v : vars)
  | Break (v : vars)
  | Return (r : Z) (v : vars).

Definition ctl_vars (c : ctl) : vars :=
  match c with
  | Next v | Break v | Return _ v => v
  end.

(** The GAF path of the begin column:
    [for (s = line + b + 1; s < line + i;) { ...; s = t + 1; }].
    Every round moves [s] forward, so [i - s] rounds are enough. *)
Fixpoint gaf_path (fuel : nat) (buf : list Z) (i s : nat) (be : Z * Z)
  : Z * Z :=
  match fuel with
  | O => be
  | S fuel' =>
      if (s <? i)%nat then
        let '(nodeid, t) := strtoll buf s 0 in
        let be' :=
          if fst be =? -1 then (nodeid, nodeid)
          else (if nodeid <? fst be then nodeid else fst be,
                if snd be <? nodeid then nodeid else snd be) in
        gaf_path fuel' buf i (S t) be'
      else be
  end.

(** The begin column of the other presets. *)
Definition parse_beg (conf : tbx_conf_t) (v : vars) : ctl :=
  let '(x, s) := strtoll (line v) (b v) 0 in
  let v := set_beg x v in
  let v := if bc conf <=? ec conf then set_end_ (beg v) v else v in
  if (s =? b v)%nat then Return (-1) v
  else
    let v :=
      if negb (is_ucsc conf) then set_beg (wrap64 (beg v - 1)) v
      else if bc conf <=? ec conf then set_end_ (wrap64 (end_ v + 1)) v
      else v in
    let v :=
      if beg v <? 0 then set_beg 0 (set_log (log v ++ [WarnCoordinate]) v)
      else v in
    let v := if end_ v <? 1 then set_end_ 1 v else v in
    Next v.

(** The CIGAR column: [int l] accumulates the lengths of [M], [D], [N]. *)
Fixpoint cigar_len (fuel : nat) (buf : list Z) (i s : nat) (l : Z) : Z :=
  match fuel with
  | O => l
  | S fuel' =>
      if (s <? i)%nat then
        let '(x, t) := strtol buf s 10 in
        let op := toupper_c (rd buf t) in
        let l' :=
          if (op =? 77) || (op =? 68) || (op =? 78) then wrap32 (l + x)
          else l in
        cigar_len fuel' buf i (S t) l'
      else l
  end.

Section Parser.

(** [svlen_on_ref_for_vcf_alt(alt, -1)] is declared in [hts_internal.h]
    and defined outside [src/]: the parser is modelled over any such
    test of a C string. *)
Variable svlen_on_ref_for_vcf_alt : list Z -> bool.

(** The head of a round of the loop over the ALT alleles: the byte of
    [svlenals] for the allele is cleared when it is entered, and the
    allele is counted. *)
Definition alt_count (lastbyte : Z) (v : vars) : Z * vars :=
  let '(lastbyte, v) :=
    if negb (Z.shiftr (alcnt v) 3 =? lastbyte) then
      let lastbyte := Z.shiftr (alcnt v) 3 in
      (lastbyte, set_svlenals (wr (svlenals v) (Z.to_nat lastbyte) 0) v)
    else (lastbyte, v) in
  (lastbyte, set_alcnt (alcnt v + 1) v).

(** The test of the allele [a], the C string at [s]. *)
Definition alt_test (a : list Z) (lastbyte : Z) (v : vars) : vars :=
  if svlen_on_ref_for_vcf_alt a then
    let k := Z.to_nat lastbyte in
    let bit := Z.shiftl 1 (Z.land (alcnt v - 1) 7) in
    set_use_svlen true
      (set_svlenals (wr (svlenals v) k (Z.lor (rd (svlenals v) k) bit)) v)
  else if bool_decide (a = lit "<*>") || bool_decide (a = lit "<NON_REF>")
  then set_getlen true v
  else v.

(** One round of the loop over the ALT alleles, for the comma [t] that
    [strchr(s, ',')] found: the allele at [s] is counted and tested while
    the comma holds NUL. *)
Definition alt_round (v : vars) (lastbyte : Z) (s : nat) (t : option nat)
  : Z * vars :=
  let '(lastbyte, v) := alt_count lastbyte v in
  let v := match t with
           | Some t => set_line (wr (line v) t 0) v
           | None => v
           end in
  let v := alt_test (cstr_at (line v) s) lastbyte v in
  let v := match t with
           | Some t => set_line (wr (line v) t COMMA) v
           | None => v
           end in
  (lastbyte, v).

(** The [do ... while (t && alcnt < 65536)] loop over the ALT alleles.
    [line[i]] holds NUL while it runs, so every comma found lies before
    [i] and [i - s + 1] rounds are enough. *)
Fixpoint alt_loop (fuel : nat) (v : vars) (lastbyte : Z) (s : nat) : vars :=
  match fuel with
  | O => v
  | S fuel' =>
      let t := strchr (line v) s COMMA in
      let '(lastbyte, v) := alt_round v lastbyte s t in
      match t with
      | Some t =>
          if alcnt v <? 65536 then alt_loop fuel' v lastbyte (S t) else v
      | None => v
      end
  end.

Definition scan_alt (i : nat) (v : vars) : vars :=
  let c := rd (line v) i in
  let v := set_svlenals (wr (svlenals v) 0 0) v in
  let v := set_line (wr (line v) i 0) v in
  let v := alt_loop (S (i - b v)) v 0 (b v) in
  set_line (wr (line v) i c) v.

(** [s = strstr(line + b, "END="); if (s == line + b) s += 4; else if
    (s) { s = strstr(line + b, ";END="); if (s) s += 5; }] *)
Definition find_tag (buf : list Z) (b : nat) (tag : list Z) : option nat :=
  match strstr buf b tag with
  | Some s =>
      if (s =? b)%nat then Some (s + length tag)%nat
      else
        match strstr buf b (59 :: tag) with
        | Some s' => Some (s' + S (length tag))%nat
        | None => None
        end
  | None => None
  end.

(** [while (s && d < alcnt)] over the values of [SVLEN]. *)
Fixpoint svlen_loop (fuel : nat) (v : vars) (s : option nat) (d : Z) : vars :=
  match fuel with
  | O => v
  | S fuel' =>
      match s with
      | Some s =>
          if d <? alcnt v then
            let t := strchr (line v) s COMMA in
            let tmp :=
              if use_svlen v
                 && negb (Z.land (rd (svlenals v) (Z.to_nat (Z.shiftr d 3)))
                                 (Z.shiftl 1 (Z.land d 7)) =? 0)
              then
                let tmp := atoll (line v) s in
                if tmp <? 0 then llabs tmp else tmp
              else 1 in
            let v := set_svlen (if svlen v <? tmp then tmp else svlen v) v in
            svlen_loop fuel' v (S <$> t) (d + 1)
          else v
      | None => v
      end
  end.

Definition scan_info (i : nat) (v : vars) : vars :=
  let c := rd (line v) i in
  let v := set_line (wr (line v) i 0) v in
  let v :=
    match find_tag (line v) (b v) (lit "END=") with
    | Some s =>
        if negb (rd (line v) s =? DOT) then
          let e := fst (strtoll (line v) s 0) in
          if e <=? beg v then
            if reported v then v
            else
              let name :=
                match ss v, se v with
                | Some a, Some z => take (z - a) (cstr_at (line v) a)
                | _, _ => []
                end in
              set_reported true
                (set_log (log v ++ [WarnInfoEnd e name (beg v)]) v)
          else set_end_ e v
        else v
    | None => v
    end in
  let v :=
    svlen_loop (Z.to_nat (alcnt v)) v
      (find_tag (line v) (b v) (lit "SVLEN=")) 1 in
  set_line (wr (line v) i c) v.

(** [while (s)] over the keys of FORMAT, looking for [LEN]. *)
Fixpoint format_loop (fuel : nat) (buf : list Z) (s : nat) (pos lenpos : Z)
  : list Z * Z :=
  match fuel with
  | O => (buf, lenpos)
  | S fuel' =>
      let pos := pos + 1 in
      match strchr buf s COLON with
      | None => (buf, if streq buf s (lit "LEN") then pos else lenpos)
      | Some t =>
          let buf := wr buf t 0 in
          if streq buf s (lit "LEN") then (wr buf t COLON, pos)
          else format_loop fuel' (wr buf t COLON) (S t) pos lenpos
      end
  end.

Definition scan_format (i : nat) (v : vars) : vars :=
  let c := rd (line v) i in
  let v := set_line (wr (line v) i 0) v in
  let '(buf, lp) := format_loop (S (i - b v)) (line v) (b v) (-1) (lenpos v) in
  let v := set_lenpos lp (set_line buf v) in
  set_line (wr (line v) i c) v.

(** [for (d = 0; d <= lenpos; ++d)] over the values of one sample: the
    value of [tmp], which starts as [0]. *)
Fixpoint sample_loop (fuel : nat) (buf : list Z) (s : nat) (d lenpos : Z) : Z :=
  match fuel with
  | O => 0
  | S fuel' =>
      if d <=? lenpos then
        if d =? lenpos then atoll buf s
        else
          match strchr buf s COLON with
          | Some t => sample_loop fuel' buf (S t) (d + 1) lenpos
          | None => 0
          end
      else 0
  end.

Definition scan_sample (i : nat) (v : vars) : vars :=
  let c := rd (line v) i in
  let v := set_line (wr (line v) i 0) v in
  let tmp := sample_loop (S (i - b v)) (line v) (b v) 0 (lenpos v) in
  let v := set_fmtlen (if fmtlen v <? tmp then tmp else fmtlen v) v in
  set_line (wr (line v) i c) v.

(** The columns of a VCF line other than the sequence and begin columns. *)
Definition vcf_field (i : nat) (v : vars) : ctl :=
  let v :=
    if id v =? 4 then
      let n := Z.of_nat (i - b v) in
      let v := if (b v <? i)%nat then set_end_ (wrap64 (beg v + n)) v else v in
      set_reflen n (set_alcnt (alcnt v + 1) v)
    else v in
  if id v =? 5 then Next (scan_alt i v)
  else if id v =? 8 then Next (scan_info i v)
  else if getlen v && (id v =? 9) then
    let v := scan_format i v in
    if lenpos v =? -1 then Break v else Next v
  else if (9 <? id v) && getlen v && negb (lenpos v =? -1) then
    Next (scan_sample i v)
  else Next v.

(** The body of [if (line[i] == '\t' || line[i] == 0)], up to
    [b = i + 1; ++id]. *)
Definition field_step (conf : tbx_conf_t) (i : nat) (v : vars) : ctl :=
  if id v =? sc conf then Next (set_se (Some i) (set_ss (Some (b v)) v))
  else if id v =? bc conf then
    if fmt_tag conf =? TBX_GAF then
      let '(x, y) :=
        gaf_path (i - S (b v)) (line v) i (S (b v)) (beg v, end_ v) in
      Next (set_end_ y (set_beg x v))
    else
      parse_beg conf v
  else if fmt_tag conf =? TBX_GENERIC then
    if id v =? ec conf then
      let '(x, s) := strtoll (line v) (b v) 0 in
      let v := set_end_ x v in
      if (s =? b v)%nat then Return (-1) v else Next v
    else Next v
  else if fmt_tag conf =? TBX_SAM then
    if id v =? 6 then
      let l := cigar_len (i - b v) (line v) i (b v) 0 in
      let l := if l =? 0 then 1 else l in
      Next (set_end_ (wrap64 (beg v + l)) v)
    else Next v
  else if fmt_tag conf =? TBX_VCF then vcf_field i v
  else Next v.

Definition is_sep (c : Z) : bool := (c =? TAB) || (c =? 0).

(** [for (i = 0; i <= len; ++i)], entered at [i] with [n] rounds to go. *)
Fixpoint fields_loop (conf : tbx_conf_t) (n i : nat) (v : vars) : ctl :=
  match n with
  | O => Next v
  | S n' =>
      if is_sep (rd (line v) i) then
        match field_step conf i v with
        | Next v' =>
            fields_loop conf n' (S i) (set_id (id v' + 1) (set_b (S i) v'))
        | other => other
        end
      else fields_loop conf n' (S i) v
  end.

(** The code after the loop. *)
Definition finish (conf : tbx_conf_t) (v : vars) : Z * vars :=
  let v :=
    if fmt_tag conf =? TBX_VCF then
      let tmp :=
        if reflen v <? svlen v then
          if svlen v <? fmtlen v then fmtlen v else svlen v
        else
          if reflen v <? fmtlen v then fmtlen v else reflen v in
      let tmp := wrap64 (tmp + beg v) in
      set_end_ (if end_ v <? tmp then tmp else end_ v) v
    else v in
  if bool_decide (ss v = None) || bool_decide (se v = None)
     || (beg v <? 0) || (end_ v <? 0)
  then (-1, v) else (0, v).

(** The state on entry: [intv] is reset, the locals are initialised. *)
Definition enter (buf : list Z) (rep : bool) (lg : list warning) : vars :=
  mk_vars buf None None (-1) (-1) O 1 false 0 false (-1)
          (replicate (Z.to_nat 8192) 0) 0 0 0 rep lg.

(** [tbx_parse1(conf, len, line, intv)], called when the latch is [rep]
    and the log is [lg]: the returned value and the state at the
    [return]. *)
Definition tbx_parse1 (conf : tbx_conf_t) (len : nat) (buf : list Z)
    (rep : bool) (lg : list warning) : Z * vars :=
  match fields_loop conf (S len) O (enter buf rep lg) with
  | Next v | Break v => finish conf v
  | Return r v => (r, v)
  end.

(** [get_intv]: the returned value, [intv->tid] ([tid0] when it is not
    assigned), the state of the parser and the dictionary.  The name is
    passed to [get_tid] with [*intv->se] set to NUL for the time of the
    call. *)
Definition get_intv (tbx : tbx_t) (len : nat) (buf : list Z)
    (rep : bool) (lg : list warning) (tid0 : Z) (is_add : bool)
  : Z * Z * vars * tbx_t :=
  let '(r, v) := tbx_parse1 (conf tbx) len buf rep lg in
  if r =? 0 then
    match ss v, se v with
    | Some a, Some z =>
        let c := rd (line v) z in
        let v := set_line (wr (line v) z 0) v in
        let '(tid, tbx) :=
          if fmt_tag (conf tbx) =? TBX_GAF then (0, tbx)
          else get_tid tbx (cstr_at (line v) a) is_add in
        let v := set_line (wr (line v) z c) v in
        if tid <? 0 then (-2, tid, v, tbx)
        else ((if (0 <=? beg v) && (0 <=? end_ v) then 0 else -1), tid, v, tbx)
    | _, _ => (-1, tid0, v, tbx)
    end
  else (-1, tid0, v, tbx).

(** A sequence of calls of [tbx_parse1] in one process, each on its own
    configuration and line: the latch and the log are handed from one
    call to the next. *)
Fixpoint run_calls (calls : list (tbx_conf_t * nat * list Z))
    (rep : bool) (lg : list warning) : bool * list warning :=
  match calls with
  | [] => (rep, lg)
  | (conf, len, buf) :: calls' =>
      let v := snd (tbx_parse1 conf len buf rep lg) in
      run_calls calls' (reported v) (log v)
  end.

End Parser.

(** ** [adjust_n_lvls]

    Modelled from the spec: [hts_bin_maxpos] is a macro of [htslib/hts.h],
    which is not under [src/]; the spec gives
    [max_pos(min_shift, n_lvls) = 1 << (min_shift + 3 * n_lvls)]. *)
Definition max_pos (min_shift n_lvls : Z) : Z := 2 ^ (min_shift + 3 * n_lvls).

(** The macro on [int64_t]. *)
Definition hts_bin_maxpos (min_shift n_lvls : Z) : Z :=
  wrap64 (Z.shiftl 1 (min_shift + n_lvls * 3)).

(** [for (; max_len > s; ++n_lvls, s <<= 3) {}]; the loop does not end
    once [s] has wrapped to [0] below a positive [max_len], so it runs on
    fuel and [None] is "still running". *)
Fixpoint adjust_loop (fuel : nat) (max_len n_lvls s : Z) : option Z :=
  match fuel with
  | O => None
  | S fuel' =>
      if s <? max_len then
        adjust_loop fuel' max_len (wrap32 (n_lvls + 1)) (wrap64 (Z.shiftl s 3))
      else Some n_lvls
  end.

Definition adjust_n_lvls (fuel : nat) (min_shift n_lvls max_len : Z)
  : option Z :=
  let s := hts_bin_maxpos min_shift n_lvls in
  let max_len := wrap64 (max_len + 256) in
  adjust_loop fuel max_len n_lvls s.

(** Modelled from the spec: [TBX_MAX_SHIFT] of [htslib/tbx.h], which is
    not under [src/]. *)
Definition TBX_MAX_SHIFT : Z := 31.

Inductive idx_fmt := HTS_FMT_CSI | HTS_FMT_TBI.

(** The arguments [tbx_index] passes to [hts_idx_init] at the first
    record: the format, [min_shift] and [n_lvls], for the [min_shift] of
    the caller and the [max_ref_len] gathered from the header lines. *)
Definition tbx_index_levels (fuel : nat) (min_shift max_ref_len : Z)
  : option (idx_fmt * Z * Z) :=
  if 0 <? min_shift then
    let n_lvls := Z.quot (TBX_MAX_SHIFT - min_shift + 2) 3 in
    let max_ref_len :=
      if max_ref_len =? 0 then 100 * 1024 * 1024 * 1024 else max_ref_len in
    n ← adjust_n_lvls fuel min_shift n_lvls max_ref_len;
    Some (HTS_FMT_CSI, min_shift, n)
  else Some (HTS_FMT_TBI, 14, 5).

(** ** [index_load]

    The index header: a 28 byte preamble of little-endian 32 bit words
    and the names block.  [meta] holds [l_meta] bytes ([uint8_t], so
    [0..255]) and is followed by a NUL. *)

Definition le_to_u32 (m : list Z) (p : nat) : Z :=
  rd m p + 2 ^ 8 * rd m (p + 1) + 2 ^ 16 * rd m (p + 2) + 2 ^ 24 * rd m (p + 3).

Definition le_to_i32 (m : list Z) (p : nat) : Z := wrap32 (le_to_u32 m p).

(** [for (; p - nm < l_nm; p += strlen(p) + 1) get_tid(tbx, p, 1)] over
    the bytes [nm] that follow the preamble.  Every name takes at least
    its NUL, so [l_nm - p] rounds are enough. *)
Fixpoint load_names (fuel : nat) (tbx : tbx_t) (nm : list Z) (p l_nm : nat)
  : tbx_t :=
  match fuel with
  | O => tbx
  | S fuel' =>
      if (p <? l_nm)%nat then
        let name := cstr_at nm p in
        load_names fuel' (snd (get_tid tbx name true)) nm
                   (p + length name + 1)%nat l_nm
      else tbx
  end.

(** [index_load] once [hts_idx_load3] has delivered [meta]; [None] is the
    [invalid] exit. *)
Definition index_load (meta : list Z) : option tbx_t :=
  let l_meta := Z.of_nat (length meta) in
  if l_meta <? 28 then None
  else
    let cf :=
      mk_conf (le_to_i32 meta 0) (le_to_i32 meta 4) (le_to_i32 meta 8)
              (le_to_i32 meta 12) (le_to_i32 meta 16) (le_to_i32 meta 20) in
    let l_nm := le_to_u32 meta 24 in
    if l_meta - 28 <? l_nm then None
    else
      Some (load_names (Z.to_nat l_nm) (mk_tbx cf None) (drop 28 meta) O
                       (Z.to_nat l_nm)).

(** ** [hts_parse_region]

    Modelled from the spec: the flags and [HTS_POS_MAX] of [htslib/hts.h],
    which is not under [src/] ([HTS_POS_MAX] is the [+∞] of the spec). *)
Definition HTS_PARSE_THOUSANDS_SEP : Z := 1.
Definition HTS_PARSE_ONE_COORD : Z := 2.
Definition HTS_PARSE_LIST : Z := 4.
Definition HTS_POS_MAX : Z := 2 ^ 31 * 2 ^ 32 - 2 ^ 32 + 2 ^ 31 - 1.

Definition isdigit_c (c : Z) : bool := (48 <=? c) && (c <=? 57).

(** What the caller sees: the returned pointer (an offset into the
    region string, [None] for [NULL]) and [*tid], [*beg], [*end]. *)
Record region := mk_region {
  r_ret : option nat;
  r_tid : Z;
  r_beg : Z;
  r_end : Z
}.

Section Region.

(** The name resolver of the caller ([getid(hdr, name)]) and
    [hts_parse_decimal(str, &strend, flags)], which is defined outside
    [src/]: the value and the number of bytes it consumed. *)
Variable getid : list Z -> Z.
Variable hts_parse_decimal : list Z -> Z -> Z * nat.

Definition has_flag (flags f : Z) : bool := negb (Z.land flags f =? 0).

(** The [n] bytes at [s], as [kputsn] copies them. *)
Definition span (s0 : list Z) (s n : nat) : list Z := take n (drop s s0).

(** The part after the name has been resolved: "Finally parse the
    post-colon coordinates".  [end0] is what [*end] holds on entry. *)
Definition parse_coords (s0 : list Z) (colon s_end : nat) (flags tid end0 : Z)
  : region :=
  let '(x, n) := hts_parse_decimal (drop (S colon) s0) flags in
  let hyphen := (S colon + n)%nat in
  let beg := wrap64 (x - 1) in
  let rest :=
    let last (end_ : Z) :=
      let end_ := if end_ =? 0 then HTS_POS_MAX else end_ in
      if end_ <=? beg then mk_region None tid beg end_
      else mk_region (Some s_end) tid beg end_ in
    if (rd s0 hyphen =? 0)
       || (has_flag flags HTS_PARSE_LIST && (rd s0 hyphen =? COMMA)) then
      last (if has_flag flags HTS_PARSE_ONE_COORD then wrap64 (beg + 1)
            else HTS_POS_MAX)
    else if rd s0 hyphen =? 45 then
      let '(y, m) := hts_parse_decimal (drop (S hyphen) s0) flags in
      let hyphen' := (S hyphen + m)%nat in
      if negb (rd s0 hyphen' =? 0) && negb (rd s0 hyphen' =? COMMA) then
        mk_region None tid beg y
      else last y
    else mk_region None tid beg end0 in
  if beg <? 0 then
    if negb (beg =? -1) && (rd s0 hyphen =? 45)
       && negb (rd s0 (S colon) =? 0) then
      mk_region None tid beg end0
    else if isdigit_c (rd s0 hyphen) || (rd s0 hyphen =? 0)
            || (rd s0 hyphen =? COMMA) then
      mk_region (Some s_end) tid 0
        (if beg =? -1 then HTS_POS_MAX else wrap64 (- (beg + 1)))
    else if beg <? -1 then mk_region None tid beg end0
    else rest
  else rest.

(** The name before the colon, then the coordinates: "Quoted, or
    unquoted and whole string isn't a name".  [beg0] and [end0] are what
    [*beg] and [*end] hold on entry. *)
Definition parse_named (s0 : list Z) (s colon quoted s_end : nat)
    (flags beg0 end0 : Z) : region :=
  let tid := getid (span s0 s (colon - s - quoted)) in
  if tid <? 0 then mk_region None tid beg0 end0
  else parse_coords s0 colon s_end flags tid end0.

(** [hts_parse_region(s, &tid, &beg, &end, getid, hdr, flags)] for
    non-NULL arguments.  [*beg] and [*end] hold [beg0] and [end0] on
    entry, and [*tid] is assigned on every path. *)
Definition hts_parse_region (s0 : list Z) (beg0 end0 : Z) (flags : Z)
  : region :=
  let s_len := strlen s0 in
  let flags :=
    if has_flag flags HTS_PARSE_LIST
    then Z.land flags (Z.lnot HTS_PARSE_THOUSANDS_SEP)
    else Z.lor flags HTS_PARSE_THOUSANDS_SEP in
  let s_end := s_len in
  if rd s0 0 =? LBRACE then
    match memchr_off RBRACE s0 s_len with
    | None => mk_region None (-1) beg0 end0
    | Some close =>
        let s := 1%nat in
        let s_len := (s_len - 1)%nat in
        let colon :=
          if rd s0 (S close) =? COLON then Some (S close) else None in
        let '(s_len, s_end) :=
          if has_flag flags HTS_PARSE_LIST then
            match strchr s0 close COMMA with
            | Some comma => ((comma - s)%nat, S comma)
            | None => (s_len, s_end)
            end
          else (s_len, s_end) in
        match colon with
        | None =>
            let tid := getid (span s0 s (s_len - 1)) in
            mk_region (if 0 <=? tid then Some s_end else None)
                      tid 0 HTS_POS_MAX
        | Some colon => parse_named s0 s colon 1 s_end flags beg0 end0
        end
    end
  else
    let s := O in
    let '(s_len, s_end) :=
      if has_flag flags HTS_PARSE_LIST then
        match strchr s0 s COMMA with
        | Some comma => ((comma - s)%nat, S comma)
        | None => (s_len, s_end)
        end
      else (s_len, s_end) in
    match memrchr_off COLON s0 s_len with
    | None =>
        let tid := getid (span s0 s s_len) in
        mk_region (if 0 <=? tid then Some s_end else None) tid 0 HTS_POS_MAX
    | Some colon =>
        (* Has a colon, but check whole name first. *)
        let tid := getid (span s0 s s_len) in
        if 0 <=? tid then
          if 0 <=? getid (span s0 s (colon - s)) then
            mk_region None (-1) 0 HTS_POS_MAX
          else mk_region (Some s_end) tid 0 HTS_POS_MAX
        else if tid <? -1 then mk_region None tid 0 HTS_POS_MAX
        else parse_named s0 s colon 0 s_end flags 0 HTS_POS_MAX
    end.

End Region.

(** ** Notions the properties are stated with *)

(** The distinct elements of a list, in the order of their first
    occurrence. *)
Fixpoint distinct_from (ds l : list (list Z)) : list (list Z) :=
  match l with
  | [] => ds
  | x :: l' => distinct_from (if decide (x ∈ ds) then ds else ds ++ [x]) l'
  end.

Definition distinct (l : list (list Z)) : list (list Z) := distinct_from [] l.

(** The position of the first [x] in [l]. *)
Fixpoint index_of (x : list Z) (l : list (list Z)) : option nat :=
  match l with
  | [] => None
  | y :: l' => if decide (x = y) then Some O else S <$> index_of x l'
  end.

(** Names added one after the other with [get_tid(tbx, name, 1)]: the
    values returned, and the dictionary afterwards. *)
Fixpoint add_names (tbx : tbx_t) (names : list (list Z)) : list Z * tbx_t :=
  match names with
  | [] => ([], tbx)
  | x :: names' =>
      let '(v, tbx) := get_tid tbx x true in
      let '(vs, tbx) := add_names tbx names' in
      (v :: vs, tbx)
  end.

(** The names of a names block of [l_nm] bytes: the NUL-terminated
    strings that start at [p], one after the other. *)
Fixpoint block_names (fuel : nat) (nm : list Z) (p l_nm : nat)
  : list (list Z) :=
  match fuel with
  | O => []
  | S fuel' =>
      if (p <? l_nm)%nat then
        let name := cstr_at nm p in
        name :: block_names fuel' nm (p + length name + 1)%nat l_nm
      else []
  end.

Definition names_block (meta : list Z) : list (list Z) :=
  let l_nm := Z.to_nat (le_to_u32 meta 24) in
  block_names l_nm (drop 28 meta) O l_nm.

(** The first region of a region string: the whole string, or the part
    before the first comma when the string is a list. *)
Fixpoint before_comma (l : list Z) : list Z :=
  match l with
  | [] => []
  | c :: l' => if c =? COMMA then [] else c :: before_comma l'
  end.

Definition first_region (flags : Z) (s0 : list Z) : list Z :=
  if has_flag flags HTS_PARSE_LIST then before_comma (cstr s0) else cstr s0.


(** ** What the scans of [tbx_parse1] leave untouched *)

(** The ALT scan changes [alcnt], [svlenals], [use_svlen] and [getlen]
    only. *)
Definition frame_alt (v v' : vars) : Prop :=
  line v' = line v /\
  ss v' = ss v /\
  se v' = se v /\
  beg v' = beg v /\
  end_ v' = end_ v /\
  b v' = b v /\
  id v' = id v /\
  lenpos v' = lenpos v /\
  reflen v' = reflen v /\
  svlen v' = svlen v /\
  fmtlen v' = fmtlen v /\
  reported v' = reported v /\
  log v' = log v.

(** The INFO scan changes [end], [svlen], the latch and the log only. *)
Definition frame_info (v v' : vars) : Prop :=
  line v' = line v /\
  ss v' = ss v /\
  se v' = se v /\
  beg v' = beg v /\
  b v' = b v /\
  id v' = id v /\
  getlen v' = getlen v /\
  alcnt v' = alcnt v /\
  use_svlen v' = use_svlen v /\
  lenpos v' = lenpos v /\
  svlenals v' = svlenals v /\
  reflen v' = reflen v /\
  fmtlen v' = fmtlen v.

(** The FORMAT scan changes [lenpos] only. *)
Definition frame_format (v v' : vars) : Prop :=
  line v' = line v /\
  ss v' = ss v /\
  se v' = se v /\
  beg v' = beg v /\
  end_ v' = end_ v /\
  b v' = b v /\
  id v' = id v /\
  getlen v' = getlen v /\
  alcnt v' = alcnt v /\
  use_svlen v' = use_svlen v /\
  svlenals v' = svlenals v /\
  reflen v' = reflen v /\
  svlen v' = svlen v /\
  fmtlen v' = fmtlen v /\
  reported v' = reported v /\
  log v' = log v.

(** The scan of a sample changes [fmtlen] only. *)
Definition frame_sample (v v' : vars) : Prop :=
  line v' = line v /\
  ss v' = ss v /\
  se v' = se v /\
  beg v' = beg v /\
  end_ v' = end_ v /\
  b v' = b v /\
  id v' = id v /\
  getlen v' = getlen v /\
  alcnt v' = alcnt v /\
  use_svlen v' = use_svlen v /\
  lenpos v' = lenpos v /\
  svlenals v' = svlenals v /\
  reflen v' = reflen v /\
  svlen v' = svlen v /\
  reported v' = reported v /\
  log v' = log v.

(** The begin column changes [beg], [end] and the log only. *)
Definition frame_beg (v v' : vars) : Prop :=
  line v' = line v /\
  ss v' = ss v /\
  se v' = se v /\
  b v' = b v /\
  id v' = id v /\
  getlen v' = getlen v /\
  alcnt v' = alcnt v /\
  use_svlen v' = use_svlen v /\
  lenpos v' = lenpos v /\
  svlenals v' = svlenals v /\
  reflen v' = reflen v /\
  svlen v' = svlen v /\
  fmtlen v' = fmtlen v /\
  reported v' = reported v.

(** How a field changes the latch and the log: not at all, or the latch
    goes from open to set and one INFO/END warning is written. *)
Definition log_step (v v' : vars) : Prop :=
  (log v' = log v /\ reported v' = reported v)
  \/ (reported v = false /\ reported v' = true
      /\ exists e n p, log v' = log v ++ [WarnInfoEnd e n p]).


(** ** Columns

    The separators among the first [n] bytes of a line, and the offset
    [p] at which column [k] (counted from 1) starts: [k - 1] separators
    come before [p], the last of them right before it. *)
Fixpoint count_seps (buf : list Z) (n : nat) : nat :=
  match n with
  | O => O
  | S n' => (count_seps buf n' + if is_sep (rd buf n') then 1 else 0)%nat
  end.

Definition column_start (buf : list Z) (k : Z) (p : nat) : Prop :=
  Z.of_nat (count_seps buf p) = k - 1
  /\ (p = O \/ is_sep (rd buf (p - 1)) = true).

(** The column that starts at [a] ends at the separator [z]. *)
Definition column_end (buf : list Z) (a z : nat) : Prop :=
  (a <= z)%nat /\ is_sep (rd buf z) = true
  /\ count_seps buf z = count_seps buf a.

(** What holds when the loop over the bytes is at [i]: the buffer is
    the caller's, [id] and [b] are the number and the start of the
    column that holds [i], the name slice, once set, is column [sc], and
    [beg], once it differs from [-1], was read at the start of column
    [bc], where [strtoll] converted something unless the preset is GAF. *)
Definition loop_inv (conf : tbx_conf_t) (buf : list Z) (i : nat) (v : vars)
  : Prop :=
  line v = buf
  /\ id v = 1 + Z.of_nat (count_seps buf i)
  /\ (b v <= i)%nat
  /\ column_start buf (id v) (b v)
  /\ match ss v, se v with
     | None, None => True
     | Some a, Some z =>
         column_start buf (sc conf) a /\ column_end buf a z /\ (z < i)%nat
     | _, _ => False
     end
  /\ (beg v = -1
      \/ exists p, (p < i)%nat /\ column_start buf (bc conf) p
                   /\ sc conf <> bc conf
                   /\ (fmt_tag conf <> TBX_GAF ->
                       snd (strtoll buf p 0) <> p)).

(** ** Warnings of a process *)

Definition is_info_end (w : warning) : bool :=
  match w with
  | WarnInfoEnd _ _ _ => true
  | WarnCoordinate => false
  end.

Definition is_coordinate (w : warning) : bool :=
  match w with
  | WarnCoordinate => true
  | WarnInfoEnd _ _ _ => false
  end.

Definition count_info_end (lg : list warning) : nat :=
  length (filter (fun w => is_info_end w = true) lg).

Definition count_coordinate (lg : list warning) : nat :=
  length (filter (fun w => is_coordinate w = true) lg).

(** The latch and the log agree: at most one INFO/END warning was
    written, and none while the latch is open. *)
Definition latched (rep : bool) (lg : list warning) : Prop :=
  (count_info_end lg <= 1)%nat /\ (rep = false -> count_info_end lg = O).

(** ** GAF paths

    The numbers [strtoll] reads in base [base] along the path that ends
    at [i], from [s] on: after each number one byte is skipped. *)
Fixpoint gaf_ids (base : Z) (fuel : nat) (buf : list Z) (i s : nat)
  : list Z :=
  match fuel with
  | O => []
  | S fuel' =>
      if (s <? i)%nat then
        let '(x, t) := strtoll buf s base in
        x :: gaf_ids base fuel' buf i (S t)
      else []
  end.

(** The node IDs of the path in the column that starts at [p] and ends
    at [i]; the first byte of the column is the orientation of the first
    node. *)
Definition gaf_node_ids (base : Z) (buf : list Z) (p i : nat) : list Z :=
  gaf_ids base (i - S p) buf i (S p).

Definition list_min (l : list Z) : Z :=
  match l with
  | [] => 0
  | x :: l' => foldr Z.min x l'
  end.

Definition list_max (l : list Z) : Z :=
  match l with
  | [] => 0
  | x :: l' => foldr Z.max x l'
  end.

(** One round of the path: the running minimum and maximum, restarted
    whenever the minimum is the "unset" value [-1]. *)
Definition gaf_acc (be : Z * Z) (x : Z) : Z * Z :=
  if fst be =? -1 then (x, x)
  else (if x <? fst be then x else fst be, if snd be <? x then x else snd be).

(** What holds of [beg] and [end] under the GAF preset: they are
    untouched, or the begin column has been passed and they are what the
    path of that column gave. *)
Definition gaf_inv (conf : tbx_conf_t) (buf : list Z) (v : vars) : Prop :=
  (beg v = -1 /\ end_ v = -1)
  \/ (bc conf < id v
      /\ exists p i, column_start buf (bc conf) p /\ column_end buf p i
                     /\ (beg v, end_ v)
                        = gaf_path (i - S p) buf i (S p) (-1, -1)).

(** ** The clamp

    What the loop keeps under the presets other than GAF, for a line of
    [len] bytes: the three lengths of the VCF preset stay in range, and
    once the begin column has been read ([beg] is no longer [-1]) [beg]
    is not negative and [end] is at least [1], unless, under the VCF
    preset, the sum [beg + reflen] of the REF column wrapped around. *)
Definition clamp_inv (conf : tbx_conf_t) (len : nat) (v : vars) : Prop :=
  0 <= reflen v <= Z.of_nat len
  /\ 0 <= svlen v <= LLONG_MAX
  /\ 0 <= fmtlen v <= LLONG_MAX
  /\ (beg v = -1
      \/ (0 <= beg v <= LLONG_MAX /\ bc conf < id v
          /\ (1 <= end_ v
              \/ (fmt_tag conf = TBX_VCF /\ 4 < id v /\ end_ v < 0
                  /\ 1 <= reflen v)))).


(** ** The columns of a line and the values of a VCF record *)

(** The pieces of [l] between the bytes that satisfy [f]. *)
Fixpoint split_by (f : Z -> bool) (l : list Z) : list (list Z) :=
  match l with
  | [] => [[]]
  | x :: l' =>
      if f x then [] :: split_by f l'
      else
        match split_by f l' with
        | h :: t => (x :: h) :: t
        | [] => [[x]]
        end
  end.

Definition split_on (c : Z) : list Z -> list (list Z) :=
  split_by (fun x => x =? c).

(** The columns of a line: its pieces between tabs (and NULs). *)
Definition columns (buf : list Z) : list (list Z) := split_by is_sep buf.

(** Column [k], counted from 1; empty when the line has no such
    column. *)
Definition column (buf : list Z) (k : nat) : list Z :=
  default [] (columns buf !! (k - 1)%nat).

(** The part of [l] before its first [c]. *)
Fixpoint before (c : Z) (l : list Z) : list Z :=
  match l with
  | [] => []
  | x :: l' => if x =? c then [] else x :: before c l'
  end.

(** [atoll] and [strtoll] of a text. *)
Definition atoll_of (l : list Z) : Z := fst (strtoll_list l 10).

(** The text that follows a tag of INFO: the tag starts INFO, or it is
    the first one that follows a [;]. *)
Definition tag_text (info tag : list Z) : option (list Z) :=
  match find_str tag info with
  | Some O => Some (drop (length tag) info)
  | Some _ =>
      match find_str (59 :: tag) info with
      | Some k => Some (drop (k + S (length tag)) info)
      | None => None
      end
  | None => None
  end.

(** The value of the tag: its text up to the next [;]. *)
Definition tag_value (info tag : list Z) : option (list Z) :=
  before 59 <$> tag_text info tag.

(** INFO/END: absent, or [.], or a number read in base 0. *)
Definition info_end (info : list Z) : option Z :=
  match tag_value info (lit "END=") with
  | Some val =>
      match val with
      | 46 :: _ => None
      | _ => Some (fst (strtoll_list val 0))
      end
  | None => None
  end.

(** The values of INFO/SVLEN, one per comma-separated piece. *)
Definition svlen_values (info : list Z) : list Z :=
  match tag_value info (lit "SVLEN=") with
  | Some val => atoll_of <$> split_on COMMA val
  | None => []
  end.

Definition is_gvcf (a : list Z) : bool :=
  bool_decide (a = lit "<*>") || bool_decide (a = lit "<NON_REF>").

Section VcfSpec.

Variable sv : list Z -> bool.

(** The ALT alleles that are examined. *)
Definition alleles (alt : list Z) : list (list Z) :=
  take (Z.to_nat 65535) (split_on COMMA alt).

(** A [<*>] or [<NON_REF>] allele was seen. *)
Definition gvcf_seen (als : list (list Z)) : bool :=
  existsb (fun a => negb (sv a) && is_gvcf a) als.

(** The largest [|SVLEN|] of a symbolic allele. *)
Definition vcf_svlen (als : list (list Z)) (vals : list Z) : Z :=
  foldr Z.max 0 (zip_with (fun a x => if sv a then Z.abs x else 0) als vals).

(** FORMAT/LEN of one sample: the value at the position of [LEN]. *)
Definition sample_len (pos : nat) (sample : list Z) : Z :=
  match split_on COLON sample !! pos with
  | Some p => atoll_of p
  | None => 0
  end.

(** The largest FORMAT/LEN over the samples of a gVCF record. *)
Definition vcf_fmtlen (als : list (list Z)) (format : list Z)
    (samples : list (list Z)) : Z :=
  if gvcf_seen als then
    match index_of (lit "LEN") (split_on COLON format) with
    | Some pos => foldr Z.max 0 (sample_len pos <$> samples)
    | None => 0
    end
  else 0.

(** The end of a VCF record that begins at [beg]. *)
Definition vcf_end (beg : Z) (buf : list Z) : Z :=
  let als := alleles (column buf 5) in
  let m :=
    Z.max (beg + Z.of_nat (length (column buf 4)))
      (Z.max (beg + vcf_svlen als (svlen_values (column buf 8)))
             (beg + vcf_fmtlen als (column buf 9)
                      (drop 9 (columns buf)))) in
  match info_end (column buf 8) with
  | Some e => if beg <? e then Z.max e m else m
  | None => m
  end.

(** The end of a VCF record as the specification words it: the same,
    with FORMAT/LEN "read from the first sample column" only. *)
Definition vcf_end_first_sample (beg : Z) (buf : list Z) : Z :=
  let als := alleles (column buf 5) in
  let m :=
    Z.max (beg + Z.of_nat (length (column buf 4)))
      (Z.max (beg + vcf_svlen als (svlen_values (column buf 8)))
             (beg + vcf_fmtlen als (column buf 9)
                      (take 1 (drop 9 (columns buf))))) in
  match info_end (column buf 8) with
  | Some e => if beg <? e then Z.max e m else m
  | None => m
  end.

(** [SVLEN], when present, gives a value to every symbolic allele that
    is examined. *)
Definition svlen_per_allele (buf : list Z) : Prop :=
  tag_text (column buf 8) (lit "SVLEN=") = None
  \/ forall (k : nat) a,
       alleles (column buf 5) !! k = Some a -> sv a = true ->
       (k < length (svlen_values (column buf 8)))%nat.

End VcfSpec.

(** ** Texts in a buffer

    [ends rest]: [rest] is empty or starts with NUL.  [text_at buf s t]:
    the bytes [t], none of them NUL, start at [s] in [buf] and are
    followed by a NUL or by the end of the buffer. *)
Definition ends (rest : list Z) : Prop := head rest ∈ [None; Some 0].

Definition text_at (buf : list Z) (s : nat) (t : list Z) : Prop :=
  (0 ∉ t) /\ exists rest, drop s buf = t ++ rest /\ ends rest.

(** The bytes at which [strtoll] stops: no space, sign or digit. *)
Definition stops (c : Z) : Prop :=
  isspace c = false /\ c <> 45 /\ c <> 43 /\ digit_val c = None.

Definition stopped (rest : list Z) : Prop :=
  match rest with
  | [] => True
  | c :: _ => stops c
  end.

(** The bytes at which a number ends wherever it is read: no sign and
    no digit (a tab is one, and so is NUL). *)
Definition halts (c : Z) : Prop :=
  c <> 45 /\ c <> 43 /\ digit_val c = None.

Definition halted (rest : list Z) : Prop :=
  match rest with
  | [] => True
  | c :: _ => halts c
  end.

(** ** The loops of the VCF columns, over the pieces of the column *)

Section VcfLoops.

Variable sv : list Z -> bool.

(** The loop over the ALT alleles, given the alleles. *)
Fixpoint alt_fold (als : list (list Z)) (lastbyte : Z) (v : vars) : vars :=
  match als with
  | [] => v
  | a :: rest =>
      let '(lastbyte, v) := alt_count lastbyte v in
      let v := alt_test sv a lastbyte v in
      match rest with
      | [] => v
      | _ => if alcnt v <? 65536 then alt_fold rest lastbyte v else v
      end
  end.

(** The same without the limit on the number of alleles. *)
Fixpoint alt_all (als : list (list Z)) (lastbyte : Z) (v : vars) : Z * vars :=
  match als with
  | [] => (lastbyte, v)
  | a :: rest =>
      let '(lastbyte, v) := alt_count lastbyte v in
      alt_all rest lastbyte (alt_test sv a lastbyte v)
  end.

(** Bit [d] of the bit set [svlenals]. *)
Definition svlen_bit (m : list Z) (d : Z) : bool :=
  Z.testbit (rd m (Z.to_nat (Z.shiftr d 3))) (Z.land d 7).

(** The state of the bit set when the alleles [done] have been counted
    from [alcnt = 1] on: the bits of the alleles say which are symbolic,
    the bits after them in the current byte are clear. *)
Definition bits_inv (done : list (list Z)) (lastbyte : Z) (v : vars) : Prop :=
  alcnt v = 1 + Z.of_nat (length done)
  /\ lastbyte = Z.shiftr (alcnt v - 1) 3
  /\ length (svlenals v) = Z.to_nat 8192
  /\ (forall (k : nat) a, done !! k = Some a ->
        svlen_bit (svlenals v) (1 + Z.of_nat k) = sv a)
  /\ (forall d, alcnt v <= d -> Z.shiftr d 3 = lastbyte ->
        svlen_bit (svlenals v) d = false).

(** [tmp < 0 ? llabs(tmp) : tmp]. *)
Definition svlen_abs (x : Z) : Z := if x <? 0 then llabs x else x.

(** What the loop over the values of [SVLEN] finds: the pieces between
    the commas of the text that follows the tag, up to the end of INFO,
    go with the alleles in turn; an allele that is not symbolic counts
    as [1]. *)
Definition svlen_seen (als : list (list Z)) (info : list Z) : Z :=
  match tag_text info (lit "SVLEN=") with
  | Some text =>
      foldr Z.max 0
        (zip_with (fun a p => if sv a then svlen_abs (atoll_of p) else 1)
                  als (split_on COMMA text))
  | None => 0
  end.

End VcfLoops.

(** ** The state of the parser along the columns of a VCF record *)

Section VcfInv.

Variable sv : list Z -> bool.

(** [end] once INFO has been read: INFO/END when it lies after [beg],
    the end of the reference allele otherwise. *)
Definition end_seen (v : vars) (info : list Z) : Z :=
  match info_end info with
  | Some e => if beg v <? e then e else wrap64 (beg v + reflen v)
  | None => wrap64 (beg v + reflen v)
  end.

(** [lenpos] once FORMAT has been read. *)
Definition lenpos_seen (als : list (list Z)) (format : list Z) : Z :=
  if gvcf_seen sv als then
    match index_of (lit "LEN") (split_on COLON format) with
    | Some p => Z.of_nat p
    | None => -1
    end
  else -1.

(** What holds of the state when the loop is in column [id]: every
    value is what the columns before [id] make it. *)
Definition vcf_inv (buf : list Z) (v : vars) : Prop :=
  let k := id v in
  let als := alleles (column buf 5) in
  length (svlenals v) = Z.to_nat 8192
  /\ (k <= 4 -> reflen v = 0 /\ alcnt v = 0)
  /\ (4 < k -> reflen v = Z.of_nat (length (column buf 4)))
  /\ (k <= 5 -> use_svlen v = false /\ getlen v = false
                /\ (k = 5 -> alcnt v = 1))
  /\ (5 < k -> (exists lb, bits_inv sv als lb v)
               /\ use_svlen v = existsb sv als
               /\ getlen v = gvcf_seen sv als)
  /\ (k <= 8 -> svlen v = 0
                /\ (4 < k -> 0 < reflen v ->
                    end_ v = wrap64 (beg v + reflen v)))
  /\ (8 < k -> svlen v = svlen_seen sv als (column buf 8)
               /\ (0 < reflen v -> end_ v = end_seen v (column buf 8)))
  /\ (k <= 9 -> lenpos v = -1 /\ fmtlen v = 0)
  /\ (9 < k -> lenpos v = lenpos_seen als (column buf 9)
               /\ fmtlen v = vcf_fmtlen sv als (column buf 9)
                               (take (Z.to_nat (k - 10))
                                     (drop 9 (columns buf)))).

(** What the scan of ALT leaves: the count of the alleles, the bit set
    of the symbolic ones, and the two flags. *)
Definition alt_done (als : list (list Z)) (v : vars) : Prop :=
  (exists lb, bits_inv sv als lb v)
  /\ use_svlen v = existsb sv als
  /\ getlen v = gvcf_seen sv als.

(** What holds when the loop is left. *)
Definition vcf_done (buf : list Z) (v : vars) : Prop :=
  let als := alleles (column buf 5) in
  reflen v = Z.of_nat (length (column buf 4))
  /\ svlen v = svlen_seen sv als (column buf 8)
  /\ fmtlen v = vcf_fmtlen sv als (column buf 9) (drop 9 (columns buf))
  /\ (0 < reflen v -> end_ v = end_seen v (column buf 8))
  /\ ((5 <= length (columns buf))%nat -> alt_done als v).

End VcfInv.
(** ** Concrete inputs

    Modelled from the spec: [svlen_on_ref_for_vcf_alt], whose definition
    is not under [src/], as the spec words it: "ALT strings of the form
    [<...>] other than [<*>]/[<NON_REF>]". *)
Definition symbolic_alt (a : list Z) : bool :=
  match a with
  | 60 :: r =>
      match last r with
      | Some 62 =>
          negb (bool_decide (a = lit "<*>"))
          && negb (bool_decide (a = lit "<NON_REF>"))
      | _ => false
      end
  | _ => false
  end.

(** A line written with [|] for the tab between two columns. *)
Definition tabbed (s : string) : list Z :=
  (fun c => if c =? 124 then TAB else c) <$> lit s.

(** A resolver that knows the two names [chr1] and [chr1:100-200]. *)
Definition two_names (n : list Z) : Z :=
  if bool_decide (n = lit "chr1") then 0
  else if bool_decide (n = lit "chr1:100-200") then 1
  else -1.



(** A gVCF record with a symbolic allele, INFO/END, [SVLEN] and two
    samples that carry FORMAT/LEN. *)
Definition vcf_line : list Z :=
  tabbed "chr1|100|.|A|<DEL>,<*>|.|.|SVLEN=-50,0;END=120|GT:LEN|0/0:5|0/0:70".

(** A resolver that knows the name [chr1] only. *)
Definition one_name (n : list Z) : Z :=
  if bool_decide (n = lit "chr1") then 0 else -1.

(** A stand-in for [hts_parse_decimal] in the examples: the number
    [strtoll] reads in base 10 and the bytes it takes. *)
Definition plain_decimal (l : list Z) (flags : Z) : Z * nat :=
  strtoll_list l 10.

(** A SAM record whose CIGAR spans 15 bases of the reference. *)
Definition sam_line : list Z :=
  tabbed "r1|0|chr1|100|60|10M2I5D|*|0|0|ACGT|IIII".

(** ** [tbx_readrec]

    [bgzf_getline] is defined outside [src/]: the stream is what its
    calls deliver one after the other, the returned value and the line
    left in the string; at the end of the stream it returns [-1] and the
    string is as it was. *)
Definition stream := list (Z * list Z).

(** [do { ret = bgzf_getline(fp, '\n', s); } while (ret >= 0 && s->l &&
    *s->s == tbx->conf.meta_char)]. *)
Fixpoint next_line (meta_char : Z) (fp : stream) (s : list Z)
  : Z * list Z * stream :=
  match fp with
  | [] => (-1, s, [])
  | (ret, l) :: fp' =>
      if (0 <=? ret) && negb (length l =? 0)%nat && (rd l 0 =? meta_char)
      then next_line meta_char fp' l
      else (ret, l, fp')
  end.

(** What [tbx_readrec] hands back: the returned value, [*tid], [*beg]
    and [*end], the string, the rest of the stream, the index and the
    state of the parser. *)
Record readrec := mk_readrec {
  rr_ret : Z;
  rr_tid : Z;
  rr_beg : Z;
  rr_end : Z;
  rr_line : list Z;
  rr_fp : stream;
  rr_tbx : tbx_t;
  rr_reported : bool;
  rr_log : list warning
}.

Section Reader.

Variable svlen_on_ref_for_vcf_alt : list Z -> bool.

(** [tid0], [beg0] and [end0] are what [*tid], [*beg] and [*end] hold on
    entry, [s] is the string. *)
Definition tbx_readrec (fp : stream) (tbx : tbx_t) (s : list Z)
    (tid0 beg0 end0 : Z) (rep : bool) (lg : list warning) : readrec :=
  let '(ret, s, fp) := next_line (meta_char (conf tbx)) fp s in
  if 0 <=? ret then
    let '(r, tid, v, tbx) :=
      get_intv svlen_on_ref_for_vcf_alt tbx (length s) s rep lg 0 false in
    if r <? 0 then
      mk_readrec (-2) tid0 beg0 end0 (line v) fp tbx (reported v) (log v)
    else
      mk_readrec ret tid (beg v) (end_ v) (line v) fp tbx
                 (reported v) (log v)
  else mk_readrec ret tid0 beg0 end0 s fp tbx rep lg.

End Reader.

(** ** [hts_parse_reg64] and [hts_parse_reg] *)

Definition INT_MAX : Z := 2 ^ 31 - 1.

(** The returned pointer (an offset into the string, [None] for
    [NULL]), [*beg] and [*end]. *)
Record reg := mk_reg {
  g_ret : option nat;
  g_beg : Z;
  g_end : Z
}.

Section Reg.

Variable hts_parse_decimal : list Z -> Z -> Z * nat.

(** [strrchr(s, ':')]: the last colon of the string. *)
Definition strrchr_colon (s0 : list Z) : option nat :=
  memrchr_off COLON s0 (strlen s0).

(** [end0] is what [*end] holds on entry. *)
Definition hts_parse_reg64 (s0 : list Z) (end0 : Z) : reg :=
  match strrchr_colon s0 with
  | None => mk_reg (Some (strlen s0)) 0 HTS_POS_MAX
  | Some colon =>
      let '(x, n) :=
        hts_parse_decimal (drop (S colon) s0) HTS_PARSE_THOUSANDS_SEP in
      let hyphen := (S colon + n)%nat in
      let beg := wrap64 (x - 1) in
      let beg := if beg <? 0 then 0 else beg in
      let last (end_ : Z) :=
        if end_ <=? beg then mk_reg None beg end_
        else mk_reg (Some colon) beg end_ in
      if rd s0 hyphen =? 0 then last HTS_POS_MAX
      else if rd s0 hyphen =? 45 then
        last (fst (hts_parse_decimal (drop (S hyphen) s0)
                     HTS_PARSE_THOUSANDS_SEP))
      else mk_reg None beg end0
  end.

(** [beg0] and [end0] are what the [int]s [*beg] and [*end] hold on
    entry; the 64 bit values start as [0]. *)
Definition hts_parse_reg (s0 : list Z) (beg0 end0 : Z) : reg :=
  let r := hts_parse_reg64 s0 0 in
  if INT_MAX <? g_beg r then mk_reg None beg0 end0
  else if INT_MAX <? g_end r then
    if g_end r =? HTS_POS_MAX then
      mk_reg (g_ret r) (wrap32 (g_beg r)) (wrap32 INT_MAX)
    else mk_reg None beg0 end0
  else mk_reg (g_ret r) (wrap32 (g_beg r)) (wrap32 (g_end r)).

End Reg.

(** ** [tbx_seqnames] and [tbx_set_meta]

    Both fill a table of names by [names[kh_val(d, k)] = kh_key(d, k)]
    over the entries of the dictionary.  [conv] is the conversion the
    value goes through before it is the index; [None] is a number that
    is no index of the table. *)
Definition name_slot (conv : Z -> Z)
    (names : option (list (option (list Z)))) (kv : list Z * Z)
  : option (list (option (list Z))) :=
  match names with
  | Some names =>
      let tid := conv (snd kv) in
      if (0 <=? tid) && (tid <? Z.of_nat (length names))
      then Some (<[Z.to_nat tid := Some (fst kv)]> names)
      else None
  | None => None
  end.

(** The table once every entry has been seen, when no slot of it is
    left empty. *)
Definition name_table (conv : Z -> Z) (d : gmap (list Z) Z)
  : option (list (list Z)) :=
  match foldl (name_slot conv) (Some (replicate (size d) None))
              (map_to_list d) with
  | Some slots => mapM (M := option) (fun x : option (list Z) => x) slots
  | None => None
  end.

(** [tbx_seqnames]: [*n] and the names.  [None] is a failed [assert],
    or the write before the table that [assert(tid < m)] lets a negative
    [tid] through to. *)
Definition tbx_seqnames (tbx : tbx_t) : option (Z * list (list Z)) :=
  match dict tbx with
  | None => Some (0, [])
  | Some d =>
      match name_table wrap32 d with
      | Some names => Some (Z.of_nat (size d), names)
      | None => None
      end
  end.

(** The four bytes of a 32 bit word, the lowest first. *)
Definition u32_bytes (z : Z) : list Z :=
  let u := z mod 2 ^ 32 in
  [u mod 2 ^ 8; (u / 2 ^ 8) mod 2 ^ 8; (u / 2 ^ 16) mod 2 ^ 8; u / 2 ^ 24].

(** The names one after the other, each with its NUL. *)
Definition names_bytes (names : list (list Z)) : list Z :=
  concat ((fun n : list Z => cstr n ++ [0]) <$> names).

(** [tbx_set_meta]: the bytes handed to [hts_idx_set_meta], which are
    the six words of the configuration, the length of the names block,
    and the names in the order of their numbers, each with its NUL.
    [None] where the C code is undefined: no dictionary, or a table of
    names with a slot that no entry fills. *)
Definition tbx_set_meta (tbx : tbx_t) : option (list Z) :=
  match dict tbx with
  | Some d =>
      match name_table (fun z => z) d with
      | Some names =>
          let block := names_bytes names in
          let cf := conf tbx in
          Some (u32_bytes (preset cf) ++ u32_bytes (sc cf)
                ++ u32_bytes (bc cf) ++ u32_bytes (ec cf)
                ++ u32_bytes (meta_char cf) ++ u32_bytes (line_skip cf)
                ++ u32_bytes (wrap32 (Z.of_nat (length block)))
                ++ block)
      | None => None
      end
  | None => None
  end.

(** ** [tbx_index]

    The two "minimal effort" readers of a reference length in a header
    line. *)

(** [for (ptr += 6; *ptr == ' ' || *ptr == '='; ptr++) {}] *)
Fixpoint skip_eq (l : list Z) : nat :=
  match l with
  | c :: l' => if (c =? 32) || (c =? 61) then S (skip_eq l') else O
  | [] => O
  end.

Definition adjust_max_ref_len_vcf (str : list Z) (max_ref_len : Z) : Z :=
  if starts_with (lit "##contig") str then
    match strstr str 8 (lit "length") with
    | Some p =>
        let q := (p + 6 + skip_eq (drop (p + 6) str))%nat in
        let len := fst (strtoll str q 10) in
        if max_ref_len <? len then len else max_ref_len
    | None => max_ref_len
    end
  else max_ref_len.

Definition adjust_max_ref_len_sam (str : list Z) (max_ref_len : Z) : Z :=
  if starts_with (lit "@SQ") str then
    match strstr str 3 (TAB :: lit "LN:") with
    | Some p =>
        let len := fst (strtoll str (p + 4) 10) in
        if max_ref_len <? len then len else max_ref_len
    | None => max_ref_len
    end
  else max_ref_len.

(** The state of the loop of [tbx_index]: the index under construction
    ([i_idx] is what [hts_idx_init] was called with, once it has been
    called, and [i_records] what was handed to [hts_idx_push]), and the
    latch and the log of the parser. *)
Record index_state := mk_ist {
  i_tbx : tbx_t;
  i_idx : option (idx_fmt * Z * Z);
  i_lineno : Z;
  i_max_ref_len : Z;
  i_records : list (Z * Z * Z);
  i_rep : bool;
  i_log : list warning
}.

(** How a call ends: it does not return ([adjust_n_lvls] loops), it
    returns [NULL], or it returns the index. *)
Inductive outcome (A : Type) :=
  | Loops
  | Null
  | Built (a : A).
Arguments Loops {A}.
Arguments Null {A}.
Arguments Built {A} a.

(** What [tbx_index] returns: the dictionary, the arguments of
    [hts_idx_init], the records pushed, and the header handed to
    [hts_idx_set_meta] ([None] where [tbx_set_meta] is undefined). *)
Record built := mk_built {
  bt_tbx : tbx_t;
  bt_idx : idx_fmt * Z * Z;
  bt_records : list (Z * Z * Z);
  bt_meta : option (list Z);
  bt_reported : bool;
  bt_log : list warning
}.

Section Indexer.

Variable svlen_on_ref_for_vcf_alt : list Z -> bool.

(** [hts_idx_push] is defined outside [src/]: whether it accepts a
    record, given the records it accepted before. *)
Variable hts_idx_push : list (Z * Z * Z) -> Z * Z * Z -> bool.

(** [while ((ret = bgzf_getline(fp, '\n', &str)) >= 0) { ... }]: the
    state when the loop is left and the last value of [ret], or the
    [goto fail].  [fuel] is the fuel of [adjust_n_lvls]. *)
Fixpoint index_loop (fuel : nat) (fmt : idx_fmt) (min_shift : Z)
    (fp : stream) (st : index_state) : outcome (index_state * Z) :=
  match fp with
  | [] => Built (st, -1)
  | (ret, l) :: fp' =>
      if ret <? 0 then Built (st, ret)
      else
        let cf := conf (i_tbx st) in
        let lineno := wrap64 (i_lineno st + 1) in
        let is_meta := rd l 0 =? meta_char cf in
        let mrl :=
          if is_meta && (if fmt is HTS_FMT_CSI then true else false) then
            if preset cf =? TBX_SAM
            then adjust_max_ref_len_sam l (i_max_ref_len st)
            else if preset cf =? TBX_VCF
            then adjust_max_ref_len_vcf l (i_max_ref_len st)
            else i_max_ref_len st
          else i_max_ref_len st in
        if (lineno <=? line_skip cf) || is_meta then
          index_loop fuel fmt min_shift fp'
            (mk_ist (i_tbx st) (i_idx st) lineno mrl (i_records st)
                    (i_rep st) (i_log st))
        else
          let idx :=
            match i_idx st with
            | Some x => Some x
            | None =>
                match fmt with
                | HTS_FMT_CSI => tbx_index_levels fuel min_shift mrl
                | HTS_FMT_TBI => Some (HTS_FMT_TBI, min_shift, 5)
                end
            end in
          match idx with
          | None => Loops
          | Some x =>
              let '(r, tid, v, tbx) :=
                get_intv svlen_on_ref_for_vcf_alt (i_tbx st) (length l) l
                         (i_rep st) (i_log st) 0 true in
              if r <? 0 then Null
              else
                let rec := (tid, beg v, end_ v) in
                if hts_idx_push (i_records st) rec then
                  index_loop fuel fmt min_shift fp'
                    (mk_ist tbx (Some x) lineno mrl (i_records st ++ [rec])
                            (reported v) (log v))
                else Null
          end
  end.

(** [tbx_index(fp, min_shift, conf)], called when the latch is [rep]
    and the log is [lg].  [hts_idx_init] and [hts_idx_finish], which are
    defined outside [src/], are taken to succeed. *)
Definition tbx_index (fuel : nat) (fp : stream) (min_shift : Z)
    (cf : tbx_conf_t) (rep : bool) (lg : list warning) : outcome built :=
  let '(fmt, min_shift, n_lvls) :=
    if 0 <? min_shift
    then (HTS_FMT_CSI, min_shift, Z.quot (TBX_MAX_SHIFT - min_shift + 2) 3)
    else (HTS_FMT_TBI, 14, 5) in
  match index_loop fuel fmt min_shift fp
          (mk_ist (mk_tbx cf None) None 0 0 [] rep lg) with
  | Loops => Loops
  | Null => Null
  | Built (st, ret) =>
      if ret <? -1 then Null
      else
        (* empty file: the index is initialised here *)
        let idx := default (fmt, min_shift, n_lvls) (i_idx st) in
        let tbx :=
          mk_tbx (conf (i_tbx st)) (Some (default ∅ (dict (i_tbx st)))) in
        Built (mk_built tbx idx (i_records st) (tbx_set_meta tbx)
                        (i_rep st) (i_log st))
  end.

End Indexer.

(** ** The reference length of a CIGAR

    The operations of the text one after the other: a number, read in
    base 10, and the byte after it; the lengths of [M], [D] and [N]
    (in either case) are added up in an [int]. *)
Fixpoint cigar_list (fuel : nat) (col : list Z) (l : Z) : Z :=
  match fuel with
  | O => l
  | S fuel' =>
      match col with
      | [] => l
      | _ :: _ =>
          let '(x, n) := strtoll_list col 10 in
          let op := toupper_c (default 0 (col !! n)) in
          let l' :=
            if (op =? 77) || (op =? 68) || (op =? 78) then wrap32 (l + x)
            else l in
          cigar_list fuel' (drop (S n) col) l'
      end
  end.

Definition cigar_ref_len (col : list Z) : Z :=
  cigar_list (length col) col 0.

(** ** The lines of a stream

    The lines read before the first read that fails. *)
Fixpoint read_lines (fp : stream) : list (list Z) :=
  match fp with
  | [] => []
  | (ret, l) :: fp' => if ret <? 0 then [] else l :: read_lines fp'
  end.

(** The data lines among [lines], which follow line [lineno]: those that
    come after the first [line_skip] lines of the file and do not start
    with the meta character.  Lines are counted as the code counts
    them, in an [int64_t]. *)
Fixpoint data_lines (cf : tbx_conf_t) (lineno : Z) (lines : list (list Z))
  : list (list Z) :=
  match lines with
  | [] => []
  | l :: lines' =>
      let lineno := wrap64 (lineno + 1) in
      if (lineno <=? line_skip cf) || (rd l 0 =? meta_char cf)
      then data_lines cf lineno lines'
      else l :: data_lines cf lineno lines'
  end.

(** The sequence names of lines: their column [sc]. *)
Definition line_names (cf : tbx_conf_t) (lines : list (list Z))
  : list (list Z) :=
  (fun l => column l (Z.to_nat (sc cf))) <$> lines.

(** The lines that come before the first data line: the skipped lines
    and the lines that start with the meta character. *)
Fixpoint header_lines (cf : tbx_conf_t) (lineno : Z) (lines : list (list Z))
  : list (list Z) :=
  match lines with
  | [] => []
  | l :: lines' =>
      let lineno := wrap64 (lineno + 1) in
      if (lineno <=? line_skip cf) || (rd l 0 =? meta_char cf)
      then l :: header_lines cf lineno lines'
      else []
  end.

(** The longest reference length seen so far, after the line [l]: only
    a line that starts with the meta character is looked at, and only
    under the presets [TBX_SAM] and [TBX_VCF]. *)
Definition header_ref_len (cf : tbx_conf_t) (m : Z) (l : list Z) : Z :=
  if rd l 0 =? meta_char cf then
    if preset cf =? TBX_SAM then adjust_max_ref_len_sam l m
    else if preset cf =? TBX_VCF then adjust_max_ref_len_vcf l m
    else m
  else m.

(** What the read that ends the loop of [tbx_index] returned ([-1] at
    the end of the file). *)
Fixpoint read_end (fp : stream) : Z :=
  match fp with
  | [] => -1
  | (ret, _) :: fp' => if ret <? 0 then ret else read_end fp'
  end.

(** ** Header lines

    The number that a text of decimal digits writes. *)
Definition decimal (ds : list Z) : Z :=
  foldl (fun acc c => acc * 10 + (c - 48)) 0 ds.

(** [s] does not occur in [l] at an offset below [k]. *)
Definition absent_before (s l : list Z) (k : nat) : Prop :=
  forall j r, (j < k)%nat -> drop j l <> s ++ r.

(** ** More concrete inputs *)

(** What [bgzf_getline] delivers for a small VCF file: a contig line,
    the column header and three records, then the end of the file. *)
Definition vcf_file : stream :=
  [ (30, lit "##contig=<ID=chr1,length=1000>");
    (6, lit "#CHROM");
    (20, tabbed "chr1|100|.|A|T|.|.|.");
    (18, tabbed "chr2|5|.|G|C|.|.|.");
    (20, tabbed "chr1|300|.|A|T|.|.|.");
    (-1, []) ].

(** An index that accepts every record. *)
Definition accept_all (recs : list (Z * Z * Z)) (r : Z * Z * Z) : bool := true.

(** An index header as [hts_idx_get_meta] delivers it: the six words of
    the configuration [cf], the length of the names block, and the
    names one after the other, each with its NUL. *)
Definition meta_with_names (cf : tbx_conf_t) (names : list (list Z))
  : list Z :=
  u32_bytes (preset cf) ++ u32_bytes (sc cf) ++ u32_bytes (bc cf)
  ++ u32_bytes (ec cf) ++ u32_bytes (meta_char cf)
  ++ u32_bytes (line_skip cf)
  ++ u32_bytes (Z.of_nat (length (names_bytes names)))
  ++ names_bytes names.

(** A VCF line with 65536 alleles in the ALT column: 65535 times [A],
    then [<DEL>].  It is read with column 4 as the name column. *)
Definition many_alts : list Z :=
  tabbed "x|100|.|chr1|"
  ++ concat (replicate (Z.to_nat 65535) (lit "A,")) ++ lit "<DEL>".
(** * Properties *)

(** ** Machine integers and buffers *)

Lemma wrap64_id z : LLONG_MIN <= z <= LLONG_MAX -> wrap64 z = z.
Proof.
  unfold wrap64, LLONG_MIN, LLONG_MAX. intros H.
  rewrite Z.mod_small by lia. lia.
Qed.

Lemma wrap32_id z : - 2 ^ 31 <= z < 2 ^ 31 -> wrap32 z = z.
Proof.
  unfold wrap32. intros H. rewrite Z.mod_small by lia. lia.
Qed.

Lemma wrap64_range z : LLONG_MIN <= wrap64 z <= LLONG_MAX.
Proof.
  unfold wrap64, LLONG_MIN, LLONG_MAX.
  pose proof (Z.mod_pos_bound (z + 2 ^ 63) (2 ^ 64) ltac:(lia)). lia.
Qed.

Lemma clamp64_range z : LLONG_MIN <= clamp64 z <= LLONG_MAX.
Proof. unfold clamp64, LLONG_MIN, LLONG_MAX. lia. Qed.

Lemma rd_wr_eq buf p c : (p < length buf)%nat -> rd (wr buf p c) p = c.
Proof.
  intros H. unfold rd, wr. by rewrite list_lookup_insert_eq.
Qed.

Lemma rd_wr_ne buf p q c : p <> q -> rd (wr buf p c) q = rd buf q.
Proof.
  intros H. unfold rd, wr. by rewrite list_lookup_insert_ne.
Qed.

Lemma rd_ge buf p : (length buf <= p)%nat -> rd buf p = 0.
Proof. intros H. unfold rd. by rewrite lookup_ge_None_2. Qed.

Lemma length_wr buf p c : length (wr buf p c) = length buf.
Proof. apply length_insert. Qed.

(** Writing back the byte that was read undoes a write. *)
Lemma wr_restore buf p c : wr (wr buf p c) p (rd buf p) = buf.
Proof.
  unfold wr, rd. rewrite list_insert_insert_eq.
  destruct (buf !! p) as [x|] eqn:E; simpl.
  - by apply list_insert_id.
  - apply list_insert_ge. by apply lookup_ge_None.
Qed.

(** Writing the byte that is already there changes nothing. *)
Lemma wr_same buf p : wr buf p (rd buf p) = buf.
Proof.
  unfold wr, rd. destruct (buf !! p) as [x|] eqn:E; simpl.
  - by apply list_insert_id.
  - apply list_insert_ge. by apply lookup_ge_None.
Qed.

(** ** [adjust_n_lvls] *)





Lemma max_pos_mono min_shift n m :
  0 <= min_shift -> 0 <= n <= m -> max_pos min_shift n <= max_pos min_shift m.
Proof. intros. unfold max_pos. apply Z.pow_le_mono_r; lia. Qed.




(** ** The reference dictionary *)

Lemma index_of_app_l x l1 l2 k :
  index_of x l1 = Some k -> index_of x (l1 ++ l2) = Some k.
Proof.
  revert k. induction l1 as [|y l1 IH]; intros k; simpl; [done|].
  case_decide; [done|].
  destruct (index_of x l1) as [j|]; simpl; [|done].
  intros [= <-]. by rewrite (IH j).
Qed.

Lemma index_of_None x l : index_of x l = None <-> x ∉ l.
Proof.
  induction l as [|y l IH]; simpl.
  - split; [intros _; apply not_elem_of_nil|done].
  - case_decide as E.
    + subst. split; [done|]. intros H. exfalso. apply H. left.
    + rewrite not_elem_of_cons. destruct (index_of x l); simpl.
      * split; [done|]. intros [_ H]. by apply IH in H.
      * split; [|done]. intros _. split; [done|]. by apply IH.
Qed.

Lemma index_of_snoc x l : x ∉ l -> index_of x (l ++ [x]) = Some (length l).
Proof.
  induction l as [|y l IH]; simpl; intros H.
  - by rewrite decide_True.
  - apply not_elem_of_cons in H as [H1 H2].
    rewrite decide_False by done. by rewrite IH.
Qed.

Lemma index_of_snoc_ne x y l :
  x <> y -> index_of x (l ++ [y]) = index_of x l.
Proof.
  intros H. induction l as [|z l IH]; simpl.
  - by rewrite decide_False.
  - case_decide; [done|]. by rewrite IH.
Qed.

Lemma index_of_lookup x l k : index_of x l = Some k -> l !! k = Some x.
Proof.
  revert k. induction l as [|y l IH]; intros k; simpl; [done|].
  case_decide as E; [intros [= <-]; by subst|].
  destruct (index_of x l) as [j|]; simpl; [|done].
  intros [= <-]. by apply IH.
Qed.

Lemma lookup_index_of x l k :
  NoDup l -> l !! k = Some x -> index_of x l = Some k.
Proof.
  intros Hnd. revert k. induction Hnd as [|y l Hy Hnd IH]; intros k; [done|].
  destruct k as [|k]; simpl.
  - intros [= ->]. by rewrite decide_True.
  - intros Hk. rewrite decide_False.
    + by rewrite (IH k).
    + intros ->. apply Hy. by eapply list_elem_of_lookup_2.
Qed.

(** The dictionary [d] numbers the names of [ds] by their position. *)
Definition numbers (d : gmap (list Z) Z) (ds : list (list Z)) : Prop :=
  NoDup ds /\ size d = length ds
  /\ forall x, d !! x = Z.of_nat <$> index_of x ds.

Lemma numbers_empty : numbers ∅ [].
Proof. split; [constructor|]. split; [done|]. intros x. by rewrite lookup_empty. Qed.

Lemma get_tid_add cf d ds x :
  fmt_tag cf <> TBX_GAF ->
  numbers (default ∅ d) ds ->
  let ds' := if decide (x ∈ ds) then ds else ds ++ [x] in
  exists d',
    get_tid (mk_tbx cf d) x true
    = (default (-1) (Z.of_nat <$> index_of x ds'), mk_tbx cf (Some d'))
    /\ numbers d' ds'.
Proof.
  intros Hgaf (Hnd & Hsz & Hd). unfold get_tid. simpl.
  rewrite (proj2 (Z.eqb_neq _ _) Hgaf). rewrite Hd.
  destruct (index_of x ds) as [k|] eqn:E; simpl.
  - assert (x ∈ ds) by (apply index_of_lookup in E; by eapply list_elem_of_lookup_2).
    rewrite decide_True by done. rewrite E. simpl.
    exists (default ∅ d). split; [done|]. by repeat split.
  - assert (Hx : x ∉ ds) by by apply index_of_None.
    rewrite decide_False by done.
    rewrite index_of_snoc by done. simpl.
    assert (Hnone : default ∅ d !! x = None) by (rewrite Hd, E; done).
    rewrite map_size_insert_None, Hsz by done.
    replace (Z.of_nat (S (length ds)) - 1) with (Z.of_nat (length ds)) by lia.
    eexists. split; [done|]. split; [|split].
    + apply NoDup_app. repeat split; [done| |apply NoDup_singleton].
      intros y Hy Hin. apply list_elem_of_singleton in Hin. by subst.
    + rewrite map_size_insert_None by done. rewrite length_app. simpl. lia.
    + intros y. destruct (decide (y = x)) as [->|Hne].
      * rewrite lookup_insert_eq. by rewrite index_of_snoc.
      * rewrite lookup_insert_ne by done. by rewrite index_of_snoc_ne, Hd.
Qed.

Lemma get_tid_lookup cf d ds x :
  fmt_tag cf <> TBX_GAF ->
  numbers (default ∅ d) ds ->
  fst (tbx_name2id (mk_tbx cf d) x) = default (-1) (Z.of_nat <$> index_of x ds).
Proof.
  intros Hgaf (_ & _ & Hd). unfold tbx_name2id, get_tid. simpl.
  rewrite (proj2 (Z.eqb_neq _ _) Hgaf). simpl. by rewrite Hd.
Qed.

Lemma distinct_from_index ds l x k :
  index_of x ds = Some k -> index_of x (distinct_from ds l) = Some k.
Proof.
  revert ds. induction l as [|y l IH]; intros ds H; simpl; [done|].
  apply IH. case_decide; [done|]. by apply index_of_app_l.
Qed.

(** Adding [names] to a dictionary that numbers [ds]: every call returns
    the position of its name among the distinct names, and the final
    dictionary numbers all of them. *)
Lemma add_names_numbers cf names : forall d ds,
  fmt_tag cf <> TBX_GAF ->
  numbers (default ∅ d) ds ->
  exists d',
    snd (add_names (mk_tbx cf d) names) = mk_tbx cf d'
    /\ numbers (default ∅ d') (distinct_from ds names)
    /\ forall i x, names !! i = Some x ->
         exists k, index_of x (distinct_from ds names) = Some k
                   /\ fst (add_names (mk_tbx cf d) names) !! i
                      = Some (Z.of_nat k).
Proof.
  induction names as [|y names IH]; intros d ds Hgaf Hnum.
  - exists d. simpl. split; [done|]. split; [done|]. by intros i x Hi.
  - destruct (get_tid_add cf d ds y Hgaf Hnum) as (d1 & Hget & Hnum1).
    simpl in Hget. simpl. rewrite Hget.
    destruct (IH (Some d1) _ Hgaf Hnum1) as (d' & Hsnd & Hnum' & Hall).
    destruct (add_names (mk_tbx cf (Some d1)) names) as [vs t] eqn:E.
    simpl in *. exists d'. repeat split; try done; try apply Hnum'.
    intros [|i] x; simpl.
    + intros [= ->].
      assert (Hin : exists k, index_of x
                (if decide (x ∈ ds) then ds else ds ++ [x]) = Some k).
      { case_decide as Hx.
        - destruct (index_of x ds) as [k|] eqn:Ek; [by exists k|].
          by apply index_of_None in Ek.
        - exists (length ds). by apply index_of_snoc. }
      destruct Hin as (k & Hk). exists k.
      split; [by apply distinct_from_index|]. by rewrite Hk.
    + intros Hi. by apply Hall.
Qed.

Lemma distinct_NoDup l : NoDup l -> distinct l = l.
Proof.
  unfold distinct. intros H.
  enough (G : forall ds, NoDup (ds ++ l) -> distinct_from ds l = ds ++ l).
  { apply (G []). done. }
  clear H. induction l as [|x l IH]; intros ds H; simpl.
  - by rewrite app_nil_r.
  - apply NoDup_app in H as H'. destruct H' as (_ & Hd & _).
    rewrite decide_False.
    + rewrite IH; rewrite <- app_assoc; done.
    + intros Hx. apply (Hd x Hx). left.
Qed.

Lemma load_names_add_names fuel : forall tbx nm p l_nm,
  load_names fuel tbx nm p l_nm
  = snd (add_names tbx (block_names fuel nm p l_nm)).
Proof.
  induction fuel as [|fuel IH]; intros tbx nm p l_nm; simpl; [done|].
  destruct (p <? l_nm)%nat; [|done]. simpl.
  destruct (get_tid tbx (cstr_at nm p) true) as [v t] eqn:E. simpl.
  rewrite IH. by destruct (add_names t _).
Qed.

(** The fuel [index_load] gives the walk over the names block is
    enough: more fuel visits the same names. *)
Lemma block_names_fuel f1 : forall f2 nm p l_nm,
  (l_nm - p <= f1)%nat -> (l_nm - p <= f2)%nat ->
  block_names f1 nm p l_nm = block_names f2 nm p l_nm.
Proof.
  induction f1 as [|f1 IH]; intros f2 nm p l_nm H1 H2.
  - destruct f2 as [|f2]; [done|]. simpl.
    by rewrite (proj2 (Nat.ltb_ge _ _)) by lia.
  - simpl. destruct (p <? l_nm)%nat eqn:E.
    + apply Nat.ltb_lt in E. destruct f2 as [|f2]; [lia|]. simpl.
      rewrite (proj2 (Nat.ltb_lt _ _)) by lia. f_equal. apply IH; lia.
    + destruct f2 as [|f2]; [done|]. simpl. by rewrite E.
Qed.

Lemma add_names_conf names : forall tbx, conf (snd (add_names tbx names)) = conf tbx.
Proof.
  induction names as [|x names IH]; intros tbx; simpl; [done|].
  destruct (get_tid tbx x true) as [v t] eqn:E.
  specialize (IH t). destruct (add_names t names) as [vs t']. simpl in *.
  rewrite IH. unfold get_tid in E.
  destruct (fmt_tag (conf tbx) =? TBX_GAF); [by inversion E|].
  destruct (default ∅ (dict tbx) !! x); by inversion E.
Qed.

(** C5, as the code has it.  Adding names one after the other to a
    fresh dictionary (any preset but GAF) returns, for every name, its
    position among the distinct names in order of first occurrence, and
    a later [tbx_name2id] returns the same number.  [index_load] accepts
    every header of at least 28 bytes whose names block fits, and no
    other, and interns the names of the block in block order: a name's
    tid is its position among the distinct names of the block, which is
    its position in the block when no name is repeated.  Under the GAF
    preset [get_tid] returns [0] for every name and leaves the
    dictionary alone. *)
Theorem dict_tid_insertion_order :
  (forall cf names, fmt_tag cf <> TBX_GAF ->
     forall i x, names !! i = Some x ->
       exists k : nat,
         distinct names !! k = Some x
         /\ fst (add_names (mk_tbx cf None) names) !! i = Some (Z.of_nat k)
         /\ fst (tbx_name2id (snd (add_names (mk_tbx cf None) names)) x)
            = Z.of_nat k)
  /\
  (forall meta,
     28 <= Z.of_nat (length meta) ->
     le_to_u32 meta 24 <= Z.of_nat (length meta) - 28 ->
     exists tbx,
       index_load meta = Some tbx
       /\ (fmt_tag (conf tbx) <> TBX_GAF ->
           (forall k x, distinct (names_block meta) !! k = Some x ->
              fst (tbx_name2id tbx x) = Z.of_nat k)
           /\ (NoDup (names_block meta) ->
               forall k x, names_block meta !! k = Some x ->
                 fst (tbx_name2id tbx x) = Z.of_nat k)))
  /\
  (forall meta,
     Z.of_nat (length meta) < 28
     \/ Z.of_nat (length meta) - 28 < le_to_u32 meta 24 ->
     index_load meta = None)
  /\
  (forall tbx x is_add, fmt_tag (conf tbx) = TBX_GAF ->
     get_tid tbx x is_add = (0, tbx)).
Proof.
  split.
  { intros cf names Hgaf i x Hi.
    destruct (add_names_numbers cf names None [] Hgaf numbers_empty)
      as (d' & Hsnd & Hnum & Hall).
    destruct (Hall i x Hi) as (k & Hk & Hret).
    exists k. fold (distinct names) in *. split; [by apply index_of_lookup|].
    split; [done|]. rewrite Hsnd.
    rewrite (get_tid_lookup cf d' (distinct names)) by done. by rewrite Hk. }
  split.
  { intros meta H28 Hnm. unfold index_load.
    destruct (Z.ltb_spec (Z.of_nat (length meta)) 28); [lia|].
    destruct (Z.ltb_spec (Z.of_nat (length meta) - 28) (le_to_u32 meta 24));
      [lia|].
    eexists. split; [done|].
    rewrite load_names_add_names. fold (names_block meta).
    set (cf := mk_conf _ _ _ _ _ _).
    rewrite add_names_conf. cbn [conf]. intros Hgaf.
    destruct (add_names_numbers cf (names_block meta) None [] Hgaf
                numbers_empty) as (d' & Hsnd & Hnum & _).
    fold (distinct (names_block meta)) in Hnum. rewrite Hsnd.
    assert (G : forall k x, distinct (names_block meta) !! k = Some x ->
              fst (tbx_name2id (mk_tbx cf d') x) = Z.of_nat k).
    { intros k x Hk.
      rewrite (get_tid_lookup cf d' (distinct (names_block meta))) by done.
      rewrite (lookup_index_of x _ k); [done|apply Hnum|done]. }
    split; [exact G|].
    intros Hnd k x Hk. apply G. by rewrite distinct_NoDup. }
  split.
  { intros meta H. unfold index_load.
    destruct (Z.ltb_spec (Z.of_nat (length meta)) 28); [done|].
    destruct (Z.ltb_spec (Z.of_nat (length meta) - 28) (le_to_u32 meta 24));
      [done|lia]. }
  intros tbx x is_add Hgaf. unfold get_tid. by rewrite Hgaf.
Qed.

Lemma dict_tid_insertion_order_witness :
  (fmt_tag tbx_conf_vcf <> TBX_GAF
   /\ exists k : nat,
        distinct [lit "chr1"; lit "chr2"; lit "chr1"] !! k = Some (lit "chr2")
        /\ fst (add_names (mk_tbx tbx_conf_vcf None)
                  [lit "chr1"; lit "chr2"; lit "chr1"]) !! 1%nat
           = Some (Z.of_nat k)
        /\ fst (tbx_name2id
                  (snd (add_names (mk_tbx tbx_conf_vcf None)
                          [lit "chr1"; lit "chr2"; lit "chr1"]))
                  (lit "chr2")) = Z.of_nat k)
  /\ (exists tbx,
        index_load (meta_with_names tbx_conf_vcf [lit "chr1"; lit "chr2"])
        = Some tbx
        /\ fst (tbx_name2id tbx (lit "chr2")) = 1).
Proof.
  split.
  - split.
    + vm_compute. discriminate.
    + apply (proj1 dict_tid_insertion_order tbx_conf_vcf
               [lit "chr1"; lit "chr2"; lit "chr1"]).
      * vm_compute. discriminate.
      * reflexivity.
  - destruct (proj1 (proj2 dict_tid_insertion_order)
                (meta_with_names tbx_conf_vcf [lit "chr1"; lit "chr2"]))
      as (tbx & Hload & Hnames).
    + vm_compute. discriminate.
    + vm_compute. discriminate.
    + exists tbx. split; [exact Hload|].
      assert (Hc : conf tbx = tbx_conf_vcf).
      { vm_compute in Hload. injection Hload as <-. reflexivity. }
      destruct Hnames as [Hk _].
      * rewrite Hc. vm_compute. discriminate.
      * apply (Hk 1%nat (lit "chr2")). reflexivity.
Defined.

(** C5 as stated fails for a names block that repeats a name: in the
    block [a], [a], [b] the name [b] stands at position [2] and receives
    tid [1]. *)
Lemma names_block_repeated :
  names_block (meta_with_names tbx_conf_vcf [lit "a"; lit "a"; lit "b"])
    !! 2%nat = Some (lit "b")
  /\ match index_load
             (meta_with_names tbx_conf_vcf [lit "a"; lit "a"; lit "b"]) with
     | Some tbx => fst (tbx_name2id tbx (lit "b")) = 1
     | None => False
     end.
Proof. vm_compute. by split. Qed.


(** ** [hts_parse_region] *)

Lemma take_strlen l : take (strlen l) l = cstr l.
Proof.
  unfold strlen. induction l as [|c l IH]; simpl; [done|].
  destruct (c =? 0); simpl; [done|]. by rewrite IH.
Qed.

Lemma find_char_comma_Some l k :
  find_char COMMA l = Some k -> take k l = before_comma (cstr l).
Proof.
  revert k. induction l as [|c l IH]; intros k; simpl; [done|].
  destruct (c =? 0) eqn:E0; [done|]. simpl.
  destruct (c =? COMMA) eqn:Ec.
  - by intros [= <-].
  - destruct (find_char COMMA l) as [j|]; simpl; [|done].
    intros [= <-]. simpl. by rewrite (IH j).
Qed.

Lemma find_char_comma_None l :
  find_char COMMA l = None -> before_comma (cstr l) = cstr l.
Proof.
  induction l as [|c l IH]; simpl; [done|].
  destruct (c =? 0) eqn:E0; [done|]. simpl.
  destruct (c =? COMMA) eqn:Ec; [done|].
  destruct (find_char COMMA l) as [j|]; simpl; [done|].
  intros _. by rewrite IH.
Qed.

Lemma find_char_comma_le l k :
  find_char COMMA l = Some k -> (k <= strlen l)%nat.
Proof.
  unfold strlen. revert k. induction l as [|c l IH]; intros k; simpl; [done|].
  destruct (c =? 0) eqn:E0; [done|]. simpl.
  destruct (c =? COMMA) eqn:Ec.
  - intros [= <-]. lia.
  - destruct (find_char COMMA l) as [j|]; simpl; [|done].
    intros [= <-]. specialize (IH j eq_refl). lia.
Qed.

Lemma memrchr_off_take c n : forall l,
  memrchr_off c l n = memrchr_off c (take n l) n.
Proof.
  induction n as [|n IH]; intros l; simpl; [done|].
  destruct l as [|x l]; simpl; [done|]. by rewrite <- IH.
Qed.

Lemma memrchr_off_absent c q :
  c ∉ q -> memrchr_off c q (length q) = None.
Proof.
  induction q as [|x q IH]; simpl; [done|].
  intros H. apply not_elem_of_cons in H as [H1 H2].
  rewrite IH by done. destruct (x =? c) eqn:E; [|done].
  apply Z.eqb_eq in E. congruence.
Qed.

Lemma memrchr_off_last c p q :
  c ∉ q -> memrchr_off c (p ++ c :: q) (length (p ++ c :: q)) = Some (length p).
Proof.
  intros H. induction p as [|x p IH]; simpl.
  - rewrite memrchr_off_absent by done. by rewrite Z.eqb_refl.
  - by rewrite IH.
Qed.

Lemma has_flag_list_clear flags :
  has_flag (Z.land flags (Z.lnot HTS_PARSE_THOUSANDS_SEP)) HTS_PARSE_LIST
  = has_flag flags HTS_PARSE_LIST.
Proof.
  unfold has_flag. by rewrite <- Z.land_assoc.
Qed.

Lemma has_flag_list_set flags :
  has_flag (Z.lor flags HTS_PARSE_THOUSANDS_SEP) HTS_PARSE_LIST
  = has_flag flags HTS_PARSE_LIST.
Proof.
  unfold has_flag. rewrite Z.land_lor_distr_l.
  change (Z.land HTS_PARSE_THOUSANDS_SEP HTS_PARSE_LIST) with 0.
  by rewrite Z.lor_0_r.
Qed.

Section RegionProps.

Variable getid : list Z -> Z.
Variable hts_parse_decimal : list Z -> Z -> Z * nat.

(** C2: an unbraced region string whose first region [p ++ ":" ++ q]
    holds a colon ([q] being the part after its last colon) and
    resolves as a whole: when the prefix [p] before the last colon
    resolves too the parse fails, with [*tid = -1]; when it does not,
    the whole region is the name, with [beg = 0] and
    [end = HTS_POS_MAX]. *)
Theorem parse_region_whole_name (s0 : list Z) (beg0 end0 flags : Z)
    (p q : list Z) :
  rd s0 0 <> LBRACE ->
  first_region flags s0 = p ++ COLON :: q ->
  COLON ∉ q ->
  0 <= getid (p ++ COLON :: q) ->
  let r := hts_parse_region getid hts_parse_decimal s0 beg0 end0 flags in
  (0 <= getid p -> r_ret r = None /\ r_tid r = -1)
  /\ (getid p < 0 ->
      is_Some (r_ret r) /\ r_tid r = getid (p ++ COLON :: q)
      /\ r_beg r = 0 /\ r_end r = HTS_POS_MAX).
Proof.
  intros Hbrace Hfirst Hq Hwhole. unfold hts_parse_region.
  rewrite (proj2 (Z.eqb_neq _ _) Hbrace).
  set (flags' := if has_flag flags HTS_PARSE_LIST then _ else _).
  assert (Hl : has_flag flags' HTS_PARSE_LIST = has_flag flags HTS_PARSE_LIST).
  { unfold flags'. destruct (has_flag flags HTS_PARSE_LIST) eqn:E.
    - by rewrite has_flag_list_clear.
    - by rewrite has_flag_list_set. }
  rewrite Hl.
  set (le := if has_flag flags HTS_PARSE_LIST then _ else _).
  assert (Hspan : span s0 0 (fst le) = p ++ COLON :: q
                  /\ (fst le <= length s0)%nat).
  { unfold le, span, first_region, strchr in *. rewrite drop_0.
    destruct (has_flag flags HTS_PARSE_LIST).
    - destruct (find_char COMMA s0) as [k|] eqn:Ek; simpl.
      + rewrite Nat.sub_0_r. rewrite (find_char_comma_Some _ _ Ek).
        split; [done|]. apply find_char_comma_le in Ek.
        pose proof (f_equal length (take_strlen s0)) as Hlen.
        rewrite length_take in Hlen. unfold strlen in *. lia.
      + rewrite take_strlen. rewrite find_char_comma_None in Hfirst by done.
        split; [done|].
        pose proof (f_equal length (take_strlen s0)) as Hlen.
        rewrite length_take in Hlen. unfold strlen in *. lia.
    - simpl. rewrite take_strlen. split; [done|].
      pose proof (f_equal length (take_strlen s0)) as Hlen.
      rewrite length_take in Hlen. unfold strlen in *. lia. }
  destruct le as [s_len s_end]. simpl in Hspan. destruct Hspan as [Hspan Hle].
  assert (Hn : s_len = length (p ++ COLON :: q)).
  { rewrite <- Hspan. unfold span. rewrite drop_0, length_take. lia. }
  assert (Hcolon : memrchr_off COLON s0 s_len = Some (length p)).
  { rewrite memrchr_off_take. unfold span in Hspan. rewrite drop_0 in Hspan.
    rewrite Hspan, Hn. by apply memrchr_off_last. }
  rewrite Hcolon, Hspan.
  assert (Hp : span s0 0 (length p - 0) = p).
  { unfold span in *. rewrite drop_0 in *. rewrite Nat.sub_0_r.
    assert (Hlp : (length p <= s_len)%nat).
    { rewrite Hn, length_app. lia. }
    replace (take (length p) s0) with (take (length p) (take s_len s0)).
    - rewrite Hspan. by rewrite take_app_length.
    - rewrite take_take. f_equal. lia. }
  rewrite Hp.
  rewrite (proj2 (Z.leb_le _ _) Hwhole). simpl. split.
  - intros H. by rewrite (proj2 (Z.leb_le _ _) H).
  - intros H. rewrite (proj2 (Z.leb_gt _ _) H). simpl. by repeat split.
Qed.

End RegionProps.

Lemma parse_region_whole_name_witness :
  rd (lit "chr1:100-200") 0 <> LBRACE
  /\ r_ret (hts_parse_region two_names (fun _ _ => (0, O))
              (lit "chr1:100-200") 7 7 0) = None
  /\ r_tid (hts_parse_region two_names (fun _ _ => (0, O))
              (lit "chr1:100-200") 7 7 0) = -1.
Proof.
  split; [vm_compute; discriminate|].
  destruct (parse_region_whole_name two_names (fun _ _ => (0, O))
              (lit "chr1:100-200") 7 7 0 (lit "chr1") (lit "100-200"))
    as [Hboth _].
  - vm_compute. discriminate.
  - reflexivity.
  - apply (bool_decide_unpack _). vm_compute. exact I.
  - vm_compute. discriminate.
  - apply Hboth. vm_compute. discriminate.
Defined.

(** ** C strings *)

Lemma rd_drop buf p k : rd (drop p buf) k = rd buf (p + k).
Proof. unfold rd. by rewrite lookup_drop. Qed.

Lemma find_char_rd c l k :
  find_char c l = Some k -> rd l k = c /\ (k < length l)%nat /\ c <> 0.
Proof.
  revert k. induction l as [|x l IH]; intros k; simpl; [done|].
  destruct (x =? 0) eqn:E0; [done|].
  destruct (x =? c) eqn:Ec.
  - intros [= <-]. apply Z.eqb_eq in Ec. apply Z.eqb_neq in E0.
    unfold rd. simpl. repeat split; [done|lia|congruence].
  - destruct (find_char c l) as [j|]; simpl; [|done].
    intros [= <-]. destruct (IH j eq_refl) as (H1 & H2 & H3).
    unfold rd in *. simpl. repeat split; [done|lia|done].
Qed.

Lemma strchr_rd buf s c t :
  strchr buf s c = Some t ->
  rd buf t = c /\ (s <= t < length buf)%nat /\ c <> 0.
Proof.
  unfold strchr. destruct (find_char c (drop s buf)) as [k|] eqn:E; [|done].
  simpl. intros [= <-]. apply find_char_rd in E as (H1 & H2 & H3).
  rewrite rd_drop in H1. rewrite length_drop in H2.
  repeat split; [done|lia|lia|done].
Qed.

(** Restoring the separator that [strchr] found and that was overwritten
    with NUL. *)
Lemma wr_restore_found buf s c t :
  strchr buf s c = Some t -> wr (wr buf t 0) t c = buf.
Proof.
  intros H. apply strchr_rd in H as (H & _). rewrite <- H. apply wr_restore.
Qed.

(** ** [tbx_parse1] *)

(** ** [tbx_parse1] *)

Section ParserProps.

Variable sv : list Z -> bool.

(** *** What each scan leaves untouched *)

Ltac case_ifs :=
  repeat match goal with
         | |- context [if ?c then _ else _] => destruct c; cbn
         end.

Ltac case_cmp :=
  repeat match goal with
         | |- context [if ?a <? ?b then _ else _] =>
             destruct (Z.ltb_spec a b); cbn
         | |- context [if ?a <=? ?b then _ else _] =>
             destruct (Z.leb_spec a b); cbn
         | |- context [if ?a =? ?b then _ else _] =>
             destruct (Z.eqb_spec a b); cbn
         | |- context [if ?c then _ else _] => destruct c eqn:?; cbn
         end.

Lemma frame_alt_refl v : frame_alt v v.
Proof. by repeat split. Qed.

Lemma frame_alt_trans v1 v2 v3 :
  frame_alt v1 v2 -> frame_alt v2 v3 -> frame_alt v1 v3.
Proof.
  unfold frame_alt. intros H1 H2. destruct_and!.
  repeat split; congruence.
Qed.

Lemma alt_round_frame v lastbyte s :
  frame_alt v (snd (alt_round sv v lastbyte s (strchr (line v) s COMMA))).
Proof.
  unfold alt_round, alt_count, alt_test.
  destruct (strchr (line v) s COMMA) as [t|] eqn:Et.
  - pose proof (wr_restore_found _ _ _ _ Et) as Hr.
    destruct (negb (Z.shiftr (alcnt v) 3 =? lastbyte));
      destruct v; cbn in *; case_ifs; rewrite ?Hr; by repeat split.
  - destruct (negb (Z.shiftr (alcnt v) 3 =? lastbyte));
      destruct v; cbn in *; case_ifs; by repeat split.
Qed.

Lemma alt_loop_frame fuel : forall v lastbyte s,
  frame_alt v (alt_loop sv fuel v lastbyte s).
Proof.
  induction fuel as [|fuel IH]; intros v lastbyte s; simpl.
  - apply frame_alt_refl.
  - pose proof (alt_round_frame v lastbyte s) as Hr.
    destruct (alt_round sv v lastbyte s (strchr (line v) s COMMA))
      as [lb v1]. simpl in Hr.
    destruct (strchr (line v) s COMMA) as [t|]; [|done].
    destruct (alcnt v1 <? 65536); [|done].
    eapply frame_alt_trans; [exact Hr|apply IH].
Qed.

Lemma scan_alt_frame i v : frame_alt v (scan_alt sv i v).
Proof.
  unfold scan_alt.
  pose proof (alt_loop_frame (S (i - b v))
    (set_line (wr (line v) i 0) (set_svlenals (wr (svlenals v) 0 0) v))
    0 (b v)) as H.
  cbn [b set_line set_svlenals] in *.
  destruct (alt_loop _ _ _ _ _) as [] eqn:E.
  unfold frame_alt in *. destruct v. cbn in *. destruct_and!. subst.
  rewrite wr_restore. by repeat split.
Qed.

Lemma svlen_loop_shape fuel : forall v s d,
  exists x, svlen_loop fuel v s d = set_svlen x v.
Proof.
  induction fuel as [|fuel IH]; intros v s d; simpl.
  - exists (svlen v). by destruct v.
  - destruct s as [s|]; [|exists (svlen v); by destruct v].
    destruct (d <? alcnt v); [|exists (svlen v); by destruct v].
    match goal with |- context [svlen_loop fuel ?v' ?s' ?d'] =>
      destruct (IH v' s' d') as [x ->] end.
    exists x. by destruct v.
Qed.

Lemma scan_info_frame i v : frame_info v (scan_info i v).
Proof.
  unfold scan_info.
  match goal with |- context [svlen_loop ?f ?v' ?s' ?d'] =>
    destruct (svlen_loop_shape f v' s' d') as [x ->] end.
  destruct (find_tag _ _ (lit "END=")) as [s|];
    [destruct (negb _);
     [destruct (_ <=? _); [destruct (reported (set_line _ v))|]|]|];
    destruct v; cbn; rewrite ?wr_restore; by repeat split.
Qed.

Lemma format_loop_line fuel : forall buf s pos lenpos,
  fst (format_loop fuel buf s pos lenpos) = buf.
Proof.
  induction fuel as [|fuel IH]; intros buf s pos lenpos; simpl; [done|].
  destruct (strchr buf s COLON) as [t|] eqn:Et; [|done].
  pose proof (wr_restore_found _ _ _ _ Et) as Hr.
  destruct (streq (wr buf t 0) s (lit "LEN")); simpl; [done|].
  rewrite Hr. apply IH.
Qed.

Lemma scan_format_frame i v : frame_format v (scan_format i v).
Proof.
  unfold scan_format.
  match goal with |- context [format_loop ?f ?l ?s ?p ?lp] =>
    pose proof (format_loop_line f l s p lp) as H;
    destruct (format_loop f l s p lp) as [buf lp'] end.
  simpl in H. subst buf.
  destruct v; cbn. rewrite wr_restore. by repeat split.
Qed.

Lemma scan_sample_frame i v : frame_sample v (scan_sample i v).
Proof.
  unfold scan_sample. destruct v; cbn. rewrite wr_restore. by repeat split.
Qed.

(** *** The buffer is restored *)

Lemma parse_beg_cases conf v :
  (exists v', parse_beg conf v = Next v'
     /\ frame_beg v v'
     /\ (log v' = log v \/ log v' = log v ++ [WarnCoordinate])
     /\ 0 <= beg v' <= LLONG_MAX /\ 1 <= end_ v'
     /\ snd (strtoll (line v) (b v) 0) <> b v)
  \/ (exists v', parse_beg conf v = Return (-1) v'
     /\ frame_beg v v' /\ log v' = log v
     /\ snd (strtoll (line v) (b v) 0) = b v).
Proof.
  unfold parse_beg, frame_beg.
  destruct (strtoll (line v) (b v) 0) as [x s] eqn:Es.
  pose proof (wrap64_range (x - 1)) as Hw. unfold LLONG_MIN in Hw.
  assert (Hx : x <= LLONG_MAX).
  { unfold strtoll in Es. destruct (strtoll_list _ _) as [y k] eqn:El.
    injection Es as <- <-. unfold strtoll_list in El.
    destruct (read_sign _) as [neg k1]. destruct (read_base _ _) as [b' k2].
    destruct (read_digits _ _ _) as [d [|m]]; injection El as <- <-;
      [unfold LLONG_MAX; lia|apply clamp64_range]. }
  unfold LLONG_MAX in *.
  destruct (bc conf <=? ec conf), (is_ucsc conf); destruct v; cbn in *;
    (match goal with
     | |- context [(s =? ?p)%nat] => destruct (s =? p)%nat eqn:E
     end;
     [right; apply Nat.eqb_eq in E; eexists; split; [done|by repeat split]
     |left; apply Nat.eqb_neq in E; eexists; split; [done|]]);
    case_cmp; repeat split; try done; try lia; by (left + right).
Qed.

Lemma scan_info_log i v : log_step v (scan_info i v).
Proof.
  unfold scan_info.
  match goal with |- context [svlen_loop ?f ?v' ?s' ?d'] =>
    destruct (svlen_loop_shape f v' s' d') as [x ->] end.
  unfold log_step.
  destruct (find_tag _ _ (lit "END=")) as [s|]; [|left; by destruct v].
  destruct (negb _); [|left; by destruct v].
  destruct (_ <=? _); [|left; by destruct v].
  destruct (reported (set_line _ v)) eqn:E; [left; by destruct v|].
  right. destruct v; cbn in *. split; [done|]. split; [done|].
  by eexists _, _, _.
Qed.

Lemma vcf_field_basic i v :
  let c := vcf_field sv i v in
  line (ctl_vars c) = line v /\ ss (ctl_vars c) = ss v
  /\ se (ctl_vars c) = se v /\ beg (ctl_vars c) = beg v
  /\ b (ctl_vars c) = b v /\ id (ctl_vars c) = id v
  /\ log_step v (ctl_vars c)
  /\ (forall r w, c <> Return r w).
Proof.
  unfold vcf_field.
  set (v1 := if id v =? 4 then _ else v).
  assert (H1 : line v1 = line v /\ ss v1 = ss v /\ se v1 = se v
               /\ beg v1 = beg v /\ b v1 = b v /\ id v1 = id v
               /\ log v1 = log v /\ reported v1 = reported v).
  { unfold v1. destruct (id v =? 4); [|done].
    destruct (b v <? i)%nat; by destruct v. }
  clearbody v1. destruct H1 as (<- & <- & <- & <- & <- & <- & Hl & Hr).
  assert (Hls : forall v', log v' = log v1 -> reported v' = reported v1 ->
                           log_step v v').
  { intros v' E1 E2. left. split; congruence. }
  destruct (id v1 =? 5).
  { pose proof (scan_alt_frame i v1) as F. unfold frame_alt in F.
    destruct_and!. cbn. repeat split; try done. by apply Hls. }
  destruct (id v1 =? 8).
  { pose proof (scan_info_frame i v1) as F. unfold frame_info in F.
    destruct_and!. cbn. repeat split; try done.
    pose proof (scan_info_log i v1) as G. unfold log_step in *.
    rewrite <- Hl, <- Hr. exact G. }
  destruct (getlen v1 && (id v1 =? 9)).
  { pose proof (scan_format_frame i v1) as F. unfold frame_format in F.
    destruct_and!.
    destruct (lenpos (scan_format i v1) =? -1); cbn;
      repeat split; try done; by apply Hls. }
  destruct ((9 <? id v1) && getlen v1 && negb (lenpos v1 =? -1)).
  { pose proof (scan_sample_frame i v1) as F. unfold frame_sample in F.
    destruct_and!. cbn. repeat split; try done. by apply Hls. }
  cbn. repeat split; try done. by apply Hls.
Qed.

(** A field leaves the buffer and the cursor as they were, and returns
    nothing but [-1]. *)
Lemma field_step_basic conf i v :
  let c := field_step sv conf i v in
  line (ctl_vars c) = line v /\ b (ctl_vars c) = b v
  /\ id (ctl_vars c) = id v
  /\ (forall r w, c = Return r w -> r = -1).
Proof.
  unfold field_step.
  destruct (id v =? sc conf); [by destruct v|].
  destruct (id v =? bc conf).
  { destruct (fmt_tag conf =? TBX_GAF).
    - destruct (gaf_path _ _ _ _ _) as [x y]. by destruct v.
    - destruct (parse_beg_cases conf v) as [(v' & -> & H & _)|(v' & -> & H & _)];
        unfold frame_beg in H; destruct_and!; cbn; repeat split; try done.
      by intros r w [= -> _]. }
  destruct (fmt_tag conf =? TBX_GENERIC).
  { destruct (id v =? ec conf); [|done].
    destruct (strtoll (line v) (b v) 0) as [x s].
    destruct (s =? b (set_end_ x v))%nat; destruct v; cbn;
      repeat split; try done.
    by intros r w [= -> _]. }
  destruct (fmt_tag conf =? TBX_SAM).
  { destruct (id v =? 6); by destruct v. }
  destruct (fmt_tag conf =? TBX_VCF); [|done].
  pose proof (vcf_field_basic i v) as H. cbn in H.
  destruct H as (Hl & _ & _ & _ & Hb & Hi & _ & Hret).
  repeat split; try done. intros r w E. exfalso. by eapply Hret.
Qed.

Lemma fields_loop_basic conf n : forall i v,
  let c := fields_loop sv conf n i v in
  line (ctl_vars c) = line v /\ (forall r w, c = Return r w -> r = -1).
Proof.
  induction n as [|n IH]; intros i v; simpl; [done|].
  destruct (is_sep (rd (line v) i)); [|apply IH].
  pose proof (field_step_basic conf i v) as H. cbn in H.
  destruct (field_step sv conf i v) as [v'|v'|r v']; cbn in *;
    destruct H as (Hl & _ & _ & Hr); [|done|].
  - specialize (IH (S i) (set_id (id v' + 1) (set_b (S i) v'))).
    cbn in IH. destruct IH as [IH1 IH2]. split; [|done].
    rewrite IH1. by destruct v'.
  - split; [done|]. intros r' w [= -> _]. by eapply Hr.
Qed.

Lemma finish_line conf v : line (snd (finish conf v)) = line v.
Proof.
  unfold finish.
  destruct (fmt_tag conf =? TBX_VCF);
    match goal with |- context [if ?c then _ else _] => destruct c end;
    by destruct v.
Qed.

(** C9: whatever the configuration, the line and the result, the buffer
    holds at the return of [tbx_parse1] what it held on entry. *)
Theorem tbx_parse1_restores_line conf len buf rep lg :
  line (snd (tbx_parse1 sv conf len buf rep lg)) = buf.
Proof.
  unfold tbx_parse1.
  pose proof (fields_loop_basic conf (S len) O (enter buf rep lg)) as [H _].
  destruct (fields_loop sv conf (S len) 0 (enter buf rep lg)) as [v|v|r v];
    cbn in H; rewrite ?finish_line; exact H.
Qed.

(** *** Columns *)

Lemma count_seps_mono buf n m :
  (n <= m)%nat -> (count_seps buf n <= count_seps buf m)%nat.
Proof.
  induction 1 as [|m H IH]; simpl; [done|]. lia.
Qed.

Lemma count_seps_after buf p q :
  (p < q)%nat -> is_sep (rd buf (q - 1)) = true ->
  (count_seps buf p < count_seps buf q)%nat.
Proof.
  intros Hpq Hsep. destruct q as [|q]; [lia|]. simpl.
  replace (S q - 1)%nat with q in Hsep by lia. rewrite Hsep.
  pose proof (count_seps_mono buf p q ltac:(lia)). lia.
Qed.

(** A column starts at one place only. *)
Lemma column_start_unique buf k p q :
  column_start buf k p -> column_start buf k q -> p = q.
Proof.
  intros [Hp Hp'] [Hq Hq'].
  destruct (Nat.lt_trichotomy p q) as [H|[H|H]]; [|done|].
  - destruct Hq' as [->|Hq']; [lia|].
    pose proof (count_seps_after buf p q H Hq'). lia.
  - destruct Hp' as [->|Hp']; [lia|].
    pose proof (count_seps_after buf q p H Hp'). lia.
Qed.

Lemma field_step_sc conf i v :
  id v = sc conf ->
  field_step sv conf i v = Next (set_se (Some i) (set_ss (Some (b v)) v)).
Proof. intros H. unfold field_step. by rewrite H, Z.eqb_refl. Qed.

Lemma field_step_not_sc conf i v :
  id v <> sc conf ->
  ss (ctl_vars (field_step sv conf i v)) = ss v
  /\ se (ctl_vars (field_step sv conf i v)) = se v.
Proof.
  intros H. unfold field_step. rewrite (proj2 (Z.eqb_neq _ _) H).
  destruct (id v =? bc conf).
  { destruct (fmt_tag conf =? TBX_GAF).
    - destruct (gaf_path _ _ _ _ _) as [x y]. by destruct v.
    - destruct (parse_beg_cases conf v)
        as [(v' & -> & H' & _)|(v' & -> & H' & _)];
        cbn; by destruct H' as (_ & -> & -> & _). }
  destruct (fmt_tag conf =? TBX_GENERIC).
  { destruct (id v =? ec conf); [|done].
    destruct (strtoll (line v) (b v) 0) as [x s].
    destruct (s =? b (set_end_ x v))%nat; by destruct v. }
  destruct (fmt_tag conf =? TBX_SAM).
  { destruct (id v =? 6); by destruct v. }
  destruct (fmt_tag conf =? TBX_VCF); [|done].
  pose proof (vcf_field_basic i v) as H'. cbn in H'.
  by destruct H' as (_ & -> & -> & _).
Qed.

Lemma field_step_not_bc conf i v :
  id v <> bc conf \/ id v = sc conf ->
  beg (ctl_vars (field_step sv conf i v)) = beg v.
Proof.
  intros H. unfold field_step.
  destruct (id v =? sc conf) eqn:Esc; [by destruct v|].
  destruct H as [H|H]; [|apply Z.eqb_neq in Esc; done].
  rewrite (proj2 (Z.eqb_neq _ _) H).
  destruct (fmt_tag conf =? TBX_GENERIC).
  { destruct (id v =? ec conf); [|done].
    destruct (strtoll (line v) (b v) 0) as [x s].
    destruct (s =? b (set_end_ x v))%nat; by destruct v. }
  destruct (fmt_tag conf =? TBX_SAM).
  { destruct (id v =? 6); by destruct v. }
  destruct (fmt_tag conf =? TBX_VCF); [|done].
  pose proof (vcf_field_basic i v) as H'. cbn in H'.
  by destruct H' as (_ & _ & _ & -> & _).
Qed.

(** At the begin column of a preset other than GAF, a field that does
    not return has converted a number at its start. *)
Lemma field_step_bc conf i v :
  id v = bc conf -> id v <> sc conf -> fmt_tag conf <> TBX_GAF ->
  forall v', field_step sv conf i v = Next v' ->
             snd (strtoll (line v) (b v) 0) <> b v
             /\ 0 <= beg v' /\ 1 <= end_ v'.
Proof.
  intros Hbc Hsc Hgaf v'. unfold field_step.
  rewrite (proj2 (Z.eqb_neq _ _) Hsc), Hbc, Z.eqb_refl.
  rewrite (proj2 (Z.eqb_neq _ _) Hgaf).
  destruct (parse_beg_cases conf v) as [(w & -> & H)|(w & -> & _)]; [|done].
  intros [= <-]. destruct H as (_ & _ & ? & ? & ?). split; [done|]. lia.
Qed.

Lemma loop_inv_intro conf buf i v :
  line v = buf ->
  id v = 1 + Z.of_nat (count_seps buf i) ->
  (b v <= i)%nat ->
  column_start buf (id v) (b v) ->
  match ss v, se v with
  | None, None => True
  | Some a, Some z =>
      column_start buf (sc conf) a /\ column_end buf a z /\ (z < i)%nat
  | _, _ => False
  end ->
  (beg v = -1
   \/ exists p, (p < i)%nat /\ column_start buf (bc conf) p
                /\ sc conf <> bc conf
                /\ (fmt_tag conf <> TBX_GAF -> snd (strtoll buf p 0) <> p)) ->
  loop_inv conf buf i v.
Proof. by unfold loop_inv. Qed.

Lemma loop_inv_enter conf buf rep lg : loop_inv conf buf O (enter buf rep lg).
Proof.
  unfold loop_inv, column_start. cbn. repeat split; try done; by left.
Qed.

(** A byte that is no separator keeps the invariant. *)
Lemma loop_inv_skip conf buf i v :
  loop_inv conf buf i v -> is_sep (rd buf i) = false ->
  loop_inv conf buf (S i) v.
Proof.
  intros (Hline & Hid & Hb & Hcol & Hss & Hbeg) Esep.
  apply loop_inv_intro; try done.
  - simpl. rewrite Esep. lia.
  - lia.
  - destruct (ss v), (se v); try done.
    destruct Hss as (? & ? & ?). split; [done|]. split; [done|]. lia.
  - destruct Hbeg as [?|(p & ? & ?)]; [by left|right].
    exists p. split; [lia|done].
Qed.

(** A field keeps the invariant: at the next byte when the loop goes
    on, at the same byte when it is left by [break]. *)
Lemma loop_inv_step conf buf i v :
  loop_inv conf buf i v -> is_sep (rd buf i) = true ->
  match field_step sv conf i v with
  | Next v' => loop_inv conf buf (S i) (set_id (id v' + 1) (set_b (S i) v'))
  | Break v' => loop_inv conf buf i v'
  | Return r _ => r = -1
  end.
Proof.
  intros Hinv Esep.
  pose proof Hinv as (Hline & Hid & Hb & Hcol & Hss & Hbeg).
  assert (Hnext : column_start buf (id v + 1) (S i)).
  { split; [simpl; rewrite Esep; lia|].
    right. by replace (S i - 1)%nat with i by lia. }
  assert (Hid' : id v + 1 = 1 + Z.of_nat (count_seps buf (S i))).
  { simpl. rewrite Esep. lia. }
  pose proof (field_step_basic conf i v) as (Hl' & Hb' & Hi' & Hret).
  destruct (decide (id v = sc conf)) as [Hsc|Hsc].
  { rewrite (field_step_sc _ _ _ Hsc).
    apply loop_inv_intro; destruct v; cbn in *; try done.
    - split; [by rewrite <- Hsc|]. split; [|lia].
      split; [done|]. split; [done|]. destruct Hcol as [Hc _]. lia.
    - destruct Hbeg as [?|(p & ? & ?)]; [by left|right].
      exists p. split; [lia|done]. }
  pose proof (field_step_not_sc conf i v Hsc) as [Hss' Hse'].
  assert (Hbeg' : forall v', field_step sv conf i v = Next v' ->
            beg v' = -1
            \/ exists p, (p < S i)%nat /\ column_start buf (bc conf) p
                         /\ sc conf <> bc conf
                         /\ (fmt_tag conf <> TBX_GAF ->
                             snd (strtoll buf p 0) <> p)).
  { intros v' Estep. destruct (decide (id v = bc conf)) as [Hbc|Hbc].
    - right. exists (b v). split; [lia|]. split; [by rewrite <- Hbc|].
      split; [congruence|]. intros Hgaf.
      destruct (field_step_bc conf i v Hbc Hsc Hgaf v' Estep) as [H _].
      by rewrite Hline in H.
    - pose proof (field_step_not_bc conf i v (or_introl Hbc)) as E.
      rewrite Estep in E. cbn in E. rewrite E.
      destruct Hbeg as [?|(p & ? & ?)]; [by left|right].
      exists p. split; [lia|done]. }
  destruct (field_step sv conf i v) as [v'|v'|r v'] eqn:Estep; cbn in *.
  - specialize (Hbeg' v' eq_refl).
    apply loop_inv_intro; destruct v'; cbn in *; subst; try done.
    destruct (ss v), (se v); try done.
    destruct Hss as (? & ? & ?). split; [done|]. split; [done|]. lia.
  - assert (Hbc : id v <> bc conf).
    { intros E. revert Estep. unfold field_step.
      rewrite (proj2 (Z.eqb_neq _ _) Hsc), E, Z.eqb_refl.
      destruct (fmt_tag conf =? TBX_GAF).
      - by destruct (gaf_path _ _ _ _ _).
      - by destruct (parse_beg_cases conf v)
          as [(w & -> & _)|(w & -> & _)]. }
    pose proof (field_step_not_bc conf i v (or_introl Hbc)) as E.
    rewrite Estep in E. cbn in E.
    unfold loop_inv. by rewrite Hl', Hb', Hi', Hss', Hse', E.
  - by eapply Hret.
Qed.

(** The invariant of the loop over the bytes, together with any
    property [E] of the state that the fields keep under it. *)
Lemma fields_loop_inv_ext conf buf (E : vars -> Prop) :
  (forall i v, loop_inv conf buf i v -> E v -> is_sep (rd buf i) = true ->
     match field_step sv conf i v with
     | Next v' => E (set_id (id v' + 1) (set_b (S i) v'))
     | Break v' => E v'
     | Return _ _ => True
     end) ->
  forall n i v,
  loop_inv conf buf i v -> E v ->
  match fields_loop sv conf n i v with
  | Next w | Break w =>
      exists j, (i <= j <= i + n)%nat /\ loop_inv conf buf j w /\ E w
  | Return r _ => r = -1
  end.
Proof.
  intros HE. induction n as [|n IH]; intros i v Hinv He.
  { exists i. split; [lia|done]. }
  simpl.
  assert (Hmono : forall c,
    match c with
    | Next w | Break w =>
        exists j, (S i <= j <= S i + n)%nat /\ loop_inv conf buf j w /\ E w
    | Return r _ => r = -1
    end ->
    match c with
    | Next w | Break w =>
        exists j, (i <= j <= i + S n)%nat /\ loop_inv conf buf j w /\ E w
    | Return r _ => r = -1
    end).
  { intros [w|w|r w]; [| |done]; intros (j & Hj & Hw); exists j;
      (split; [lia|done]). }
  pose proof Hinv as (Hline & _).
  destruct (is_sep (rd (line v) i)) eqn:Esep; rewrite Hline in Esep.
  2:{ apply (Hmono (fields_loop sv conf n (S i) v)), IH; [|done].
      by apply loop_inv_skip. }
  pose proof (loop_inv_step conf buf i v Hinv Esep) as Hstep.
  specialize (HE i v Hinv He Esep).
  destruct (field_step sv conf i v) as [v'|v'|r v'].
  - match goal with |- match ?c with _ => _ end => by apply (Hmono c), IH end.
  - exists i. split; [lia|done].
  - done.
Qed.

Lemma fields_loop_inv conf buf n i v :
  loop_inv conf buf i v ->
  match fields_loop sv conf n i v with
  | Next w | Break w =>
      exists j, (i <= j <= i + n)%nat /\ loop_inv conf buf j w
  | Return r _ => r = -1
  end.
Proof.
  intros Hinv.
  pose proof (fields_loop_inv_ext conf buf (fun _ => True)) as H.
  specialize (H ltac:(intros; by destruct (field_step sv conf _ _))
                n i v Hinv I).
  destruct (fields_loop sv conf n i v) as [w|w|r w]; [| |done];
    destruct H as (j & Hj & Hw & _); by exists j.
Qed.

Lemma finish_spec conf v :
  let r := fst (finish conf v) in
  let v' := snd (finish conf v) in
  (r = 0 \/ r = -1)
  /\ ss v' = ss v /\ se v' = se v /\ beg v' = beg v
  /\ (fmt_tag conf <> TBX_VCF -> end_ v' = end_ v)
  /\ log v' = log v /\ reported v' = reported v
  /\ (r = 0 -> ss v <> None /\ se v <> None /\ 0 <= beg v /\ 0 <= end_ v').
Proof.
  unfold finish.
  set (v1 := if fmt_tag conf =? TBX_VCF then _ else v).
  assert (H1 : ss v1 = ss v /\ se v1 = se v /\ beg v1 = beg v
               /\ (fmt_tag conf <> TBX_VCF -> end_ v1 = end_ v)
               /\ log v1 = log v /\ reported v1 = reported v).
  { unfold v1. destruct (Z.eqb_spec (fmt_tag conf) TBX_VCF); by destruct v. }
  clearbody v1. destruct H1 as (<- & <- & <- & He & <- & <-).
  destruct (bool_decide (ss v1 = None)) eqn:E1; cbn;
    [by repeat split; try done; right|].
  destruct (bool_decide (se v1 = None)) eqn:E2; cbn;
    [by repeat split; try done; right|].
  destruct (Z.ltb_spec (beg v1) 0); cbn; [by repeat split; try done; right|].
  destruct (Z.ltb_spec (end_ v1) 0); cbn; [by repeat split; try done; right|].
  apply bool_decide_eq_false in E1, E2.
  repeat split; try done. by left.
Qed.

Lemma tbx_parse1_ret conf len buf rep lg :
  fst (tbx_parse1 sv conf len buf rep lg) = 0
  \/ fst (tbx_parse1 sv conf len buf rep lg) = -1.
Proof.
  unfold tbx_parse1.
  pose proof (fields_loop_inv conf buf (S len) O _
                (loop_inv_enter conf buf rep lg)) as H.
  destruct (fields_loop sv conf (S len) 0 (enter buf rep lg))
    as [v|v|r v]; try apply finish_spec. right. exact H.
Qed.

(** What a successful parse has established. *)
Lemma tbx_parse1_ok conf len buf rep lg :
  fst (tbx_parse1 sv conf len buf rep lg) = 0 ->
  (exists a z, ss (snd (tbx_parse1 sv conf len buf rep lg)) = Some a
               /\ se (snd (tbx_parse1 sv conf len buf rep lg)) = Some z
               /\ column_start buf (sc conf) a /\ column_end buf a z
               /\ (z <= len)%nat)
  /\ 0 <= beg (snd (tbx_parse1 sv conf len buf rep lg))
  /\ 0 <= end_ (snd (tbx_parse1 sv conf len buf rep lg))
  /\ exists p, (p <= len)%nat /\ column_start buf (bc conf) p
               /\ (fmt_tag conf <> TBX_GAF -> snd (strtoll buf p 0) <> p).
Proof.
  unfold tbx_parse1.
  pose proof (fields_loop_inv conf buf (S len) O _
                (loop_inv_enter conf buf rep lg)) as H.
  assert (G : forall v, (exists j, (0 <= j <= 0 + S len)%nat
                                   /\ loop_inv conf buf j v) ->
    fst (finish conf v) = 0 ->
    (exists a z, ss (snd (finish conf v)) = Some a
                 /\ se (snd (finish conf v)) = Some z
                 /\ column_start buf (sc conf) a /\ column_end buf a z
                 /\ (z <= len)%nat)
    /\ 0 <= beg (snd (finish conf v)) /\ 0 <= end_ (snd (finish conf v))
    /\ exists p, (p <= len)%nat /\ column_start buf (bc conf) p
              /\ (fmt_tag conf <> TBX_GAF -> snd (strtoll buf p 0) <> p)).
  { intros v (j & Hj & Hinv) H0.
    destruct (finish_spec conf v)
      as (_ & Es & Ee & Eb & _ & _ & _ & Hfin).
    destruct (Hfin H0) as (Hss & Hse & Hbeg & Hend).
    destruct Hinv as (_ & _ & _ & _ & Hname & Hb).
    rewrite Es, Ee, Eb. split; [|split; [done|split; [done|]]].
    - destruct (ss v) as [a|], (se v) as [z|]; try done.
      destruct Hname as (? & ? & ?). exists a, z.
      do 4 (split; [done|]). lia.
    - destruct Hb as [Hb|(p & Hp & Hcol & _ & Hconv)]; [lia|].
      exists p. split; [lia|]. by split. }
  destruct (fields_loop sv conf (S len) 0 (enter buf rep lg))
    as [v|v|r v]; [by apply G|by apply G|].
  cbn. intros ->. done.
Qed.

(** C10, as the code has it: [tbx_parse1] returns [0] or [-1]; when it
    returns [0] the name slice is column [sc] of the line, [beg] and
    [end] are not negative, and the begin column exists; a line without
    column [sc] or without column [bc] gives [-1]; and under every
    preset but GAF so does a line at whose begin column [strtoll]
    converts nothing. *)
Theorem tbx_parse1_success conf len buf rep lg :
  let r := fst (tbx_parse1 sv conf len buf rep lg) in
  let v := snd (tbx_parse1 sv conf len buf rep lg) in
  (r = 0 \/ r = -1)
  /\ (r = 0 ->
      (exists a z, ss v = Some a /\ se v = Some z
                   /\ column_start buf (sc conf) a /\ column_end buf a z
                   /\ (z <= len)%nat)
      /\ 0 <= beg v /\ 0 <= end_ v
      /\ exists p, (p <= len)%nat /\ column_start buf (bc conf) p
                   /\ (fmt_tag conf <> TBX_GAF -> snd (strtoll buf p 0) <> p))
  /\ ((forall a, (a <= len)%nat -> ~ column_start buf (sc conf) a) -> r = -1)
  /\ ((forall p, (p <= len)%nat -> ~ column_start buf (bc conf) p) -> r = -1)
  /\ (fmt_tag conf <> TBX_GAF ->
      forall p, column_start buf (bc conf) p ->
                snd (strtoll buf p 0) = p -> r = -1).
Proof.
  cbn zeta.
  pose proof (tbx_parse1_ret conf len buf rep lg) as Hr.
  pose proof (tbx_parse1_ok conf len buf rep lg) as Hok.
  split; [exact Hr|]. split; [exact Hok|].
  split; [|split].
  - intros Hno. destruct Hr as [Hr|Hr]; [|done].
    destruct (Hok Hr) as ((a & z & _ & _ & Hcol & [Haz _] & Hz) & _).
    exfalso. apply (Hno a); [lia|done].
  - intros Hno. destruct Hr as [Hr|Hr]; [|done].
    destruct (Hok Hr) as (_ & _ & _ & p & Hp & Hcol & _).
    exfalso. by apply (Hno p).
  - intros Hgaf p Hcol Hconv. destruct Hr as [Hr|Hr]; [|done].
    destruct (Hok Hr) as (_ & _ & _ & q & Hq & Hcol' & Hne).
    rewrite (column_start_unique _ _ _ _ Hcol Hcol') in Hconv.
    exfalso. by apply Hne.
Qed.

(** *** The warnings *)

Lemma count_info_end_app lg lg' :
  count_info_end (lg ++ lg') = (count_info_end lg + count_info_end lg')%nat.
Proof. unfold count_info_end. by rewrite filter_app, length_app. Qed.

Lemma count_coordinate_app lg lg' :
  count_coordinate (lg ++ lg')
  = (count_coordinate lg + count_coordinate lg')%nat.
Proof. unfold count_coordinate. by rewrite filter_app, length_app. Qed.

Lemma count_single_info_end e n p :
  count_info_end [WarnInfoEnd e n p] = 1%nat
  /\ count_coordinate [WarnInfoEnd e n p] = O.
Proof. by split. Qed.

Lemma count_single_coordinate :
  count_info_end [WarnCoordinate] = O
  /\ count_coordinate [WarnCoordinate] = 1%nat.
Proof. by split. Qed.

(** A property of the state that every field keeps holds at the return,
    whichever way the loop is left. *)
Lemma fields_loop_ind conf (P Q : vars -> Prop) :
  (forall i v, P v ->
     match field_step sv conf i v with
     | Next v' => P (set_id (id v' + 1) (set_b (S i) v'))
     | Break v' | Return _ v' => Q v'
     end) ->
  (forall v, P v -> Q v) ->
  forall n i v, P v -> Q (ctl_vars (fields_loop sv conf n i v)).
Proof.
  intros Hstep Hpq. induction n as [|n IH]; intros i v HP; simpl.
  - by apply Hpq.
  - destruct (is_sep (rd (line v) i)); [|by apply IH].
    specialize (Hstep i v HP).
    destruct (field_step sv conf i v) as [v'|v'|r v']; cbn; [|done|done].
    by apply IH.
Qed.

(** What a field does to the latch and the log: an INFO/END warning
    under the latch, or, at the begin column only, at most one
    coordinate warning. *)
Lemma field_step_log conf i v :
  let v' := ctl_vars (field_step sv conf i v) in
  log_step v v'
  \/ (id v = bc conf /\ reported v' = reported v
      /\ log v' = log v ++ [WarnCoordinate]).
Proof.
  cbn zeta. unfold field_step.
  assert (Hsame : forall w, log w = log v -> reported w = reported v ->
                            log_step v w \/
                            (id v = bc conf /\ reported w = reported v
                             /\ log w = log v ++ [WarnCoordinate])).
  { intros w H1 H2. left. by left. }
  destruct (id v =? sc conf); [apply Hsame; by destruct v|].
  destruct (Z.eqb_spec (id v) (bc conf)) as [Hbc|Hbc].
  { destruct (fmt_tag conf =? TBX_GAF).
    - destruct (gaf_path _ _ _ _ _) as [x y]. apply Hsame; by destruct v.
    - destruct (parse_beg_cases conf v)
        as [(v' & -> & H & Hlog & _)|(v' & -> & H & Hlog & _)];
        unfold frame_beg in H; destruct_and!; cbn.
      + destruct Hlog as [Hlog|Hlog]; [by apply Hsame|by right].
      + by apply Hsame. }
  destruct (fmt_tag conf =? TBX_GENERIC).
  { destruct (id v =? ec conf); [|by apply Hsame].
    destruct (strtoll (line v) (b v) 0) as [x s].
    destruct (s =? b (set_end_ x v))%nat; apply Hsame; by destruct v. }
  destruct (fmt_tag conf =? TBX_SAM).
  { destruct (id v =? 6); apply Hsame; by destruct v. }
  destruct (fmt_tag conf =? TBX_VCF); [|by apply Hsame].
  pose proof (vcf_field_basic i v) as H. cbn in H.
  destruct H as (_ & _ & _ & _ & _ & _ & H & _). by left.
Qed.

Lemma log_step_latched v v' :
  log_step v v' -> latched (reported v) (log v) ->
  latched (reported v') (log v')
  /\ count_coordinate (log v') = count_coordinate (log v).
Proof.
  intros [[-> ->]|(Hr & Hr' & e & n & p & ->)] [H1 H2]; [done|].
  unfold latched.
  rewrite count_info_end_app, count_coordinate_app, Hr', (H2 Hr).
  destruct (count_single_info_end e n p) as [-> ->].
  split; [split; [lia|done]|lia].
Qed.

(** One call keeps the latch and the log in agreement and writes at most
    one coordinate warning. *)
Lemma tbx_parse1_log conf len buf rep lg :
  latched rep lg ->
  let v := snd (tbx_parse1 sv conf len buf rep lg) in
  latched (reported v) (log v)
  /\ (count_coordinate (log v) <= count_coordinate lg + 1)%nat.
Proof.
  intros Hl. cbn zeta. unfold tbx_parse1.
  set (P := fun v : vars =>
         latched (reported v) (log v)
         /\ (count_coordinate (log v)
             <= count_coordinate lg + if (bc conf <? id v)%Z then 1 else 0)%nat).
  set (Q := fun v : vars =>
         latched (reported v) (log v)
         /\ (count_coordinate (log v) <= count_coordinate lg + 1)%nat).
  assert (HQ : Q (ctl_vars (fields_loop sv conf (S len) O (enter buf rep lg)))).
  { apply (fields_loop_ind conf P Q).
    - intros i v [HL HC].
      pose proof (field_step_basic conf i v) as (_ & _ & Hid & _).
      pose proof (field_step_log conf i v) as Hlog. cbn zeta in Hlog.
      assert (G : latched (reported (ctl_vars (field_step sv conf i v)))
                          (log (ctl_vars (field_step sv conf i v)))
                  /\ (count_coordinate (log (ctl_vars (field_step sv conf i v)))
                      <= count_coordinate lg
                         + if (bc conf <? id v + 1)%Z then 1 else 0)%nat).
      { destruct Hlog as [Hlog|(Hbc & Hr & Hlog)].
        - destruct (log_step_latched _ _ Hlog HL) as [H1 H2].
          split; [done|]. rewrite H2.
          destruct (Z.ltb_spec (bc conf) (id v)),
                   (Z.ltb_spec (bc conf) (id v + 1)); lia.
        - rewrite Hr, Hlog, count_coordinate_app.
          unfold latched in *. rewrite count_info_end_app.
          destruct count_single_coordinate as [-> ->].
          rewrite Nat.add_0_r. split; [done|].
          destruct (Z.ltb_spec (bc conf) (id v)),
                   (Z.ltb_spec (bc conf) (id v + 1)); lia. }
      destruct (field_step sv conf i v) as [v'|v'|r v']; cbn in *.
      + unfold P. destruct v'; cbn in *. by rewrite Hid.
      + destruct G as [G1 G2]. split; [done|].
        destruct (bc conf <? id v + 1); lia.
      + destruct G as [G1 G2]. split; [done|].
        destruct (bc conf <? id v + 1); lia.
    - intros v [H1 H2]. split; [done|]. destruct (bc conf <? id v); lia.
    - split; [done|]. change (log (enter buf rep lg)) with lg.
      destruct (bc conf <? id (enter buf rep lg)); lia. }
  destruct (fields_loop sv conf (S len) O (enter buf rep lg)) as [v|v|r v];
    cbn in HQ; try done;
    destruct (finish_spec conf v) as (_ & _ & _ & _ & _ & -> & -> & _);
    exact HQ.
Qed.

Lemma run_calls_log calls : forall rep lg,
  latched rep lg ->
  latched (fst (run_calls sv calls rep lg)) (snd (run_calls sv calls rep lg))
  /\ (count_coordinate (snd (run_calls sv calls rep lg))
      <= count_coordinate lg + length calls)%nat.
Proof.
  induction calls as [|[[conf len] buf] calls IH]; intros rep lg Hl; simpl.
  - split; [done|lia].
  - destruct (tbx_parse1_log conf len buf rep lg Hl) as [H1 H2].
    destruct (IH _ _ H1) as [H3 H4]. split; [done|]. lia.
Qed.

(** What the begin column writes to the log: one coordinate warning
    when the begin it reads is negative, and nothing else. *)
Lemma parse_beg_log conf v v' :
  parse_beg conf v = Next v' ->
  let x := fst (strtoll (line v) (b v) 0) in
  log v'
  = log v ++ (if (if is_ucsc conf then x else wrap64 (x - 1)) <? 0
              then [WarnCoordinate] else []).
Proof.
  unfold parse_beg. cbn zeta.
  destruct (strtoll (line v) (b v) 0) as [x s]. cbn [fst].
  set (v1 := if bc conf <=? ec conf then _ else _).
  assert (H1 : beg v1 = x /\ log v1 = log v)
    by (subst v1; by destruct (bc conf <=? ec conf)).
  destruct H1 as [Hb1 Hl1].
  destruct (s =? b v1)%nat; [done|].
  set (v2 := if negb (is_ucsc conf) then _ else _).
  assert (H2 : beg v2 = (if is_ucsc conf then x else wrap64 (x - 1))
               /\ log v2 = log v).
  { subst v2. destruct (is_ucsc conf); cbn [negb].
    - by destruct (bc conf <=? ec conf).
    - cbn. by rewrite Hb1. }
  destruct H2 as [Hb2 Hl2]. rewrite <- Hb2.
  set (v3 := if beg v2 <? 0 then _ else v2).
  assert (H3 : log v3 = log v ++ (if beg v2 <? 0 then [WarnCoordinate]
                                 else [])).
  { subst v3. destruct (beg v2 <? 0); cbn; [by rewrite Hl2|].
    by rewrite app_nil_r. }
  intros [= <-]. rewrite <- H3. by destruct (end_ v3 <? 1).
Qed.

Lemma log_step_coordinate v v' :
  log_step v v' -> count_coordinate (log v') = count_coordinate (log v).
Proof.
  intros [[-> _]|(_ & _ & e & n & p & ->)]; [done|].
  rewrite count_coordinate_app.
  destruct (count_single_info_end e n p) as [_ ->]. lia.
Qed.

(** Away from the begin column, and at every column under the GAF
    preset, a field writes no coordinate warning. *)
Lemma field_step_quiet conf i v :
  id v <> bc conf \/ id v = sc conf \/ fmt_tag conf = TBX_GAF ->
  count_coordinate (log (ctl_vars (field_step sv conf i v)))
  = count_coordinate (log v).
Proof.
  intros H. unfold field_step.
  destruct (Z.eqb_spec (id v) (sc conf)) as [Hsc|Hsc]; [by destruct v|].
  destruct (Z.eqb_spec (id v) (bc conf)) as [Hbc|Hbc].
  { destruct H as [?|[?|Hg]]; [done|done|]. rewrite Hg.
    change (TBX_GAF =? TBX_GAF) with true. cbn match.
    destruct (gaf_path _ _ _ _ _) as [x y]. by destruct v. }
  apply log_step_coordinate.
  pose proof (field_step_log conf i v) as Hl. cbn zeta in Hl.
  unfold field_step in Hl.
  rewrite (proj2 (Z.eqb_neq _ _) Hsc), (proj2 (Z.eqb_neq _ _) Hbc) in Hl.
  by destruct Hl as [?|(? & _)].
Qed.

(** One call under a preset other than GAF: the coordinate warning is
    written when the begin column is read, and only then. *)
Lemma tbx_parse1_coordinate conf len buf rep lg :
  fmt_tag conf <> TBX_GAF ->
  fst (tbx_parse1 sv conf len buf rep lg) = 0 ->
  exists p,
    column_start buf (bc conf) p
    /\ let x := fst (strtoll buf p 0) in
       count_coordinate (log (snd (tbx_parse1 sv conf len buf rep lg)))
       = (count_coordinate lg
          + if ((if is_ucsc conf then x else wrap64 (x - 1)) <? 0)%Z
            then 1 else 0)%nat.
Proof.
  intros Hgaf. unfold tbx_parse1.
  set (E := fun v : vars =>
    (beg v = -1 /\ count_coordinate (log v) = count_coordinate lg)
    \/ (bc conf < id v
        /\ exists p,
             column_start buf (bc conf) p
             /\ count_coordinate (log v)
                = (count_coordinate lg
                   + if ((if is_ucsc conf then fst (strtoll buf p 0)
                          else wrap64 (fst (strtoll buf p 0) - 1)) <? 0)%Z
                     then 1 else 0)%nat)).
  pose proof (fields_loop_inv_ext conf buf E) as H.
  assert (Hstep : forall i v, loop_inv conf buf i v -> E v ->
    is_sep (rd buf i) = true ->
    match field_step sv conf i v with
    | Next v' => E (set_id (id v' + 1) (set_b (S i) v'))
    | Break v' => E v'
    | Return _ _ => True
    end).
  { intros i v Hinv He Hsep.
    pose proof Hinv as (Hline & _ & _ & Hcol & _).
    pose proof (field_step_basic conf i v) as (_ & _ & Hid & _).
    destruct (decide (id v <> bc conf \/ id v = sc conf)) as [Hq|Hq].
    - pose proof (field_step_quiet conf i v
                    ltac:(destruct Hq; [by left|by right; left])) as Hc.
      pose proof (field_step_not_bc conf i v Hq) as Hb.
      assert (G : forall w, id w = id v -> beg w = beg v ->
                    count_coordinate (log w) = count_coordinate (log v) ->
                    E (set_id (id w + 1) (set_b (S i) w)) /\ E w).
      { intros w E1 E2 E3. unfold E.
        cbn [beg log id set_id set_b]. rewrite E1, E2, E3.
        split; (destruct He as [?|(? & ?)]; [by left|right]);
          (split; [lia|done]). }
      destruct (field_step sv conf i v) as [w|w|r w]; cbn in *; [| |done];
        by destruct (G w Hid Hb Hc).
    - assert (Hbc : id v = bc conf) by (destruct (decide (id v = bc conf));
        [done|exfalso; apply Hq; by left]).
      assert (Hsc : id v <> sc conf) by (intros ?; apply Hq; by right).
      unfold field_step.
      rewrite (proj2 (Z.eqb_neq _ _) Hsc), Hbc, Z.eqb_refl.
      rewrite (proj2 (Z.eqb_neq _ _) Hgaf).
      pose proof (parse_beg_log conf v) as Hlog.
      destruct (parse_beg_cases conf v)
        as [(w & Hw & Hfr & _)|(w & Hw & _)]; rewrite Hw; [|done].
      specialize (Hlog w Hw). cbn zeta in Hlog.
      destruct Hfr as (_ & _ & _ & _ & Hidw & _).
      unfold E. cbn [beg log id set_id set_b]. right.
      split; [lia|]. exists (b v). split; [by rewrite <- Hbc|].
      rewrite Hlog, count_coordinate_app, Hline.
      destruct He as [[_ ->]|(? & _)]; [|lia].
      match goal with
      | |- context [if ?c then [WarnCoordinate] else []] => destruct c
      end; [by destruct count_single_coordinate as [_ ->]|reflexivity]. }
  specialize (H Hstep (S len) O (enter buf rep lg)
                (loop_inv_enter conf buf rep lg)
                ltac:(by left)).
  assert (Hfin : forall w, E w -> fst (finish conf w) = 0 ->
    exists p,
      column_start buf (bc conf) p
      /\ count_coordinate (log (snd (finish conf w)))
         = (count_coordinate lg
            + if ((if is_ucsc conf then fst (strtoll buf p 0)
                   else wrap64 (fst (strtoll buf p 0) - 1)) <? 0)%Z
              then 1 else 0)%nat).
  { intros w He Hr.
    destruct (finish_spec conf w) as (_ & _ & _ & _ & _ & -> & _ & Hok).
    destruct (Hok Hr) as (_ & _ & Hb0 & _).
    destruct He as [[? _]|(_ & p & ? & ?)]; [lia|]. by exists p. }
  destruct (fields_loop sv conf (S len) 0 (enter buf rep lg)) as [w|w|r w].
  - destruct H as (_ & _ & _ & He). by apply Hfin.
  - destruct H as (_ & _ & _ & He). by apply Hfin.
  - cbn. by rewrite H.
Qed.

(** One call under the GAF preset writes no coordinate warning. *)
Lemma tbx_parse1_gaf_quiet conf len buf rep lg :
  fmt_tag conf = TBX_GAF ->
  count_coordinate (log (snd (tbx_parse1 sv conf len buf rep lg)))
  = count_coordinate lg.
Proof.
  intros Hgaf. unfold tbx_parse1.
  pose proof (fields_loop_ind conf
                (fun v => count_coordinate (log v) = count_coordinate lg)
                (fun v => count_coordinate (log v) = count_coordinate lg))
    as H.
  assert (HQ : count_coordinate
                 (log (ctl_vars (fields_loop sv conf (S len) O
                                   (enter buf rep lg))))
               = count_coordinate lg).
  { apply H; [|done|done].
    intros i v Hv.
    pose proof (field_step_quiet conf i v
                  ltac:(by right; right)) as Hc.
    destruct (field_step sv conf i v) as [w|w|r w]; cbn [ctl_vars] in Hc;
      rewrite <- Hv, <- Hc; reflexivity. }
  destruct (fields_loop sv conf (S len) O (enter buf rep lg)) as [v|v|r v];
    cbn in HQ; try done;
    by destruct (finish_spec conf v) as (_ & _ & _ & _ & _ & -> & _).
Qed.

(** C7, as the code has it: over any sequence of calls in a process
    that starts with the latch open and nothing logged, the INFO/END
    warning is written at most once.  The coordinate warning has no
    latch: every call writes it at most once; a call that parses its
    line under a preset other than GAF writes it exactly when the number
    at the start of its begin column gives a negative begin, whatever
    the calls before it did; a call under the GAF preset never writes
    it. *)
Theorem warnings_per_process (calls : list (tbx_conf_t * nat * list Z)) :
  (count_info_end (snd (run_calls sv calls false [])) <= 1)%nat
  /\ (count_coordinate (snd (run_calls sv calls false []))
      <= length calls)%nat
  /\ (forall conf len buf rep lg,
        fmt_tag conf <> TBX_GAF ->
        fst (tbx_parse1 sv conf len buf rep lg) = 0 ->
        exists p,
          column_start buf (bc conf) p
          /\ let x := fst (strtoll buf p 0) in
             count_coordinate (log (snd (tbx_parse1 sv conf len buf rep lg)))
             = (count_coordinate lg
                + if ((if is_ucsc conf then x else wrap64 (x - 1)) <? 0)%Z
                  then 1 else 0)%nat)
  /\ (forall conf len buf rep lg,
        fmt_tag conf = TBX_GAF ->
        count_coordinate (log (snd (tbx_parse1 sv conf len buf rep lg)))
        = count_coordinate lg).
Proof.
  assert (H0 : latched false []).
  { split; [|done]. unfold count_info_end. simpl. lia. }
  destruct (run_calls_log calls false [] H0) as [[H1 _] H2].
  split; [done|]. split; [exact H2|].
  split; [apply tbx_parse1_coordinate|apply tbx_parse1_gaf_quiet].
Qed.

(** *** The GAF preset *)

Lemma gaf_path_fold fuel : forall buf i s be,
  gaf_path fuel buf i s be = fold_left gaf_acc (gaf_ids 0 fuel buf i s) be.
Proof.
  induction fuel as [|fuel IH]; intros buf i s be; simpl; [done|].
  destruct (s <? i)%nat; [|done].
  destruct (strtoll buf s 0) as [x t]. simpl. by rewrite IH.
Qed.

Lemma fold_gaf_acc_set ids : forall lo hi,
  -1 ∉ ids -> lo <> -1 ->
  fold_left gaf_acc ids (lo, hi) = (foldr Z.min lo ids, foldr Z.max hi ids).
Proof.
  induction ids as [|x ids IH]; intros lo hi Hno Hlo; simpl; [done|].
  apply not_elem_of_cons in Hno as [Hx Hno].
  unfold gaf_acc at 2. simpl. rewrite (proj2 (Z.eqb_neq _ _) Hlo).
  rewrite IH; [|done|destruct (x <? lo); congruence].
  f_equal.
  - destruct (Z.ltb_spec x lo).
    + clear IH Hno. induction ids as [|y ids IH]; simpl; lia.
    + clear IH Hno. induction ids as [|y ids IH]; simpl; lia.
  - destruct (Z.ltb_spec hi x).
    + clear IH Hno. induction ids as [|y ids IH]; simpl; lia.
    + clear IH Hno. induction ids as [|y ids IH]; simpl; lia.
Qed.

(** Without the value [-1] among them, the path leaves the smallest and
    the largest of its numbers. *)
Lemma fold_gaf_acc_min_max ids :
  -1 ∉ ids -> ids <> [] ->
  fold_left gaf_acc ids (-1, -1) = (list_min ids, list_max ids).
Proof.
  destruct ids as [|x ids]; [done|]. intros Hno _. simpl.
  apply not_elem_of_cons in Hno as [Hx Hno].
  unfold gaf_acc at 2. simpl. by rewrite fold_gaf_acc_set.
Qed.

Lemma gaf_inv_step conf buf i v :
  fmt_tag conf = TBX_GAF ->
  loop_inv conf buf i v -> gaf_inv conf buf v ->
  is_sep (rd buf i) = true ->
  match field_step sv conf i v with
  | Next v' => gaf_inv conf buf (set_id (id v' + 1) (set_b (S i) v'))
  | Break v' => gaf_inv conf buf v'
  | Return _ _ => True
  end.
Proof.
  intros Hgaf (Hline & Hid & Hb & Hcol & _) Hinv Esep.
  assert (Hkeep : forall w, beg w = beg v -> end_ w = end_ v ->
            id w = id v + 1 -> gaf_inv conf buf w).
  { intros w E1 E2 E3. unfold gaf_inv. rewrite E1, E2, E3.
    destruct Hinv as [?|(? & ?)]; [by left|right]. split; [lia|done]. }
  unfold field_step. rewrite Hgaf.
  destruct (Z.eqb_spec (id v) (sc conf)) as [Hsc|Hsc].
  { apply Hkeep; by destruct v. }
  destruct (Z.eqb_spec (id v) (bc conf)) as [Hbc|Hbc].
  - change (TBX_GAF =? TBX_GAF) with true. cbn match.
    destruct (gaf_path _ _ _ _ _) as [x y] eqn:Ep.
    unfold gaf_inv in *. right. destruct v; cbn in *. split; [lia|].
    destruct Hinv as [[-> ->]|[Hlt _]]; [|lia].
    eexists _, i. split; [by rewrite <- Hbc|]. split; [|by subst].
    split; [done|]. split; [done|]. destruct Hcol as [Hc _]. lia.
  - change (TBX_GAF =? TBX_GENERIC) with false.
    change (TBX_GAF =? TBX_SAM) with false.
    change (TBX_GAF =? TBX_VCF) with false.
    cbn match. apply Hkeep; by destruct v.
Qed.

(** C6, as the code has it: under the GAF preset a successful parse has
    read the numbers of the path in the begin column with [strtoll] in
    base 0 (a leading [0] is octal, [0x] is hexadecimal); when none of
    them is [-1], [beg] is their minimum and [end] their maximum; and
    [get_tid] gives every name the tid [0]. *)
Theorem gaf_min_max conf len buf rep lg :
  fmt_tag conf = TBX_GAF ->
  fst (tbx_parse1 sv conf len buf rep lg) = 0 ->
  (exists p i,
     column_start buf (bc conf) p /\ column_end buf p i
     /\ gaf_node_ids 0 buf p i <> []
     /\ (-1 ∉ gaf_node_ids 0 buf p i ->
         beg (snd (tbx_parse1 sv conf len buf rep lg))
         = list_min (gaf_node_ids 0 buf p i)
         /\ end_ (snd (tbx_parse1 sv conf len buf rep lg))
            = list_max (gaf_node_ids 0 buf p i)))
  /\ (forall d name is_add,
        get_tid (mk_tbx conf d) name is_add = (0, mk_tbx conf d)).
Proof.
  intros Hgaf Hr. split.
  2:{ intros d name is_add. unfold get_tid. cbn. by rewrite Hgaf. }
  revert Hr. unfold tbx_parse1.
  assert (H0 : gaf_inv conf buf (enter buf rep lg)) by (by left).
  pose proof (fields_loop_inv_ext conf buf (gaf_inv conf buf)
                (fun i v => gaf_inv_step conf buf i v Hgaf)
                (S len) O _ (loop_inv_enter conf buf rep lg) H0) as H.
  assert (G : forall v, gaf_inv conf buf v -> fst (finish conf v) = 0 ->
    exists p i,
     column_start buf (bc conf) p /\ column_end buf p i
     /\ gaf_node_ids 0 buf p i <> []
     /\ (-1 ∉ gaf_node_ids 0 buf p i ->
         beg (snd (finish conf v)) = list_min (gaf_node_ids 0 buf p i)
         /\ end_ (snd (finish conf v)) = list_max (gaf_node_ids 0 buf p i))).
  { intros v Hinv Hfin.
    destruct (finish_spec conf v) as (_ & _ & _ & Eb & Ee & _ & _ & Hok).
    destruct (Hok Hfin) as (_ & _ & Hbeg & _).
    rewrite Eb, Ee by (rewrite Hgaf; done).
    destruct Hinv as [[Hb _]|(_ & p & i & Hp & Hi & Hpath)]; [lia|].
    exists p, i. split; [done|]. split; [done|].
    rewrite gaf_path_fold in Hpath. fold (gaf_node_ids 0 buf p i) in Hpath.
    assert (Hne : gaf_node_ids 0 buf p i <> []).
    { intros E. rewrite E in Hpath. simpl in Hpath.
      injection Hpath as Hb _. lia. }
    split; [done|]. intros Hno.
    rewrite fold_gaf_acc_min_max in Hpath by done.
    by injection Hpath as -> ->. }
  destruct (fields_loop sv conf (S len) O (enter buf rep lg)) as [v|v|r v].
  - destruct H as (_ & _ & _ & H). by apply G.
  - destruct H as (_ & _ & _ & H). by apply G.
  - cbn. intros ->. done.
Qed.

(** *** The clamp *)

Lemma strtoll_range buf p base :
  LLONG_MIN <= fst (strtoll buf p base) <= LLONG_MAX.
Proof.
  unfold strtoll. destruct (strtoll_list (drop p buf) base) as [y k] eqn:El.
  cbn [fst]. unfold strtoll_list in El.
  destruct (read_sign _) as [neg k1]. destruct (read_base _ _) as [b' k2].
  destruct (read_digits _ _ _) as [d [|m]]; injection El as <- <-;
    [unfold LLONG_MIN, LLONG_MAX; lia|apply clamp64_range].
Qed.

Lemma svlen_loop_bounds fuel : forall v s d,
  0 <= svlen v <= LLONG_MAX ->
  0 <= svlen (svlen_loop fuel v s d) <= LLONG_MAX.
Proof.
  induction fuel as [|fuel IH]; intros v s d Hv; simpl; [done|].
  destruct s as [s|]; [|done].
  destruct (d <? alcnt v); [|done].
  apply IH. cbn [svlen set_svlen].
  set (tmp := if use_svlen v && _ then _ else 1).
  assert (Ht : tmp <= LLONG_MAX).
  { subst tmp. destruct (use_svlen v && _); [|unfold LLONG_MAX; lia].
    pose proof (strtoll_range (line v) s 10) as Ha. fold (atoll (line v) s) in Ha.
    destruct (atoll (line v) s <? 0); [apply wrap64_range|lia]. }
  destruct (Z.ltb_spec (svlen v) tmp); lia.
Qed.

(** The INFO column leaves [end] as it was or sets it above [beg], and
    keeps [svlen] in range. *)
Lemma scan_info_end i v :
  (end_ (scan_info i v) = end_ v \/ beg v < end_ (scan_info i v))
  /\ (0 <= svlen v <= LLONG_MAX -> 0 <= svlen (scan_info i v) <= LLONG_MAX).
Proof.
  unfold scan_info.
  set (v1 := set_line (wr (line v) i 0) v).
  set (v2 := match find_tag (line v1) (b v1) (lit "END=") with
             | Some s => _
             | None => v1
             end).
  assert (H2 : (end_ v2 = end_ v \/ beg v < end_ v2) /\ svlen v2 = svlen v).
  { subst v2. destruct (find_tag _ _ _) as [s|]; [|by split; [left|]].
    destruct (negb _); [|by split; [left|]].
    destruct (Z.leb_spec (fst (strtoll (line v1) s 0)) (beg v1)).
    - destruct (reported v1); by split; [left|].
    - split; [right; exact H|done]. }
  destruct H2 as [He Hs].
  pose proof (svlen_loop_bounds (Z.to_nat (alcnt v2)) v2
                (find_tag (line v2) (b v2) (lit "SVLEN=")) 1) as Hb.
  destruct (svlen_loop_shape (Z.to_nat (alcnt v2)) v2
              (find_tag (line v2) (b v2) (lit "SVLEN=")) 1) as [x Hx].
  rewrite Hx in *. cbn [end_ svlen set_line set_svlen] in *.
  split; [exact He|]. intros Hv. apply Hb. by rewrite Hs.
Qed.

Lemma sample_loop_le fuel : forall buf s d lenpos,
  sample_loop fuel buf s d lenpos <= LLONG_MAX.
Proof.
  induction fuel as [|fuel IH]; intros buf s d lenpos; simpl;
    [unfold LLONG_MAX; lia|].
  destruct (d <=? lenpos); [|unfold LLONG_MAX; lia].
  destruct (d =? lenpos); [apply strtoll_range|].
  destruct (strchr buf s COLON); [apply IH|unfold LLONG_MAX; lia].
Qed.

(** The loop over the bytes of a line of [len] bytes: a property that
    every field at a byte of the line keeps holds when the loop is
    left. *)
Lemma fields_loop_upto conf len (P : vars -> Prop) :
  (forall i v, (i <= len)%nat -> P v ->
     match field_step sv conf i v with
     | Next v' => P (set_id (id v' + 1) (set_b (S i) v'))
     | Break v' => P v'
     | Return _ _ => True
     end) ->
  forall n i v, (i + n = S len)%nat -> P v ->
  match fields_loop sv conf n i v with
  | Next w | Break w => P w
  | Return _ _ => True
  end.
Proof.
  intros Hstep. induction n as [|n IH]; intros i v Hn HP; simpl; [done|].
  destruct (is_sep (rd (line v) i)); [|apply IH; [lia|done]].
  specialize (Hstep i v ltac:(lia) HP).
  destruct (field_step sv conf i v) as [v'|v'|r v']; [|done|done].
  apply IH; [lia|done].
Qed.

(** A field keeps [clamp_inv], when no column that is read after the
    begin column sets [end]. *)
Lemma clamp_step conf len i v :
  fmt_tag conf <> TBX_GAF ->
  (fmt_tag conf = TBX_GENERIC -> ec conf <= bc conf) ->
  (fmt_tag conf = TBX_SAM -> 6 <= bc conf) ->
  (fmt_tag conf = TBX_VCF -> Z.of_nat len < 2 ^ 63) ->
  (i <= len)%nat -> clamp_inv conf len v ->
  match field_step sv conf i v with
  | Next v' => clamp_inv conf len (set_id (id v' + 1) (set_b (S i) v'))
  | Break v' => clamp_inv conf len v'
  | Return _ _ => True
  end.
Proof.
  intros Hgaf Hgen Hsam Hvcf Hi (Hrl & Hsl & Hfl & Hbe).
  assert (Hsame : forall w,
    reflen w = reflen v -> svlen w = svlen v -> fmtlen w = fmtlen v ->
    beg w = beg v -> end_ w = end_ v -> id w = id v ->
    clamp_inv conf len (set_id (id w + 1) (set_b (S i) w))
    /\ clamp_inv conf len w).
  { intros w E1 E2 E3 E4 E5 E6. unfold clamp_inv.
    cbn [reflen svlen fmtlen beg end_ id set_id set_b].
    rewrite E1, E2, E3, E4, E5, E6.
    split; (split; [done|]); (split; [done|]); (split; [done|]);
      (destruct Hbe as [?|(? & ? & [?|(? & ? & ? & ?)])];
       [by left|right|right]);
      (split; [done|]); (split; [lia|]);
      first [by left | right; repeat split; [done|lia|done|done]]. }
  unfold field_step.
  destruct (Z.eqb_spec (id v) (sc conf)) as [Hsc|Hsc].
  { refine (proj1 (Hsame _ _ _ _ _ _ _)); by destruct v. }
  destruct (Z.eqb_spec (id v) (bc conf)) as [Hbc|Hbc].
  { rewrite (proj2 (Z.eqb_neq _ _) Hgaf).
    destruct (parse_beg_cases conf v)
      as [(w & -> & Hfr & _ & Hb & He & _)|(w & -> & _)]; [|done].
    unfold frame_beg in Hfr. destruct_and!.
    unfold clamp_inv. cbn [reflen svlen fmtlen beg end_ id set_id set_b].
    repeat match goal with H : _ w = _ v |- _ => rewrite H end.
    split; [done|]. split; [done|]. split; [done|].
    right. split; [done|]. split; [lia|]. by left. }
  assert (Hlater : beg v = -1 \/ bc conf < id v).
  { destruct Hbe as [?|(_ & ? & _)]; [by left|by right]. }
  assert (Hkeep : forall w,
    reflen w = reflen v -> svlen w = svlen v -> fmtlen w = fmtlen v ->
    beg w = beg v -> id w = id v -> beg v = -1 ->
    clamp_inv conf len (set_id (id w + 1) (set_b (S i) w))
    /\ clamp_inv conf len w).
  { intros w E1 E2 E3 E4 E6 Hm. unfold clamp_inv.
    cbn [reflen svlen fmtlen beg end_ id set_id set_b].
    rewrite E1, E2, E3, E4.
    split; (split; [done|]); (split; [done|]); (split; [done|]); by left. }
  destruct (Z.eqb_spec (fmt_tag conf) TBX_GENERIC) as [Hf|Hf].
  { destruct (Z.eqb_spec (id v) (ec conf)) as [Hec|Hec];
      [|by refine (proj1 (Hsame _ _ _ _ _ _ _))].
    destruct Hlater as [Hm|Hl]; [|specialize (Hgen Hf); lia].
    destruct (strtoll (line v) (b v) 0) as [x s].
    destruct (s =? b (set_end_ x v))%nat; [done|].
    refine (proj1 (Hkeep _ _ _ _ _ _ _)); by destruct v. }
  destruct (Z.eqb_spec (fmt_tag conf) TBX_SAM) as [Hf'|Hf'].
  { destruct (Z.eqb_spec (id v) 6) as [H6|H6];
      [|by refine (proj1 (Hsame _ _ _ _ _ _ _))].
    destruct Hlater as [Hm|Hl]; [|specialize (Hsam Hf'); lia].
    refine (proj1 (Hkeep _ _ _ _ _ _ _)); by destruct v. }
  destruct (Z.eqb_spec (fmt_tag conf) TBX_VCF) as [Hv|Hv];
    [|by refine (proj1 (Hsame _ _ _ _ _ _ _))].
  specialize (Hvcf Hv). unfold vcf_field.
  set (v1 := if id v =? 4 then _ else v).
  assert (H1 : svlen v1 = svlen v /\ fmtlen v1 = fmtlen v /\ beg v1 = beg v
               /\ id v1 = id v /\ clamp_inv conf len (set_id (id v1 + 1) v1)
               /\ (id v <> 4 -> clamp_inv conf len v1)).
  { subst v1. destruct (Z.eqb_spec (id v) 4) as [H4|H4].
    2:{ by destruct (Hsame v) as [G1 G2]. }
    assert (Hn : 0 <= Z.of_nat (i - b v) <= Z.of_nat len) by lia.
    split; [by destruct (b v <? i)%nat|].
    split; [by destruct (b v <? i)%nat|].
    split; [by destruct (b v <? i)%nat|].
    split; [by destruct (b v <? i)%nat|].
    split; [|done].
    unfold clamp_inv. cbn [reflen svlen fmtlen beg end_ id set_id set_reflen].
    destruct (Nat.ltb_spec (b v) i) as [Hbi|Hbi];
      cbn [reflen svlen fmtlen beg end_ id set_id set_reflen set_alcnt
           set_end_];
      (split; [done|]); (split; [done|]); (split; [done|]).
    - destruct Hbe as [?|(Hb0 & Hid & _)]; [by left|right].
      split; [done|]. split; [lia|].
      unfold LLONG_MAX in *.
      destruct (Z.lt_ge_cases (beg v + Z.of_nat (i - b v)) (2 ^ 63)) as [Hs|Hs].
      + left. rewrite wrap64_id by (unfold LLONG_MIN, LLONG_MAX; lia). lia.
      + right. split; [done|]. split; [lia|]. split; [|lia].
        unfold wrap64.
        replace (beg v + Z.of_nat (i - b v) + 2 ^ 63)
          with ((beg v + Z.of_nat (i - b v) - 2 ^ 63) + 1 * 2 ^ 64) by lia.
        rewrite Z.mod_add by lia. rewrite Z.mod_small by lia. lia.
    - destruct Hbe as [?|(Hb0 & Hid & [He|(_ & ? & _)])];
        [by left|right|lia].
      split; [done|]. split; [lia|]. by left. }
  clearbody v1. destruct H1 as (Es & Ef & Eb & Ei & Hnext & Hcur).
  assert (Hfrom : forall w,
    reflen w = reflen v1 -> svlen w = svlen v1 -> fmtlen w = fmtlen v1 ->
    beg w = beg v1 -> end_ w = end_ v1 -> id w = id v1 ->
    clamp_inv conf len (set_id (id w + 1) (set_b (S i) w))).
  { intros w E1 E2 E3 E4 E5 E6. revert Hnext. unfold clamp_inv.
    cbn [reflen svlen fmtlen beg end_ id set_id set_b].
    by rewrite E1, E2, E3, E4, E5, E6. }
  destruct (Z.eqb_spec (id v1) 5) as [H5|H5].
  { pose proof (scan_alt_frame i v1) as F. unfold frame_alt in F.
    destruct_and!. by apply Hfrom. }
  destruct (Z.eqb_spec (id v1) 8) as [H8|H8].
  { pose proof (scan_info_frame i v1) as F. unfold frame_info in F.
    destruct_and!.
    destruct (scan_info_end i v1) as [He Hs'].
    revert Hnext. unfold clamp_inv.
    cbn [reflen svlen fmtlen beg end_ id set_id set_b].
    repeat match goal with
           | H : _ (scan_info i v1) = _ v1 |- _ => rewrite H
           end.
    intros (G1 & G2 & G3 & G4).
    split; [done|]. split; [by apply Hs'|]. split; [done|].
    destruct G4 as [?|(Hb0 & Hid & G4)]; [by left|right].
    split; [done|]. split; [done|].
    destruct He as [->|He]; [done|]. left. lia. }
  destruct (getlen v1 && (id v1 =? 9)) eqn:E9.
  { pose proof (scan_format_frame i v1) as F. unfold frame_format in F.
    destruct_and!.
    assert (Hn4 : id v <> 4).
    { apply andb_true_iff in E9 as [_ E9]. apply Z.eqb_eq in E9. lia. }
    destruct (lenpos (scan_format i v1) =? -1); [|by apply Hfrom].
    specialize (Hcur Hn4). revert Hcur. unfold clamp_inv.
    by repeat match goal with
              | H : _ (scan_format i v1) = _ v1 |- _ => rewrite H
              end. }
  destruct ((9 <? id v1) && getlen v1 && negb (lenpos v1 =? -1)).
  { pose proof (scan_sample_frame i v1) as F. unfold frame_sample in F.
    destruct_and!.
    revert Hnext. unfold clamp_inv.
    cbn [reflen svlen fmtlen beg end_ id set_id set_b].
    repeat match goal with
           | H : _ (scan_sample i v1) = _ v1 |- _ => rewrite H
           end.
    intros (G1 & G2 & G3 & G4).
    split; [done|]. split; [done|]. split; [|done].
    unfold scan_sample. cbn [fmtlen set_line set_fmtlen].
    pose proof (sample_loop_le (S (i - b v1)) (wr (line v1) i 0) (b v1) 0
                  (lenpos v1)) as Hle.
    cbn [line set_line b lenpos] in *.
    destruct (Z.ltb_spec (fmtlen v1)
                (sample_loop (S (i - b v1)) (wr (line v1) i 0) (b v1) 0
                   (lenpos v1))); lia. }
  cbn. revert Hnext. unfold clamp_inv.
  by cbn [reflen svlen fmtlen beg end_ id set_id set_b].
Qed.

(** C3, as the code has it: a successful parse returns [beg >= 0] and
    [end >= 0].  The clamp of [beg] to [0] and of [end] to at least [1]
    is made where the begin column is read, under every preset but GAF,
    so [end >= 1] holds as well when no column that is read after the
    begin column sets [end] below [1]: under the VCF preset (for a line
    shorter than [2^63] bytes), under the generic preset when the end
    column is not after the begin column, under the SAM preset when the
    CIGAR column is not after the begin column, and under every other
    preset tag but GAF. *)
Theorem tbx_parse1_clamp conf len buf rep lg :
  fst (tbx_parse1 sv conf len buf rep lg) = 0 ->
  0 <= beg (snd (tbx_parse1 sv conf len buf rep lg))
  /\ 0 <= end_ (snd (tbx_parse1 sv conf len buf rep lg))
  /\ (fmt_tag conf <> TBX_GAF ->
      (fmt_tag conf = TBX_GENERIC -> ec conf <= bc conf) ->
      (fmt_tag conf = TBX_SAM -> 6 <= bc conf) ->
      (fmt_tag conf = TBX_VCF -> Z.of_nat len < 2 ^ 63) ->
      1 <= end_ (snd (tbx_parse1 sv conf len buf rep lg))).
Proof.
  intros Hr.
  destruct (tbx_parse1_ok conf len buf rep lg Hr) as (_ & Hb & He & _).
  split; [done|]. split; [done|].
  intros Hgaf Hgen Hsam Hvcf. revert Hr Hb He. unfold tbx_parse1.
  pose proof (fields_loop_upto conf len (clamp_inv conf len)
                (fun i v Hi Hv =>
                   clamp_step conf len i v Hgaf Hgen Hsam Hvcf Hi Hv)
                (S len) O (enter buf rep lg) eq_refl) as H.
  assert (H0 : clamp_inv conf len (enter buf rep lg)).
  { unfold clamp_inv. cbn. unfold LLONG_MAX.
    split; [lia|]. split; [lia|]. split; [lia|]. by left. }
  specialize (H H0).
  assert (Hfin : forall w, clamp_inv conf len w ->
    fst (finish conf w) = 0 -> 0 <= beg (snd (finish conf w)) ->
    0 <= end_ (snd (finish conf w)) -> 1 <= end_ (snd (finish conf w))).
  { intros w (Hrl & Hsl & Hfl & Hbe) _.
    destruct (finish_spec conf w) as (_ & _ & _ & Eb & Ee & _).
    rewrite Eb. intros Hb0 He0.
    destruct Hbe as [?|(Hb1 & _ & Hend)]; [lia|].
    destruct (Z.eq_dec (fmt_tag conf) TBX_VCF) as [Hv|Hv].
    2:{ rewrite Ee in * by done.
        destruct Hend as [?|(? & _)]; [done|by destruct Hv]. }
    specialize (Hvcf Hv). revert He0. unfold finish.
    rewrite Hv. change (TBX_VCF =? TBX_VCF) with true. cbn match.
    set (m := if reflen w <? svlen w then _ else _).
    assert (Hm : reflen w <= m <= LLONG_MAX).
    { subst m. unfold LLONG_MAX in *.
      destruct (Z.ltb_spec (reflen w) (svlen w)).
      - destruct (Z.ltb_spec (svlen w) (fmtlen w)); lia.
      - destruct (Z.ltb_spec (reflen w) (fmtlen w)); lia. }
    set (tmp := wrap64 (m + beg w)).
    assert (Ht : tmp = m + beg w \/ tmp < 0).
    { subst tmp. unfold LLONG_MAX in *.
      destruct (Z.lt_ge_cases (m + beg w) (2 ^ 63)) as [Hs|Hs].
      - left. apply wrap64_id. unfold LLONG_MIN, LLONG_MAX. lia.
      - right. unfold wrap64.
        replace (m + beg w + 2 ^ 63)
          with ((m + beg w - 2 ^ 63) + 1 * 2 ^ 64) by lia.
        rewrite Z.mod_add by lia. rewrite Z.mod_small by lia. lia. }
    set (v1 := set_end_ _ w).
    assert (E1 : end_ v1 = if end_ w <? tmp then tmp else end_ w) by done.
    assert (E2 : forall c : bool,
              end_ (snd (if c then (-1, v1) else (0, v1))) = end_ v1)
      by (by intros []).
    rewrite E2, E1.
    destruct (Z.ltb_spec (end_ w) tmp); destruct Hend as [?|(_ & _ & ? & ?)];
      lia. }
  pose proof (fields_loop_basic conf (S len) O (enter buf rep lg)) as Hbs.
  cbn zeta in Hbs. destruct Hbs as [_ Hret].
  destruct (fields_loop sv conf (S len) 0 (enter buf rep lg)) as [w|w|r w];
    [by apply Hfin|by apply Hfin|].
  cbn. intros Hr. by rewrite (Hret r w eq_refl) in Hr.
Qed.

(** *** Texts in a buffer *)

Lemma ends_cases rest : ends rest -> rest = [] \/ exists r, rest = 0 :: r.
Proof.
  unfold ends. destruct rest as [|x r]; simpl; [by left|].
  intros H. right. exists r.
  apply elem_of_cons in H as [H|H]; [done|].
  apply list_elem_of_singleton in H. by injection H as ->.
Qed.

Lemma cstr_text t rest : 0 ∉ t -> ends rest -> cstr (t ++ rest) = t.
Proof.
  intros Ht Hr. induction t as [|x t IH]; simpl.
  - destruct (ends_cases _ Hr) as [->|[r ->]]; done.
  - apply not_elem_of_cons in Ht as [Hx Ht].
    rewrite (proj2 (Z.eqb_neq _ _) (not_eq_sym Hx)). by rewrite IH.
Qed.

Lemma find_char_text c t rest :
  0 ∉ t -> ends rest -> find_char c (t ++ rest) = find_char c t.
Proof.
  intros Ht Hr. induction t as [|x t IH]; simpl.
  - destruct (ends_cases _ Hr) as [->|[r ->]]; done.
  - apply not_elem_of_cons in Ht as [Hx Ht]. by rewrite IH.
Qed.

Lemma starts_with_text n t rest :
  0 ∉ n -> ends rest -> starts_with n (t ++ rest) = starts_with n t.
Proof.
  intros Hn Hr. revert t. induction n as [|a n IH]; intros t; simpl; [done|].
  apply not_elem_of_cons in Hn as [Ha Hn].
  destruct t as [|x t]; simpl.
  - destruct (ends_cases _ Hr) as [->|[r ->]]; [done|].
    simpl. by destruct a.
  - by rewrite IH.
Qed.

Lemma find_str_text n t rest :
  0 ∉ n -> n <> [] -> 0 ∉ t -> ends rest ->
  find_str n (t ++ rest) = find_str n t.
Proof.
  intros Hn Hne Ht Hr. induction t as [|x t IH]; simpl.
  - destruct (ends_cases _ Hr) as [->|[r ->]]; [done|].
    destruct n as [|a n]; [done|]. simpl.
    apply not_elem_of_cons in Hn as [Ha _]. by destruct a.
  - apply not_elem_of_cons in Ht as [Hx Ht].
    change (x :: t ++ rest) with ((x :: t) ++ rest).
    rewrite (starts_with_text n (x :: t) rest Hn Hr).
    by rewrite IH.
Qed.

(** *** [strtoll] stops at a byte that is no space, sign or digit *)

Lemma stops_nul : stops 0.
Proof. by repeat split. Qed.

Lemma ends_stopped rest : ends rest -> stopped rest.
Proof.
  intros H. destruct (ends_cases _ H) as [->|[r ->]]; [done|apply stops_nul].
Qed.

Lemma skip_space_stopped t rest :
  stopped rest -> skip_space (t ++ rest) = skip_space t.
Proof.
  intros Hr. induction t as [|x t IH]; simpl.
  - destruct rest as [|c r]; [done|]. simpl. by destruct Hr as (-> & _).
  - destruct (isspace x); [by rewrite IH|done].
Qed.

Lemma skip_space_le t : (skip_space t <= length t)%nat.
Proof.
  induction t as [|x t IH]; simpl; [lia|]. destruct (isspace x); simpl; lia.
Qed.

Lemma read_sign_stopped t rest :
  stopped rest -> read_sign (t ++ rest) = read_sign t.
Proof.
  intros Hr. destruct t as [|x t]; simpl; [|done].
  destruct rest as [|c r]; [done|]. destruct Hr as (_ & H1 & H2 & _).
  unfold read_sign.
  destruct c as [|p|p]; try done.
  do 6 (destruct p as [p|p|]; try done).
Qed.

Lemma read_sign_le t : (snd (read_sign t) <= length t)%nat.
Proof.
  unfold read_sign. destruct t as [|c t]; simpl; [lia|].
  destruct c as [|p|p]; simpl; try lia.
  do 6 (destruct p as [p|p|]; simpl; try lia).
Qed.

Lemma read_digits_stopped base t rest : forall acc,
  stopped rest -> read_digits base acc (t ++ rest) = read_digits base acc t.
Proof.
  intros acc Hr. revert acc. induction t as [|x t IH]; intros acc; simpl.
  - destruct rest as [|c r]; [done|]. simpl.
    destruct Hr as (_ & _ & _ & ->). done.
  - destruct (digit_val x) as [d|]; [|done].
    destruct (d <? base); [|done]. by rewrite IH.
Qed.

Lemma is_digit_stops base c : stops c -> is_digit base c = false.
Proof. intros (_ & _ & _ & H). unfold is_digit. by rewrite H. Qed.

Lemma read_base_stopped base t rest :
  stopped rest -> read_base base (t ++ rest) = read_base base t.
Proof.
  intros Hr. unfold read_base.
  assert (Hx : forall c, stops c -> ((c =? 120) || (c =? 88)) = false).
  { intros c (_ & _ & _ & H).
    destruct (Z.eqb_spec c 120) as [->|]; [done|].
    destruct (Z.eqb_spec c 88) as [->|]; done. }
  assert (H0 : forall c, stops c -> c <> 48).
  { intros c (_ & _ & _ & H) ->. done. }
  destruct t as [|a [|x [|h t]]]; simpl.
  - destruct rest as [|c r]; [done|]. simpl in Hr.
    pose proof (H0 c Hr) as Hc.
    assert (E : match c with 48 => true | _ => false end = false).
    { destruct c as [|p|p]; try done.
      do 6 (destruct p as [p|p|]; try done). }
    destruct c as [|p|p]; try (by rewrite ?andb_false_r).
    do 6 (destruct p as [p|p|]; try (by rewrite ?andb_false_r)).
  - destruct rest as [|c r]; [done|]. simpl in Hr.
    destruct r as [|c' r].
    + done.
    + destruct a as [|p|p]; try done.
      do 6 (destruct p as [p|p|]; try done).
      by rewrite (Hx c Hr).
  - destruct rest as [|c r]; [done|]. simpl in Hr.
    destruct a as [|p|p]; try done.
    do 6 (destruct p as [p|p|]; try done).
    by rewrite (is_digit_stops 16 c Hr), !andb_false_r.
  - done.
Qed.

Lemma read_base_le base t : (snd (read_base base t) <= length t)%nat.
Proof.
  unfold read_base.
  set (hex := match t with
              | 48 :: x :: h :: _ => ((x =? 120) || (x =? 88)) && is_digit 16 h
              | _ => false
              end).
  assert (Hhex : hex = true -> (3 <= length t)%nat).
  { unfold hex. destruct t as [|a [|x [|h t]]]; simpl; try lia;
      try done; destruct a as [|p|p]; try done;
      do 6 (destruct p as [p|p|]; try done). }
  clearbody hex. destruct hex.
  - destruct ((base =? 0) || (base =? 16)); simpl; [specialize (Hhex eq_refl); lia|].
    destruct (base =? 0); [|simpl; lia].
    destruct t as [|c t]; simpl; [lia|].
    destruct c as [|p|p]; simpl; try lia.
    do 6 (destruct p as [p|p|]; simpl; try lia).
  - rewrite andb_false_r.
    destruct (base =? 0); [|simpl; lia].
    destruct t as [|c t]; simpl; [lia|].
    destruct c as [|p|p]; simpl; try lia.
    do 6 (destruct p as [p|p|]; simpl; try lia).
Qed.

(** [strtoll] reads a text that is followed by a stopping byte as it
    reads the text alone. *)
Lemma strtoll_list_stopped t rest base :
  stopped rest -> strtoll_list (t ++ rest) base = strtoll_list t base.
Proof.
  intros Hr. unfold strtoll_list.
  rewrite skip_space_stopped by done.
  pose proof (skip_space_le t) as H0.
  rewrite drop_app_le by done.
  rewrite read_sign_stopped by done.
  pose proof (read_sign_le (drop (skip_space t) t)) as H1.
  destruct (read_sign (drop (skip_space t) t)) as [neg k1]. simpl in H1.
  rewrite drop_app_le by done.
  rewrite read_base_stopped by done.
  pose proof (read_base_le base (drop k1 (drop (skip_space t) t))) as H2.
  destruct (read_base base _) as [b' k2]. simpl in H2.
  rewrite drop_app_le by done.
  by rewrite read_digits_stopped.
Qed.

(** *** Pieces of a text *)

Lemma split_by_nonempty f l : split_by f l <> [].
Proof.
  destruct l as [|x l]; simpl; [done|].
  destruct (f x); [done|]. by destruct (split_by f l).
Qed.

Lemma split_on_none c u :
  0 ∉ u -> find_char c u = None -> split_on c u = [u].
Proof.
  unfold split_on. induction u as [|x u IH]; simpl; [done|].
  intros Hu. apply not_elem_of_cons in Hu as [Hx Hu].
  rewrite (proj2 (Z.eqb_neq _ _) (not_eq_sym Hx)).
  destruct (x =? c); [done|].
  destruct (find_char c u); [done|]. intros _. by rewrite IH.
Qed.

Lemma split_on_some c u k :
  0 ∉ u -> find_char c u = Some k ->
  split_on c u = take k u :: split_on c (drop (S k) u)
  /\ (k < length u)%nat /\ u !! k = Some c.
Proof.
  unfold split_on. revert k. induction u as [|x u IH]; intros k; simpl; [done|].
  intros Hu. apply not_elem_of_cons in Hu as [Hx Hu].
  rewrite (proj2 (Z.eqb_neq _ _) (not_eq_sym Hx)).
  destruct (Z.eqb_spec x c) as [->|Hc].
  - intros [= <-]. simpl. split; [done|]. split; [lia|done].
  - destruct (find_char c u) as [j|] eqn:E; [|done]. simpl.
    intros [= <-]. destruct (IH j Hu eq_refl) as (-> & Hj & Hl).
    simpl. split; [done|]. split; [lia|done].
Qed.

Lemma not_elem_of_take (x : Z) k l : x ∉ l -> x ∉ take k l.
Proof. intros H Hin. apply H. by apply (subseteq_take k l). Qed.

Lemma not_elem_of_drop (x : Z) k l : x ∉ l -> x ∉ drop k l.
Proof. intros H Hin. apply H. by apply (subseteq_drop k l). Qed.

(** *** Texts and writes *)

Lemma text_at_cstr buf s t : text_at buf s t -> cstr_at buf s = t.
Proof.
  intros (Ht & rest & E & Hr). unfold cstr_at. rewrite E.
  by apply cstr_text.
Qed.

Lemma text_at_strchr buf s t c :
  text_at buf s t ->
  strchr buf s c = (fun k => (s + k)%nat) <$> find_char c t.
Proof.
  intros (Ht & rest & E & Hr). unfold strchr. rewrite E.
  by rewrite find_char_text.
Qed.

Lemma text_at_strtoll buf s t base :
  text_at buf s t ->
  strtoll buf s base
  = (fst (strtoll_list t base), (s + snd (strtoll_list t base))%nat).
Proof.
  intros (Ht & rest & E & Hr). unfold strtoll. rewrite E.
  rewrite strtoll_list_stopped by by apply ends_stopped.
  by destruct (strtoll_list t base).
Qed.

Lemma text_at_atoll buf s t : text_at buf s t -> atoll buf s = atoll_of t.
Proof.
  intros H. unfold atoll, atoll_of. by rewrite (text_at_strtoll _ _ _ _ H).
Qed.

Lemma text_at_rd buf s t :
  text_at buf s t -> rd buf s = default 0 (head t).
Proof.
  intros (Ht & rest & E & Hr).
  replace s with (s + 0)%nat by lia. rewrite <- rd_drop, E.
  destruct t as [|x t]; [|done]. simpl.
  destruct (ends_cases _ Hr) as [->|[r ->]]; done.
Qed.

(** The text from a later offset on. *)
Lemma text_at_drop buf s t k :
  text_at buf s t -> (k <= length t)%nat -> text_at buf (s + k) (drop k t).
Proof.
  intros (Ht & rest & E & Hr) Hk. split; [by apply not_elem_of_drop|].
  exists rest. split; [|done].
  rewrite <- drop_drop, E. by rewrite drop_app_le.
Qed.

(** A NUL written into a text cuts it there. *)
Lemma text_at_poke buf s t k :
  text_at buf s t -> (k < length t)%nat ->
  text_at (wr buf (s + k) 0) s (take k t).
Proof.
  intros (Ht & rest & E & Hr) Hk. split; [by apply not_elem_of_take|].
  exists (0 :: drop (S k) t ++ rest). split; [|by (right; left)].
  unfold wr. rewrite drop_insert_ge by lia.
  replace (s + k - s)%nat with k by lia. rewrite E.
  rewrite insert_app_l by done.
  by rewrite insert_take_drop, <- app_assoc by done.
Qed.

Lemma before_find_some c u k :
  0 ∉ u -> find_char c u = Some k -> before c u = take k u.
Proof.
  revert k. induction u as [|x u IH]; intros k H0; simpl; [done|].
  apply not_elem_of_cons in H0 as [Hx H0].
  rewrite (proj2 (Z.eqb_neq _ _) (not_eq_sym Hx)).
  destruct (x =? c); [by intros [= <-]|].
  destruct (find_char c u) as [j|]; [|done].
  simpl. intros [= <-]. simpl. by rewrite (IH j).
Qed.

Lemma before_find_none c u :
  0 ∉ u -> find_char c u = None -> before c u = u.
Proof.
  induction u as [|x u IH]; intros H0; simpl; [done|].
  apply not_elem_of_cons in H0 as [Hx H0].
  rewrite (proj2 (Z.eqb_neq _ _) (not_eq_sym Hx)).
  destruct (x =? c); [done|].
  destruct (find_char c u); [done|]. intros _. by rewrite IH.
Qed.

(** *** The ALT column *)

Lemma alt_count_line lb v : line (snd (alt_count lb v)) = line v.
Proof.
  unfold alt_count. destruct (negb _); by destruct v.
Qed.

Lemma alt_test_set_line a lb v l :
  alt_test sv a lb (set_line l v) = set_line l (alt_test sv a lb v).
Proof.
  unfold alt_test. destruct (sv a); [by destruct v|].
  destruct (_ || _); by destruct v.
Qed.

Lemma set_line_set_line l l' v : set_line l (set_line l' v) = set_line l v.
Proof. by destruct v. Qed.

Lemma set_line_same v : set_line (line v) v = v.
Proof. by destruct v. Qed.

Lemma alt_test_line a lb v : line (alt_test sv a lb v) = line v.
Proof.
  unfold alt_test. destruct (sv a); [by destruct v|].
  destruct (_ || _); by destruct v.
Qed.

(** A round tests the piece of the text before its first comma. *)
Lemma alt_round_eq v lb s u :
  text_at (line v) s u ->
  alt_round sv v lb s (strchr (line v) s COMMA)
  = (fst (alt_count lb v),
     alt_test sv (before COMMA u) (fst (alt_count lb v))
       (snd (alt_count lb v))).
Proof.
  intros Hu. unfold alt_round.
  pose proof (alt_count_line lb v) as Hl.
  destruct (alt_count lb v) as [lb' v1]. simpl in *.
  rewrite (text_at_strchr _ _ _ _ Hu).
  destruct Hu as (H0 & Hu').
  assert (Hu : text_at (line v1) s u) by (rewrite Hl; by split).
  clear Hu'.
  destruct (find_char COMMA u) as [k|] eqn:Ek; simpl.
  - destruct (split_on_some COMMA u k H0 Ek) as (_ & Hk & Hc).
    pose proof (before_find_some COMMA u k H0 Ek) as Hb.
    rewrite Hb. f_equal.
    rewrite (text_at_cstr _ _ _ (text_at_poke _ _ _ _ Hu Hk)).
    rewrite alt_test_set_line. cbn [line set_line].
    rewrite set_line_set_line.
    assert (Hrd : rd (line v1) (s + k) = COMMA).
    { destruct Hu as (_ & rest & E & _).
      rewrite <- rd_drop, E. unfold rd. by rewrite lookup_app_l, Hc. }
    rewrite <- Hrd at 1. rewrite wr_restore.
    rewrite <- (alt_test_line (take k u) lb' v1). apply set_line_same.
  - by rewrite (before_find_none COMMA u H0 Ek), (text_at_cstr _ _ _ Hu).
Qed.

(** The loop over the buffer is the loop over the alleles. *)
Lemma alt_loop_fold fuel : forall v lb s u,
  text_at (line v) s u -> (length u < fuel)%nat ->
  alt_loop sv fuel v lb s = alt_fold sv (split_on COMMA u) lb v.
Proof.
  induction fuel as [|fuel IH]; intros v lb s u Hu Hf; [lia|].
  simpl. rewrite (alt_round_eq v lb s u Hu).
  rewrite (text_at_strchr _ _ _ _ Hu).
  pose proof (alt_count_line lb v) as Hl.
  destruct (alt_count lb v) as [lb' v1] eqn:Ec. simpl in *.
  pose proof Hu as (H0 & _).
  destruct (find_char COMMA u) as [k|] eqn:Ek; simpl.
  - destruct (split_on_some COMMA u k H0 Ek) as (-> & Hk & Hc).
    cbn [alt_fold]. rewrite Ec.
    pose proof (before_find_some COMMA u k H0 Ek) as Hb.
    rewrite Hb.
    pose proof (split_by_nonempty (fun x => x =? COMMA) (drop (S k) u)) as Hne.
    fold (split_on COMMA (drop (S k) u)) in Hne.
    destruct (split_on COMMA (drop (S k) u)) as [|a' rest'] eqn:Es; [done|].
    destruct (alcnt _ <? 65536); [|done].
    rewrite <- Es. apply IH.
    + rewrite alt_test_line, Hl.
      replace (S (s + k)) with (s + S k)%nat by lia.
      apply text_at_drop; [done|lia].
    + rewrite length_drop. lia.
  - rewrite (split_on_none COMMA u H0 Ek). cbn [alt_fold]. rewrite Ec.
    by rewrite (before_find_none COMMA u H0 Ek).
Qed.

Lemma alt_count_alcnt lb v : alcnt (snd (alt_count lb v)) = alcnt v + 1.
Proof. unfold alt_count. destruct (negb _); by destruct v. Qed.

Lemma alt_test_alcnt a lb v : alcnt (alt_test sv a lb v) = alcnt v.
Proof.
  unfold alt_test. destruct (sv a); [by destruct v|].
  destruct (_ || _); by destruct v.
Qed.

(** With the limit, the loop tests the first [65536 - alcnt] alleles. *)
Lemma alt_fold_all als : forall lb v,
  als <> [] -> 0 <= alcnt v < 65536 ->
  alt_fold sv als lb v
  = snd (alt_all sv (take (Z.to_nat (65536 - alcnt v)) als) lb v).
Proof.
  induction als as [|a rest IH]; intros lb v Hne Ha; [done|].
  replace (Z.to_nat (65536 - alcnt v))
    with (S (Z.to_nat (65536 - (alcnt v + 1)))) by lia.
  cbn [alt_fold alt_all take].
  pose proof (alt_count_alcnt lb v) as Hc.
  destruct (alt_count lb v) as [lb1 v1]. simpl in Hc.
  pose proof (alt_test_alcnt a lb1 v1) as Ht. rewrite Hc in Ht.
  destruct rest as [|b rest]; [by rewrite take_nil|].
  destruct (Z.ltb_spec (alcnt (alt_test sv a lb1 v1)) 65536) as [Hlt|Hge].
  - rewrite IH by (try done; lia). by rewrite Ht.
  - rewrite Ht in Hge. by replace (Z.to_nat (65536 - (alcnt v + 1))) with O by lia.
Qed.

(** *** The bit set of the symbolic alleles *)

Lemma shiftr3_land7 d :
  d = 8 * Z.shiftr d 3 + Z.land d 7 /\ 0 <= Z.land d 7 < 8.
Proof.
  rewrite Z.shiftr_div_pow2 by lia.
  change 7 with (Z.ones 3). rewrite Z.land_ones by lia.
  change (2 ^ 3) with 8.
  pose proof (Z.div_mod d 8 ltac:(lia)).
  pose proof (Z.mod_pos_bound d 8 ltac:(lia)). lia.
Qed.

Lemma shiftr3_mono d e : d <= e -> Z.shiftr d 3 <= Z.shiftr e 3.
Proof.
  intros H. rewrite !Z.shiftr_div_pow2 by lia. apply Z.div_le_mono; lia.
Qed.

Lemma shiftr3_nonneg d : 0 <= d -> 0 <= Z.shiftr d 3.
Proof. intros H. by apply Z.shiftr_nonneg. Qed.

Lemma svlen_bit_clear m k d :
  Z.to_nat (Z.shiftr d 3) = k -> svlen_bit (wr m k 0) d = false.
Proof.
  intros <-. unfold svlen_bit.
  destruct (decide (Z.to_nat (Z.shiftr d 3) < length m)%nat).
  - rewrite rd_wr_eq by done. apply Z.testbit_0_l.
  - rewrite rd_ge by (rewrite length_wr; lia). apply Z.testbit_0_l.
Qed.

Lemma svlen_bit_other m k x d :
  Z.to_nat (Z.shiftr d 3) <> k -> svlen_bit (wr m k x) d = svlen_bit m d.
Proof. intros H. unfold svlen_bit. by rewrite rd_wr_ne. Qed.

Lemma svlen_bit_set m k j d :
  Z.to_nat (Z.shiftr d 3) = k -> (k < length m)%nat -> 0 <= j ->
  svlen_bit (wr m k (Z.lor (rd m k) (Z.shiftl 1 j))) d
  = svlen_bit m d || (Z.land d 7 =? j).
Proof.
  intros <- Hk Hj. unfold svlen_bit. rewrite rd_wr_eq by done.
  rewrite Z.lor_spec. f_equal.
  destruct (shiftr3_land7 d) as [_ Hd].
  rewrite Z.shiftl_spec by lia.
  destruct (Z.eqb_spec (Z.land d 7) j) as [->|Hne].
  - by rewrite Z.sub_diag.
  - destruct (Z.ltb_spec (Z.land d 7) j).
    + apply Z.testbit_neg_r. lia.
    + apply Z.bits_above_log2; [lia|]. simpl. lia.
Qed.

(** The test the SVLEN loop makes on the bit set. *)
Lemma svlen_bit_test m d :
  negb (Z.land (rd m (Z.to_nat (Z.shiftr d 3))) (Z.shiftl 1 (Z.land d 7)) =? 0)
  = svlen_bit m d.
Proof.
  unfold svlen_bit. destruct (shiftr3_land7 d) as [_ Hd].
  set (x := rd m _). set (j := Z.land d 7) in *.
  destruct (Z.testbit x j) eqn:E.
  - apply negb_true_iff, Z.eqb_neq. intros H0.
    assert (Hb : Z.testbit (Z.land x (Z.shiftl 1 j)) j = true).
    { rewrite Z.land_spec, E, Z.shiftl_spec, Z.sub_diag by lia. done. }
    rewrite H0, Z.testbit_0_l in Hb. done.
  - apply negb_false_iff, Z.eqb_eq, Z.bits_inj_0. intros n.
    rewrite Z.land_spec.
    destruct (Z.eqb_spec n j) as [->|Hne]; [by rewrite E|].
    destruct (Z.ltb_spec n 0); [by rewrite !Z.testbit_neg_r by lia|].
    rewrite Z.shiftl_spec by lia.
    destruct (Z.ltb_spec n j).
    + by rewrite (Z.testbit_neg_r 1 (n - j)), andb_false_r by lia.
    + rewrite (Z.bits_above_log2 1 (n - j)), andb_false_r; [done|lia|].
      simpl. lia.
Qed.

Lemma alt_count_bits done lb v :
  bits_inv sv done lb v -> alcnt v < 65536 ->
  fst (alt_count lb v) = Z.shiftr (alcnt v) 3
  /\ alcnt (snd (alt_count lb v)) = alcnt v + 1
  /\ length (svlenals (snd (alt_count lb v))) = Z.to_nat 8192
  /\ (forall (k : nat) a, done !! k = Some a ->
        svlen_bit (svlenals (snd (alt_count lb v))) (1 + Z.of_nat k) = sv a)
  /\ (forall d, alcnt v <= d -> Z.shiftr d 3 = Z.shiftr (alcnt v) 3 ->
        svlen_bit (svlenals (snd (alt_count lb v))) d = false)
  /\ use_svlen (snd (alt_count lb v)) = use_svlen v
  /\ getlen (snd (alt_count lb v)) = getlen v.
Proof.
  intros (Ha & Hlb & Hlen & Hdone & Hclear) Hlim. unfold alt_count.
  destruct (Z.eqb_spec (Z.shiftr (alcnt v) 3) lb) as [E|E]; simpl.
  - repeat split; try done.
    intros d Hd Hs. apply Hclear; [done|]. by rewrite Hs.
  - repeat split; try done.
    + by rewrite length_wr.
    + intros k a Hk. rewrite svlen_bit_other; [by apply Hdone|].
      apply lookup_lt_Some in Hk.
      pose proof (shiftr3_mono (1 + Z.of_nat k) (alcnt v - 1) ltac:(lia)).
      pose proof (shiftr3_mono (alcnt v - 1) (alcnt v) ltac:(lia)).
      pose proof (shiftr3_nonneg (1 + Z.of_nat k) ltac:(lia)).
      lia.
    + intros d Hd Hs. apply svlen_bit_clear. by rewrite Hs.
Qed.

(** Counting and testing one more allele keeps the bit set right. *)
Lemma alt_one_bits done lb v a :
  bits_inv sv done lb v -> alcnt v < 65536 ->
  bits_inv sv (done ++ [a]) (fst (alt_count lb v))
    (alt_test sv a (fst (alt_count lb v)) (snd (alt_count lb v)))
  /\ use_svlen (alt_test sv a (fst (alt_count lb v)) (snd (alt_count lb v)))
     = use_svlen v || sv a
  /\ getlen (alt_test sv a (fst (alt_count lb v)) (snd (alt_count lb v)))
     = getlen v || (negb (sv a) && is_gvcf a).
Proof.
  intros Hinv Hlim.
  pose proof Hinv as (Ha & _).
  destruct (alt_count_bits done lb v Hinv Hlim)
    as (Hlb1 & Ha1 & Hlen1 & Hdone1 & Hclear1 & Hu1 & Hg1).
  destruct (alt_count lb v) as [lb1 v1]. simpl in *. subst lb1.
  assert (Hnn : 0 <= Z.shiftr (alcnt v) 3) by (apply shiftr3_nonneg; lia).
  assert (Hidx : (Z.to_nat (Z.shiftr (alcnt v) 3) < Z.to_nat 8192)%nat).
  { pose proof (shiftr3_mono (alcnt v) 65535 ltac:(lia)) as H.
    change (Z.shiftr 65535 3) with 8191 in H. lia. }
  destruct (shiftr3_land7 (alcnt v)) as [Hdm Hr7].
  unfold alt_test, bits_inv, is_gvcf.
  replace (alcnt v1 - 1) with (alcnt v) by lia.
  destruct (sv a) eqn:Esv.
  - destruct v1; cbn in *. subst. rewrite length_app. simpl.
    split; [|by rewrite orb_true_r, orb_false_r].
    split; [lia|]. split; [f_equal; lia|].
    split; [by rewrite length_wr|]. split.
    + intros k x Hk.
      destruct (decide (k < length done)%nat) as [Hlt|Hge].
      * rewrite lookup_app_l in Hk by done.
        destruct (decide (Z.to_nat (Z.shiftr (1 + Z.of_nat k) 3)
                          = Z.to_nat (Z.shiftr (alcnt v) 3))) as [Eq|Ne].
        -- rewrite svlen_bit_set by (try done; lia).
           rewrite (Hdone1 k x Hk).
           destruct (Z.eqb_spec (Z.land (1 + Z.of_nat k) 7)
                                (Z.land (alcnt v) 7)) as [E7|_];
             [|by rewrite orb_false_r].
           destruct (shiftr3_land7 (1 + Z.of_nat k)) as [Hk1 _].
           pose proof (shiftr3_nonneg (1 + Z.of_nat k) ltac:(lia)). lia.
        -- rewrite svlen_bit_other by done. by apply Hdone1.
      * rewrite lookup_app_r in Hk by lia.
        destruct (k - length done)%nat as [|j] eqn:Ej; [|done].
        injection Hk as <-.
        replace (1 + Z.of_nat k) with (alcnt v) by lia.
        rewrite svlen_bit_set by (try done; lia).
        by rewrite Z.eqb_refl, orb_true_r.
    + intros d Hd Hs.
      replace (alcnt v + 1 - 1) with (alcnt v) in Hs by lia.
      rewrite svlen_bit_set by (try done; try lia; by rewrite Hs).
      rewrite Hclear1 by (try done; lia). simpl.
      apply Z.eqb_neq. intros E7.
      destruct (shiftr3_land7 d) as [Hd1 _]. lia.
  - assert (Hsame : forall v2, alcnt v2 = alcnt v1 ->
              svlenals v2 = svlenals v1 ->
              alcnt v2 = 1 + Z.of_nat (length (done ++ [a]))
              /\ Z.shiftr (alcnt v) 3 = Z.shiftr (alcnt v2 - 1) 3
              /\ length (svlenals v2) = Z.to_nat 8192
              /\ (forall (k : nat) x, (done ++ [a]) !! k = Some x ->
                    svlen_bit (svlenals v2) (1 + Z.of_nat k) = sv x)
              /\ (forall d, alcnt v2 <= d ->
                    Z.shiftr d 3 = Z.shiftr (alcnt v) 3 ->
                    svlen_bit (svlenals v2) d = false)).
    { intros v2 E1 E2. rewrite E1, E2, Ha1, length_app. simpl.
      split; [lia|]. split; [f_equal; lia|]. split; [done|]. split.
      - intros k x Hk.
        destruct (decide (k < length done)%nat) as [Hlt|Hge].
        + rewrite lookup_app_l in Hk by done. by apply Hdone1.
        + rewrite lookup_app_r in Hk by lia.
          destruct (k - length done)%nat as [|j] eqn:Ej; [|done].
          injection Hk as <-. rewrite Esv.
          apply Hclear1; [lia|]. f_equal. lia.
      - intros d Hd Hs. apply Hclear1; [lia|done]. }
    simpl. rewrite orb_false_r.
    destruct (bool_decide (a = lit "<*>") || bool_decide (a = lit "<NON_REF>"));
      (split; [apply Hsame; by destruct v1|]);
      destruct v1; cbn in *; subst; split; try done;
      by rewrite ?orb_true_r, ?orb_false_r.
Qed.

(** The loop without the limit keeps the bit set right. *)
Lemma alt_all_bits als : forall done lb v,
  bits_inv sv done lb v ->
  alcnt v + Z.of_nat (length als) <= 65536 ->
  bits_inv sv (done ++ als) (fst (alt_all sv als lb v))
    (snd (alt_all sv als lb v))
  /\ use_svlen (snd (alt_all sv als lb v)) = use_svlen v || existsb sv als
  /\ getlen (snd (alt_all sv als lb v)) = getlen v || gvcf_seen sv als.
Proof.
  induction als as [|a als IH]; intros done lb v Hinv Hlim.
  - simpl. rewrite app_nil_r, !orb_false_r. done.
  - simpl in Hlim. cbn [alt_all].
    destruct (alt_one_bits done lb v a Hinv ltac:(lia)) as (H1 & H2 & H3).
    pose proof (alt_count_alcnt lb v) as Hc.
    destruct (alt_count lb v) as [lb1 v1]. simpl in *.
    destruct (IH (done ++ [a]) lb1 (alt_test sv a lb1 v1) H1) as (G1 & G2 & G3).
    { rewrite alt_test_alcnt, Hc. lia. }
    rewrite <- app_assoc in G1. simpl in G1.
    split; [done|]. rewrite G2, G3, H2, H3.
    unfold gvcf_seen. simpl. by rewrite !orb_assoc.
Qed.

(** *** The columns of the buffer and the offsets of the loop *)

Lemma rd_cons_S x l p : rd (x :: l) (S p) = rd l p.
Proof. done. Qed.

Lemma count_seps_cons x l p :
  count_seps (x :: l) (S p)
  = ((if is_sep x then 1 else 0) + count_seps l p)%nat.
Proof.
  induction p as [|p IH]; [simpl; unfold rd; simpl; lia|].
  change (count_seps (x :: l) (S (S p)))
    with (count_seps (x :: l) (S p)
          + if is_sep (rd (x :: l) (S p)) then 1 else 0)%nat.
  rewrite IH, rd_cons_S. simpl. lia.
Qed.

(** The columns from the one that starts at [p] on are the columns of
    the rest of the buffer. *)
Lemma columns_drop buf : forall p,
  (p <= length buf)%nat ->
  p = O \/ is_sep (rd buf (p - 1)) = true ->
  drop (count_seps buf p) (columns buf) = columns (drop p buf).
Proof.
  induction buf as [|x l IH]; intros p Hp Hsep.
  - simpl in Hp. by replace p with O by lia.
  - destruct p as [|p]; [done|].
    rewrite count_seps_cons. simpl in Hp.
    destruct Hsep as [?|Hsep]; [done|].
    replace (S p - 1)%nat with p in Hsep by lia.
    destruct p as [|p].
    + unfold rd in Hsep. simpl in Hsep. unfold columns. simpl.
      by rewrite Hsep.
    + rewrite rd_cons_S in Hsep.
      specialize (IH (S p) ltac:(lia)
                     ltac:(right; by replace (S p - 1)%nat with p by lia)).
      assert (Hpos : (0 < count_seps l (S p))%nat).
      { simpl. rewrite Hsep. lia. }
      unfold columns in *. cbn [split_by drop].
      destruct (is_sep x); [done|].
      pose proof (split_by_nonempty is_sep l) as Hne.
      destruct (split_by is_sep l) as [|h t]; [done|].
      destruct (count_seps l (S p)) as [|c]; [lia|]. done.
Qed.

(** The first column ends at the first separator. *)
Lemma columns_head l : forall z,
  is_sep (rd l z) = true ->
  (forall j, (j < z)%nat -> is_sep (rd l j) = false) ->
  head (columns l) = Some (take z l) /\ (z <= length l)%nat.
Proof.
  unfold columns. induction l as [|x l IH]; intros z Hz Hbefore.
  - destruct z as [|z]; [done|].
    specialize (Hbefore O ltac:(lia)). done.
  - destruct z as [|z].
    + unfold rd in Hz. simpl in Hz. simpl. rewrite Hz. split; [done|lia].
    + pose proof (Hbefore O ltac:(lia)) as Hx. unfold rd in Hx. simpl in Hx.
      simpl. rewrite Hx.
      destruct (IH z) as [Hh Hl]; [done| |].
      { intros j Hj. apply (Hbefore (S j)). lia. }
      destruct (split_by is_sep l) as [|h t]; [done|].
      simpl in *. injection Hh as ->. split; [done|lia].
Qed.

Lemma count_seps_none buf a z :
  (a <= z)%nat -> count_seps buf z = count_seps buf a ->
  forall j, (a <= j < z)%nat -> is_sep (rd buf j) = false.
Proof.
  intros Haz Hc j Hj.
  destruct (is_sep (rd buf j)) eqn:E; [|done].
  pose proof (count_seps_after buf a (S j) ltac:(lia)) as H.
  replace (S j - 1)%nat with j in H by lia. specialize (H E).
  pose proof (count_seps_mono buf (S j) z ltac:(lia)). lia.
Qed.

(** The column the loop is in, when it is at the separator [i]. *)
Lemma column_text buf k p i :
  column_start buf k p -> (p <= i)%nat -> is_sep (rd buf i) = true ->
  count_seps buf i = count_seps buf p -> (i <= length buf)%nat ->
  columns buf !! Z.to_nat (k - 1) = Some (take (i - p) (drop p buf))
  /\ (forall j, (p <= j < i)%nat -> is_sep (rd buf j) = false).
Proof.
  intros [Hk Hsep] Hpi Hi Hc Hlen.
  pose proof (count_seps_none buf p i Hpi Hc) as Hnone.
  split; [|done].
  pose proof (columns_drop buf p ltac:(lia) Hsep) as Hd.
  destruct (columns_head (drop p buf) (i - p)) as [Hh _].
  { rewrite rd_drop. by replace (p + (i - p))%nat with i by lia. }
  { intros j Hj. rewrite rd_drop. apply Hnone. lia. }
  rewrite <- Hd in Hh. rewrite <- Hh.
  replace (Z.to_nat (k - 1)) with (count_seps buf p) by lia.
  rewrite <- (Nat.add_0_r (count_seps buf p)) at 1.
  rewrite <- lookup_drop. by destruct (drop _ _).
Qed.

(** The text of the column, while its separator holds NUL. *)
Lemma column_text_at buf p i :
  (p <= i)%nat -> (i <= length buf)%nat ->
  (forall j, (p <= j < i)%nat -> is_sep (rd buf j) = false) ->
  text_at (wr buf i 0) p (take (i - p) (drop p buf)).
Proof.
  intros Hpi Hlen Hnone. split.
  - intros Hin. apply list_elem_of_lookup in Hin as [j Hj].
    pose proof (lookup_lt_Some _ _ _ Hj) as Hlt.
    rewrite length_take, length_drop in Hlt.
    rewrite lookup_take_lt in Hj by lia. rewrite lookup_drop in Hj.
    specialize (Hnone (p + j)%nat ltac:(lia)).
    unfold rd in Hnone. rewrite Hj in Hnone. done.
  - exists (drop (i - p) (drop p (wr buf i 0))). split.
    + rewrite <- (take_drop (i - p) (drop p (wr buf i 0))) at 1.
      f_equal. unfold wr. rewrite drop_insert_ge by lia.
      rewrite take_insert_ge; [done|lia].
    + rewrite drop_drop. replace (p + (i - p))%nat with i by lia.
      unfold ends, wr.
      destruct (decide (i < length buf)%nat) as [Hlt|Hge].
      * rewrite <- (Nat.add_0_r i) at 2.
        rewrite head_lookup, lookup_drop, Nat.add_0_r.
        rewrite list_lookup_insert_eq by done. set_solver.
      * rewrite drop_ge by (rewrite length_insert; lia). set_solver.
Qed.

(** *** The scan of the ALT column *)

(** The scan counts the examined alleles after the reference allele,
    marks the symbolic ones in the bit set, and notes a gVCF allele. *)
Lemma scan_alt_spec i v col :
  text_at (wr (line v) i 0) (b v) col -> length col = (i - b v)%nat ->
  alcnt v = 1 -> length (svlenals v) = Z.to_nat 8192 ->
  (exists lb, bits_inv sv (alleles col) lb (scan_alt sv i v))
  /\ use_svlen (scan_alt sv i v) = use_svlen v || existsb sv (alleles col)
  /\ getlen (scan_alt sv i v) = getlen v || gvcf_seen sv (alleles col).
Proof.
  intros Htext Hlen Hal Hm. unfold scan_alt.
  set (v1 := set_line _ (set_svlenals _ v)).
  assert (Hb1 : b v1 = b v) by done.
  assert (Hal1 : alcnt v1 = 1) by done.
  rewrite Hb1.
  rewrite (alt_loop_fold _ v1 0 (b v) col) by (try done; lia).
  rewrite alt_fold_all; [|apply split_by_nonempty|lia].
  rewrite Hal1. change (65536 - 1) with 65535. fold (alleles col).
  destruct (alt_all_bits (alleles col) [] 0 v1) as (H1 & H2 & H3).
  - unfold bits_inv. rewrite Hal1. split; [done|]. split; [done|].
    split; [subst v1; cbn; by rewrite length_wr|]. split; [done|].
    intros d Hd Hs. subst v1. cbn. apply svlen_bit_clear. by rewrite Hs.
  - rewrite Hal1. unfold alleles. rewrite length_take. lia.
  - simpl in H1. split; [|by split].
    by exists (fst (alt_all sv (alleles col) 0 v1)).
Qed.

(** *** The scans of FORMAT and of the samples *)

Lemma stops_colon : stops COLON.
Proof. by repeat split. Qed.

Lemma stops_comma : stops COMMA.
Proof. by repeat split. Qed.

Lemma stops_semicolon : stops 59.
Proof. by repeat split. Qed.

(** A text splits at the first [c]. *)
Lemma find_char_split c u k :
  0 ∉ u -> find_char c u = Some k -> u = take k u ++ c :: drop (S k) u.
Proof.
  intros H0 Hk. destruct (split_on_some c u k H0 Hk) as (_ & Hlt & Hc).
  rewrite <- (take_drop k u) at 1. f_equal.
  by rewrite (drop_S _ _ _ Hc).
Qed.

(** A number ends before a byte at which [strtoll] stops. *)
Lemma strtoll_before c u base :
  stops c -> 0 ∉ u ->
  strtoll_list (before c u) base = strtoll_list u base.
Proof.
  intros Hc H0. destruct (find_char c u) as [k|] eqn:Ek.
  - rewrite (before_find_some c u k H0 Ek).
    rewrite (find_char_split c u k H0 Ek) at 2.
    by rewrite strtoll_list_stopped.
  - by rewrite (before_find_none c u H0 Ek).
Qed.

Lemma split_on_head c u :
  0 ∉ u -> head (split_on c u) = Some (before c u).
Proof.
  intros H0. destruct (find_char c u) as [k|] eqn:Ek.
  - destruct (split_on_some c u k H0 Ek) as (-> & _).
    by rewrite (before_find_some c u k H0 Ek).
  - by rewrite (split_on_none c u H0 Ek), (before_find_none c u H0 Ek).
Qed.

(** The loop over the keys of FORMAT finds the position of [LEN]. *)
Lemma format_loop_spec fuel : forall buf s u pos lp,
  text_at buf s u -> (length u < fuel)%nat ->
  format_loop fuel buf s pos lp
  = (buf, match index_of (lit "LEN") (split_on COLON u) with
          | Some k => pos + 1 + Z.of_nat k
          | None => lp
          end).
Proof.
  induction fuel as [|fuel IH]; intros buf s u pos lp Hu Hf; [lia|].
  simpl. rewrite (text_at_strchr _ _ _ _ Hu).
  pose proof Hu as (H0 & _).
  destruct (find_char COLON u) as [k|] eqn:Ek; simpl.
  - destruct (split_on_some COLON u k H0 Ek) as (-> & Hk & Hc).
    assert (Hrd : rd buf (s + k) = COLON).
    { destruct Hu as (_ & rest & E & _).
      rewrite <- rd_drop, E. unfold rd. by rewrite lookup_app_l, Hc. }
    assert (Hback : wr (wr buf (s + k) 0) (s + k) COLON = buf).
    { rewrite <- Hrd. apply wr_restore. }
    unfold streq.
    rewrite (text_at_cstr _ _ _ (text_at_poke _ _ _ _ Hu Hk)).
    rewrite Hback. cbn [index_of].
    destruct (decide (lit "LEN" = take k u)) as [E|E].
    + rewrite bool_decide_eq_true_2 by done. f_equal. lia.
    + rewrite bool_decide_eq_false_2 by done.
      rewrite (IH buf (S (s + k)) (drop (S k) u)).
      * f_equal. destruct (index_of _ _); simpl; [lia|done].
      * replace (S (s + k)) with (s + S k)%nat by lia.
        apply text_at_drop; [done|lia].
      * rewrite length_drop. lia.
  - rewrite (split_on_none COLON u H0 Ek). unfold streq.
    rewrite (text_at_cstr _ _ _ Hu). cbn [index_of].
    destruct (decide (lit "LEN" = u)) as [E|E].
    + rewrite bool_decide_eq_true_2 by done. f_equal. lia.
    + by rewrite bool_decide_eq_false_2.
Qed.

Lemma scan_format_spec i v col :
  text_at (wr (line v) i 0) (b v) col -> length col = (i - b v)%nat ->
  lenpos v = -1 ->
  lenpos (scan_format i v)
  = match index_of (lit "LEN") (split_on COLON col) with
    | Some k => Z.of_nat k
    | None => -1
    end.
Proof.
  intros Htext Hlen Hlp. unfold scan_format. cbn [line set_line b lenpos].
  rewrite (format_loop_spec _ _ _ col) by (try done; lia).
  cbn. rewrite Hlp. destruct (index_of _ _); [lia|done].
Qed.

(** The loop over the values of a sample reads the one at the position
    of [LEN]. *)
Lemma sample_loop_spec fuel : forall buf s u d lp,
  text_at buf s u -> (length u < fuel)%nat -> d <= lp ->
  sample_loop fuel buf s d lp = sample_len (Z.to_nat (lp - d)) u.
Proof.
  induction fuel as [|fuel IH]; intros buf s u d lp Hu Hf Hd; [lia|].
  simpl. pose proof Hu as (H0 & _).
  destruct (Z.leb_spec d lp) as [_|?]; [|lia].
  unfold sample_len.
  destruct (Z.eqb_spec d lp) as [->|Hne].
  - rewrite Z.sub_diag. change (Z.to_nat 0) with O.
    rewrite <- head_lookup, (split_on_head COLON u H0). simpl.
    rewrite (text_at_atoll _ _ _ Hu). unfold atoll_of.
    by rewrite (strtoll_before COLON u 10 stops_colon H0).
  - rewrite (text_at_strchr _ _ _ _ Hu).
    replace (Z.to_nat (lp - d)) with (S (Z.to_nat (lp - (d + 1)))) by lia.
    destruct (find_char COLON u) as [k|] eqn:Ek; simpl.
    + destruct (split_on_some COLON u k H0 Ek) as (-> & Hk & Hc).
      rewrite (IH buf (S (s + k)) (drop (S k) u)); [done| | |lia].
      * replace (S (s + k)) with (s + S k)%nat by lia.
        apply text_at_drop; [done|lia].
      * rewrite length_drop. lia.
    + by rewrite (split_on_none COLON u H0 Ek).
Qed.

Lemma scan_sample_spec i v col :
  text_at (wr (line v) i 0) (b v) col -> length col = (i - b v)%nat ->
  0 <= lenpos v ->
  fmtlen (scan_sample i v)
  = Z.max (fmtlen v) (sample_len (Z.to_nat (lenpos v)) col).
Proof.
  intros Htext Hlen Hlp. unfold scan_sample.
  cbn [line set_line b lenpos fmtlen set_fmtlen].
  rewrite (sample_loop_spec _ _ _ col) by (try done; lia).
  rewrite Z.sub_0_r. case_cmp; lia.
Qed.

(** *** The scan of INFO *)

Lemma starts_with_length n : forall l,
  starts_with n l = true -> (length n <= length l)%nat.
Proof.
  induction n as [|a n IH]; intros l; simpl; [lia|].
  destruct l as [|x l]; [done|].
  intros H. apply andb_true_iff in H as [_ H]. apply IH in H. simpl. lia.
Qed.

Lemma find_str_bound n l : forall k,
  find_str n l = Some k -> (k + length n <= length l)%nat.
Proof.
  induction l as [|x l IH]; intros k; [done|].
  cbn [find_str].
  destruct (starts_with n (x :: l)) eqn:E.
  - intros [= <-]. by apply starts_with_length.
  - destruct (x =? 0); [done|].
    destruct (find_str n l) as [j|]; [|done].
    simpl. intros [= <-]. specialize (IH j eq_refl). simpl. lia.
Qed.

(** The tag the code finds is the tag of the column. *)
Lemma find_tag_text buf p col tag :
  text_at buf p col -> (0 ∉ tag) -> tag <> [] ->
  match find_tag buf p tag with
  | Some s =>
      exists k, s = (p + k)%nat /\ (k <= length col)%nat
                /\ tag_text col tag = Some (drop k col)
  | None => tag_text col tag = None
  end.
Proof.
  intros (H0 & rest & E & Hr) Htag Hne.
  unfold find_tag, strstr, tag_text. rewrite E.
  rewrite find_str_text by done.
  rewrite (find_str_text (59 :: tag)); [|by apply not_elem_of_cons|done..].
  destruct (find_str tag col) as [k|] eqn:Ek; simpl; [|done].
  destruct k as [|k].
  - rewrite Nat.add_0_r, Nat.eqb_refl.
    exists (length tag). split; [done|]. split; [|done].
    apply find_str_bound in Ek. lia.
  - destruct (Nat.eqb_spec (p + S k) p) as [?|_]; [lia|].
    destruct (find_str (59 :: tag) col) as [j|] eqn:Ej; simpl; [|done].
    exists (j + S (length tag))%nat. split; [lia|]. split; [|done].
    apply find_str_bound in Ej. simpl in Ej. lia.
Qed.

(** The loop over the values of [SVLEN], from the allele counted [d]
    on: [als] are the alleles still to come, [text] is the text at
    [s]. *)
Lemma svlen_loop_spec fuel : forall v s d text als,
  text_at (line v) s text ->
  alcnt v = d + Z.of_nat (length als) -> 0 <= d ->
  (forall (k : nat) a, als !! k = Some a ->
     svlen_bit (svlenals v) (d + Z.of_nat k) = sv a) ->
  (forall a, a ∈ als -> sv a = true -> use_svlen v = true) ->
  (length als <= fuel)%nat -> 0 <= svlen v ->
  svlen (svlen_loop fuel v (Some s) d)
  = Z.max (svlen v)
      (foldr Z.max 0
         (zip_with (fun a p => if sv a then svlen_abs (atoll_of p) else 1)
            als (split_on COMMA text))).
Proof.
  induction fuel as [|fuel IH];
    intros v s d text als Htext Hal Hd Hbits Huse Hf Hsv.
  - destruct als; [|simpl in Hf; lia]. simpl. lia.
  - cbn [svlen_loop]. destruct als as [|a als].
    { simpl in Hal. destruct (Z.ltb_spec d (alcnt v)); [lia|]. simpl. lia. }
    simpl in Hal, Hf.
    destruct (Z.ltb_spec d (alcnt v)) as [_|?]; [|lia].
    rewrite svlen_bit_test.
    pose proof (Hbits O a eq_refl) as Hbit. rewrite Z.add_0_r in Hbit.
    rewrite Hbit.
    assert (Htmp : (if use_svlen v && sv a
                    then if atoll (line v) s <? 0
                         then llabs (atoll (line v) s)
                         else atoll (line v) s
                    else 1)
                   = if sv a then svlen_abs (atoll_of (before COMMA text))
                     else 1).
    { destruct (sv a) eqn:Ea; [|by rewrite andb_false_r].
      rewrite (Huse a) by (try done; by left). simpl.
      rewrite (text_at_atoll _ _ _ Htext). unfold atoll_of, svlen_abs.
      destruct Htext as (H0 & _).
      by rewrite (strtoll_before COMMA text 10 stops_comma H0). }
    rewrite Htmp. clear Htmp.
    rewrite (text_at_strchr _ _ _ _ Htext).
    pose proof Htext as (H0 & _).
    destruct (find_char COMMA text) as [k|] eqn:Ek; simpl.
    + destruct (split_on_some COMMA text k H0 Ek) as (Es & Hk & Hc).
      rewrite Es, (before_find_some COMMA text k H0 Ek).
      cbn [zip_with foldr].
      set (x := if sv a then _ else _).
      set (v1 := set_svlen _ v).
      assert (Hv1 : svlen v1 = Z.max (svlen v) x).
      { subst v1. cbn. case_cmp; lia. }
      rewrite (IH v1 (S (s + k)) (d + 1) (drop (S k) text) als).
      * rewrite Hv1. lia.
      * replace (S (s + k)) with (s + S k)%nat by lia.
        apply text_at_drop; [done|lia].
      * subst v1. cbn. lia.
      * lia.
      * intros j y Hj. subst v1. cbn.
        replace (d + 1 + Z.of_nat j) with (d + Z.of_nat (S j)) by lia.
        by apply Hbits.
      * intros y Hy. subst v1. cbn. apply Huse. by right.
      * lia.
      * lia.
    + rewrite (split_on_none COMMA text H0 Ek).
      rewrite (before_find_none COMMA text H0 Ek).
      set (x := if sv a then _ else _).
      set (v1 := set_svlen _ v).
      assert (Hv1 : svlen v1 = Z.max (svlen v) x).
      { subst v1. cbn. case_cmp; lia. }
      assert (Hend : svlen_loop fuel v1 None (d + 1) = v1)
        by by destruct fuel.
      rewrite Hend, Hv1.
      destruct als; cbn [zip_with foldr]; lia.
Qed.

Lemma foldr_max_nonneg l : 0 <= foldr Z.max 0 l.
Proof. induction l as [|x l IH]; simpl; lia. Qed.

Lemma lit_end_text : (0 ∉ lit "END=") /\ lit "END=" <> [].
Proof.
  split; [|done]. intros H. apply list_elem_of_In in H.
  vm_compute in H. intuition discriminate.
Qed.

Lemma lit_svlen_text : (0 ∉ lit "SVLEN=") /\ lit "SVLEN=" <> [].
Proof.
  split; [|done]. intros H. apply list_elem_of_In in H.
  vm_compute in H. intuition discriminate.
Qed.

(** INFO/END, from the text that follows the tag. *)
Lemma info_end_text col text :
  tag_text col (lit "END=") = Some text -> (0 ∉ text) ->
  info_end col
  = if default 0 (head text) =? DOT then None
    else Some (fst (strtoll_list text 0)).
Proof.
  intros Ht H0. unfold info_end, tag_value. rewrite Ht. simpl.
  rewrite <- (strtoll_before 59 text 0 stops_semicolon H0).
  destruct text as [|x t]; [done|]. simpl.
  destruct (Z.eqb_spec x 59) as [->|Hx]; [done|].
  destruct (Z.eqb_spec x DOT) as [->|Hd]; [done|].
  destruct x as [|q|q]; try done.
  do 6 (destruct q as [q|q|]; try done).
Qed.

(** The scan of INFO: [end] becomes INFO/END when that lies after
    [beg], and [svlen] is what the [SVLEN] loop finds. *)
Lemma scan_info_spec i v col als lb :
  text_at (wr (line v) i 0) (b v) col ->
  bits_inv sv als lb v -> use_svlen v = existsb sv als -> svlen v = 0 ->
  end_ (scan_info i v)
  = match info_end col with
    | Some e => if beg v <? e then e else end_ v
    | None => end_ v
    end
  /\ svlen (scan_info i v) = svlen_seen sv als col.
Proof.
  intros Htext (Hal & _ & _ & Hbits & _) Huse Hsv. unfold scan_info.
  set (v0 := set_line (wr (line v) i 0) v).
  set (v1 := match find_tag (line v0) (b v0) (lit "END=") with
             | Some s => _
             | None => v0
             end).
  assert (H1 : line v1 = line v0 /\ b v1 = b v /\ alcnt v1 = alcnt v
               /\ svlenals v1 = svlenals v /\ use_svlen v1 = use_svlen v
               /\ svlen v1 = svlen v
               /\ end_ v1 = match info_end col with
                            | Some e => if beg v <? e then e else end_ v
                            | None => end_ v
                            end).
  { subst v1.
    pose proof (find_tag_text (line v0) (b v0) col (lit "END=") Htext
                  (proj1 lit_end_text) (proj2 lit_end_text)) as Htag.
    destruct (find_tag (line v0) (b v0) (lit "END=")) as [s|].
    - destruct Htag as (k & -> & Hk & Ht).
      assert (Hat : text_at (line v0) (b v0 + k) (drop k col))
        by exact (text_at_drop _ _ _ k Htext Hk).
      pose proof Hat as (H0 & _).
      rewrite (info_end_text col _ Ht H0).
      rewrite (text_at_rd _ _ _ Hat), (text_at_strtoll _ _ _ 0 Hat).
      cbn [fst].
      destruct (default 0 (head (drop k col)) =? DOT); cbn [negb];
        [by repeat split|].
      change (beg v0) with (beg v).
      destruct (Z.leb_spec (fst (strtoll_list (drop k col) 0)) (beg v))
        as [Hle|Hgt].
      + destruct (Z.ltb_spec (beg v) (fst (strtoll_list (drop k col) 0)));
          [lia|].
        destruct (reported v0); by repeat split.
      + destruct (Z.ltb_spec (beg v) (fst (strtoll_list (drop k col) 0)));
          [|lia].
        by repeat split.
    - unfold info_end, tag_value. rewrite Htag. by repeat split. }
  destruct H1 as (Hl1 & Hb1 & Hal1 & Hm1 & Hu1 & Hs1 & He1).
  cbn [end_ svlen set_line].
  assert (Hend : forall f s d, end_ (svlen_loop f v1 s d) = end_ v1).
  { intros f s d. destruct (svlen_loop_shape f v1 s d) as [x ->].
    by destruct v1. }
  rewrite Hend. split; [done|].
  unfold svlen_seen.
  assert (Htext1 : text_at (line v1) (b v1) col) by by rewrite Hl1, Hb1.
  pose proof (find_tag_text (line v1) (b v1) col (lit "SVLEN=") Htext1
                (proj1 lit_svlen_text) (proj2 lit_svlen_text)) as Htag.
  destruct (find_tag (line v1) (b v1) (lit "SVLEN=")) as [s|].
  - destruct Htag as (k & -> & Hk & ->).
    rewrite (svlen_loop_spec _ v1 _ 1 (drop k col) als).
    + rewrite Hs1, Hsv. pose proof (foldr_max_nonneg
        (zip_with (fun a p => if sv a then svlen_abs (atoll_of p) else 1)
           als (split_on COMMA (drop k col)))). lia.
    + by apply text_at_drop.
    + lia.
    + done.
    + intros j a Hj. rewrite Hm1. by apply Hbits.
    + intros a Ha Hsa. rewrite Hu1, Huse. apply existsb_exists.
      exists a. split; [by apply list_elem_of_In|done].
    + lia.
    + lia.
  - rewrite Htag.
    assert (Hnone : forall f, svlen_loop f v1 None 1 = v1) by by intros [|f].
    rewrite Hnone. lia.
Qed.

(** *** The values of [SVLEN] the code reads and the values of the tag *)

(** A text cut after [val], at a byte [x] that is no comma: the pieces
    of [val], the last of them running on. *)
Lemma split_on_app c val x r :
  x <> c ->
  exists pre last h t,
    split_on c val = pre ++ [last]
    /\ split_on c (val ++ x :: r) = pre ++ (last ++ x :: h) :: t.
Proof.
  intros Hx. unfold split_on.
  induction val as [|y val IH]; simpl.
  - rewrite (proj2 (Z.eqb_neq _ _) Hx).
    pose proof (split_by_nonempty (fun z => z =? c) r) as Hne.
    destruct (split_by (fun z => z =? c) r) as [|h t]; [done|].
    by exists [], [], h, t.
  - destruct IH as (pre & last & h & t & E1 & E2). rewrite E1, E2.
    destruct (y =? c).
    + by exists ([] :: pre), last, h, t.
    + destruct pre as [|p pre]; simpl.
      * by exists [], (y :: last), h, t.
      * by exists ((y :: p) :: pre), last, h, t.
Qed.

(** The numbers the code reads start with the numbers of the value of
    the tag. *)
Lemma svlen_values_text text :
  (0 ∉ text) ->
  exists extra,
    atoll_of <$> split_on COMMA text
    = (atoll_of <$> split_on COMMA (before 59 text)) ++ extra.
Proof.
  intros H0. destruct (find_char 59 text) as [k|] eqn:Ek.
  - rewrite (before_find_some 59 text k H0 Ek).
    destruct (split_on_app COMMA (take k text) 59 (drop (S k) text))
      as (pre & last & h & t & E1 & E2); [done|].
    rewrite <- (find_char_split 59 text k H0 Ek) in E2.
    rewrite E1, E2. exists (atoll_of <$> t).
    rewrite !fmap_app. cbn [fmap list_fmap]. rewrite <- app_assoc.
    simpl. do 2 f_equal. unfold atoll_of.
    by rewrite strtoll_list_stopped by apply stops_semicolon.
  - rewrite (before_find_none 59 text H0 Ek). exists [].
    by rewrite app_nil_r.
Qed.

Lemma tag_text_drop info tag text :
  tag_text info tag = Some text -> exists k, text = drop k info.
Proof.
  unfold tag_text. destruct (find_str tag info) as [[|k]|]; [| |done].
  - intros [= <-]. by eexists.
  - destruct (find_str (59 :: tag) info); [|done].
    intros [= <-]. by eexists.
Qed.

Lemma svlen_abs_abs x : Z.abs x <= LLONG_MAX -> svlen_abs x = Z.abs x.
Proof.
  intros H. unfold svlen_abs, llabs.
  destruct (Z.ltb_spec x 0); [|lia].
  apply wrap64_id. unfold LLONG_MAX, LLONG_MIN in *. lia.
Qed.

Lemma svlen_ones als : forall (vals : list Z),
  (forall a, a ∈ als -> sv a = false) ->
  foldr Z.max 0
    (zip_with (fun a x => if sv a then svlen_abs x else 1) als vals) <= 1.
Proof.
  induction als as [|a als IH]; intros vals Hs; [simpl; lia|].
  destruct vals as [|x vals]; [simpl; lia|].
  cbn [zip_with foldr]. rewrite (Hs a) by by left.
  specialize (IH vals ltac:(intros y Hy; apply Hs; by right)). lia.
Qed.

(** Under a reference allele that is not empty, what the loop finds
    and the largest [|SVLEN|] of a symbolic allele give the same end. *)
Lemma svlen_max_agree reflen extra : forall als (vals : list Z),
  1 <= reflen ->
  (forall (k : nat) a, als !! k = Some a -> sv a = true ->
     (k < length vals)%nat) ->
  vcf_svlen sv als vals <= LLONG_MAX ->
  Z.max reflen
    (foldr Z.max 0
       (zip_with (fun a x => if sv a then svlen_abs x else 1)
          als (vals ++ extra)))
  = Z.max reflen (vcf_svlen sv als vals).
Proof.
  unfold vcf_svlen.
  induction als as [|a als IH]; intros vals Hr Hper Hmax; [done|].
  destruct vals as [|x vals].
  - assert (Hs : forall y, y ∈ a :: als -> sv y = false).
    { intros y Hy. apply list_elem_of_lookup in Hy as [k Hk].
      destruct (sv y) eqn:E; [|done].
      specialize (Hper k y Hk E). simpl in Hper. lia. }
    pose proof (svlen_ones (a :: als) extra Hs) as H1.
    change ([] ++ extra) with extra.
    set (L := foldr Z.max 0 (zip_with _ (a :: als) extra)) in *.
    simpl. lia.
  - cbn [zip_with foldr app] in *.
    pose proof (foldr_max_nonneg
      (zip_with (fun a x => if sv a then Z.abs x else 0) als vals)).
    assert (IH' := IH vals Hr
      ltac:(intros k y Hk Hy; specialize (Hper (S k) y Hk Hy);
            simpl in Hper; lia) ltac:(lia)).
    destruct (sv a); [rewrite svlen_abs_abs by lia|]; lia.
Qed.

Lemma svlen_seen_spec als info reflen :
  1 <= reflen -> (0 ∉ info) ->
  (tag_text info (lit "SVLEN=") = None
   \/ forall (k : nat) a, als !! k = Some a -> sv a = true ->
        (k < length (svlen_values info))%nat) ->
  vcf_svlen sv als (svlen_values info) <= LLONG_MAX ->
  Z.max reflen (svlen_seen sv als info)
  = Z.max reflen (vcf_svlen sv als (svlen_values info)).
Proof.
  intros Hr H0 Hper Hmax. unfold svlen_seen, svlen_values, tag_value in *.
  destruct (tag_text info (lit "SVLEN=")) as [text|] eqn:Et; simpl in *.
  - destruct Hper as [?|Hper]; [done|].
    destruct (tag_text_drop _ _ _ Et) as [k ->].
    destruct (svlen_values_text (drop k info)) as [extra E];
      [by apply not_elem_of_drop|].
    rewrite <- (svlen_max_agree reflen extra) by done.
    rewrite <- E. by rewrite zip_with_fmap_r.
  - unfold vcf_svlen. by destruct als.
Qed.

(** *** The fields of a VCF record, one column at a time *)

Lemma field_step_vcf conf i v :
  fmt_tag conf = TBX_VCF -> id v <> sc conf -> id v <> bc conf ->
  field_step sv conf i v = vcf_field sv i v.
Proof.
  intros Hf Hsc Hbc. unfold field_step.
  rewrite (proj2 (Z.eqb_neq _ _) Hsc), (proj2 (Z.eqb_neq _ _) Hbc), Hf.
  done.
Qed.

Lemma vcf_field_ref i v :
  id v = 4 ->
  vcf_field sv i v
  = Next (set_reflen (Z.of_nat (i - b v))
            (set_alcnt (alcnt v + 1)
               (if (b v <? i)%nat
                then set_end_ (wrap64 (beg v + Z.of_nat (i - b v))) v
                else v))).
Proof.
  intros Hid. unfold vcf_field.
  destruct (Z.eqb_spec (id v) 4); [|lia].
  destruct (b v <? i)%nat;
    (set (v1 := set_reflen _ _);
     assert (H1 : id v1 = 4) by done;
     destruct (Z.eqb_spec (id v1) 5); [lia|];
     destruct (Z.eqb_spec (id v1) 8); [lia|];
     destruct (Z.eqb_spec (id v1) 9); [lia|];
     destruct (Z.ltb_spec 9 (id v1)); [lia|];
     by rewrite andb_false_r).
Qed.

Lemma vcf_field_alt i v :
  id v = 5 -> vcf_field sv i v = Next (scan_alt sv i v).
Proof.
  intros Hid. unfold vcf_field.
  destruct (Z.eqb_spec (id v) 4); [lia|].
  destruct (Z.eqb_spec (id v) 5); [done|lia].
Qed.

Lemma vcf_field_info i v :
  id v = 8 -> vcf_field sv i v = Next (scan_info i v).
Proof.
  intros Hid. unfold vcf_field.
  destruct (Z.eqb_spec (id v) 4); [lia|].
  destruct (Z.eqb_spec (id v) 5); [lia|].
  destruct (Z.eqb_spec (id v) 8); [done|lia].
Qed.

Lemma vcf_field_format i v :
  id v = 9 ->
  vcf_field sv i v
  = if getlen v then
      if lenpos (scan_format i v) =? -1 then Break (scan_format i v)
      else Next (scan_format i v)
    else Next v.
Proof.
  intros Hid. unfold vcf_field.
  destruct (Z.eqb_spec (id v) 4); [lia|].
  destruct (Z.eqb_spec (id v) 5); [lia|].
  destruct (Z.eqb_spec (id v) 8); [lia|].
  destruct (Z.eqb_spec (id v) 9); [|lia].
  destruct (Z.ltb_spec 9 (id v)); [lia|].
  rewrite andb_true_r. by destruct (getlen v).
Qed.

Lemma vcf_field_sample i v :
  9 < id v ->
  vcf_field sv i v
  = if getlen v && negb (lenpos v =? -1) then Next (scan_sample i v)
    else Next v.
Proof.
  intros Hid. unfold vcf_field.
  destruct (Z.eqb_spec (id v) 4); [lia|].
  destruct (Z.eqb_spec (id v) 5); [lia|].
  destruct (Z.eqb_spec (id v) 8); [lia|].
  destruct (Z.eqb_spec (id v) 9); [lia|].
  destruct (Z.ltb_spec 9 (id v)); [|lia].
  rewrite andb_false_r. done.
Qed.

Lemma vcf_field_other i v :
  id v <> 4 -> id v <> 5 -> id v <> 8 -> id v < 9 ->
  vcf_field sv i v = Next v.
Proof.
  intros H4 H5 H8 H9. unfold vcf_field.
  destruct (Z.eqb_spec (id v) 4); [lia|].
  destruct (Z.eqb_spec (id v) 5); [lia|].
  destruct (Z.eqb_spec (id v) 8); [lia|].
  destruct (Z.eqb_spec (id v) 9); [lia|].
  destruct (Z.ltb_spec 9 (id v)); [lia|].
  by rewrite andb_false_r.
Qed.

(** The column the loop is leaving at the separator [i]. *)
Lemma column_here conf buf i v :
  loop_inv conf buf i v -> is_sep (rd buf i) = true ->
  (i <= length buf)%nat ->
  columns buf !! Z.to_nat (id v - 1)
  = Some (take (i - b v) (drop (b v) buf))
  /\ text_at (wr (line v) i 0) (b v) (take (i - b v) (drop (b v) buf))
  /\ length (take (i - b v) (drop (b v) buf)) = (i - b v)%nat
  /\ 1 <= id v.
Proof.
  intros (Hline & Hid & Hb & Hcol & _) Hsep Hlen.
  pose proof Hcol as [Hc _].
  destruct (column_text buf (id v) (b v) i) as [H1 H2]; try done; [lia|].
  split; [done|]. split; [rewrite Hline; by apply column_text_at|].
  split; [|lia]. rewrite length_take, length_drop. lia.
Qed.

Lemma column_lookup buf (n : nat) col :
  columns buf !! (n - 1)%nat = Some col -> column buf n = col.
Proof. intros H. unfold column. by rewrite H. Qed.

(** Before column 4 nothing of the VCF state changes. *)
Lemma field_step_early conf i v :
  fmt_tag conf = TBX_VCF -> id v < 4 ->
  match field_step sv conf i v with
  | Next w =>
      id w = id v /\ getlen w = getlen v /\ alcnt w = alcnt v
      /\ use_svlen w = use_svlen v /\ lenpos w = lenpos v
      /\ svlenals w = svlenals v /\ reflen w = reflen v
      /\ svlen w = svlen v /\ fmtlen w = fmtlen v
  | Break _ => False
  | Return _ _ => True
  end.
Proof.
  intros Hf Hid. unfold field_step.
  destruct (id v =? sc conf); [by repeat split|].
  destruct (id v =? bc conf).
  { rewrite Hf. cbn [Z.eqb TBX_VCF TBX_GAF Pos.eqb].
    destruct (parse_beg_cases conf v)
      as [(w & -> & H & _)|(w & -> & _)]; [|done].
    unfold frame_beg in H. destruct_and!. by repeat split. }
  rewrite Hf. cbn [Z.eqb TBX_VCF TBX_GENERIC TBX_SAM Pos.eqb].
  rewrite vcf_field_other by lia. by repeat split.
Qed.

Lemma vcf_inv_early buf v w :
  id v < 4 -> id w = id v + 1 ->
  getlen w = getlen v -> alcnt w = alcnt v ->
  use_svlen w = use_svlen v -> lenpos w = lenpos v ->
  svlenals w = svlenals v -> reflen w = reflen v ->
  svlen w = svlen v -> fmtlen w = fmtlen v ->
  vcf_inv sv buf v -> vcf_inv sv buf w.
Proof.
  intros Hk Hid E1 E2 E3 E4 E5 E6 E7 E8.
  unfold vcf_inv. rewrite Hid, E1, E2, E3, E4, E5, E6, E7, E8.
  intros (H1 & H2 & H3 & H4 & H5 & H6 & H7 & H8 & H9).
  split; [done|].
  split; [intros _; apply H2; lia|].
  split; [intros ?; lia|].
  split; [intros _; destruct H4 as (? & ? & ?); [lia|];
          split; [done|]; split; [done|]; intros ?; lia|].
  split; [intros ?; lia|].
  split; [intros _; destruct H6 as [? _]; [lia|]; split; [done|];
          intros ?; lia|].
  split; [intros ?; lia|].
  split; [intros _; apply H8; lia|].
  intros ?; lia.
Qed.

Lemma bits_inv_same done lb v w :
  alcnt w = alcnt v -> svlenals w = svlenals v ->
  bits_inv sv done lb v -> bits_inv sv done lb w.
Proof. unfold bits_inv. by intros -> ->. Qed.

Lemma foldr_max_snoc l x :
  foldr Z.max 0 (l ++ [x]) = Z.max (foldr Z.max 0 l) (Z.max x 0).
Proof. induction l as [|y l IH]; simpl; lia. Qed.

(** Column 4: the reference allele. *)
Lemma vcf_step_ref buf i v col :
  id v = 4 -> column buf 4 = col -> length col = (i - b v)%nat ->
  vcf_inv sv buf v ->
  vcf_inv sv buf
    (set_id (4 + 1)
       (set_b (S i)
          (set_reflen (Z.of_nat (i - b v))
             (set_alcnt (alcnt v + 1)
                (if (b v <? i)%nat
                 then set_end_ (wrap64 (beg v + Z.of_nat (i - b v))) v
                 else v))))).
Proof.
  intros Hid Hcol Hlen (H1 & H2 & H3 & H4 & H5 & H6 & H7 & H8 & H9).
  rewrite Hid in *.
  destruct H2 as [H2 H2']; [lia|].
  destruct H4 as (H4 & H4' & _); [lia|].
  destruct H6 as [H6 _]; [lia|].
  destruct H8 as [H8 H8']; [lia|].
  unfold vcf_inv. rewrite Hcol, Hlen.
  destruct (Nat.ltb_spec (b v) i) as [Hlt|Hge]; cbn;
    (split; [done|]); (split; [intros ?; lia|]); (split; [done|]);
    (split; [intros _; repeat split; try done; lia|]);
    (split; [intros ?; lia|]);
    (split; [intros _; split; [done|]; intros _ ?; try done; lia|]);
    (split; [intros ?; lia|]);
    (split; [done|]); intros ?; lia.
Qed.

(** Column 5: the alternative alleles. *)
Lemma vcf_step_alt buf i v col :
  id v = 5 -> column buf 5 = col ->
  text_at (wr (line v) i 0) (b v) col -> length col = (i - b v)%nat ->
  vcf_inv sv buf v ->
  vcf_inv sv buf (set_id (id (scan_alt sv i v) + 1)
                    (set_b (S i) (scan_alt sv i v))).
Proof.
  intros Hid Hcol Htext Hlen (H1 & H2 & H3 & H4 & H5 & H6 & H7 & H8 & H9).
  rewrite Hid in *.
  destruct H4 as (H4 & H4' & H4''); [lia|].
  destruct H6 as [H6 H6']; [lia|].
  destruct H8 as [H8 H8']; [lia|].
  specialize (H3 ltac:(lia)). specialize (H4'' eq_refl).
  destruct (scan_alt_spec i v col Htext Hlen H4'' H1) as ([lb Hb] & Hu & Hg).
  pose proof (scan_alt_frame i v) as Hfr. unfold frame_alt in Hfr.
  destruct Hfr as (F1 & F2 & F3 & F4 & F5 & F6 & F7 & F8 & F9 & F10
                   & F11 & F12 & F13).
  unfold vcf_inv. cbn [id set_id set_b svlenals reflen alcnt use_svlen
                       getlen svlen end_ beg lenpos fmtlen].
  rewrite F7, Hid, Hcol, F9, F10, F5, F4, F8, F11.
  split; [by destruct Hb as (_ & _ & ? & _)|].
  split; [intros ?; lia|]. split; [done|].
  split; [intros ?; lia|].
  split.
  { intros _. split; [exists lb; by apply (bits_inv_same _ _ (scan_alt sv i v))|].
    by rewrite Hu, Hg, H4, H4'. }
  split; [intros _; split; [done|]; intros _; apply H6'; lia|].
  split; [intros ?; lia|].
  split; [done|]. intros ?; lia.
Qed.

(** Columns 6 and 7. *)
Lemma vcf_step_skip buf i v :
  5 < id v < 8 -> vcf_inv sv buf v ->
  vcf_inv sv buf (set_id (id v + 1) (set_b (S i) v)).
Proof.
  intros Hid (H1 & H2 & H3 & H4 & H5 & H6 & H7 & H8 & H9).
  unfold vcf_inv. cbn [id set_id set_b svlenals reflen alcnt use_svlen
                       getlen svlen end_ beg lenpos fmtlen].
  split; [done|]. split; [intros ?; lia|].
  split; [intros _; apply H3; lia|].
  split; [intros ?; lia|].
  split; [intros _; apply H5; lia|].
  split; [intros _; destruct H6 as [? H6]; [lia|]; split; [done|];
          intros _; apply H6; lia|].
  split; [intros ?; lia|].
  split; [intros _; apply H8; lia|]. intros ?; lia.
Qed.

(** Column 8: INFO. *)
Lemma vcf_step_info buf i v col :
  id v = 8 -> column buf 8 = col ->
  text_at (wr (line v) i 0) (b v) col ->
  vcf_inv sv buf v ->
  vcf_inv sv buf (set_id (id (scan_info i v) + 1)
                    (set_b (S i) (scan_info i v))).
Proof.
  intros Hid Hcol Htext (H1 & H2 & H3 & H4 & H5 & H6 & H7 & H8 & H9).
  rewrite Hid in *.
  destruct H5 as ([lb Hb] & H5 & H5'); [lia|].
  destruct H6 as [H6 H6']; [lia|].
  destruct H8 as [H8 H8']; [lia|].
  specialize (H3 ltac:(lia)).
  destruct (scan_info_spec i v col _ lb Htext Hb H5 H6) as [He Hs].
  pose proof (scan_info_frame i v) as Hfr. unfold frame_info in Hfr.
  destruct Hfr as (F1 & F2 & F3 & F4 & F5 & F6 & F7 & F8 & F9 & F10
                   & F11 & F12 & F13).
  unfold vcf_inv, end_seen.
  cbn [id set_id set_b svlenals reflen alcnt use_svlen
       getlen svlen end_ beg lenpos fmtlen].
  rewrite F6, Hid, Hcol, F11, F12, F9, F7, F4, F10, F13, Hs, He.
  split; [done|]. split; [intros ?; lia|]. split; [done|].
  split; [intros ?; lia|].
  split.
  { intros _. split; [|done].
    exists lb. by apply (bits_inv_same _ _ v). }
  split; [intros ?; lia|].
  split.
  { intros _. split; [done|]. intros Hr.
    rewrite (H6' ltac:(lia) Hr). done. }
  split; [done|]. intros ?; lia.
Qed.

(** Column 9: FORMAT. *)
Lemma vcf_step_format buf i v col :
  id v = 9 -> column buf 9 = col ->
  text_at (wr (line v) i 0) (b v) col -> length col = (i - b v)%nat ->
  vcf_inv sv buf v ->
  match vcf_field sv i v with
  | Next w => vcf_inv sv buf (set_id (id w + 1) (set_b (S i) w))
  | Break w => vcf_done sv buf w
  | Return _ _ => True
  end.
Proof.
  intros Hid Hcol Htext Hlen (H1 & H2 & H3 & H4 & H5 & H6 & H7 & H8 & H9).
  rewrite vcf_field_format by done.
  rewrite Hid in *.
  destruct H5 as (Hb & H5 & H5'); [lia|].
  destruct H7 as [H7 H7']; [lia|].
  destruct H8 as [H8 H8']; [lia|].
  specialize (H3 ltac:(lia)).
  pose proof (scan_format_spec i v col Htext Hlen H8) as Hlp.
  pose proof (scan_format_frame i v) as Hfr. unfold frame_format in Hfr.
  destruct Hfr as (F1 & F2 & F3 & F4 & F5 & F6 & F7 & F8 & F9 & F10
                   & F11 & F12 & F13 & F14 & _).
  destruct (getlen v) eqn:Eg.
  - destruct (Z.eqb_spec (lenpos (scan_format i v)) (-1)) as [E|E].
    + unfold vcf_done, alt_done, end_seen, vcf_fmtlen.
      rewrite F12, F13, F14, F5, F4, F8, F10, <- H5', Hcol.
      rewrite E in Hlp.
      destruct (index_of (lit "LEN") (split_on COLON col)); [lia|].
      do 4 (split; [done|]). intros _. split; [|done].
      destruct Hb as [lb Hb]. exists lb. by apply (bits_inv_same _ _ v).
    + unfold vcf_inv, lenpos_seen, vcf_fmtlen.
      cbn [id set_id set_b svlenals reflen alcnt use_svlen
           getlen svlen end_ beg lenpos fmtlen].
      rewrite F7, Hid, Hcol, F11, F12, F10, F8, F13, F14, <- H5', Hlp.
      split; [done|]. split; [intros ?; lia|]. split; [done|].
      split; [intros ?; lia|].
      split.
      { intros _. split; [|done]. destruct Hb as [lb Hb].
        exists lb. by apply (bits_inv_same _ _ v). }
      split; [intros ?; lia|].
      split.
      { intros _. split; [done|]. intros Hr. unfold end_seen in *.
        cbn [beg reflen set_id set_b]. rewrite F5, F4, F12.
        by apply H7'. }
      split; [intros ?; lia|].
      intros _. split; [done|].
      change (Z.to_nat (9 + 1 - 10)) with O. rewrite take_0.
      by destruct (index_of _ _).
  - unfold vcf_inv, lenpos_seen, vcf_fmtlen.
    cbn [id set_id set_b svlenals reflen alcnt use_svlen
         getlen svlen end_ beg lenpos fmtlen].
    rewrite Hid, <- H5', Eg.
    split; [done|]. split; [intros ?; lia|]. split; [done|].
    split; [intros ?; lia|].
    split; [done|]. split; [intros ?; lia|].
    split; [done|]. split; [intros ?; lia|]. done.
Qed.

(** The columns after FORMAT: the samples. *)
Lemma vcf_step_sample buf i v col :
  9 < id v -> columns buf !! Z.to_nat (id v - 1) = Some col ->
  text_at (wr (line v) i 0) (b v) col -> length col = (i - b v)%nat ->
  vcf_inv sv buf v ->
  match vcf_field sv i v with
  | Next w => vcf_inv sv buf (set_id (id w + 1) (set_b (S i) w))
  | Break w => False
  | Return _ _ => True
  end.
Proof.
  intros Hid Hcol Htext Hlen (H1 & H2 & H3 & H4 & H5 & H6 & H7 & H8 & H9).
  rewrite vcf_field_sample by done.
  destruct H5 as (Hb & H5 & H5'); [lia|].
  destruct H7 as [H7 H7']; [lia|].
  destruct H9 as [H9 H9']; [lia|].
  specialize (H3 ltac:(lia)).
  assert (Htake : take (Z.to_nat (id v + 1 - 10)) (drop 9 (columns buf))
                  = take (Z.to_nat (id v - 10)) (drop 9 (columns buf))
                    ++ [col]).
  { replace (Z.to_nat (id v + 1 - 10)) with (S (Z.to_nat (id v - 10)))
      by lia.
    apply take_S_r. rewrite lookup_drop. rewrite <- Hcol. f_equal. lia. }
  assert (Hrest : forall w,
    id w = id v -> svlenals w = svlenals v -> reflen w = reflen v ->
    alcnt w = alcnt v -> use_svlen w = use_svlen v ->
    getlen w = getlen v -> svlen w = svlen v -> end_ w = end_ v ->
    beg w = beg v -> lenpos w = lenpos v ->
    fmtlen w = vcf_fmtlen sv (alleles (column buf 5)) (column buf 9)
                 (take (Z.to_nat (id v + 1 - 10)) (drop 9 (columns buf))) ->
    vcf_inv sv buf (set_id (id w + 1) (set_b (S i) w))).
  { intros w E1 E2 E3 E4 E5 E6 E7 E8 E9 E10 E11.
    unfold vcf_inv, end_seen in *.
    cbn [id set_id set_b svlenals reflen alcnt use_svlen
         getlen svlen end_ beg lenpos fmtlen].
    rewrite E1, E2, E3, E5, E6, E7, E8, E9, E10, E11.
    split; [done|]. split; [intros ?; lia|]. split; [done|].
    split; [intros ?; lia|].
    split.
    { intros _. split; [|done]. destruct Hb as [lb Hb].
      exists lb. by apply (bits_inv_same _ _ v). }
    split; [intros ?; lia|]. split; [done|].
    split; [intros ?; lia|]. done. }
  unfold lenpos_seen in H9. unfold vcf_fmtlen in H9'.
  rewrite <- H5' in H9, H9'.
  destruct (getlen v) eqn:Eg; cbn [andb].
  - destruct (index_of (lit "LEN") (split_on COLON (column buf 9)))
      as [p|] eqn:Ep.
    + destruct (Z.eqb_spec (lenpos v) (-1)) as [?|_]; [lia|]. cbn [negb].
      pose proof (scan_sample_frame i v) as Hfr. unfold frame_sample in Hfr.
      destruct Hfr as (F1 & F2 & F3 & F4 & F5 & F6 & F7 & F8 & F9 & F10
                       & F11 & F12 & F13 & F14 & _).
      apply Hrest; try done.
      rewrite (scan_sample_spec i v col Htext Hlen) by lia.
      unfold vcf_fmtlen. rewrite <- H5', Ep, Htake.
      rewrite fmap_app.
      change (sample_len p <$> [col]) with [sample_len p col].
      rewrite foldr_max_snoc.
      rewrite H9', H9, Nat2Z.id.
      pose proof (foldr_max_nonneg
        (sample_len p <$> take (Z.to_nat (id v - 10))
                               (drop 9 (columns buf)))). lia.
    + rewrite H9. cbn [Z.eqb negb]. apply Hrest; try done.
      unfold vcf_fmtlen. by rewrite <- H5', Ep.
  - apply Hrest; try done. unfold vcf_fmtlen. by rewrite <- H5'.
Qed.

(** *** The loop over the columns of a VCF record *)

(** Every field keeps the VCF invariant; the [break] of a FORMAT
    without [LEN] leaves the final values. *)
Lemma vcf_inv_step conf buf i v :
  fmt_tag conf = TBX_VCF -> sc conf < 4 -> bc conf < 4 ->
  loop_inv conf buf i v -> vcf_inv sv buf v ->
  is_sep (rd buf i) = true -> (i <= length buf)%nat ->
  match field_step sv conf i v with
  | Next w => vcf_inv sv buf (set_id (id w + 1) (set_b (S i) w))
  | Break w => vcf_done sv buf w
  | Return _ _ => True
  end.
Proof.
  intros Hf Hsc Hbc Hinv He Hsep Hlen.
  destruct (column_here conf buf i v Hinv Hsep Hlen)
    as (Hcol & Htext & Hclen & Hk).
  destruct (Z.lt_ge_cases (id v) 4) as [Hlt|Hge].
  { pose proof (field_step_early conf i v Hf Hlt) as H.
    destruct (field_step sv conf i v) as [w|w|r w]; [|done|done].
    destruct H as (E0 & E1 & E2 & E3 & E4 & E5 & E6 & E7 & E8).
    apply (vcf_inv_early buf v); try done. cbn. lia. }
  rewrite field_step_vcf by (try done; lia).
  destruct (Z.eq_dec (id v) 4) as [E4|N4].
  { rewrite vcf_field_ref by done. rewrite E4 in Hcol.
    pose proof (vcf_step_ref buf i v _ E4 (column_lookup buf 4 _ Hcol)
                  Hclen He) as H.
    destruct (b v <? i)%nat; cbn [id set_reflen set_alcnt set_end_];
      by rewrite E4. }
  destruct (Z.eq_dec (id v) 5) as [E5|N5].
  { rewrite vcf_field_alt by done. rewrite E5 in Hcol.
    by apply (vcf_step_alt buf i v _ E5 (column_lookup buf 5 _ Hcol)). }
  destruct (Z.eq_dec (id v) 8) as [E8|N8].
  { rewrite vcf_field_info by done. rewrite E8 in Hcol.
    by apply (vcf_step_info buf i v _ E8 (column_lookup buf 8 _ Hcol)). }
  destruct (Z.eq_dec (id v) 9) as [E9|N9].
  { rewrite E9 in Hcol.
    by apply (vcf_step_format buf i v _ E9 (column_lookup buf 9 _ Hcol)). }
  destruct (Z.lt_ge_cases (id v) 9) as [H9|H9].
  { rewrite vcf_field_other by (try done; lia).
    apply vcf_step_skip; [lia|done]. }
  pose proof (vcf_step_sample buf i v _ ltac:(lia) Hcol Htext Hclen He) as H.
  by destruct (vcf_field sv i v).
Qed.

(** The loop, run to the end of the line: the invariant holds at the
    end, or the loop was left by [break]. *)
Lemma fields_loop_cols conf buf (E Q : vars -> Prop) :
  (forall i v, loop_inv conf buf i v -> E v -> is_sep (rd buf i) = true ->
     (i <= length buf)%nat ->
     match field_step sv conf i v with
     | Next v' => E (set_id (id v' + 1) (set_b (S i) v'))
     | Break v' => Q v'
     | Return _ _ => True
     end) ->
  forall n i v,
  loop_inv conf buf i v -> E v -> (i + n = S (length buf))%nat ->
  match fields_loop sv conf n i v with
  | Next w => loop_inv conf buf (S (length buf)) w /\ E w
  | Break w => Q w
  | Return _ _ => True
  end.
Proof.
  intros HE. induction n as [|n IH]; intros i v Hinv He Hn.
  { simpl. replace (S (length buf)) with i by lia. done. }
  simpl. pose proof Hinv as (Hline & _).
  destruct (is_sep (rd (line v) i)) eqn:Esep; rewrite Hline in Esep.
  2:{ apply IH; [by apply loop_inv_skip|done|lia]. }
  pose proof (loop_inv_step conf buf i v Hinv Esep) as Hstep.
  specialize (HE i v Hinv He Esep ltac:(lia)).
  destruct (field_step sv conf i v) as [v'|v'|r v']; [|done|done].
  apply IH; [done|done|lia].
Qed.

Lemma count_seps_columns buf :
  count_seps buf (S (length buf)) = length (columns buf).
Proof.
  unfold columns. induction buf as [|x l IH]; [done|].
  change (length (x :: l)) with (S (length l)).
  rewrite count_seps_cons, IH. simpl.
  destruct (is_sep x); [done|].
  pose proof (split_by_nonempty is_sep l).
  by destruct (split_by is_sep l).
Qed.

Lemma column_none buf (n : nat) :
  (length (columns buf) < n)%nat -> column buf n = [].
Proof.
  intros H. unfold column. rewrite lookup_ge_None_2; [done|lia].
Qed.

Lemma column_some buf (n : nat) :
  column buf n <> [] -> (n <= length (columns buf))%nat.
Proof.
  intros H. destruct (le_lt_dec n (length (columns buf))); [done|].
  by rewrite column_none in H.
Qed.

Lemma tag_text_nil tag : tag_text [] tag = None.
Proof. done. Qed.

(** At the end of the line the invariant gives the final values. *)
Lemma vcf_inv_done buf v :
  vcf_inv sv buf v -> id v = 1 + Z.of_nat (length (columns buf)) ->
  vcf_done sv buf v.
Proof.
  intros (H1 & H2 & H3 & H4 & H5 & H6 & H7 & H8 & H9) Hid.
  unfold vcf_done.
  split; [|split; [|split; [|split]]].
  - destruct (Z.le_gt_cases (id v) 4) as [Hle|Hgt].
    + destruct H2 as [-> _]; [done|]. by rewrite (column_none buf 4) by lia.
    + by apply H3.
  - destruct (Z.le_gt_cases (id v) 8) as [Hle|Hgt].
    + destruct H6 as [-> _]; [done|].
      rewrite (column_none buf 8) by lia. unfold svlen_seen.
      by rewrite tag_text_nil.
    + by apply H7.
  - destruct (Z.le_gt_cases (id v) 9) as [Hle|Hgt].
    + destruct H8 as [_ ->]; [done|].
      rewrite (column_none buf 9) by lia.
      rewrite drop_ge by lia. unfold vcf_fmtlen.
      by destruct (gvcf_seen _ _).
    + destruct H9 as [_ ->]; [lia|]. f_equal.
      apply take_ge. rewrite length_drop. lia.
  - intros Hr.
    destruct (Z.le_gt_cases (id v) 4) as [H4'|H4'].
    { destruct H2 as [H2 _]; [done|]. lia. }
    destruct (Z.le_gt_cases (id v) 8) as [Hle|Hgt].
    + destruct H6 as [_ H6]; [done|]. rewrite H6 by done.
      unfold end_seen. by rewrite (column_none buf 8) by lia.
    + destruct H7 as [_ H7]; [lia|]. by apply H7.
  - intros H. apply H5. lia.
Qed.

Lemma vcf_inv_enter buf rep lg : vcf_inv sv buf (enter buf rep lg).
Proof.
  unfold vcf_inv. cbn.
  split; [by rewrite length_replicate|].
  repeat split; try done; intros ?; lia.
Qed.

(** The state in which the loop over a VCF line is left. *)
Lemma vcf_loop_done conf buf rep lg :
  fmt_tag conf = TBX_VCF -> sc conf < 4 -> bc conf < 4 ->
  match fields_loop sv conf (S (length buf)) O (enter buf rep lg) with
  | Next w | Break w => vcf_done sv buf w
  | Return _ _ => True
  end.
Proof.
  intros Hf Hsc Hbc.
  pose proof (fields_loop_cols conf buf (vcf_inv sv buf) (vcf_done sv buf))
    as H.
  specialize (H ltac:(intros; by apply vcf_inv_step)
                (S (length buf)) O _ (loop_inv_enter conf buf rep lg)
                (vcf_inv_enter buf rep lg) eq_refl).
  destruct (fields_loop sv conf (S (length buf)) 0 (enter buf rep lg))
    as [w|w|r w]; [|done|done].
  destruct H as [(_ & Hid & _) He].
  apply vcf_inv_done; [done|].
  by rewrite Hid, count_seps_columns.
Qed.

(** *** The end of a VCF record *)

Lemma columns_no_sep buf : forall c x,
  c ∈ columns buf -> x ∈ c -> is_sep x = false.
Proof.
  unfold columns. induction buf as [|y l IH]; intros c x Hc Hx.
  - apply list_elem_of_singleton in Hc. subst c. by apply elem_of_nil in Hx.
  - simpl in Hc. destruct (is_sep y) eqn:Ey.
    + apply elem_of_cons in Hc as [->|Hc]; [by apply elem_of_nil in Hx|].
      by apply (IH c).
    + pose proof (split_by_nonempty is_sep l) as Hne.
      destruct (split_by is_sep l) as [|h t]; [done|].
      apply elem_of_cons in Hc as [->|Hc].
      * apply elem_of_cons in Hx as [->|Hx]; [done|].
        apply (IH h); [by left|done].
      * apply (IH c); [by right|done].
Qed.

Lemma column_no_nul buf n : 0 ∉ column buf n.
Proof.
  unfold column. intros H.
  destruct (columns buf !! (n - 1)%nat) as [c|] eqn:E; simpl in H;
    [|by apply elem_of_nil in H].
  by pose proof (columns_no_sep buf c 0 (list_elem_of_lookup_2 _ _ _ E) H).
Qed.

Lemma vcf_fmtlen_nonneg als format samples :
  0 <= vcf_fmtlen sv als format samples.
Proof.
  unfold vcf_fmtlen. destruct (gvcf_seen sv als); [|done].
  destruct (index_of _ _); [apply foldr_max_nonneg|done].
Qed.

Lemma vcf_svlen_nonneg als vals : 0 <= vcf_svlen sv als vals.
Proof. apply foldr_max_nonneg. Qed.

(** The code after the loop, on the final values. *)
Lemma vcf_finish conf buf w :
  fmt_tag conf = TBX_VCF -> vcf_done sv buf w ->
  column buf 4 <> [] -> svlen_per_allele sv buf ->
  0 <= beg w -> vcf_end sv (beg w) buf <= LLONG_MAX ->
  end_ (snd (finish conf w)) = vcf_end sv (beg w) buf.
Proof.
  intros Hf (Hr & Hs & Hfm & He & _) Href Hper Hb Hmax.
  assert (Hr1 : 1 <= reflen w).
  { rewrite Hr. destruct (column buf 4); [done|]. simpl. lia. }
  pose proof (vcf_fmtlen_nonneg (alleles (column buf 5)) (column buf 9)
                (drop 9 (columns buf))) as HF.
  pose proof (vcf_svlen_nonneg (alleles (column buf 5))
                (svlen_values (column buf 8))) as HS.
  unfold vcf_end in *. rewrite <- Hr, <- Hfm in *.
  set (S := vcf_svlen sv (alleles (column buf 5))
              (svlen_values (column buf 8))) in *.
  set (m := Z.max (beg w + reflen w)
              (Z.max (beg w + S) (beg w + fmtlen w))) in *.
  assert (Hm : m <= LLONG_MAX).
  { destruct (info_end (column buf 8)) as [e|]; [|done].
    destruct (beg w <? e); lia. }
  assert (Hagree : Z.max (reflen w) (svlen w) = Z.max (reflen w) S).
  { rewrite Hs. apply svlen_seen_spec; try done.
    - apply column_no_nul.
    - subst S m. lia. }
  assert (Hw : forall z, 0 <= z <= m -> wrap64 z = z).
  { intros z Hz. apply wrap64_id. unfold LLONG_MIN, LLONG_MAX in *. lia. }
  specialize (He ltac:(lia)). unfold end_seen in He.
  rewrite (Hw (beg w + reflen w)) in He by (subst m; lia).
  unfold finish. rewrite Hf.
  change (TBX_VCF =? TBX_VCF) with true. cbn match.
  set (tmp := if reflen w <? svlen w then _ else _).
  assert (Htmp : tmp + beg w = m).
  { subst tmp m. case_cmp; lia. }
  rewrite Htmp, (Hw m) by (subst m; lia).
  match goal with
  | |- end_ (snd (if ?c then _ else _)) = _ => destruct c
  end; cbn [snd end_ set_end_]; rewrite He;
    destruct (info_end (column buf 8)) as [e|];
    try destruct (Z.ltb_spec (beg w) e); case_cmp; subst m; lia.
Qed.

Lemma finish_alt conf v :
  alcnt (snd (finish conf v)) = alcnt v
  /\ svlenals (snd (finish conf v)) = svlenals v
  /\ use_svlen (snd (finish conf v)) = use_svlen v
  /\ getlen (snd (finish conf v)) = getlen v.
Proof.
  unfold finish. destruct (fmt_tag conf =? TBX_VCF);
    match goal with
    | |- context [if ?c then (-1, ?a) else (0, ?a)] => by destruct c
    end.
Qed.

(** C1, as the code has it: the end of a VCF record.  A line of the
    VCF preset, whose name and begin columns come before column 4 and
    whose reference allele is not empty, that parses: when [SVLEN]
    gives a value to every
    symbolic allele examined and the end stays below [LLONG_MAX], [end]
    is the largest of [beg] plus the length of the reference allele,
    [beg] plus the largest [|SVLEN|] of a symbolic allele, INFO/END when
    it lies after [beg], and, when a [<*>] or [<NON_REF>] allele was
    seen, [beg] plus the largest FORMAT/LEN over all the samples. *)
Theorem vcf_record_end conf buf rep lg :
  fmt_tag conf = TBX_VCF -> sc conf < 4 -> bc conf < 4 ->
  column buf 4 <> [] -> svlen_per_allele sv buf ->
  fst (tbx_parse1 sv conf (length buf) buf rep lg) = 0 ->
  vcf_end sv (beg (snd (tbx_parse1 sv conf (length buf) buf rep lg))) buf
    <= LLONG_MAX ->
  end_ (snd (tbx_parse1 sv conf (length buf) buf rep lg))
  = vcf_end sv (beg (snd (tbx_parse1 sv conf (length buf) buf rep lg))) buf.
Proof.
  intros Hf Hsc Hbc Href Hper. unfold tbx_parse1.
  pose proof (vcf_loop_done conf buf rep lg Hf Hsc Hbc) as H.
  pose proof (fields_loop_inv conf buf (S (length buf)) O _
                (loop_inv_enter conf buf rep lg)) as Hret.
  destruct (fields_loop sv conf (S (length buf)) 0 (enter buf rep lg))
    as [w|w|r w]; [| |by cbn; intros ->];
    intros H0;
    (destruct (finish_spec conf w) as (_ & _ & _ & Eb & _ & _ & _ & Hfin));
    (destruct (Hfin H0) as (_ & _ & Hbeg & _));
    rewrite Eb; intros Hmax; by apply vcf_finish.
Qed.

(** C8, as the code has it: the alternative alleles of a VCF record.
    After a line of the VCF preset with at least five columns, whose
    name and begin columns come before column 4, has been parsed, the
    count of alleles is one (the reference) plus the number of alleles
    examined, which are the first 65535 comma-separated pieces of
    column 5 at most; the bit set marks exactly those of them the
    symbolic-allele test accepts, [use_svlen] says whether there is
    one, and [getlen] whether a [<*>] or [<NON_REF>] that the test
    rejects was seen. *)
Theorem vcf_alt_examined conf buf rep lg :
  fmt_tag conf = TBX_VCF -> sc conf < 4 -> bc conf < 4 ->
  (5 <= length (columns buf))%nat ->
  fst (tbx_parse1 sv conf (length buf) buf rep lg) = 0 ->
  let v := snd (tbx_parse1 sv conf (length buf) buf rep lg) in
  let als := take (Z.to_nat 65535) (split_on COMMA (column buf 5)) in
  alcnt v = 1 + Z.of_nat (length als)
  /\ alcnt v <= 65536
  /\ (forall (k : nat) a, als !! k = Some a ->
        svlen_bit (svlenals v) (1 + Z.of_nat k) = sv a)
  /\ use_svlen v = existsb sv als
  /\ getlen v = existsb (fun a => negb (sv a) && is_gvcf a) als.
Proof.
  intros Hf Hsc Hbc Hcols. unfold tbx_parse1.
  pose proof (vcf_loop_done conf buf rep lg Hf Hsc Hbc) as H.
  assert (G : forall w, vcf_done sv buf w ->
    let v := snd (finish conf w) in
    let als := take (Z.to_nat 65535) (split_on COMMA (column buf 5)) in
    alcnt v = 1 + Z.of_nat (length als)
    /\ alcnt v <= 65536
    /\ (forall (k : nat) a, als !! k = Some a ->
          svlen_bit (svlenals v) (1 + Z.of_nat k) = sv a)
    /\ use_svlen v = existsb sv als
    /\ getlen v = existsb (fun a => negb (sv a) && is_gvcf a) als).
  { intros w (_ & _ & _ & _ & Halt). cbn zeta.
    destruct (Halt Hcols) as ([lb (Ha & _ & _ & Hbits & _)] & Hu & Hg).
    destruct (finish_alt conf w) as (-> & -> & -> & ->).
    fold (alleles (column buf 5)).
    split; [done|]. split; [|by repeat split].
    rewrite Ha. unfold alleles. rewrite length_take. lia. }
  pose proof (fields_loop_inv conf buf (S (length buf)) O _
                (loop_inv_enter conf buf rep lg)) as Hret.
  destruct (fields_loop sv conf (S (length buf)) 0 (enter buf rep lg))
    as [w|w|r w];
    [by intros _; apply G|by intros _; apply G|by cbn; intros ->].
Qed.

(** *** [get_intv] *)

Lemma tbx_parse1_line conf len buf rep lg :
  line (snd (tbx_parse1 sv conf len buf rep lg)) = buf.
Proof.
  unfold tbx_parse1.
  pose proof (fields_loop_basic conf (S len) O (enter buf rep lg)) as [H _].
  destruct (fields_loop sv conf (S len) 0 (enter buf rep lg)) as [v|v|r v];
    cbn in H; rewrite ?finish_line; exact H.
Qed.

(** The name slice of a parsed line, cut at its end, is the text of
    column [sc]. *)
Lemma name_slice_column buf (k : Z) a z :
  column_start buf k a -> column_end buf a z -> (z <= length buf)%nat ->
  cstr_at (wr buf z 0) a = column buf (Z.to_nat k)
  /\ wr (wr buf z 0) z (rd buf z) = buf.
Proof.
  intros Hs (Haz & Hsep & Hc) Hz.
  destruct (column_text buf k a z Hs Haz Hsep Hc Hz) as [Hcol Hnone].
  split; [|apply wr_restore].
  rewrite (text_at_cstr _ _ _ (column_text_at buf a z Haz Hz Hnone)).
  unfold column. destruct Hs as [Hk _].
  replace (Z.to_nat k - 1)%nat with (Z.to_nat (k - 1)) by lia.
  by rewrite Hcol.
Qed.

Lemma get_intv_spec tbx len buf rep lg tid0 is_add :
  let p := tbx_parse1 sv (conf tbx) len buf rep lg in
  let g := get_intv sv tbx len buf rep lg tid0 is_add in
  line (snd (fst g)) = buf
  /\ (fst p <> 0 -> g = (-1, tid0, snd p, tbx))
  /\ (fst p = 0 -> len = length buf ->
      let name := column buf (Z.to_nat (sc (conf tbx))) in
      let t := if fmt_tag (conf tbx) =? TBX_GAF then (0, tbx)
               else get_tid tbx name is_add in
      fst (fst (fst g)) = (if fst t <? 0 then -2 else 0)
      /\ snd (fst (fst g)) = fst t
      /\ snd g = snd t
      /\ beg (snd (fst g)) = beg (snd p)
      /\ end_ (snd (fst g)) = end_ (snd p)).
Proof.
  cbn zeta. unfold get_intv.
  pose proof (tbx_parse1_line (conf tbx) len buf rep lg) as Hline.
  pose proof (tbx_parse1_ok (conf tbx) len buf rep lg) as Hok.
  destruct (tbx_parse1 sv (conf tbx) len buf rep lg) as [r v] eqn:Ep.
  cbn [fst snd] in *.
  destruct (Z.eqb_spec r 0) as [->|Hr].
  2:{ split; [done|]. split; [done|]. by intros ?. }
  destruct (Hok eq_refl) as ((a & z & Hss & Hse & Hcs & Hce & Hz) & Hb & He & _).
  rewrite Hss, Hse.
  assert (Hfin : forall t : Z * tbx_t,
    let g := (let '(tid, tbx0) := t in
              let v1 := set_line (wr (line (set_line (wr (line v) z 0) v))
                                     z (rd (line v) z))
                          (set_line (wr (line v) z 0) v) in
              if tid <? 0 then (-2, tid, v1, tbx0)
              else (if (0 <=? beg v1) && (0 <=? end_ v1) then 0 else -1,
                    tid, v1, tbx0)) in
    line (snd (fst g)) = buf
    /\ fst (fst (fst g)) = (if fst t <? 0 then -2 else 0)
    /\ snd (fst (fst g)) = fst t /\ snd g = snd t
    /\ beg (snd (fst g)) = beg v /\ end_ (snd (fst g)) = end_ v).
  { intros [tid tbx0]. cbn zeta. cbn [line set_line fst snd].
    rewrite Hline, wr_restore.
    destruct (tid <? 0); cbn; [done|].
    destruct (Z.leb_spec 0 (beg v)); [|lia].
    destruct (Z.leb_spec 0 (end_ v)); [|lia]. done. }
  destruct (fmt_tag (conf tbx) =? TBX_GAF) eqn:Eg.
  - specialize (Hfin (0, tbx)). cbn zeta in Hfin.
    destruct Hfin as (H1 & H2). split; [exact H1|].
    split; [done|]. intros _ _. exact H2.
  - cbn [line set_line]. rewrite Hline.
    split.
    + specialize (Hfin (get_tid tbx (cstr_at (wr buf z 0) a) is_add)).
      cbn zeta in Hfin. rewrite Hline in Hfin. by destruct Hfin as [H1 _].
    + split; [done|]. intros _ ->.
      destruct (name_slice_column buf (sc (conf tbx)) a z Hcs Hce Hz)
        as [Hname _].
      rewrite Hname.
      specialize (Hfin (get_tid tbx
                          (column buf (Z.to_nat (sc (conf tbx)))) is_add)).
      cbn zeta in Hfin. rewrite Hline in Hfin. by destruct Hfin as [_ H2].
Qed.

(** What [get_intv] returns.  The buffer is as it was.  When
    [tbx_parse1] fails the result is [-1], and neither [tid] nor the
    dictionary is touched.  When it succeeds, the name handed to
    [get_tid] is the text of column [sc] ([0] is taken under the GAF
    preset), and the result is [-2] when that gives a negative number
    and [0] otherwise: the test of [beg] and [end] that follows never
    fails. *)
Theorem get_intv_result tbx len buf rep lg tid0 is_add :
  let p := tbx_parse1 sv (conf tbx) len buf rep lg in
  let g := get_intv sv tbx len buf rep lg tid0 is_add in
  line (snd (fst g)) = buf
  /\ (fst p <> 0 -> g = (-1, tid0, snd p, tbx))
  /\ (fst p = 0 -> len = length buf ->
      let name := column buf (Z.to_nat (sc (conf tbx))) in
      let t := if fmt_tag (conf tbx) =? TBX_GAF then (0, tbx)
               else get_tid tbx name is_add in
      fst (fst (fst g)) = (if fst t <? 0 then -2 else 0)
      /\ snd (fst (fst g)) = fst t
      /\ snd g = snd t
      /\ beg (snd (fst g)) = beg (snd p)
      /\ end_ (snd (fst g)) = end_ (snd p)).
Proof. apply get_intv_spec. Qed.

(** *** [tbx_readrec] *)

(** A line the reader skips: read with success, not empty, and starting
    with the meta character. *)
Lemma next_line_spec m fp : forall s,
  let '(ret, s', fp') := next_line m fp s in
  exists skipped,
    Forall (fun e => 0 <= fst e /\ snd e <> [] /\ rd (snd e) 0 = m) skipped
    /\ ((fp = skipped /\ ret = -1 /\ fp' = []
         /\ s' = default s (snd <$> last skipped))
        \/ (fp = skipped ++ (ret, s') :: fp'
            /\ ~ (0 <= ret /\ s' <> [] /\ rd s' 0 = m))).
Proof.
  induction fp as [|[ret l] fp IH]; intros s.
  - simpl. exists []. split; [constructor|]. by left.
  - cbn [next_line].
    destruct ((0 <=? ret) && negb (length l =? 0)%nat && (rd l 0 =? m))
      eqn:E.
    + apply andb_true_iff in E as [E E3].
      apply andb_true_iff in E as [E1 E2].
      apply Z.leb_le in E1. apply Z.eqb_eq in E3.
      apply negb_true_iff, Nat.eqb_neq in E2.
      specialize (IH l).
      destruct (next_line m fp l) as [[ret' s'] fp'].
      destruct IH as (sk & Hsk & Hcase).
      exists ((ret, l) :: sk). split.
      { constructor; [|done]. cbn. split; [done|]. split; [|done].
        by destruct l. }
      destruct Hcase as [(-> & -> & -> & ->)|(-> & Hnot)].
      * left. repeat split; try done.
        rewrite last_cons. by destruct (last sk).
      * right. by split.
    + exists []. split; [constructor|]. right. split; [done|].
      intros (H1 & H2 & H3).
      apply andb_false_iff in E as [E|E].
      * apply andb_false_iff in E as [E|E].
        -- apply Z.leb_gt in E. lia.
        -- apply negb_false_iff, Nat.eqb_eq in E. by destruct l.
      * apply Z.eqb_neq in E. done.
Qed.

Lemma get_tid_lookup_only tbx x :
  conf (snd (get_tid tbx x false)) = conf tbx
  /\ default ∅ (dict (snd (get_tid tbx x false))) = default ∅ (dict tbx)
  /\ (fmt_tag (conf tbx) <> TBX_GAF ->
      fst (get_tid tbx x false) = default (-1) (default ∅ (dict tbx) !! x)).
Proof.
  unfold get_tid. destruct (Z.eqb_spec (fmt_tag (conf tbx)) TBX_GAF); done.
Qed.

(** The reader stops at the first line that is not a meta line. *)
Lemma next_line_stop m skipped ret l fp' : forall s,
  Forall (fun e => 0 <= fst e /\ snd e <> [] /\ rd (snd e) 0 = m) skipped ->
  ~ (0 <= ret /\ l <> [] /\ rd l 0 = m) ->
  next_line m (skipped ++ (ret, l) :: fp') s = (ret, l, fp').
Proof.
  induction skipped as [|[r0 l0] sk IH]; intros s Hsk Hnot.
  - cbn [app next_line].
    destruct ((0 <=? ret) && negb (length l =? 0)%nat && (rd l 0 =? m))
      eqn:E; [|done].
    exfalso. apply Hnot.
    apply andb_true_iff in E as [E E3].
    apply andb_true_iff in E as [E1 E2].
    apply Z.leb_le in E1. apply Z.eqb_eq in E3.
    apply negb_true_iff, Nat.eqb_neq in E2.
    split; [done|]. split; [by destruct l|done].
  - apply Forall_cons in Hsk as [(H1 & H2 & H3) Hsk]. cbn in H1, H2, H3.
    cbn [app next_line].
    rewrite (proj2 (Z.leb_le _ _) H1), (proj2 (Z.eqb_eq _ _) H3).
    replace (length l0 =? 0)%nat with false
      by (symmetry; apply Nat.eqb_neq; by destruct l0).
    cbn [andb negb]. by apply IH.
Qed.

Lemma tbx_readrec_spec fp tbx s tid0 beg0 end0 rep lg :
  let rr := tbx_readrec sv fp tbx s tid0 beg0 end0 rep lg in
  conf (rr_tbx rr) = conf tbx
  /\ default ∅ (dict (rr_tbx rr)) = default ∅ (dict tbx)
  /\ (0 <= rr_ret rr ->
      (exists skipped,
         fp = skipped ++ (rr_ret rr, rr_line rr) :: rr_fp rr
         /\ Forall (fun e => 0 <= fst e /\ snd e <> []
                             /\ rd (snd e) 0 = meta_char (conf tbx)) skipped
         /\ ~ (rr_line rr <> []
               /\ rd (rr_line rr) 0 = meta_char (conf tbx)))
      /\ fst (tbx_parse1 sv (conf tbx) (length (rr_line rr)) (rr_line rr)
                rep lg) = 0
      /\ 0 <= rr_tid rr /\ 0 <= rr_beg rr /\ 0 <= rr_end rr
      /\ (fmt_tag (conf tbx) <> TBX_GAF ->
          default ∅ (dict tbx)
            !! column (rr_line rr) (Z.to_nat (sc (conf tbx)))
          = Some (rr_tid rr))
      /\ (fmt_tag (conf tbx) = TBX_GAF -> rr_tid rr = 0))
  /\ (forall skipped ret l fp',
        fp = skipped ++ (ret, l) :: fp' ->
        Forall (fun e => 0 <= fst e /\ snd e <> []
                         /\ rd (snd e) 0 = meta_char (conf tbx)) skipped ->
        ~ (l <> [] /\ rd l 0 = meta_char (conf tbx)) -> 0 <= ret ->
        fst (tbx_parse1 sv (conf tbx) (length l) l rep lg) <> 0
        \/ (fmt_tag (conf tbx) <> TBX_GAF
            /\ default ∅ (dict tbx) !! column l (Z.to_nat (sc (conf tbx)))
               = None) ->
        rr_ret rr = -2 /\ rr_tid rr = tid0 /\ rr_beg rr = beg0
        /\ rr_end rr = end0).
Proof.
  cbn zeta.
  assert (Hmain :
    let rr := tbx_readrec sv fp tbx s tid0 beg0 end0 rep lg in
    conf (rr_tbx rr) = conf tbx
    /\ default ∅ (dict (rr_tbx rr)) = default ∅ (dict tbx)
    /\ (0 <= rr_ret rr ->
        (exists skipped,
           fp = skipped ++ (rr_ret rr, rr_line rr) :: rr_fp rr
           /\ Forall (fun e => 0 <= fst e /\ snd e <> []
                               /\ rd (snd e) 0 = meta_char (conf tbx)) skipped
           /\ ~ (rr_line rr <> []
                 /\ rd (rr_line rr) 0 = meta_char (conf tbx)))
        /\ fst (tbx_parse1 sv (conf tbx) (length (rr_line rr)) (rr_line rr)
                  rep lg) = 0
        /\ 0 <= rr_tid rr /\ 0 <= rr_beg rr /\ 0 <= rr_end rr
        /\ (fmt_tag (conf tbx) <> TBX_GAF ->
            default ∅ (dict tbx)
              !! column (rr_line rr) (Z.to_nat (sc (conf tbx)))
            = Some (rr_tid rr))
        /\ (fmt_tag (conf tbx) = TBX_GAF -> rr_tid rr = 0))).
  { cbn zeta. unfold tbx_readrec.
    pose proof (next_line_spec (meta_char (conf tbx)) fp s) as Hn.
    destruct (next_line (meta_char (conf tbx)) fp s) as [[ret l] fp'].
    destruct Hn as (sk & Hsk & Hcase).
    destruct (Z.leb_spec 0 ret) as [Hret|Hret].
    2:{ cbn. split; [done|]. split; [done|]. intros ?; lia. }
    destruct Hcase as [(_ & -> & _)|(Hfp & Hnot)]; [lia|].
    pose proof (get_intv_spec tbx (length l) l rep lg 0 false) as Hg.
    cbn zeta in Hg. destruct Hg as (Hline & Hfail & Hok).
    pose proof (tbx_parse1_ok (conf tbx) (length l) l rep lg) as Hpok.
    destruct (Z.eq_dec (fst (tbx_parse1 sv (conf tbx) (length l) l rep lg)) 0)
      as [H0|H0].
    - destruct (Hok H0 eq_refl) as (Hr & Ht & Hx & Hb & He). clear Hok Hfail.
      destruct (Hpok H0) as (_ & Hbeg & Hend & _).
      destruct (get_intv sv tbx (length l) l rep lg 0 false)
        as [[[r tid] v] tbx'].
      cbn [fst snd] in *.
      set (name := column l (Z.to_nat (sc (conf tbx)))) in *.
      destruct (get_tid_lookup_only tbx name) as (Hc & Hd & Hv).
      assert (Hcd : conf tbx' = conf tbx
                    /\ default ∅ (dict tbx') = default ∅ (dict tbx)).
      { subst tbx'. destruct (fmt_tag (conf tbx) =? TBX_GAF); by split. }
      destruct Hcd as [Hc' Hd'].
      destruct (Z.ltb_spec r 0) as [Hneg|Hpos]; cbn.
      { split; [done|]. split; [done|]. intros ?; lia. }
      split; [done|]. split; [done|]. intros _.
      rewrite Hline, Hb, He.
      assert (Htid : 0 <= tid).
      { subst r tid. destruct (Z.ltb_spec
          (fst (if fmt_tag (conf tbx) =? TBX_GAF then (0, tbx)
                else get_tid tbx name false)) 0); [lia|done]. }
      split.
      { exists sk. split; [done|]. split; [done|].
        intros [? ?]. by apply Hnot. }
      split; [done|].
      split; [done|]. split; [done|]. split; [done|]. split.
      + intros Hgaf. rewrite (proj2 (Z.eqb_neq _ _) Hgaf) in Ht.
        rewrite Hv in Ht by done.
        destruct (default ∅ (dict tbx) !! name) as [t|] eqn:Ed; cbn in Ht;
          [|lia].
        subst tid. exact Ed.
      + intros Hgaf. rewrite (proj2 (Z.eqb_eq _ _) Hgaf) in Ht. exact Ht.
    - rewrite (Hfail H0). cbn. split; [done|]. split; [done|].
      intros ?; lia. }
  cbn zeta in Hmain. destruct Hmain as (H1 & H2 & H3).
  split; [done|]. split; [done|]. split; [done|].
  intros skipped ret l fp' -> Hsk Hnot Hret Hbad.
  unfold tbx_readrec. rewrite next_line_stop; [|done|tauto].
  rewrite (proj2 (Z.leb_le _ _) Hret).
  pose proof (get_intv_spec tbx (length l) l rep lg 0 false) as Hg.
  cbn zeta in Hg. destruct Hg as (_ & Hfail & Hok).
  destruct (Z.eq_dec (fst (tbx_parse1 sv (conf tbx) (length l) l rep lg)) 0)
    as [H0|H0].
  - destruct Hbad as [?|[Hgaf Hnone]]; [done|].
    destruct (Hok H0 eq_refl) as (Hr & _).
    rewrite (proj2 (Z.eqb_neq _ _) Hgaf) in Hr.
    destruct (get_tid_lookup_only tbx
                (column l (Z.to_nat (sc (conf tbx))))) as (_ & _ & Hv).
    rewrite Hv, Hnone in Hr by done. cbn in Hr.
    destruct (get_intv sv tbx (length l) l rep lg 0 false)
      as [[[r tid] v] tbx'].
    cbn [fst] in Hr. subst r. done.
  - by rewrite (Hfail H0).
Qed.

(** What [tbx_readrec] delivers.  The dictionary is only read: its
    entries are those it had.  A result that is not negative comes with
    the first line of the stream that is empty, or does not start with
    the meta character, or was read with a failure; that line parses;
    [*beg] and [*end] are not negative, and [*tid] is the number the
    dictionary has for the text of column [sc], or [0] under the GAF
    preset.  When the line the reader stops at was read with success
    but does not parse, or, under a preset other than GAF, has a name
    the dictionary does not hold, the result is [-2] and [*tid], [*beg]
    and [*end] are left as they were. *)
Theorem tbx_readrec_record fp tbx s tid0 beg0 end0 rep lg :
  let rr := tbx_readrec sv fp tbx s tid0 beg0 end0 rep lg in
  conf (rr_tbx rr) = conf tbx
  /\ default ∅ (dict (rr_tbx rr)) = default ∅ (dict tbx)
  /\ (0 <= rr_ret rr ->
      (exists skipped,
         fp = skipped ++ (rr_ret rr, rr_line rr) :: rr_fp rr
         /\ Forall (fun e => 0 <= fst e /\ snd e <> []
                             /\ rd (snd e) 0 = meta_char (conf tbx)) skipped
         /\ ~ (rr_line rr <> []
               /\ rd (rr_line rr) 0 = meta_char (conf tbx)))
      /\ fst (tbx_parse1 sv (conf tbx) (length (rr_line rr)) (rr_line rr)
                rep lg) = 0
      /\ 0 <= rr_tid rr /\ 0 <= rr_beg rr /\ 0 <= rr_end rr
      /\ (fmt_tag (conf tbx) <> TBX_GAF ->
          default ∅ (dict tbx)
            !! column (rr_line rr) (Z.to_nat (sc (conf tbx)))
          = Some (rr_tid rr))
      /\ (fmt_tag (conf tbx) = TBX_GAF -> rr_tid rr = 0))
  /\ (forall skipped ret l fp',
        fp = skipped ++ (ret, l) :: fp' ->
        Forall (fun e => 0 <= fst e /\ snd e <> []
                         /\ rd (snd e) 0 = meta_char (conf tbx)) skipped ->
        ~ (l <> [] /\ rd l 0 = meta_char (conf tbx)) -> 0 <= ret ->
        fst (tbx_parse1 sv (conf tbx) (length l) l rep lg) <> 0
        \/ (fmt_tag (conf tbx) <> TBX_GAF
            /\ default ∅ (dict tbx) !! column l (Z.to_nat (sc (conf tbx)))
               = None) ->
        rr_ret rr = -2 /\ rr_tid rr = tid0 /\ rr_beg rr = beg0
        /\ rr_end rr = end0).
Proof. apply tbx_readrec_spec. Qed.

(** *** Numbers in a column that a separator ends *)

Lemma skip_space_app t rest :
  (skip_space t < length t)%nat -> skip_space (t ++ rest) = skip_space t.
Proof.
  induction t as [|x t IH]; simpl; [lia|].
  destruct (isspace x); [|done]. intros H. rewrite IH; [done|lia].
Qed.

Lemma read_sign_halted t rest :
  halted rest -> read_sign (t ++ rest) = read_sign t.
Proof.
  intros Hr. destruct t as [|x t]; simpl; [|done].
  destruct rest as [|c r]; [done|]. destruct Hr as (H1 & H2 & _).
  unfold read_sign.
  destruct c as [|p|p]; try done.
  do 6 (destruct p as [p|p|]; try done).
Qed.

Lemma read_digits_halted base t rest : forall acc,
  halted rest -> read_digits base acc (t ++ rest) = read_digits base acc t.
Proof.
  intros acc Hr. revert acc. induction t as [|x t IH]; intros acc; simpl.
  - destruct rest as [|c r]; [done|]. simpl.
    destruct Hr as (_ & _ & ->). done.
  - destruct (digit_val x) as [d|]; [|done].
    destruct (d <? base); [|done]. by rewrite IH.
Qed.

Lemma read_base_halted base t rest :
  halted rest -> read_base base (t ++ rest) = read_base base t.
Proof.
  intros Hr. unfold read_base.
  assert (Hx : forall c, halts c -> ((c =? 120) || (c =? 88)) = false).
  { intros c (_ & _ & H).
    destruct (Z.eqb_spec c 120) as [->|]; [done|].
    destruct (Z.eqb_spec c 88) as [->|]; done. }
  assert (H0 : forall c, halts c -> c <> 48).
  { intros c (_ & _ & H) ->. done. }
  assert (Hd : forall c, halts c -> is_digit 16 c = false).
  { intros c (_ & _ & H). unfold is_digit. by rewrite H. }
  destruct t as [|a [|x [|h t]]]; simpl.
  - destruct rest as [|c r]; [done|]. simpl in Hr.
    pose proof (H0 c Hr) as Hc.
    destruct c as [|p|p]; try (by rewrite ?andb_false_r).
    do 6 (destruct p as [p|p|]; try (by rewrite ?andb_false_r)).
  - destruct rest as [|c r]; [done|]. simpl in Hr.
    destruct r as [|c' r].
    + done.
    + destruct a as [|p|p]; try done.
      do 6 (destruct p as [p|p|]; try done).
      by rewrite (Hx c Hr).
  - destruct rest as [|c r]; [done|]. simpl in Hr.
    destruct a as [|p|p]; try done.
    do 6 (destruct p as [p|p|]; try done).
    by rewrite (Hd c Hr), !andb_false_r.
  - done.
Qed.

(** A text that holds more than white space is read by [strtoll] alone
    when a byte that is no sign and no digit follows it. *)
Lemma strtoll_list_halted t rest base :
  halted rest -> (skip_space t < length t)%nat ->
  strtoll_list (t ++ rest) base = strtoll_list t base.
Proof.
  intros Hr Hsp. unfold strtoll_list.
  rewrite skip_space_app by done.
  rewrite drop_app_le by lia.
  rewrite read_sign_halted by done.
  pose proof (read_sign_le (drop (skip_space t) t)) as H1.
  destruct (read_sign (drop (skip_space t) t)) as [neg k1]. simpl in H1.
  rewrite drop_app_le by done.
  rewrite read_base_halted by done.
  pose proof (read_base_le base (drop k1 (drop (skip_space t) t))) as H2.
  destruct (read_base base _) as [b' k2]. simpl in H2.
  rewrite drop_app_le by done.
  by rewrite read_digits_halted.
Qed.

Lemma read_digits_le base t : forall acc,
  (snd (read_digits base acc t) <= length t)%nat.
Proof.
  induction t as [|x t IH]; intros acc; simpl; [lia|].
  destruct (digit_val x) as [d|]; simpl; [|lia].
  destruct (d <? base); simpl; [|lia].
  specialize (IH (acc * base + d)).
  destruct (read_digits base (acc * base + d) t). simpl in *. lia.
Qed.

(** A text in which [strtoll] finds a number holds more than white
    space. *)
Lemma strtoll_list_converts t base :
  snd (strtoll_list t base) <> O -> (skip_space t < length t)%nat.
Proof.
  unfold strtoll_list. intros H.
  destruct (Nat.lt_ge_cases (skip_space t) (length t)) as [|Hge]; [done|].
  exfalso. apply H. rewrite drop_ge by done. unfold read_base. simpl.
  rewrite andb_false_r. by destruct (base =? 0).
Qed.

Lemma sep_halts c : is_sep c = true -> halts c.
Proof.
  unfold is_sep. intros H. apply orb_true_iff in H as [H|H];
    apply Z.eqb_eq in H; subst c; by repeat split.
Qed.

(** The number at the start of the column the loop is leaving. *)
Lemma column_strtoll buf p i base :
  (p <= i)%nat -> (i <= length buf)%nat -> is_sep (rd buf i) = true ->
  snd (strtoll_list (take (i - p) (drop p buf)) base) <> O ->
  strtoll buf p base
  = (fst (strtoll_list (take (i - p) (drop p buf)) base),
     (p + snd (strtoll_list (take (i - p) (drop p buf)) base))%nat).
Proof.
  intros Hpi Hi Hsep Hconv. unfold strtoll.
  rewrite <- (take_drop (i - p) (drop p buf)) at 1.
  rewrite strtoll_list_halted.
  - by destruct (strtoll_list _ _).
  - rewrite drop_drop. replace (p + (i - p))%nat with i by lia.
    destruct (drop i buf) as [|c r] eqn:E; [done|]. cbn.
    apply sep_halts. unfold rd in Hsep.
    rewrite <- (Nat.add_0_r i), <- lookup_drop, E in Hsep. exact Hsep.
  - by apply strtoll_list_converts in Hconv.
Qed.

(** *** The begin and end columns of the generic preset *)

(** What the begin column leaves in [beg]. *)
Lemma parse_beg_value conf v v' :
  parse_beg conf v = Next v' ->
  beg v'
  = Z.max 0 (if is_ucsc conf then fst (strtoll (line v) (b v) 0)
             else wrap64 (fst (strtoll (line v) (b v) 0) - 1)).
Proof.
  unfold parse_beg.
  destruct (strtoll (line v) (b v) 0) as [x s]. cbn [fst].
  set (v1 := if bc conf <=? ec conf then _ else _).
  assert (H1 : beg v1 = x /\ b v1 = b v)
    by (subst v1; by destruct (bc conf <=? ec conf)).
  destruct H1 as [Hb1 Hbb]. rewrite Hbb.
  destruct (s =? b v)%nat; [done|].
  set (v2 := if negb (is_ucsc conf) then _ else _).
  assert (H2 : beg v2 = if is_ucsc conf then x else wrap64 (x - 1)).
  { subst v2. destruct (is_ucsc conf); cbn [negb].
    - by destruct (bc conf <=? ec conf).
    - cbn. by rewrite Hb1. }
  set (v3 := if beg v2 <? 0 then _ else v2).
  assert (H3 : beg v3 = Z.max 0 (beg v2)).
  { subst v3. destruct (Z.ltb_spec (beg v2) 0); cbn; lia. }
  intros [= <-].
  assert (H4 : forall w, beg (if end_ w <? 1 then set_end_ 1 w else w) = beg w)
    by (intros w; by destruct (end_ w <? 1)).
  by rewrite H4, H3, H2.
Qed.

(** What the loop keeps under the generic preset: past the begin column
    [beg] is what that column gave, past the end column [end] is the
    number of that column. *)
Lemma generic_step conf buf i v (B y : Z) :
  fmt_tag conf = TBX_GENERIC ->
  sc conf <> bc conf -> sc conf <> ec conf -> 1 <= bc conf < ec conf ->
  snd (strtoll_list (column buf (Z.to_nat (bc conf))) 0) <> O ->
  snd (strtoll_list (column buf (Z.to_nat (ec conf))) 0) <> O ->
  B = Z.max 0 (if is_ucsc conf
               then fst (strtoll_list (column buf (Z.to_nat (bc conf))) 0)
               else wrap64 (fst (strtoll_list
                                   (column buf (Z.to_nat (bc conf))) 0)
                            - 1)) ->
  y = fst (strtoll_list (column buf (Z.to_nat (ec conf))) 0) ->
  loop_inv conf buf i v ->
  (bc conf < id v -> beg v = B) /\ (ec conf < id v -> end_ v = y) ->
  is_sep (rd buf i) = true -> (i <= length buf)%nat ->
  match field_step sv conf i v with
  | Next w =>
      (bc conf < id w + 1 -> beg w = B) /\ (ec conf < id w + 1 -> end_ w = y)
  | Break _ => False
  | Return _ _ => True
  end.
Proof.
  intros Hf Hsb Hse Hbe Hcb Hce HB Hy Hinv [Eb Ee] Hsep Hlen.
  destruct (column_here conf buf i v Hinv Hsep Hlen)
    as (Hcol & _ & _ & Hk).
  pose proof Hinv as (Hline & _ & Hbi & _).
  assert (Hnum : forall k : Z, id v = k ->
    snd (strtoll_list (column buf (Z.to_nat k)) 0) <> O ->
    strtoll (line v) (b v) 0
    = (fst (strtoll_list (column buf (Z.to_nat k)) 0),
       (b v + snd (strtoll_list (column buf (Z.to_nat k)) 0))%nat)).
  { intros k Hid Hc.
    assert (Hck : column buf (Z.to_nat k) = take (i - b v) (drop (b v) buf)).
    { apply column_lookup. rewrite <- Hcol, Hid. f_equal. lia. }
    rewrite Hck in *. rewrite Hline. by apply column_strtoll. }
  unfold field_step.
  destruct (Z.eqb_spec (id v) (sc conf)) as [Hsc|Hsc].
  { cbn. split; intros ?; [apply Eb|apply Ee]; lia. }
  destruct (Z.eqb_spec (id v) (bc conf)) as [Hbc|Hbc].
  { rewrite Hf. change (TBX_GENERIC =? TBX_GAF) with false. cbn match.
    pose proof (parse_beg_value conf v) as Hval.
    destruct (parse_beg_cases conf v)
      as [(w & Hw & Hfr & _)|(w & Hw & _)]; rewrite Hw; [|done].
    destruct Hfr as (_ & _ & _ & _ & Hid & _).
    specialize (Hval w Hw). rewrite (Hnum (bc conf) Hbc Hcb) in Hval.
    cbn [fst] in Hval.
    split; [intros _; by rewrite Hval, HB|intros ?; lia]. }
  rewrite Hf. change (TBX_GENERIC =? TBX_GENERIC) with true. cbn match.
  destruct (Z.eqb_spec (id v) (ec conf)) as [Hec|Hec].
  - rewrite (Hnum (ec conf) Hec Hce).
    destruct (_ =? _)%nat; [done|]. cbn.
    split; [intros _; apply Eb; lia|intros _; by rewrite Hy].
  - split; intros ?; [apply Eb|apply Ee]; lia.
Qed.

Lemma generic_begin_end_spec conf buf rep lg :
  fmt_tag conf = TBX_GENERIC ->
  sc conf <> bc conf -> sc conf <> ec conf -> 1 <= bc conf < ec conf ->
  ec conf <= Z.of_nat (length (columns buf)) ->
  snd (strtoll_list (column buf (Z.to_nat (bc conf))) 0) <> O ->
  snd (strtoll_list (column buf (Z.to_nat (ec conf))) 0) <> O ->
  fst (tbx_parse1 sv conf (length buf) buf rep lg) = 0 ->
  beg (snd (tbx_parse1 sv conf (length buf) buf rep lg))
  = Z.max 0 (if is_ucsc conf
             then fst (strtoll_list (column buf (Z.to_nat (bc conf))) 0)
             else wrap64 (fst (strtoll_list
                                 (column buf (Z.to_nat (bc conf))) 0) - 1))
  /\ end_ (snd (tbx_parse1 sv conf (length buf) buf rep lg))
     = fst (strtoll_list (column buf (Z.to_nat (ec conf))) 0).
Proof.
  intros Hf Hsb Hse Hbe Hcols Hcb Hce. unfold tbx_parse1.
  set (B := Z.max 0 _). set (y := fst (strtoll_list _ 0)).
  pose proof (fields_loop_cols conf buf
                (fun v => (bc conf < id v -> beg v = B)
                          /\ (ec conf < id v -> end_ v = y))
                (fun _ => False)) as H.
  specialize (H ltac:(intros i v Hinv He Hsep Hlen;
                      by apply (generic_step conf buf i v B y))
                (S (length buf)) O _ (loop_inv_enter conf buf rep lg)
                ltac:(split; cbn; intros ?; lia) eq_refl).
  pose proof (fields_loop_inv conf buf (S (length buf)) O _
                (loop_inv_enter conf buf rep lg)) as Hret.
  destruct (fields_loop sv conf (S (length buf)) 0 (enter buf rep lg))
    as [w|w|r w]; [|done|by cbn; intros ->].
  destruct H as [(_ & Hid & _) [Eb Ee]].
  rewrite count_seps_columns in Hid. intros _.
  destruct (finish_spec conf w) as (_ & _ & _ & Hb & He & _).
  rewrite Hb, He by by rewrite Hf.
  split; [apply Eb|apply Ee]; lia.
Qed.

(** The generic preset, with the begin column before the end column.
    When both columns exist and start with a number, a line that parses
    has [end] equal to the number of the end column as it stands, and
    [beg] equal to the number of the begin column, less one unless the
    preset has the [TBX_UCSC] flag, and not below [0]. *)
Theorem generic_begin_end conf buf rep lg :
  fmt_tag conf = TBX_GENERIC ->
  sc conf <> bc conf -> sc conf <> ec conf -> 1 <= bc conf < ec conf ->
  ec conf <= Z.of_nat (length (columns buf)) ->
  snd (strtoll_list (column buf (Z.to_nat (bc conf))) 0) <> O ->
  snd (strtoll_list (column buf (Z.to_nat (ec conf))) 0) <> O ->
  fst (tbx_parse1 sv conf (length buf) buf rep lg) = 0 ->
  beg (snd (tbx_parse1 sv conf (length buf) buf rep lg))
  = Z.max 0 (if is_ucsc conf
             then fst (strtoll_list (column buf (Z.to_nat (bc conf))) 0)
             else wrap64 (fst (strtoll_list
                                 (column buf (Z.to_nat (bc conf))) 0) - 1))
  /\ end_ (snd (tbx_parse1 sv conf (length buf) buf rep lg))
     = fst (strtoll_list (column buf (Z.to_nat (ec conf))) 0).
Proof. apply generic_begin_end_spec. Qed.

(** *** The CIGAR column of the SAM preset *)

Lemma strtoll_list_le t base : (snd (strtoll_list t base) <= length t)%nat.
Proof.
  unfold strtoll_list.
  pose proof (skip_space_le t) as H0.
  pose proof (read_sign_le (drop (skip_space t) t)) as H1.
  destruct (read_sign (drop (skip_space t) t)) as [neg k1]. simpl in H1.
  pose proof (read_base_le base (drop k1 (drop (skip_space t) t))) as H2.
  destruct (read_base base _) as [b' k2]. simpl in H2.
  pose proof (read_digits_le b' (drop k2 (drop k1 (drop (skip_space t) t))) 0)
    as H3.
  destruct (read_digits b' 0 _) as [v n]. simpl in H3.
  rewrite !length_drop in *.
  destruct n; simpl; lia.
Qed.

(** The loop over the CIGAR is the sum over its text, when the text
    holds no white space. *)
Lemma cigar_len_list buf i : forall fuel s l,
  (s <= i)%nat -> (i <= length buf)%nat -> is_sep (rd buf i) = true ->
  (forall j, (s <= j < i)%nat -> isspace (rd buf j) = false) ->
  cigar_len fuel buf i s l = cigar_list fuel (take (i - s) (drop s buf)) l.
Proof.
  intros fuel. induction fuel as [|fuel IH]; intros s l Hs Hi Hsep Hsp;
    [done|].
  cbn [cigar_len cigar_list].
  destruct (Nat.ltb_spec s i) as [Hlt|Hge].
  2:{ replace (i - s)%nat with O by lia. by rewrite take_0. }
  remember (take (i - s) (drop s buf)) as col eqn:Ecol.
  assert (Hlen : length col = (i - s)%nat).
  { subst col. rewrite length_take, length_drop. lia. }
  assert (Hhead : forall k, (k < i - s)%nat -> col !! k = buf !! (s + k)%nat).
  { intros k Hk. subst col. rewrite lookup_take_lt by lia.
    by rewrite lookup_drop. }
  assert (Hspace : (skip_space col < length col)%nat).
  { destruct col as [|c col']; [simpl in Hlen; lia|]. simpl.
    specialize (Hsp s ltac:(lia)). unfold rd in Hsp.
    specialize (Hhead O ltac:(lia)). rewrite Nat.add_0_r in Hhead.
    rewrite <- Hhead in Hsp. simpl in Hsp. rewrite Hsp. lia. }
  assert (Hst : strtol buf s 10
                = (fst (strtoll_list col 10),
                   (s + snd (strtoll_list col 10))%nat)).
  { unfold strtol, strtoll.
    rewrite <- (take_drop (i - s) (drop s buf)) at 1. rewrite <- Ecol.
    rewrite strtoll_list_halted; [by destruct (strtoll_list col 10)| |done].
    rewrite drop_drop. replace (s + (i - s))%nat with i by lia.
    destruct (drop i buf) as [|c0 r] eqn:E; [done|]. cbn.
    apply sep_halts. unfold rd in Hsep.
    rewrite <- (Nat.add_0_r i), <- lookup_drop, E in Hsep. exact Hsep. }
  rewrite Hst.
  assert (Hcons : cigar_list (S fuel) col l
                  = let '(x, n) := strtoll_list col 10 in
                    let op := toupper_c (default 0 (col !! n)) in
                    let l' :=
                      if (op =? 77) || (op =? 68) || (op =? 78)
                      then wrap32 (l + x) else l in
                    cigar_list fuel (drop (S n) col) l').
  { destruct col; [simpl in Hlen; lia|done]. }
  change (match col with
          | [] => l
          | _ :: _ => _
          end) with (cigar_list (S fuel) col l).
  rewrite Hcons.
  pose proof (strtoll_list_le col 10) as Hn.
  destruct (strtoll_list col 10) as [x n]. cbn [fst snd] in *. cbn zeta.
  assert (Hop : forall a,
    (if (toupper_c (rd buf (s + n)) =? 77)
        || (toupper_c (rd buf (s + n)) =? 68)
        || (toupper_c (rd buf (s + n)) =? 78) then a else l)
    = (if (toupper_c (default 0 (col !! n)) =? 77)
          || (toupper_c (default 0 (col !! n)) =? 68)
          || (toupper_c (default 0 (col !! n)) =? 78) then a else l)).
  { intros a. destruct (Nat.lt_ge_cases n (i - s)) as [Hn1|Hn1].
    - unfold rd. by rewrite Hhead.
    - replace (s + n)%nat with i by lia.
      rewrite (lookup_ge_None_2 col n) by lia. cbn [default].
      unfold is_sep in Hsep. apply orb_true_iff in Hsep as [E|E];
        apply Z.eqb_eq in E; by rewrite E. }
  rewrite Hop.
  destruct (Nat.le_gt_cases (S (s + n)) i) as [Hle|Hgt].
  - rewrite IH; [|lia|done|done|intros j Hj; apply Hsp; lia].
    f_equal. subst col.
    replace (i - s)%nat with (S n + (i - S (s + n)))%nat by lia.
    rewrite <- take_drop_commute, drop_drop. do 2 f_equal. lia.
  - assert (Hend : forall a, cigar_len fuel buf i (S (s + n)) a = a).
    { intros a. destruct fuel; [done|]. simpl.
      destruct (Nat.ltb_spec (S (s + n)) i); [lia|done]. }
    rewrite Hend.
    rewrite (drop_ge col) by lia. by destruct fuel.
Qed.

Lemma sam_step conf buf i v :
  fmt_tag conf = TBX_SAM -> sc conf < 6 -> bc conf < 6 ->
  (forall x, x ∈ column buf 6 -> isspace x = false) ->
  loop_inv conf buf i v ->
  (6 < id v ->
   end_ v = wrap64 (beg v + (if cigar_ref_len (column buf 6) =? 0 then 1
                             else cigar_ref_len (column buf 6)))) ->
  is_sep (rd buf i) = true -> (i <= length buf)%nat ->
  match field_step sv conf i v with
  | Next w =>
      6 < id w + 1 ->
      end_ w = wrap64 (beg w + (if cigar_ref_len (column buf 6) =? 0 then 1
                                else cigar_ref_len (column buf 6)))
  | Break _ => False
  | Return _ _ => True
  end.
Proof.
  intros Hf Hsc Hbc Hsp Hinv He Hsep Hlen.
  destruct (column_here conf buf i v Hinv Hsep Hlen)
    as (Hcol & _ & Hclen & Hk).
  pose proof Hinv as (Hline & _ & Hbi & _).
  unfold field_step.
  destruct (Z.eqb_spec (id v) (sc conf)) as [E1|E1]; [cbn; intros ?; lia|].
  destruct (Z.eqb_spec (id v) (bc conf)) as [E2|E2].
  { rewrite Hf. change (TBX_SAM =? TBX_GAF) with false. cbn match.
    destruct (parse_beg_cases conf v)
      as [(w & -> & Hfr & _)|(w & -> & _)]; [|done].
    destruct Hfr as (_ & _ & _ & _ & Hid & _). intros ?; lia. }
  rewrite Hf. change (TBX_SAM =? TBX_GENERIC) with false.
  change (TBX_SAM =? TBX_SAM) with true. cbn match.
  destruct (Z.eqb_spec (id v) 6) as [E6|E6].
  - intros _. cbn [end_ beg set_end_].
    rewrite E6 in Hcol. apply (column_lookup buf 6) in Hcol.
    rewrite Hline, cigar_len_list; try done.
    + rewrite Hcol. unfold cigar_ref_len. by rewrite Hclen.
    + intros j Hj. apply Hsp. rewrite Hcol.
      apply list_elem_of_lookup. exists (j - b v)%nat.
      rewrite lookup_take_lt by lia. rewrite lookup_drop. unfold rd.
      replace (b v + (j - b v))%nat with j by lia.
      destruct (buf !! j) eqn:Ej; [done|].
      apply lookup_ge_None in Ej. lia.
  - intros ?. apply He. lia.
Qed.

Lemma sam_end_spec conf buf rep lg :
  fmt_tag conf = TBX_SAM -> sc conf < 6 -> bc conf < 6 ->
  (6 <= length (columns buf))%nat ->
  (forall x, x ∈ column buf 6 -> isspace x = false) ->
  fst (tbx_parse1 sv conf (length buf) buf rep lg) = 0 ->
  end_ (snd (tbx_parse1 sv conf (length buf) buf rep lg))
  = wrap64 (beg (snd (tbx_parse1 sv conf (length buf) buf rep lg))
            + (if cigar_ref_len (column buf 6) =? 0 then 1
               else cigar_ref_len (column buf 6))).
Proof.
  intros Hf Hsc Hbc Hcols Hsp. unfold tbx_parse1.
  set (L := if cigar_ref_len (column buf 6) =? 0 then 1 else _).
  pose proof (fields_loop_cols conf buf
                (fun v => 6 < id v -> end_ v = wrap64 (beg v + L))
                (fun _ => False)) as H.
  specialize (H ltac:(intros i v Hinv He Hsep Hlen;
                      by apply (sam_step conf buf i v))
                (S (length buf)) O _ (loop_inv_enter conf buf rep lg)
                ltac:(cbn; intros ?; lia) eq_refl).
  pose proof (fields_loop_inv conf buf (S (length buf)) O _
                (loop_inv_enter conf buf rep lg)) as Hret.
  destruct (fields_loop sv conf (S (length buf)) 0 (enter buf rep lg))
    as [w|w|r w]; [|done|by cbn; intros ->].
  destruct H as [(_ & Hid & _) He].
  rewrite count_seps_columns in Hid. intros _.
  destruct (finish_spec conf w) as (_ & _ & _ & Hb & Hend & _).
  rewrite Hb, Hend by by rewrite Hf. apply He. lia.
Qed.

(** The SAM preset.  For a line whose name and begin columns come
    before column 6 and whose CIGAR (column 6) holds no white space,
    when the line parses [end] is [beg] plus the lengths of the [M],
    [D] and [N] operations of the CIGAR, added up in an [int], or
    [beg + 1] when that sum is [0] (as for the CIGAR [*]). *)
Theorem sam_end conf buf rep lg :
  fmt_tag conf = TBX_SAM -> sc conf < 6 -> bc conf < 6 ->
  (6 <= length (columns buf))%nat ->
  (forall x, x ∈ column buf 6 -> isspace x = false) ->
  fst (tbx_parse1 sv conf (length buf) buf rep lg) = 0 ->
  end_ (snd (tbx_parse1 sv conf (length buf) buf rep lg))
  = wrap64 (beg (snd (tbx_parse1 sv conf (length buf) buf rep lg))
            + (if cigar_ref_len (column buf 6) =? 0 then 1
               else cigar_ref_len (column buf 6))).
Proof. apply sam_end_spec. Qed.

(** *** The begin column of the presets other than GAF *)

(** What the begin column leaves in [end] when the end column is not
    before it. *)
Lemma parse_beg_end_value conf v v' :
  parse_beg conf v = Next v' -> bc conf <= ec conf ->
  end_ v'
  = Z.max 1 (if is_ucsc conf then wrap64 (fst (strtoll (line v) (b v) 0) + 1)
             else fst (strtoll (line v) (b v) 0)).
Proof.
  unfold parse_beg. intros H Hle. revert H.
  destruct (strtoll (line v) (b v) 0) as [x s]. cbn [fst].
  rewrite (proj2 (Z.leb_le _ _) Hle).
  destruct (s =? b _)%nat; [done|].
  set (v2 := if negb (is_ucsc conf) then _ else _).
  assert (H2 : end_ v2 = if is_ucsc conf then wrap64 (x + 1) else x)
    by (subst v2; by destruct (is_ucsc conf)).
  set (v3 := if beg v2 <? 0 then _ else v2).
  assert (H3 : end_ v3 = end_ v2)
    by (subst v3; by destruct (beg v2 <? 0)).
  intros [= <-]. rewrite <- H2, <- H3.
  destruct (Z.ltb_spec (end_ v3) 1); cbn; lia.
Qed.

Lemma begin_step conf buf i v (B Y : Z) :
  fmt_tag conf <> TBX_GAF -> sc conf <> bc conf ->
  snd (strtoll_list (column buf (Z.to_nat (bc conf))) 0) <> O ->
  B = Z.max 0 (if is_ucsc conf
               then fst (strtoll_list (column buf (Z.to_nat (bc conf))) 0)
               else wrap64 (fst (strtoll_list
                                   (column buf (Z.to_nat (bc conf))) 0)
                            - 1)) ->
  Y = Z.max 1 (if is_ucsc conf
               then wrap64 (fst (strtoll_list
                                   (column buf (Z.to_nat (bc conf))) 0) + 1)
               else fst (strtoll_list (column buf (Z.to_nat (bc conf))) 0)) ->
  loop_inv conf buf i v ->
  is_sep (rd buf i) = true -> (i <= length buf)%nat ->
  let w := ctl_vars (field_step sv conf i v) in
  (beg v = -1 \/ beg v = B -> beg w = -1 \/ beg w = B)
  /\ (fmt_tag conf = TBX_GENERIC -> bc conf = ec conf ->
      end_ v = -1 \/ end_ v = Y -> end_ w = -1 \/ end_ w = Y).
Proof.
  intros Hgaf Hsb Hcb HB HY Hinv Hsep Hlen. cbn zeta.
  destruct (column_here conf buf i v Hinv Hsep Hlen) as (Hcol & _ & _ & Hk).
  pose proof Hinv as (Hline & _ & Hbi & _).
  destruct (Z.eq_dec (id v) (bc conf)) as [Hbc|Hbc].
  - assert (Hnum : strtoll (line v) (b v) 0
      = (fst (strtoll_list (column buf (Z.to_nat (bc conf))) 0),
         (b v + snd (strtoll_list (column buf (Z.to_nat (bc conf))) 0))%nat)).
    { assert (Hck : column buf (Z.to_nat (bc conf))
                    = take (i - b v) (drop (b v) buf)).
      { apply column_lookup. rewrite <- Hcol, Hbc. f_equal. lia. }
      rewrite Hck in *. rewrite Hline. by apply column_strtoll. }
    unfold field_step.
    rewrite Hbc, (proj2 (Z.eqb_neq _ _) (not_eq_sym Hsb)), Z.eqb_refl.
    rewrite (proj2 (Z.eqb_neq _ _) Hgaf).
    pose proof (parse_beg_value conf v) as Hval.
    pose proof (parse_beg_end_value conf v) as Hend.
    destruct (parse_beg_cases conf v)
      as [(w & Hw & _)|(w & Hw & _ & _ & Hno)]; rewrite Hw; cbn [ctl_vars].
    + specialize (Hval w Hw). rewrite Hnum in Hval, Hend. cbn [fst] in *.
      split; [intros _; right; by rewrite Hval, HB|].
      intros _ Hec _. right. rewrite (Hend w Hw) by lia. by rewrite HY.
    + exfalso. rewrite Hnum in Hno. cbn [snd] in Hno. lia.
  - rewrite (field_step_not_bc conf i v) by by left.
    split; [done|]. intros Hf Hec.
    unfold field_step. destruct (id v =? sc conf); [done|].
    rewrite (proj2 (Z.eqb_neq _ _) Hbc), Hf.
    change (TBX_GENERIC =? TBX_GENERIC) with true. cbn match.
    rewrite <- Hec, (proj2 (Z.eqb_neq _ _) Hbc). done.
Qed.

Lemma begin_column_spec conf buf rep lg :
  fmt_tag conf <> TBX_GAF -> sc conf <> bc conf ->
  snd (strtoll_list (column buf (Z.to_nat (bc conf))) 0) <> O ->
  fst (tbx_parse1 sv conf (length buf) buf rep lg) = 0 ->
  let x := fst (strtoll_list (column buf (Z.to_nat (bc conf))) 0) in
  beg (snd (tbx_parse1 sv conf (length buf) buf rep lg))
  = Z.max 0 (if is_ucsc conf then x else wrap64 (x - 1))
  /\ (fmt_tag conf = TBX_GENERIC -> bc conf = ec conf ->
      end_ (snd (tbx_parse1 sv conf (length buf) buf rep lg))
      = Z.max 1 (if is_ucsc conf then wrap64 (x + 1) else x)).
Proof.
  intros Hgaf Hsb Hcb. cbn zeta. unfold tbx_parse1.
  set (B := Z.max 0 _). set (Y := Z.max 1 _).
  set (E := fun v : vars =>
              (beg v = -1 \/ beg v = B)
              /\ (fmt_tag conf = TBX_GENERIC -> bc conf = ec conf ->
                  end_ v = -1 \/ end_ v = Y)).
  pose proof (fields_loop_cols conf buf E E) as H.
  specialize (H ltac:(intros i v Hinv [He1 He2] Hsep Hlen;
    destruct (begin_step conf buf i v B Y Hgaf Hsb Hcb eq_refl eq_refl
                Hinv Hsep Hlen) as [H1 H2];
    destruct (field_step sv conf i v); [|by split; auto|done];
    split; cbn; auto)
                (S (length buf)) O _ (loop_inv_enter conf buf rep lg)
                ltac:(split; cbn; auto) eq_refl).
  pose proof (fields_loop_inv conf buf (S (length buf)) O _
                (loop_inv_enter conf buf rep lg)) as Hret.
  assert (Hfin : forall w, E w -> fst (finish conf w) = 0 ->
    beg (snd (finish conf w)) = B
    /\ (fmt_tag conf = TBX_GENERIC -> bc conf = ec conf ->
        end_ (snd (finish conf w)) = Y)).
  { intros w [E1 E2] Hr.
    destruct (finish_spec conf w) as (_ & _ & _ & Hb & He & _ & _ & Hok).
    destruct (Hok Hr) as (_ & _ & Hb0 & He0).
    split; [rewrite Hb; lia|]. intros Hf Hec.
    assert (Hv : fmt_tag conf <> TBX_VCF) by (by rewrite Hf).
    rewrite He in * by done. destruct (E2 Hf Hec); [lia|done]. }
  destruct (fields_loop sv conf (S (length buf)) 0 (enter buf rep lg))
    as [w|w|r w]; [| |by cbn; intros ->].
  - destruct H as [_ He]. by apply Hfin.
  - by apply Hfin.
Qed.

(** The begin column.  Under any preset but GAF, for a line whose
    begin column starts with a number [x] (as [strtoll] reads it in base
    0), when the line parses [beg] is
    [x - 1], or [x] under the [TBX_UCSC] flag, and not below [0].  Under
    the generic preset with the begin column as the end column, [end] is
    [x], or [x + 1] under the [TBX_UCSC] flag, and not below [1]: the
    record covers one position. *)
Theorem begin_column conf buf rep lg :
  fmt_tag conf <> TBX_GAF -> sc conf <> bc conf ->
  snd (strtoll_list (column buf (Z.to_nat (bc conf))) 0) <> O ->
  fst (tbx_parse1 sv conf (length buf) buf rep lg) = 0 ->
  let x := fst (strtoll_list (column buf (Z.to_nat (bc conf))) 0) in
  beg (snd (tbx_parse1 sv conf (length buf) buf rep lg))
  = Z.max 0 (if is_ucsc conf then x else wrap64 (x - 1))
  /\ (fmt_tag conf = TBX_GENERIC -> bc conf = ec conf ->
      end_ (snd (tbx_parse1 sv conf (length buf) buf rep lg))
      = Z.max 1 (if is_ucsc conf then wrap64 (x + 1) else x)).
Proof. apply begin_column_spec. Qed.

(** *** The ALT column when column 4 is not read as the reference *)

Lemma alt_all_use_svlen als : forall lb v,
  use_svlen (snd (alt_all sv als lb v)) = use_svlen v || existsb sv als.
Proof.
  induction als as [|a als IH]; intros lb v; cbn [alt_all existsb snd].
  - by rewrite orb_false_r.
  - assert (Hc : use_svlen (snd (alt_count lb v)) = use_svlen v)
      by (unfold alt_count; destruct (negb _); by destruct v).
    destruct (alt_count lb v) as [lb1 v1]. cbn [snd] in Hc.
    rewrite IH.
    assert (Ht : use_svlen (alt_test sv a lb1 v1) = use_svlen v1 || sv a).
    { unfold alt_test. destruct (sv a); [by rewrite orb_true_r|].
      rewrite orb_false_r. destruct (_ || _); by destruct v1. }
    rewrite Ht, Hc. by rewrite orb_assoc.
Qed.

(** The loop over the bytes of the whole line, when no field returns. *)
Lemma fields_loop_total conf buf (E Q : vars -> Prop) :
  (forall i v, loop_inv conf buf i v -> E v -> is_sep (rd buf i) = true ->
     (i <= length buf)%nat ->
     match field_step sv conf i v with
     | Next v' => E (set_id (id v' + 1) (set_b (S i) v'))
     | Break v' => Q v'
     | Return _ _ => False
     end) ->
  forall n i v,
  loop_inv conf buf i v -> E v -> (i + n = S (length buf))%nat ->
  match fields_loop sv conf n i v with
  | Next w => loop_inv conf buf (S (length buf)) w /\ E w
  | Break w => Q w
  | Return _ _ => False
  end.
Proof.
  intros HE. induction n as [|n IH]; intros i v Hinv He Hn.
  { simpl. replace (S (length buf)) with i by lia. done. }
  simpl. pose proof Hinv as (Hline & _).
  destruct (is_sep (rd (line v) i)) eqn:Esep; rewrite Hline in Esep.
  2:{ apply IH; [by apply loop_inv_skip|done|lia]. }
  pose proof (loop_inv_step conf buf i v Hinv Esep) as Hstep.
  specialize (HE i v Hinv He Esep ltac:(lia)).
  destruct (field_step sv conf i v) as [v'|v'|r v']; [|done|done].
  apply IH; [done|done|lia].
Qed.

(** When column 4 is the name or the begin column, the count of
    alleles is still [0] at the ALT column, and the loop over the
    alleles, which stops at [alcnt = 65536], examines 65536 of them. *)
Lemma alt_step_without_ref conf buf i v :
  fmt_tag conf = TBX_VCF -> sc conf = 4 \/ bc conf = 4 ->
  sc conf <> 5 -> bc conf <> 5 ->
  snd (strtoll_list (column buf (Z.to_nat (bc conf))) 0) <> O ->
  loop_inv conf buf i v ->
  (id v <= 5 -> alcnt v = 0 /\ use_svlen v = false)
  /\ (5 < id v ->
      use_svlen v
      = existsb sv (take (Z.to_nat 65536) (split_on COMMA (column buf 5)))) ->
  is_sep (rd buf i) = true -> (i <= length buf)%nat ->
  match field_step sv conf i v with
  | Next w =>
      (id w + 1 <= 5 -> alcnt w = 0 /\ use_svlen w = false)
      /\ (5 < id w + 1 ->
          use_svlen w
          = existsb sv (take (Z.to_nat 65536)
                          (split_on COMMA (column buf 5))))
  | Break w =>
      use_svlen w
      = existsb sv (take (Z.to_nat 65536) (split_on COMMA (column buf 5)))
  | Return _ _ => False
  end.
Proof.
  intros Hf H4 Hs5 Hb5 Hconv Hinv [E1 E2] Hsep Hlen.
  destruct (column_here conf buf i v Hinv Hsep Hlen)
    as (Hcol & Htext & Hclen & Hk).
  pose proof Hinv as (Hline & _ & Hbi & _).
  assert (Hsame : forall w, id w = id v -> alcnt w = alcnt v ->
    use_svlen w = use_svlen v ->
    (id w + 1 <= 5 -> alcnt w = 0 /\ use_svlen w = false)
    /\ (5 < id w + 1 ->
        use_svlen w
        = existsb sv (take (Z.to_nat 65536)
                        (split_on COMMA (column buf 5))))
    \/ id v = 5).
  { intros w -> -> ->. destruct (Z.eq_dec (id v) 5) as [?|N5]; [by right|].
    left. split; [intros ?; apply E1; lia|intros ?; apply E2; lia]. }
  destruct (Z.eq_dec (id v) (sc conf)) as [Hsc|Hsc].
  { rewrite (field_step_sc _ _ _ Hsc).
    destruct (Hsame (set_se (Some i) (set_ss (Some (b v)) v)))
      as [?|?]; try done; [by destruct v..|lia]. }
  destruct (Z.eq_dec (id v) (bc conf)) as [Hbc|Hbc].
  { unfold field_step.
    rewrite (proj2 (Z.eqb_neq _ _) Hsc), Hbc, Z.eqb_refl, Hf.
    change (TBX_VCF =? TBX_GAF) with false. cbn match.
    assert (Hnum : strtoll (line v) (b v) 0
      = (fst (strtoll_list (column buf (Z.to_nat (bc conf))) 0),
         (b v + snd (strtoll_list (column buf (Z.to_nat (bc conf))) 0))%nat)).
    { assert (Hck : column buf (Z.to_nat (bc conf))
                    = take (i - b v) (drop (b v) buf)).
      { apply column_lookup. rewrite <- Hcol, Hbc. f_equal. lia. }
      rewrite Hck in *. rewrite Hline. by apply column_strtoll. }
    destruct (parse_beg_cases conf v)
      as [(w & -> & Hfr & _)|(w & -> & _ & _ & Hno)].
    - unfold frame_beg in Hfr. destruct_and!.
      destruct (Hsame w) as [?|?]; try done; lia.
    - rewrite Hnum in Hno. cbn [snd] in Hno. lia. }
  rewrite field_step_vcf by done.
  assert (Hn4 : id v <> 4) by (destruct H4; lia).
  destruct (Z.eq_dec (id v) 5) as [H5|H5].
  { rewrite vcf_field_alt by done.
    pose proof (scan_alt_frame i v) as F. unfold frame_alt in F.
    destruct F as (_ & _ & _ & _ & _ & _ & Fid & _). rewrite Fid, H5.
    split; [intros ?; lia|]. intros _.
    destruct (E1 ltac:(lia)) as [Hal Hus].
    assert (Hck : column buf 5 = take (i - b v) (drop (b v) buf)).
    { apply (column_lookup buf 5). rewrite <- Hcol, H5. done. }
    rewrite Hck. set (col := take (i - b v) (drop (b v) buf)) in *.
    unfold scan_alt.
    set (v1 := set_line _ (set_svlenals _ v)).
    assert (Hb1 : b v1 = b v) by done.
    assert (Hal1 : alcnt v1 = 0) by done.
    assert (Hus1 : use_svlen v1 = false) by done.
    cbn [use_svlen set_line].
    rewrite (alt_loop_fold _ v1 0 (b v) col) by (try done; lia).
    rewrite alt_fold_all; [|apply split_by_nonempty|lia].
    rewrite alt_all_use_svlen, Hal1, Hus1. done. }
  assert (Hfr : forall w, id w = id v -> alcnt w = alcnt v ->
    use_svlen w = use_svlen v ->
    (id w + 1 <= 5 -> alcnt w = 0 /\ use_svlen w = false)
    /\ (5 < id w + 1 ->
        use_svlen w
        = existsb sv (take (Z.to_nat 65536)
                        (split_on COMMA (column buf 5))))).
  { intros w G1 G2 G3. by destruct (Hsame w G1 G2 G3). }
  destruct (Z.eq_dec (id v) 8) as [H8|H8].
  { rewrite vcf_field_info by done.
    pose proof (scan_info_frame i v) as F. unfold frame_info in F.
    destruct_and!. by apply Hfr. }
  destruct (Z.eq_dec (id v) 9) as [H9|H9].
  { rewrite vcf_field_format by done.
    pose proof (scan_format_frame i v) as F. unfold frame_format in F.
    destruct_and!.
    destruct (getlen v); [|by apply Hfr].
    destruct (lenpos (scan_format i v) =? -1); [|by apply Hfr].
    destruct (Hfr (scan_format i v)) as [_ G]; try done. apply G. lia. }
  destruct (Z.lt_ge_cases (id v) 9) as [Hlt|Hge].
  { rewrite vcf_field_other by (try done; lia). by apply Hfr. }
  rewrite vcf_field_sample by lia.
  destruct (getlen v && negb (lenpos v =? -1)); [|by apply Hfr].
  pose proof (scan_sample_frame i v) as F. unfold frame_sample in F.
  destruct_and!. by apply Hfr.
Qed.

(** A VCF line read with column 4 as the name or the begin column:
    [use_svlen] tells whether one of the first 65536 alleles of the ALT
    column is symbolic. *)
Lemma vcf_alt_without_ref conf buf rep lg :
  fmt_tag conf = TBX_VCF -> sc conf = 4 \/ bc conf = 4 ->
  sc conf <> 5 -> bc conf <> 5 ->
  snd (strtoll_list (column buf (Z.to_nat (bc conf))) 0) <> O ->
  (5 <= length (columns buf))%nat ->
  use_svlen (snd (tbx_parse1 sv conf (length buf) buf rep lg))
  = existsb sv (take (Z.to_nat 65536) (split_on COMMA (column buf 5))).
Proof.
  intros Hf H4 Hs5 Hb5 Hconv Hcols. unfold tbx_parse1.
  set (T := existsb sv _).
  pose proof (fields_loop_total conf buf
                (fun v => (id v <= 5 -> alcnt v = 0 /\ use_svlen v = false)
                          /\ (5 < id v -> use_svlen v = T))
                (fun v => use_svlen v = T)) as H.
  specialize (H ltac:(intros i v Hinv He Hsep Hlen;
                      by apply (alt_step_without_ref conf buf i v))
                (S (length buf)) O _ (loop_inv_enter conf buf rep lg)
                ltac:(split; cbn; [done|lia]) eq_refl).
  destruct (fields_loop sv conf (S (length buf)) 0 (enter buf rep lg))
    as [w|w|r w]; [| |done].
  - destruct H as [(_ & Hid & _) [_ Ee]].
    rewrite count_seps_columns in Hid.
    destruct (finish_alt conf w) as (_ & _ & -> & _). apply Ee. lia.
  - by destruct (finish_alt conf w) as (_ & _ & -> & _).
Qed.

End ParserProps.

(** ** The properties on concrete lines *)

(** C10 as stated fails under the GAF preset: the begin column [>a]
    holds no integer ([strtoll] converts nothing at its start, which is
    offset 13), and the line is parsed with success. *)
Lemma gaf_line_without_integer :
  column_start (tabbed "r1|10|0|10|+|>a") (bc tbx_conf_gaf) 13
  /\ snd (strtoll (tabbed "r1|10|0|10|+|>a") 13 0) = 13%nat
  /\ fst (tbx_parse1 symbolic_alt tbx_conf_gaf 15
            (tabbed "r1|10|0|10|+|>a") false []) = 0.
Proof. vm_compute. repeat split; try reflexivity. by right. Qed.

(** C3 as stated fails: with an end column that reads [0] the parse
    succeeds and returns [end = 0]. *)
Lemma generic_end_zero :
  fst (tbx_parse1 symbolic_alt (mk_conf TBX_GENERIC 1 2 3 35 0) 8
         (tabbed "chr1|5|0") false []) = 0
  /\ beg (snd (tbx_parse1 symbolic_alt (mk_conf TBX_GENERIC 1 2 3 35 0) 8
                 (tabbed "chr1|5|0") false [])) = 4
  /\ end_ (snd (tbx_parse1 symbolic_alt (mk_conf TBX_GENERIC 1 2 3 35 0) 8
                  (tabbed "chr1|5|0") false [])) = 0.
Proof. vm_compute. by repeat split. Qed.

(** C7 as stated fails for the coordinate warning: two lines with a
    begin of [0] under a one-based preset give two warnings. *)
Lemma coordinate_warning_twice :
  snd (run_calls symbolic_alt
         [(mk_conf TBX_GENERIC 1 2 0 35 0, 6%nat, tabbed "chr1|0");
          (mk_conf TBX_GENERIC 1 2 0 35 0, 6%nat, tabbed "chr1|0")]
         false [])
  = [WarnCoordinate; WarnCoordinate].
Proof. vm_compute. reflexivity. Qed.

(** C6 as stated fails: the node ID [010] is read as octal, so [beg] is
    [8], while its base 10 reading is [10]. *)
Lemma gaf_octal_node :
  fst (tbx_parse1 symbolic_alt tbx_conf_gaf 17
         (tabbed "r1|10|0|10|+|>010") false []) = 0
  /\ beg (snd (tbx_parse1 symbolic_alt tbx_conf_gaf 17
                 (tabbed "r1|10|0|10|+|>010") false [])) = 8
  /\ list_min (gaf_node_ids 10
                 (tabbed "r1|10|0|10|+|>010") 13 17) = 10.
Proof. vm_compute. by repeat split. Qed.

Lemma gaf_min_max_witness :
  fmt_tag tbx_conf_gaf = TBX_GAF
  /\ fst (tbx_parse1 symbolic_alt tbx_conf_gaf 21
            (tabbed "r1|10|0|10|+|>12<34>5") false []) = 0
  /\ exists p i,
       column_start (tabbed "r1|10|0|10|+|>12<34>5")
         (bc tbx_conf_gaf) p
       /\ column_end (tabbed "r1|10|0|10|+|>12<34>5") p i
       /\ gaf_node_ids 0 (tabbed "r1|10|0|10|+|>12<34>5") p i
          <> [].
Proof.
  split; [reflexivity|]. split; [by vm_compute|].
  destruct (gaf_min_max symbolic_alt tbx_conf_gaf 21
              (tabbed "r1|10|0|10|+|>12<34>5") false [])
    as [(p & i & Hp & Hi & Hne & _) _].
  - reflexivity.
  - by vm_compute.
  - exists p, i. split; [exact Hp|]. split; [exact Hi|exact Hne].
Defined.

Lemma tbx_parse1_clamp_witness :
  fst (tbx_parse1 symbolic_alt tbx_conf_vcf (length vcf_line) vcf_line
         false []) = 0
  /\ 0 <= beg (snd (tbx_parse1 symbolic_alt tbx_conf_vcf (length vcf_line)
                      vcf_line false []))
  /\ 0 <= end_ (snd (tbx_parse1 symbolic_alt tbx_conf_vcf (length vcf_line)
                       vcf_line false []))
  /\ 1 <= end_ (snd (tbx_parse1 symbolic_alt tbx_conf_vcf (length vcf_line)
                       vcf_line false [])).
Proof.
  split; [by vm_compute|].
  destruct (tbx_parse1_clamp symbolic_alt tbx_conf_vcf (length vcf_line)
              vcf_line false []) as (Hb & He & H1); [by vm_compute|].
  split; [exact Hb|]. split; [exact He|]. apply H1.
  - vm_compute. discriminate.
  - intros H. vm_compute in H. discriminate H.
  - intros H. vm_compute in H. discriminate H.
  - intros _. by vm_compute.
Defined.

(** Under the SAM preset too a column read after the begin column can
    set [end] to [0]: a CIGAR whose lengths add up to minus [beg]. *)
Lemma sam_end_zero :
  fst (tbx_parse1 symbolic_alt tbx_conf_sam 34
         (tabbed "r1|0|chr1|5|60|-4M|*|0|0|ACGT|IIII") false []) = 0
  /\ beg (snd (tbx_parse1 symbolic_alt tbx_conf_sam 34
                 (tabbed "r1|0|chr1|5|60|-4M|*|0|0|ACGT|IIII") false [])) = 4
  /\ end_ (snd (tbx_parse1 symbolic_alt tbx_conf_sam 34
                  (tabbed "r1|0|chr1|5|60|-4M|*|0|0|ACGT|IIII") false []))
     = 0.
Proof. vm_compute. by repeat split. Qed.

(** C1 as stated fails for FORMAT/LEN: the code takes the largest value
    over all the samples, not the value of the first sample.  In this
    record the samples have [LEN] 5 and 70 and [beg] is [99]: [end] is
    [169], while the end with the first sample only is [149]. *)
Lemma vcf_len_of_later_sample :
  fst (tbx_parse1 symbolic_alt tbx_conf_vcf (length vcf_line) vcf_line
         false []) = 0
  /\ beg (snd (tbx_parse1 symbolic_alt tbx_conf_vcf (length vcf_line)
                 vcf_line false [])) = 99
  /\ end_ (snd (tbx_parse1 symbolic_alt tbx_conf_vcf (length vcf_line)
                  vcf_line false [])) = 169
  /\ vcf_end_first_sample symbolic_alt 99 vcf_line = 149.
Proof. vm_compute. by repeat split. Qed.

(** C8 as stated fails when column 4 is the name column: the REF branch
    is not taken, the count of alleles is [0] and not [1] when the loop
    over the alleles starts, and the loop, which stops at
    [alcnt = 65536], examines 65536 alleles.  In this line the only
    symbolic allele is the last of 65536, and [use_svlen] is set. *)
Lemma vcf_alt_65536 :
  use_svlen (snd (tbx_parse1 symbolic_alt (mk_conf TBX_VCF 4 2 0 35 0)
                    (length many_alts) many_alts false [])) = true
  /\ Z.of_nat (length (split_on COMMA (column many_alts 5))) = 65536
  /\ split_on COMMA (column many_alts 5) !! Z.to_nat 65535
     = Some (lit "<DEL>")
  /\ existsb symbolic_alt
       (take (Z.to_nat 65535) (split_on COMMA (column many_alts 5)))
     = false.
Proof.
  split.
  - rewrite (vcf_alt_without_ref symbolic_alt (mk_conf TBX_VCF 4 2 0 35 0)
               many_alts false []).
    + by vm_compute.
    + reflexivity.
    + by left.
    + by vm_compute.
    + by vm_compute.
    + by vm_compute.
    + vm_compute. lia.
  - split; [vm_compute; reflexivity|].
    split; vm_compute; reflexivity.
Qed.

Lemma vcf_record_end_witness :
  fst (tbx_parse1 symbolic_alt tbx_conf_vcf (length vcf_line) vcf_line
         false []) = 0
  /\ end_ (snd (tbx_parse1 symbolic_alt tbx_conf_vcf (length vcf_line)
                  vcf_line false []))
     = vcf_end symbolic_alt
         (beg (snd (tbx_parse1 symbolic_alt tbx_conf_vcf (length vcf_line)
                      vcf_line false []))) vcf_line.
Proof.
  split; [by vm_compute|].
  apply vcf_record_end.
  - reflexivity.
  - by vm_compute.
  - by vm_compute.
  - by vm_compute.
  - right. intros k a Hk _. apply lookup_lt_Some in Hk.
    by vm_compute in Hk |- *.
  - by vm_compute.
  - by vm_compute.
Defined.

Lemma vcf_alt_examined_witness :
  fst (tbx_parse1 symbolic_alt tbx_conf_vcf (length vcf_line) vcf_line
         false []) = 0
  /\ alcnt (snd (tbx_parse1 symbolic_alt tbx_conf_vcf (length vcf_line)
                   vcf_line false [])) <= 65536.
Proof.
  split; [by vm_compute|].
  apply (vcf_alt_examined symbolic_alt tbx_conf_vcf vcf_line false []).
  - reflexivity.
  - by vm_compute.
  - by vm_compute.
  - vm_compute. lia.
  - by vm_compute.
Defined.

(** ** More on [hts_parse_region] *)

Section RegionMore.

Variable getid : list Z -> Z.
Variable hts_parse_decimal : list Z -> Z -> Z * nat.

Lemma HTS_POS_MAX_pos : 0 < HTS_POS_MAX <= LLONG_MAX.
Proof. by vm_compute. Qed.

(** The coordinates of a region that is accepted. *)
Lemma parse_coords_ok s0 colon s_end flags tid end0 :
  let r := parse_coords hts_parse_decimal s0 colon s_end flags tid end0 in
  r_tid r = tid
  /\ (is_Some (r_ret r) ->
      r_ret r = Some s_end /\ -1 <= r_beg r < r_end r).
Proof.
  cbn zeta. unfold parse_coords.
  destruct (hts_parse_decimal (drop (S colon) s0) flags) as [x n].
  pose proof (wrap64_range (x - 1)) as Hb.
  set (beg := wrap64 (x - 1)) in *.
  pose proof HTS_POS_MAX_pos as Hmax.
  unfold LLONG_MIN, LLONG_MAX in *.
  set (hy := rd s0 (S colon + n)).
  assert (Hlast : forall e,
    let e' := if e =? 0 then HTS_POS_MAX else e in
    let r := if e' <=? beg then mk_region None tid beg e'
             else mk_region (Some s_end) tid beg e' in
    -1 <= beg ->
    r_tid r = tid
    /\ (is_Some (r_ret r) -> r_ret r = Some s_end /\ -1 <= r_beg r < r_end r)).
  { intros e e' r Hge. subst r.
    destruct (Z.leb_spec e' beg); cbn; (split; [done|]).
    - by intros [? ?].
    - intros _. split; [done|lia]. }
  assert (Hrest : -1 <= beg ->
    let r :=
      if (hy =? 0) || (has_flag flags HTS_PARSE_LIST && (hy =? COMMA)) then
        let e := if has_flag flags HTS_PARSE_ONE_COORD then wrap64 (beg + 1)
                 else HTS_POS_MAX in
        let e' := if e =? 0 then HTS_POS_MAX else e in
        if e' <=? beg then mk_region None tid beg e'
        else mk_region (Some s_end) tid beg e'
      else if hy =? 45 then
        let '(y, m) := hts_parse_decimal (drop (S (S colon + n)) s0) flags in
        if negb (rd s0 (S (S colon + n) + m) =? 0)
           && negb (rd s0 (S (S colon + n) + m) =? COMMA)
        then mk_region None tid beg y
        else
          let e' := if y =? 0 then HTS_POS_MAX else y in
          if e' <=? beg then mk_region None tid beg e'
          else mk_region (Some s_end) tid beg e'
      else mk_region None tid beg end0 in
    r_tid r = tid
    /\ (is_Some (r_ret r) -> r_ret r = Some s_end /\ -1 <= r_beg r < r_end r)).
  { intros Hge. cbn zeta.
    destruct ((hy =? 0) || _); [by apply Hlast|].
    destruct (hy =? 45); [|by split; [|intros [? ?]]].
    destruct (hts_parse_decimal _ flags) as [y m].
    destruct (negb _ && negb _); [by split; [|intros [? ?]]|].
    by apply Hlast. }
  destruct (Z.ltb_spec beg 0) as [Hneg|Hpos]; [|apply Hrest; lia].
  destruct (negb (beg =? -1) && (hy =? 45) && negb (rd s0 (S colon) =? 0));
    [by split; [|intros [? ?]]|].
  destruct (isdigit_c hy || (hy =? 0) || (hy =? COMMA)).
  { cbn. split; [done|]. intros _. split; [done|].
    destruct (Z.eqb_spec beg (-1)); [lia|].
    rewrite wrap64_id by (unfold LLONG_MIN, LLONG_MAX; lia). lia. }
  destruct (Z.ltb_spec beg (-1)); [by split; [|intros [? ?]]|].
  apply Hrest. lia.
Qed.

Lemma parse_named_ok s0 s colon quoted s_end flags beg0 end0 :
  let r := parse_named getid hts_parse_decimal s0 s colon quoted s_end
             flags beg0 end0 in
  r_tid r = getid (span s0 s (colon - s - quoted))
  /\ (is_Some (r_ret r) ->
      r_ret r = Some s_end /\ 0 <= r_tid r /\ -1 <= r_beg r < r_end r).
Proof.
  cbn zeta. unfold parse_named.
  destruct (Z.ltb_spec (getid (span s0 s (colon - s - quoted))) 0) as [H|H].
  - cbn. split; [done|]. by intros [? ?].
  - pose proof (parse_coords_ok s0 colon s_end flags
                  (getid (span s0 s (colon - s - quoted))) end0) as Hc.
    cbn zeta in Hc. destruct Hc as [Ht Hok].
    split; [exact Ht|]. intros Hs. destruct (Hok Hs) as [? ?].
    rewrite Ht. by split; [|split].
Qed.

(** What an accepted region is: the number returned is what the
    resolver gave for a part of the region string and is not negative,
    and the interval is not empty and begins at [-1] at the least. *)
Theorem parse_region_accepted s0 beg0 end0 flags :
  let r := hts_parse_region getid hts_parse_decimal s0 beg0 end0 flags in
  is_Some (r_ret r) ->
  (exists s n, r_tid r = getid (span s0 s n))
  /\ 0 <= r_tid r
  /\ -1 <= r_beg r < r_end r.
Proof.
  cbn zeta. unfold hts_parse_region.
  pose proof HTS_POS_MAX_pos as Hmax.
  set (flags' := if has_flag flags HTS_PARSE_LIST then _ else _).
  assert (Hname : forall s n ret,
    let tid := getid (span s0 s n) in
    let r := mk_region (if 0 <=? tid then Some ret else None)
               tid 0 HTS_POS_MAX in
    is_Some (r_ret r) ->
    (exists s n, r_tid r = getid (span s0 s n))
    /\ 0 <= r_tid r /\ -1 <= r_beg r < r_end r).
  { intros s n ret tid r. subst r. cbn.
    destruct (Z.leb_spec 0 tid); [|by intros [? ?]].
    intros _. split; [by exists s, n|]. split; [done|lia]. }
  assert (Hnamed : forall s colon quoted s_end b0 e0,
    let r := parse_named getid hts_parse_decimal s0 s colon quoted s_end
               flags' b0 e0 in
    is_Some (r_ret r) ->
    (exists s n, r_tid r = getid (span s0 s n))
    /\ 0 <= r_tid r /\ -1 <= r_beg r < r_end r).
  { intros s colon quoted s_end b0 e0 r Hs. subst r.
    pose proof (parse_named_ok s0 s colon quoted s_end flags' b0 e0) as Hc.
    cbn zeta in Hc. destruct Hc as [Ht Hok].
    destruct (Hok Hs) as (_ & ? & ?). split; [|done]. by eexists _, _. }
  destruct (rd s0 0 =? LBRACE).
  - destruct (memchr_off RBRACE s0 (strlen s0)) as [close|];
      [|by intros [? ?]].
    destruct (if has_flag flags' HTS_PARSE_LIST then _ else _)
      as [s_len s_end].
    destruct (rd s0 (S close) =? COLON); [apply Hnamed|apply Hname].
  - destruct (if has_flag flags' HTS_PARSE_LIST then _ else _)
      as [s_len s_end].
    destruct (memrchr_off COLON s0 s_len) as [colon|]; [|apply Hname].
    destruct (Z.leb_spec 0 (getid (span s0 0 s_len))) as [H|H].
    + destruct (0 <=? getid (span s0 0 (colon - 0))); [by intros [? ?]|].
      cbn. intros _. split; [by eexists _, _|]. split; [done|lia].
    + destruct (getid (span s0 0 s_len) <? -1); [by intros [? ?]|].
      apply Hnamed.
Qed.


Lemma strlen_app p q : (0 ∉ p) -> strlen (p ++ q) = (length p + strlen q)%nat.
Proof.
  unfold strlen. induction p as [|x p IH]; intros H; simpl; [done|].
  apply not_elem_of_cons in H as [Hx Hp].
  rewrite (proj2 (Z.eqb_neq _ _) (not_eq_sym Hx)). simpl. by rewrite IH.
Qed.

Lemma memchr_off_first c p q n :
  (c ∉ p) -> (length p < n)%nat ->
  memchr_off c (p ++ c :: q) n = Some (length p).
Proof.
  revert n. induction p as [|x p IH]; intros n Hp Hn.
  - destruct n as [|n]; [simpl in Hn; lia|]. simpl. by rewrite Z.eqb_refl.
  - destruct n as [|n]; [simpl in Hn; lia|].
    apply not_elem_of_cons in Hp as [Hx Hp]. simpl.
    rewrite (proj2 (Z.eqb_neq _ _) (not_eq_sym Hx)).
    rewrite IH; [done|done|simpl in Hn; lia].
Qed.

Lemma memchr_off_none c n : forall l,
  c <> 0 -> (c ∉ take n l) -> memchr_off c l n = None.
Proof.
  induction n as [|n IH]; intros l Hc Hl; [done|].
  destruct l as [|x l]; simpl.
  - rewrite (proj2 (Z.eqb_neq _ _) Hc).
    rewrite IH; [done|done|rewrite take_nil; apply not_elem_of_nil].
  - simpl in Hl. apply not_elem_of_cons in Hl as [Hx Hl].
    rewrite (proj2 (Z.eqb_neq _ _) (not_eq_sym Hx)). by rewrite IH.
Qed.

(** A region that opens a brace and never closes it is refused, with
    [*tid = -1] and [*beg], [*end] as they were. *)
Theorem parse_region_unclosed s0 beg0 end0 flags :
  rd s0 0 = LBRACE -> (RBRACE ∉ cstr s0) ->
  hts_parse_region getid hts_parse_decimal s0 beg0 end0 flags
  = mk_region None (-1) beg0 end0.
Proof.
  intros Hb Hc. unfold hts_parse_region. rewrite Hb, Z.eqb_refl.
  rewrite memchr_off_none; [done|done|by rewrite take_strlen].
Qed.

(** Braces quote the name.  The region [{name}] is the name in the
    braces, whatever colons or commas it holds, with no check for
    ambiguity; and in [{name}:...] the name in the braces is the one
    resolved. *)
Theorem parse_region_braced name rest beg0 end0 flags :
  (RBRACE ∉ name) -> (0 ∉ name) ->
  let s0 := LBRACE :: name ++ RBRACE :: rest in
  let r := hts_parse_region getid hts_parse_decimal s0 beg0 end0 flags in
  (rest = [] ->
   r = mk_region (if 0 <=? getid name then Some (length s0) else None)
         (getid name) 0 HTS_POS_MAX)
  /\ (head rest = Some COLON ->
      r_tid r = getid name /\ (getid name < 0 -> r_ret r = None)).
Proof.
  intros Hr H0. cbn zeta. unfold hts_parse_region.
  change (rd (LBRACE :: name ++ RBRACE :: rest) 0 =? LBRACE) with true.
  cbn match.
  set (s0 := LBRACE :: name ++ RBRACE :: rest).
  assert (Hlen : strlen s0 = (length name + 2 + strlen rest)%nat).
  { subst s0.
    replace (LBRACE :: name ++ RBRACE :: rest)
      with ((LBRACE :: name ++ [RBRACE]) ++ rest)
      by (simpl; by rewrite <- app_assoc).
    rewrite strlen_app.
    - rewrite length_cons, length_app. simpl. lia.
    - intros H. apply elem_of_cons in H as [H|H]; [done|].
      apply elem_of_app in H as [H|H]; [done|].
      by apply list_elem_of_singleton in H. }
  assert (Hclose : memchr_off RBRACE s0 (strlen s0) = Some (S (length name))).
  { subst s0. change (LBRACE :: name ++ RBRACE :: rest)
      with ((LBRACE :: name) ++ RBRACE :: rest) in *.
    rewrite memchr_off_first; [done| |rewrite Hlen; simpl; lia].
    intros H. apply elem_of_cons in H as [H|H]; done. }
  rewrite Hclose.
  assert (Hname : forall n, span s0 1 n = take n (name ++ RBRACE :: rest))
    by done.
  assert (Hafter : rd s0 (S (S (length name))) = default 0 (head rest)).
  { subst s0. unfold rd.
    change ((LBRACE :: name ++ RBRACE :: rest) !! S (S (length name)))
      with ((name ++ RBRACE :: rest) !! S (length name)).
    rewrite lookup_app_r by lia.
    replace (S (length name) - length name)%nat with 1%nat by lia.
    by destruct rest. }
  rewrite Hafter. split.
  - intros ->. cbn [head default].
    change (0 =? COLON) with false. cbn match.
    assert (Hcomma : strchr s0 (S (length name)) COMMA = None).
    { unfold strchr. subst s0. cbn [drop].
      rewrite drop_app_length. done. }
    rewrite Hcomma, Hlen. simpl strlen.
    assert (Hs : forall (b : bool),
      (if b then (length name + 2 + 0 - 1, length name + 2 + 0)%nat
       else (length name + 2 + 0 - 1, length name + 2 + 0)%nat)
      = ((length name + 1)%nat, length s0)).
    { intros b. subst s0. rewrite length_cons, length_app. simpl.
      destruct b; f_equal; lia. }
    rewrite Hs, Hname.
    replace (length name + 1 - 1)%nat with (length name) by lia.
    by rewrite take_app_length.
  - intros Hh. destruct rest as [|c rest]; [done|].
    injection Hh as ->. cbn [head default]. rewrite Z.eqb_refl.
    destruct (if has_flag _ HTS_PARSE_LIST then _ else _) as [s_len s_end].
    match goal with
    | |- context [parse_named _ _ ?a ?s ?c ?q ?e ?f ?b0 ?e0] =>
        pose proof (parse_named_ok a s c q e f b0 e0) as Hc
    end.
    cbn zeta in Hc. destruct Hc as [Ht Hok].
    rewrite Hname in Ht.
    replace (S (S (length name)) - 1 - 1)%nat with (length name) in Ht by lia.
    rewrite take_app_length in Ht.
    split; [exact Ht|]. intros Hneg.
    match goal with
    | |- ?x = None => destruct x eqn:E; [|done]
    end.
    destruct Hok as (_ & Hge & _); [by eexists|]. lia.
Qed.


Lemma has_flag_one_coord_set flags :
  has_flag (Z.lor flags HTS_PARSE_THOUSANDS_SEP) HTS_PARSE_ONE_COORD
  = has_flag flags HTS_PARSE_ONE_COORD.
Proof.
  unfold has_flag. rewrite Z.land_lor_distr_l.
  change (Z.land HTS_PARSE_THOUSANDS_SEP HTS_PARSE_ONE_COORD) with 0.
  by rewrite Z.lor_0_r.
Qed.

Lemma strlen_no_nul l : (0 ∉ l) -> strlen l = length l.
Proof.
  intros H. rewrite <- (app_nil_r l) at 1. rewrite strlen_app by done.
  simpl. unfold strlen. simpl. lia.
Qed.

(** One-based and closed becomes zero-based and half-open.  For a
    region [name:coords] without braces, not read as a list, that is no
    name as a whole while [name] is one: when [hts_parse_decimal] reads
    [x] (from [1] to [HTS_POS_MAX]) and stops at the end of the string,
    the interval is [x - 1 .. HTS_POS_MAX], or [x - 1 .. x] under
    [HTS_PARSE_ONE_COORD]; when it stops at a [-] and then reads
    [y >= x] up to the end of the string, the interval is
    [x - 1 .. y]. *)
Theorem parse_region_interval name coords beg0 end0 flags x n :
  let s0 := name ++ COLON :: coords in
  let fl := Z.lor flags HTS_PARSE_THOUSANDS_SEP in
  let r := hts_parse_region getid hts_parse_decimal s0 beg0 end0 flags in
  has_flag flags HTS_PARSE_LIST = false ->
  head name <> Some LBRACE ->
  (0 ∉ name) -> (0 ∉ coords) -> (COLON ∉ coords) ->
  getid s0 = -1 -> 0 <= getid name ->
  hts_parse_decimal coords fl = (x, n) -> 1 <= x <= HTS_POS_MAX ->
  (rd coords n = 0 ->
   r = mk_region (Some (length s0)) (getid name) (x - 1)
         (if has_flag flags HTS_PARSE_ONE_COORD then x else HTS_POS_MAX))
  /\ (rd coords n = 45 ->
      forall y m, hts_parse_decimal (drop (S n) coords) fl = (y, m) ->
                  rd coords (S n + m) = 0 -> x <= y ->
                  r = mk_region (Some (length s0)) (getid name) (x - 1) y).
Proof.
  cbn zeta. intros Hlist Hbrace Hn0 Hc0 Hcolon Hwhole Hname Hdec Hx.
  set (s0 := name ++ COLON :: coords) in *.
  pose proof HTS_POS_MAX_pos as Hmax. unfold LLONG_MAX in Hmax.
  assert (Hs0 : 0 ∉ s0).
  { subst s0. intros H. apply elem_of_app in H as [H|H]; [done|].
    apply elem_of_cons in H as [H|H]; done. }
  assert (Hrd0 : (rd s0 0 =? LBRACE) = false).
  { apply Z.eqb_neq. subst s0. unfold rd.
    destruct name as [|c name]; [done|]. simpl. intros ->. by apply Hbrace. }
  assert (Hrd : forall k, rd s0 (S (length name) + k) = rd coords k).
  { intros k. subst s0. unfold rd. rewrite lookup_app_r by lia.
    by replace (S (length name) + k - length name)%nat with (S k) by lia. }
  assert (Hdrop : forall k, drop (S (length name) + k) s0 = drop k coords).
  { intros k. subst s0. rewrite drop_app_ge by lia.
    by replace (S (length name) + k - length name)%nat with (S k) by lia. }
  assert (Hbeg : wrap64 (x - 1) = x - 1).
  { apply wrap64_id. unfold LLONG_MIN, LLONG_MAX. lia. }
  assert (Hstart :
    hts_parse_region getid hts_parse_decimal s0 beg0 end0 flags
    = parse_coords hts_parse_decimal s0 (length name) (length s0)
        (Z.lor flags HTS_PARSE_THOUSANDS_SEP) (getid name) HTS_POS_MAX).
  { unfold hts_parse_region. rewrite Hrd0, Hlist, has_flag_list_set, Hlist.
    rewrite (strlen_no_nul s0 Hs0).
    assert (Hm : memrchr_off COLON s0 (length s0) = Some (length name))
      by by apply memrchr_off_last.
    rewrite Hm.
    assert (Hw : span s0 0 (length s0) = s0)
      by (unfold span; by rewrite drop_0, firstn_all).
    rewrite Hw, Hwhole. cbn match.
    change (0 <=? -1) with false. change (-1 <? -1) with false. cbn match.
    unfold parse_named.
    assert (Hp : span s0 0 (length name - 0 - 0) = name).
    { unfold span. rewrite drop_0, !Nat.sub_0_r. subst s0.
      by rewrite take_app_length. }
    rewrite Hp. destruct (Z.ltb_spec (getid name) 0); [lia|done]. }
  rewrite Hstart. unfold parse_coords.
  rewrite <- (Nat.add_0_r (S (length name))), Hdrop, drop_0, Hdec, Hbeg.
  rewrite Nat.add_0_r, Hrd.
  destruct (Z.ltb_spec (x - 1) 0) as [?|_]; [lia|].
  rewrite has_flag_list_set, Hlist, has_flag_one_coord_set. split.
  - intros ->. cbn [Z.eqb orb].
    destruct (has_flag flags HTS_PARSE_ONE_COORD).
    + rewrite wrap64_id by (unfold LLONG_MIN, LLONG_MAX; lia).
      replace (x - 1 + 1) with x by lia.
      destruct (Z.eqb_spec x 0); [lia|].
      destruct (Z.leb_spec x (x - 1)); [lia|done].
    + destruct (Z.eqb_spec HTS_POS_MAX 0); [lia|].
      destruct (Z.leb_spec HTS_POS_MAX (x - 1)); [lia|done].
  - intros -> y m Hy Hend Hxy.
    change (45 =? 0) with false. change (45 =? 45) with true.
    cbn [andb orb]. cbn match.
    replace (S (S (length name) + n)) with (S (length name) + S n)%nat
      by lia.
    rewrite Hdrop, Hy.
    replace (S (length name) + S n + m)%nat
      with (S (length name) + (S n + m))%nat by lia.
    rewrite Hrd, Hend. cbn [Z.eqb negb andb]. cbn match.
    destruct (Z.eqb_spec y 0); [lia|].
    destruct (Z.leb_spec y (x - 1)); [lia|done].
Qed.

End RegionMore.

Lemma parse_region_accepted_witness :
  is_Some (r_ret (hts_parse_region one_name plain_decimal
                    (lit "chr1:100-200") 7 7 0))
  /\ 0 <= r_tid (hts_parse_region one_name plain_decimal
                   (lit "chr1:100-200") 7 7 0)
  /\ -1 <= r_beg (hts_parse_region one_name plain_decimal
                    (lit "chr1:100-200") 7 7 0)
        < r_end (hts_parse_region one_name plain_decimal
                   (lit "chr1:100-200") 7 7 0).
Proof.
  split; [by vm_compute; eexists|].
  apply (parse_region_accepted one_name plain_decimal
           (lit "chr1:100-200") 7 7 0).
  by vm_compute; eexists.
Defined.

Lemma parse_region_unclosed_witness :
  hts_parse_region two_names plain_decimal (lit "{chr1:100-200") 7 7 0
  = mk_region None (-1) 7 7.
Proof.
  apply parse_region_unclosed; [reflexivity|].
  apply (bool_decide_unpack _). vm_compute. exact I.
Defined.

Lemma parse_region_braced_witness :
  hts_parse_region two_names plain_decimal (lit "{chr1:100-200}") 7 7 0
  = mk_region (Some 14%nat) 1 0 HTS_POS_MAX.
Proof.
  apply (proj1 (parse_region_braced two_names plain_decimal
                  (lit "chr1:100-200") [] 7 7 0
                  ltac:(apply (bool_decide_unpack _); vm_compute; exact I)
                  ltac:(apply (bool_decide_unpack _); vm_compute; exact I))).
  reflexivity.
Defined.

Lemma parse_region_interval_witness :
  hts_parse_region one_name plain_decimal (lit "chr1:100-200") 7 7 0
  = mk_region (Some 12%nat) 0 99 200.
Proof.
  refine (proj2 (parse_region_interval one_name plain_decimal
                   (lit "chr1") (lit "100-200") 7 7 0 100 3
                   _ _ _ _ _ _ _ _ _) _ 200 3%nat _ _ _).
  - reflexivity.
  - vm_compute. discriminate.
  - apply (bool_decide_unpack _). vm_compute. exact I.
  - apply (bool_decide_unpack _). vm_compute. exact I.
  - apply (bool_decide_unpack _). vm_compute. exact I.
  - reflexivity.
  - vm_compute. discriminate.
  - reflexivity.
  - by vm_compute.
  - reflexivity.
  - reflexivity.
  - reflexivity.
  - by vm_compute.
Defined.

(** ** [hts_parse_reg64] and [hts_parse_reg] *)

Section RegProps.

Variable hts_parse_decimal : list Z -> Z -> Z * nat.

Lemma parse_reg64_ok s0 end0 :
  let r := hts_parse_reg64 hts_parse_decimal s0 end0 in
  is_Some (g_ret r) ->
  0 <= g_beg r < g_end r
  /\ match strrchr_colon s0 with
     | None => r = mk_reg (Some (strlen s0)) 0 HTS_POS_MAX
     | Some colon =>
         g_ret r = Some colon
         /\ g_beg r
            = Z.max 0 (wrap64 (fst (hts_parse_decimal (drop (S colon) s0)
                                      HTS_PARSE_THOUSANDS_SEP) - 1))
     end.
Proof.
  cbn zeta. unfold hts_parse_reg64.
  pose proof HTS_POS_MAX_pos as Hmax.
  destruct (strrchr_colon s0) as [colon|]; [|intros _; split; [cbn; lia|done]].
  destruct (hts_parse_decimal (drop (S colon) s0) HTS_PARSE_THOUSANDS_SEP)
    as [x n]. cbn [fst].
  set (beg := if wrap64 (x - 1) <? 0 then 0 else wrap64 (x - 1)).
  assert (Hbeg : beg = Z.max 0 (wrap64 (x - 1)) /\ 0 <= beg).
  { subst beg. destruct (Z.ltb_spec (wrap64 (x - 1)) 0); lia. }
  destruct Hbeg as [Hbeg Hge].
  assert (Hlast : forall e,
    let r := if e <=? beg then mk_reg None beg e
             else mk_reg (Some colon) beg e in
    is_Some (g_ret r) ->
    0 <= g_beg r < g_end r
    /\ g_ret r = Some colon /\ g_beg r = Z.max 0 (wrap64 (x - 1))).
  { intros e r. subst r. destruct (Z.leb_spec e beg); cbn.
    - by intros [? ?].
    - intros _. split; [lia|]. by split. }
  destruct (rd s0 (S colon + n) =? 0); [apply Hlast|].
  destruct (rd s0 (S colon + n) =? 45); [apply Hlast|].
  by intros [? ?].
Qed.

(** A string accepted by [hts_parse_reg64]: without a colon the
    interval is everything and the pointer returned is the end of the
    string; with one, the pointer is the last colon, and the interval
    is not empty and starts at [0] at the least, a first coordinate
    below [1] being read as [1]. *)
Theorem parse_reg64_accepted s0 end0 :
  let r := hts_parse_reg64 hts_parse_decimal s0 end0 in
  is_Some (g_ret r) ->
  0 <= g_beg r < g_end r
  /\ match strrchr_colon s0 with
     | None => r = mk_reg (Some (strlen s0)) 0 HTS_POS_MAX
     | Some colon =>
         g_ret r = Some colon
         /\ g_beg r
            = Z.max 0 (wrap64 (fst (hts_parse_decimal (drop (S colon) s0)
                                      HTS_PARSE_THOUSANDS_SEP) - 1))
     end.
Proof. apply parse_reg64_ok. Qed.

(** A string accepted by [hts_parse_reg]: both ends fit an [int], the
    begin is not negative and not after the end, and the interval is
    empty only when it begins at [INT_MAX]. *)
Theorem parse_reg_accepted s0 beg0 end0 :
  let r := hts_parse_reg hts_parse_decimal s0 beg0 end0 in
  is_Some (g_ret r) ->
  0 <= g_beg r <= g_end r /\ g_end r <= INT_MAX
  /\ (g_beg r < g_end r \/ g_beg r = INT_MAX)
  /\ g_ret r = g_ret (hts_parse_reg64 hts_parse_decimal s0 0).
Proof.
  cbn zeta. unfold hts_parse_reg.
  pose proof (parse_reg64_ok s0 0) as H64. cbn zeta in H64.
  set (r := hts_parse_reg64 hts_parse_decimal s0 0) in *.
  assert (Hw : forall z, 0 <= z <= INT_MAX -> wrap32 z = z).
  { intros z Hz. apply wrap32_id. unfold INT_MAX in Hz. lia. }
  assert (Hi : 0 < INT_MAX) by done.
  destruct (Z.ltb_spec INT_MAX (g_beg r)); [by intros [? ?]|].
  destruct (Z.ltb_spec INT_MAX (g_end r)).
  - destruct (Z.eqb_spec (g_end r) HTS_POS_MAX); [|by intros [? ?]].
    cbn. intros Hs. destruct (H64 Hs) as [Hb _].
    rewrite !Hw by lia. repeat split; try lia. 
  - cbn. intros Hs. destruct (H64 Hs) as [Hb _].
    rewrite !Hw by lia. repeat split; try lia.
Qed.

End RegProps.

Lemma parse_reg64_accepted_witness :
  is_Some (g_ret (hts_parse_reg64 plain_decimal (lit "chr1:0-200") 7))
  /\ 0 <= g_beg (hts_parse_reg64 plain_decimal (lit "chr1:0-200") 7)
        < g_end (hts_parse_reg64 plain_decimal (lit "chr1:0-200") 7).
Proof.
  split; [by vm_compute; eexists|].
  apply (parse_reg64_accepted plain_decimal (lit "chr1:0-200") 7).
  by vm_compute; eexists.
Defined.

Lemma parse_reg_accepted_witness :
  is_Some (g_ret (hts_parse_reg plain_decimal (lit "chr1:100") 7 7))
  /\ g_end (hts_parse_reg plain_decimal (lit "chr1:100") 7 7) <= INT_MAX.
Proof.
  split; [by vm_compute; eexists|].
  apply (parse_reg_accepted plain_decimal (lit "chr1:100") 7 7).
  by vm_compute; eexists.
Defined.

(** ** The table of names: [tbx_seqnames] and [tbx_set_meta] *)

Lemma mapM_Some_fmap (l : list (list Z)) :
  mapM (M := option) (fun x : option (list Z) => x) (Some <$> l) = Some l.
Proof.
  induction l as [|x l IH]; [done|]. cbn. cbn in IH. by rewrite IH.
Qed.

(** Filling the table with entries that agree with [ds]. *)
Lemma name_slot_fill conv ds : forall (L : list (list Z * Z)) slots,
  (forall z, 0 <= z < Z.of_nat (length ds) -> conv z = z) ->
  (forall x v, (x, v) ∈ L ->
     exists i : nat, v = Z.of_nat i /\ ds !! i = Some x) ->
  length slots = length ds ->
  exists slots',
    foldl (name_slot conv) (Some slots) L = Some slots'
    /\ length slots' = length ds
    /\ forall i : nat,
         slots' !! i
         = if decide (Z.of_nat i ∈ snd <$> L)
           then Some <$> (ds !! i) else slots !! i.
Proof.
  induction L as [|[x v] L IH]; intros slots Hconv HL Hlen.
  - exists slots. split; [done|]. split; [done|]. intros i.
    rewrite decide_False; [done|]. apply not_elem_of_nil.
  - destruct (HL x v ltac:(left)) as (i & -> & Hi).
    pose proof (lookup_lt_Some _ _ _ Hi) as Hlt.
    cbn [foldl name_slot snd fst].
    rewrite Hconv by lia.
    destruct (Z.leb_spec 0 (Z.of_nat i)); [|lia].
    destruct (Z.ltb_spec (Z.of_nat i) (Z.of_nat (length slots))); [|lia].
    cbn [andb]. rewrite Nat2Z.id.
    destruct (IH (<[i := Some x]> slots) Hconv) as (slots' & Hf & Hl & Hs).
    { intros y w Hy. apply HL. by right. }
    { by rewrite length_insert. }
    exists slots'. split; [done|]. split; [done|]. intros j.
    rewrite Hs. cbn [fmap list_fmap snd].
    destruct (decide (Z.of_nat j ∈ snd <$> L)) as [Hin|Hnin].
    + rewrite decide_True; [done|]. by right.
    + destruct (decide (j = i)) as [->|Hne].
      * rewrite decide_True by by left.
        rewrite list_lookup_insert_eq by lia. by rewrite Hi.
      * rewrite decide_False.
        -- by rewrite list_lookup_insert_ne.
        -- intros Hin. apply elem_of_cons in Hin as [Hin|Hin]; [lia|done].
Qed.

(** A dictionary that numbers [ds] gives the table [ds]. *)
Lemma name_table_numbers conv d ds :
  (forall z, 0 <= z < Z.of_nat (length ds) -> conv z = z) ->
  numbers d ds -> name_table conv d = Some ds.
Proof.
  intros Hconv (Hnd & Hsz & Hd). unfold name_table.
  destruct (name_slot_fill conv ds (map_to_list d) (replicate (size d) None)
              Hconv) as (slots & -> & Hlen & Hs).
  - intros x v Hx. apply elem_of_map_to_list in Hx. rewrite Hd in Hx.
    destruct (index_of x ds) as [i|] eqn:Ei; [|done].
    injection Hx as <-. exists i. split; [done|]. by apply index_of_lookup.
  - by rewrite length_replicate.
  - replace slots with (Some <$> ds); [apply mapM_Some_fmap|].
    apply list_eq. intros i. rewrite Hs, list_lookup_fmap.
    destruct (ds !! i) as [x|] eqn:Ei.
    + rewrite decide_True; [done|].
      apply list_elem_of_fmap. exists (x, Z.of_nat i). split; [done|].
      apply elem_of_map_to_list. rewrite Hd.
      by rewrite (lookup_index_of x ds i).
    + destruct (decide _); [done|].
      apply lookup_ge_None in Ei. symmetry. apply lookup_ge_None.
      rewrite length_replicate. lia.
Qed.

Lemma numbers_nil_inv ds : numbers ∅ ds -> ds = [].
Proof.
  intros (_ & Hsz & _). rewrite map_size_empty in Hsz. by destruct ds.
Qed.

Lemma numbers_eq d1 d2 ds : numbers d1 ds -> numbers d2 ds -> d1 = d2.
Proof.
  intros (_ & _ & H1) (_ & _ & H2). apply map_eq. intros x.
  by rewrite H1, H2.
Qed.

Lemma seqnames_numbers cf d ds :
  numbers (default ∅ d) ds -> Z.of_nat (length ds) < 2 ^ 31 ->
  tbx_seqnames (mk_tbx cf d) = Some (Z.of_nat (length ds), ds).
Proof.
  intros Hnum Hlen. unfold tbx_seqnames. cbn [dict].
  destruct d as [d|]; cbn in Hnum.
  - rewrite (name_table_numbers wrap32 d ds); [|intros z Hz|done].
    + destruct Hnum as (_ & -> & _). done.
    + apply wrap32_id. lia.
  - by rewrite (numbers_nil_inv ds Hnum).
Qed.

(** The names come back by their numbers.  After names have been added
    to an empty dictionary (under any preset but GAF), [tbx_seqnames]
    returns the distinct names in the order in which they were first
    added, and every name added stands in that table at the number
    [tbx_name2id] gives for it. *)
Theorem tbx_seqnames_by_tid cf names :
  fmt_tag cf <> TBX_GAF ->
  Z.of_nat (length (distinct names)) < 2 ^ 31 ->
  let tbx := snd (add_names (mk_tbx cf None) names) in
  tbx_seqnames tbx
  = Some (Z.of_nat (length (distinct names)), distinct names)
  /\ forall x, x ∈ names ->
       exists k : nat, fst (tbx_name2id tbx x) = Z.of_nat k
                       /\ distinct names !! k = Some x.
Proof.
  intros Hgaf Hlen. cbn zeta.
  destruct (add_names_numbers cf names None [] Hgaf numbers_empty)
    as (d' & -> & Hnum & Hall).
  fold (distinct names) in *. split; [by apply seqnames_numbers|].
  intros x Hx. apply list_elem_of_lookup in Hx as [i Hi].
  destruct (Hall i x Hi) as (k & Hk & _). exists k.
  rewrite (get_tid_lookup cf d' (distinct names)) by done.
  rewrite Hk. split; [done|]. by apply index_of_lookup.
Qed.

(** ** The header written by [tbx_set_meta] and read by [index_load] *)

Lemma rd_app_r (pre l : list Z) j : rd (pre ++ l) (length pre + j) = rd l j.
Proof.
  unfold rd. rewrite lookup_app_r by lia.
  by replace (length pre + j - length pre)%nat with j by lia.
Qed.

Lemma u32_bytes_length z : length (u32_bytes z) = 4%nat.
Proof. done. Qed.

Lemma le_to_u32_bytes pre z post :
  le_to_u32 (pre ++ u32_bytes z ++ post) (length pre) = z mod 2 ^ 32.
Proof.
  unfold le_to_u32.
  rewrite <- (Nat.add_0_r (length pre)) at 1.
  rewrite !rd_app_r. unfold u32_bytes, rd. cbn [app lookup list_lookup].
  simpl.
  pose proof (Z.mod_pos_bound z (2 ^ 32) ltac:(lia)) as Hu.
  set (u := z mod 2 ^ 32) in *.
  change (2 ^ 8) with 256. change (2 ^ 16) with 65536.
  change (2 ^ 24) with 16777216. change (2 ^ 32) with 4294967296 in Hu.
  Z.div_mod_to_equations. lia.
Qed.

Lemma le_to_i32_bytes pre z post :
  - 2 ^ 31 <= z < 2 ^ 31 ->
  le_to_i32 (pre ++ u32_bytes z ++ post) (length pre) = z.
Proof.
  intros Hz. unfold le_to_i32. rewrite le_to_u32_bytes.
  unfold wrap32.
  change (2 ^ 31) with 2147483648 in *.
  change (2 ^ 32) with 4294967296 in *.
  Z.div_mod_to_equations. lia.
Qed.

Lemma cstr_no_nul n : (0 ∉ n) -> cstr n = n.
Proof.
  intros H. rewrite <- (app_nil_r n) at 1. apply cstr_text; [done|].
  unfold ends. simpl. set_solver.
Qed.

(** The names of a block of NUL-terminated names. *)
Lemma block_names_bytes names : forall fuel pre rest,
  Forall (fun n : list Z => 0 ∉ n) names ->
  (length (names_bytes names) <= fuel)%nat ->
  block_names fuel (pre ++ names_bytes names ++ rest)
    (length pre) (length pre + length (names_bytes names))
  = names.
Proof.
  unfold names_bytes.
  induction names as [|n names IH]; intros fuel pre rest Hn Hf.
  - simpl. rewrite Nat.add_0_r.
    destruct fuel; simpl; [done|]. by rewrite Nat.ltb_irrefl.
  - apply Forall_cons in Hn as [Hn0 Hn].
    cbn [fmap list_fmap concat] in *. rewrite (cstr_no_nul n Hn0) in *.
    set (blk := concat _) in *.
    rewrite !length_app in Hf. simpl in Hf.
    destruct fuel as [|fuel]; [lia|].
    cbn [block_names].
    rewrite !length_app. simpl length.
    destruct (Nat.ltb_spec (length pre)
                (length pre + (length n + 1 + length blk))); [|lia].
    assert (Hc : cstr_at (pre ++ ((n ++ [0]) ++ blk) ++ rest) (length pre)
                 = n).
    { unfold cstr_at. rewrite drop_app_length.
      rewrite <- !app_assoc. apply cstr_text; [done|].
      unfold ends. simpl. set_solver. }
    rewrite Hc. f_equal.
    specialize (IH fuel (pre ++ n ++ [0]) rest Hn ltac:(lia)).
    rewrite !length_app in IH. simpl length in IH.
    rewrite <- !app_assoc in IH. rewrite <- !app_assoc.
    replace (length pre + length n + 1)%nat
      with (length pre + (length n + 1))%nat by lia.
    etransitivity; [|exact IH]. f_equal. lia.
Qed.

Lemma header_fields a0 a1 a2 a3 a4 a5 a6 block :
  let meta := u32_bytes a0 ++ u32_bytes a1 ++ u32_bytes a2 ++ u32_bytes a3
              ++ u32_bytes a4 ++ u32_bytes a5 ++ u32_bytes a6 ++ block in
  le_to_u32 meta 0 = a0 mod 2 ^ 32 /\ le_to_u32 meta 4 = a1 mod 2 ^ 32
  /\ le_to_u32 meta 8 = a2 mod 2 ^ 32 /\ le_to_u32 meta 12 = a3 mod 2 ^ 32
  /\ le_to_u32 meta 16 = a4 mod 2 ^ 32 /\ le_to_u32 meta 20 = a5 mod 2 ^ 32
  /\ le_to_u32 meta 24 = a6 mod 2 ^ 32
  /\ drop 28 meta = block
  /\ length meta = (28 + length block)%nat.
Proof.
  cbn zeta.
  split; [exact (le_to_u32_bytes [] a0 _)|].
  split; [exact (le_to_u32_bytes (u32_bytes a0) a1 _)|].
  split; [exact (le_to_u32_bytes (u32_bytes a0 ++ u32_bytes a1) a2 _)|].
  split; [exact (le_to_u32_bytes
                   (u32_bytes a0 ++ u32_bytes a1 ++ u32_bytes a2) a3 _)|].
  split; [exact (le_to_u32_bytes
                   (u32_bytes a0 ++ u32_bytes a1 ++ u32_bytes a2
                    ++ u32_bytes a3) a4 _)|].
  split; [exact (le_to_u32_bytes
                   (u32_bytes a0 ++ u32_bytes a1 ++ u32_bytes a2
                    ++ u32_bytes a3 ++ u32_bytes a4) a5 _)|].
  split; [exact (le_to_u32_bytes
                   (u32_bytes a0 ++ u32_bytes a1 ++ u32_bytes a2
                    ++ u32_bytes a3 ++ u32_bytes a4 ++ u32_bytes a5) a6 _)|].
  split; done.
Qed.

Lemma wrap32_mod z : - 2 ^ 31 <= z < 2 ^ 31 -> wrap32 (z mod 2 ^ 32) = z.
Proof.
  intros Hz. unfold wrap32.
  change (2 ^ 31) with 2147483648 in *.
  change (2 ^ 32) with 4294967296 in *.
  Z.div_mod_to_equations. lia.
Qed.

Lemma distinct_from_subset ds l x :
  x ∈ distinct_from ds l -> x ∈ ds \/ x ∈ l.
Proof.
  revert ds. induction l as [|y l IH]; intros ds; simpl; [by left|].
  intros H. apply IH in H as [H|H]; [|right; by right].
  case_decide; [by left|].
  apply elem_of_app in H as [H|H]; [by left|].
  apply list_elem_of_singleton in H as ->. right. by left.
Qed.

(** The header of a dictionary that numbers [ds] is read back into the
    same configuration and the same dictionary. *)
Lemma set_meta_load_numbers cf d ds :
  fmt_tag cf <> TBX_GAF ->
  Forall (fun z => - 2 ^ 31 <= z < 2 ^ 31)
    [preset cf; sc cf; bc cf; ec cf; meta_char cf; line_skip cf] ->
  numbers d ds -> Forall (fun n : list Z => 0 ∉ n) ds -> ds <> [] ->
  Z.of_nat (length (names_bytes ds)) < 2 ^ 31 ->
  exists meta, tbx_set_meta (mk_tbx cf (Some d)) = Some meta
               /\ index_load meta = Some (mk_tbx cf (Some d)).
Proof.
  intros Hgaf Hcf Hnum Hnul Hds Hlen.
  unfold tbx_set_meta. cbn [dict conf].
  rewrite (name_table_numbers (fun z => z) d ds) by done.
  eexists. split; [done|].
  set (block := names_bytes ds) in *.
  pose proof (header_fields (preset cf) (sc cf) (bc cf) (ec cf)
                (meta_char cf) (line_skip cf)
                (wrap32 (Z.of_nat (length block))) block) as Hh.
  cbn zeta in Hh. set (meta := u32_bytes _ ++ _) in *.
  destruct Hh as (H0 & H1 & H2 & H3 & H4 & H5 & H6 & Hdrop & Hml).
  assert (Hb32 : wrap32 (Z.of_nat (length block)) = Z.of_nat (length block))
    by (apply wrap32_id; lia).
  rewrite Hb32 in H6. rewrite Z.mod_small in H6 by lia.
  unfold index_load. rewrite Hml.
  destruct (Z.ltb_spec (Z.of_nat (28 + length block)) 28); [lia|].
  rewrite H6.
  destruct (Z.ltb_spec (Z.of_nat (28 + length block) - 28)
              (Z.of_nat (length block))); [lia|].
  unfold le_to_i32. rewrite H0, H1, H2, H3, H4, H5.
  repeat match goal with
         | H : Forall _ (_ :: _) |- _ =>
             apply Forall_cons in H as [? H]
         end.
  rewrite !wrap32_mod by done.
  rewrite Hdrop, Nat2Z.id, load_names_add_names.
  pose proof (block_names_bytes ds (length block) [] []) as Hbn.
  rewrite app_nil_r in Hbn. cbn [app length Nat.add] in Hbn.
  fold block in Hbn. rewrite Hbn; [|done|done].
  replace (mk_conf (preset cf) (sc cf) (bc cf) (ec cf) (meta_char cf)
             (line_skip cf)) with cf by by destruct cf.
  destruct (add_names_numbers cf ds None [] Hgaf numbers_empty)
    as (d2 & -> & Hnum2 & _).
  fold (distinct ds) in Hnum2.
  rewrite distinct_NoDup in Hnum2 by apply Hnum.
  destruct d2 as [d2|]; [|by apply numbers_nil_inv in Hnum2].
  cbn [default] in Hnum2. by rewrite (numbers_eq d2 d ds).
Qed.

(** Saving and loading the header.  For a dictionary made by adding
    names without NUL to an empty one (under any preset but GAF), a
    configuration of 32 bit integers and a names block that is shorter
    than [2^31] bytes: [tbx_set_meta] writes a header from which
    [index_load] builds the same configuration and the same
    dictionary. *)
Theorem set_meta_index_load cf names :
  fmt_tag cf <> TBX_GAF ->
  Forall (fun z => - 2 ^ 31 <= z < 2 ^ 31)
    [preset cf; sc cf; bc cf; ec cf; meta_char cf; line_skip cf] ->
  Forall (fun n : list Z => 0 ∉ n) names -> names <> [] ->
  Z.of_nat (length (names_bytes (distinct names))) < 2 ^ 31 ->
  let tbx := snd (add_names (mk_tbx cf None) names) in
  exists meta, tbx_set_meta tbx = Some meta /\ index_load meta = Some tbx.
Proof.
  intros Hgaf Hcf Hnul Hne Hlen. cbn zeta.
  destruct (add_names_numbers cf names None [] Hgaf numbers_empty)
    as (d' & -> & Hnum & Hall).
  fold (distinct names) in *. set (ds := distinct names) in *.
  assert (Hds : ds <> []).
  { destruct names as [|x names]; [done|].
    destruct (Hall O x eq_refl) as (k & Hk & _).
    intros E. by rewrite E in Hk. }
  destruct d' as [d|]; [|by apply numbers_nil_inv in Hnum].
  cbn [default] in Hnum.
  apply (set_meta_load_numbers cf d ds); try done.
  apply Forall_forall. intros x Hx.
  apply distinct_from_subset in Hx as [Hx|Hx];
    [by apply elem_of_nil in Hx|].
  by apply (proj1 (Forall_forall _ _) Hnul).
Qed.

Lemma tbx_seqnames_by_tid_witness :
  tbx_seqnames (snd (add_names (mk_tbx tbx_conf_vcf None)
                       [lit "chr1"; lit "chr2"; lit "chr1"]))
  = Some (2, [lit "chr1"; lit "chr2"]).
Proof.
  refine (proj1 (tbx_seqnames_by_tid tbx_conf_vcf
                   [lit "chr1"; lit "chr2"; lit "chr1"] _ _)).
  - vm_compute. discriminate.
  - by vm_compute.
Defined.

Lemma set_meta_index_load_witness :
  exists meta,
    tbx_set_meta (snd (add_names (mk_tbx tbx_conf_vcf None)
                         [lit "chr1"; lit "chr2"; lit "chr1"])) = Some meta
    /\ index_load meta
       = Some (snd (add_names (mk_tbx tbx_conf_vcf None)
                      [lit "chr1"; lit "chr2"; lit "chr1"])).
Proof.
  apply (set_meta_index_load tbx_conf_vcf
           [lit "chr1"; lit "chr2"; lit "chr1"]).
  - vm_compute. discriminate.
  - repeat constructor; by vm_compute.
  - repeat constructor; apply (bool_decide_unpack _); vm_compute; exact I.
  - done.
  - by vm_compute.
Defined.

Lemma generic_begin_end_witness :
  fst (tbx_parse1 symbolic_alt tbx_conf_bed 10 (tabbed "chr1|10|20")
         false []) = 0
  /\ beg (snd (tbx_parse1 symbolic_alt tbx_conf_bed 10 (tabbed "chr1|10|20")
                 false [])) = 10
  /\ end_ (snd (tbx_parse1 symbolic_alt tbx_conf_bed 10 (tabbed "chr1|10|20")
                  false [])) = 20.
Proof.
  split; [by vm_compute|].
  apply (generic_begin_end symbolic_alt tbx_conf_bed (tabbed "chr1|10|20")
           false []).
  - reflexivity.
  - by vm_compute.
  - by vm_compute.
  - by vm_compute.
  - by vm_compute.
  - by vm_compute.
  - by vm_compute.
  - by vm_compute.
Defined.

Lemma sam_end_witness :
  fst (tbx_parse1 symbolic_alt tbx_conf_sam (length sam_line) sam_line
         false []) = 0
  /\ end_ (snd (tbx_parse1 symbolic_alt tbx_conf_sam (length sam_line)
                  sam_line false [])) = 114.
Proof.
  split; [by vm_compute|].
  refine (eq_trans (sam_end symbolic_alt tbx_conf_sam sam_line false []
                      _ _ _ _ _ _) _).
  - reflexivity.
  - by vm_compute.
  - by vm_compute.
  - vm_compute. lia.
  - intros x Hx. apply list_elem_of_In in Hx. vm_compute in Hx.
    repeat (destruct Hx as [<-|Hx]; [reflexivity|]). destruct Hx.
  - by vm_compute.
  - by vm_compute.
Defined.

Lemma begin_column_witness :
  fst (tbx_parse1 symbolic_alt (mk_conf TBX_GENERIC 1 2 2 35 0) 8
         (tabbed "chr1|100") false []) = 0
  /\ beg (snd (tbx_parse1 symbolic_alt (mk_conf TBX_GENERIC 1 2 2 35 0) 8
                 (tabbed "chr1|100") false [])) = 99
  /\ end_ (snd (tbx_parse1 symbolic_alt (mk_conf TBX_GENERIC 1 2 2 35 0) 8
                  (tabbed "chr1|100") false [])) = 100.
Proof.
  split; [by vm_compute|].
  assert (H1 : fmt_tag (mk_conf TBX_GENERIC 1 2 2 35 0) <> TBX_GAF)
    by (vm_compute; discriminate).
  assert (H2 : sc (mk_conf TBX_GENERIC 1 2 2 35 0)
               <> bc (mk_conf TBX_GENERIC 1 2 2 35 0))
    by (vm_compute; discriminate).
  assert (H3 : snd (strtoll_list
                      (column (tabbed "chr1|100")
                         (Z.to_nat (bc (mk_conf TBX_GENERIC 1 2 2 35 0)))) 0)
               <> O)
    by (vm_compute; discriminate).
  assert (H4 : fst (tbx_parse1 symbolic_alt (mk_conf TBX_GENERIC 1 2 2 35 0)
                      (length (tabbed "chr1|100")) (tabbed "chr1|100")
                      false []) = 0)
    by (by vm_compute).
  destruct (begin_column symbolic_alt (mk_conf TBX_GENERIC 1 2 2 35 0)
              (tabbed "chr1|100") false [] H1 H2 H3 H4) as [Hb He].
  split; [exact Hb|exact (He eq_refl eq_refl)].
Defined.

Lemma tbx_readrec_record_witness :
  rr_ret (tbx_readrec symbolic_alt
            [(6, lit "#CHROM"); (18, tabbed "chr2|5|.|G|C|.|.|.")]
            (snd (add_names (mk_tbx tbx_conf_vcf None) [lit "chr1"]))
            [] 7 7 7 false []) = -2.
Proof.
  destruct (tbx_readrec_record symbolic_alt
              [(6, lit "#CHROM"); (18, tabbed "chr2|5|.|G|C|.|.|.")]
              (snd (add_names (mk_tbx tbx_conf_vcf None) [lit "chr1"]))
              [] 7 7 7 false []) as (_ & _ & _ & H).
  destruct (H [(6, lit "#CHROM")] 18 (tabbed "chr2|5|.|G|C|.|.|.") [])
    as (Hr & _).
  - reflexivity.
  - constructor; [|constructor]. by vm_compute.
  - intros [_ H']. vm_compute in H'. discriminate H'.
  - lia.
  - right. split; [vm_compute; discriminate|by vm_compute].
  - exact Hr.
Defined.
(** ** [tbx_index] *)

Section IndexProps.

Variable sv : list Z -> bool.
Variable push : list (Z * Z * Z) -> Z * Z * Z -> bool.

(** The loop of [tbx_index], from any state whose dictionary numbers
    [ds]: when the loop is left without a failure, one record has been
    pushed for every data line, in order, with the number of the line's
    name among the names seen, and the dictionary numbers these
    names. *)
Lemma index_loop_spec fuel fmt ms fp : forall st st' ret ds,
  fmt_tag (conf (i_tbx st)) <> TBX_GAF ->
  numbers (default ∅ (dict (i_tbx st))) ds ->
  index_loop sv push fuel fmt ms fp st = Built (st', ret) ->
  let cf := conf (i_tbx st) in
  let data := data_lines cf (i_lineno st) (read_lines fp) in
  let ds' := distinct_from ds (line_names cf data) in
  conf (i_tbx st') = cf
  /\ numbers (default ∅ (dict (i_tbx st'))) ds'
  /\ exists new, i_records st' = i_records st ++ new
     /\ length new = length data
     /\ forall i l, data !! i = Some l ->
          exists k b e, new !! i = Some (Z.of_nat k, b, e)
            /\ index_of (column l (Z.to_nat (sc cf))) ds' = Some k
            /\ 0 <= b /\ 0 <= e.
Proof.
  induction fp as [|[r l] fp' IH]; intros st st' ret ds Hgaf Hnum Hrun;
    cbn zeta.
  - cbn in Hrun. injection Hrun as <- <-. cbn.
    split; [done|]. split; [done|]. exists []. rewrite app_nil_r.
    split; [done|]. split; [done|]. by intros i l0.
  - cbn [index_loop] in Hrun. cbn [read_lines].
    destruct (r <? 0) eqn:Er.
    { injection Hrun as <- <-. cbn.
      split; [done|]. split; [done|]. exists []. rewrite app_nil_r.
      split; [done|]. split; [done|]. by intros i l0. }
    cbn zeta in Hrun. cbn [data_lines]. cbn zeta.
    destruct ((wrap64 (i_lineno st + 1) <=? line_skip (conf (i_tbx st)))
              || (rd l 0 =? meta_char (conf (i_tbx st)))) eqn:Eskip.
    { apply IH with (ds := ds) in Hrun; [exact Hrun|done|done]. }
    destruct (match i_idx st with
              | Some x => Some x
              | None => match fmt with
                        | HTS_FMT_CSI => _
                        | HTS_FMT_TBI => _
                        end
              end) as [x|]; [|done].
    pose proof (get_intv_spec sv (i_tbx st) (length l) l (i_rep st) (i_log st)
                  0 true) as Hg.
    cbn zeta in Hg.
    pose proof (tbx_parse1_ok sv (conf (i_tbx st)) (length l) l (i_rep st)
                  (i_log st)) as Hok.
    destruct (get_intv sv (i_tbx st) (length l) l (i_rep st) (i_log st) 0 true)
      as [[[g tid] v] tbx'] eqn:Eg.
    cbn [fst snd] in Hg. destruct Hg as (_ & Hbad & Hgood).
    destruct (Z.ltb_spec g 0) as [|Hg0]; [done|].
    destruct (Z.eq_dec (fst (tbx_parse1 sv (conf (i_tbx st)) (length l) l
                               (i_rep st) (i_log st))) 0) as [Hp|Hp].
    2:{ specialize (Hbad Hp). injection Hbad as -> _ _ _. lia. }
    destruct (Hgood Hp eq_refl) as (Hr & Htid & Htbx & Hb & He).
    destruct (Hok Hp) as (_ & Hb0 & He0 & _).
    rewrite (proj2 (Z.eqb_neq _ _) Hgaf) in Hr, Htid, Htbx.
    destruct (push (i_records st) (tid, beg v, end_ v)); [|done].
    set (name := column l (Z.to_nat (sc (conf (i_tbx st))))) in *.
    destruct (i_tbx st) as [cf d] eqn:Etbx. cbn [conf dict] in *.
    destruct (get_tid_add cf d ds name Hgaf Hnum) as (d' & Hadd & Hnum').
    rewrite Hadd in Hr, Htid, Htbx. cbn [fst snd] in Hr, Htid, Htbx.
    set (ds1 := if decide (name ∈ ds) then ds else ds ++ [name]) in *.
    destruct (index_of name ds1) as [k|] eqn:Ek; cbn in Htid, Hr; [|lia].
    subst tbx'.
    apply IH with (ds := ds1) in Hrun; cbn [i_tbx conf dict]; [|done|done].
    cbn zeta in Hrun. cbn [i_tbx conf dict i_lineno i_records] in Hrun.
    destruct Hrun as (Hcf & Hn & new & Hrec & Hlen & Hall).
    unfold line_names in *. cbn [fmap list_fmap distinct_from].
    fold name. fold ds1.
    split; [done|]. split; [done|].
    exists ((tid, beg v, end_ v) :: new).
    split; [by rewrite Hrec, <- app_assoc|].
    split; [by cbn; rewrite Hlen|].
    intros [|i] l0 Hl0; cbn in Hl0.
    + injection Hl0 as <-. exists k, (beg v), (end_ v). cbn.
      split; [by rewrite Htid|].
      split; [by apply distinct_from_index|]. lia.
    + apply Hall in Hl0. exact Hl0.
Qed.

(** Building an index.  Under any preset but GAF, when [tbx_index]
    returns an index: the configuration is the caller's; one record was
    pushed for each data line of the file, in the order of the lines,
    with coordinates that are not negative and, as its tid, the position
    of the line's sequence name among the distinct names of the data
    lines in the order of their first appearance; the dictionary gives
    each of those names this position and knows no other name; and the
    header has been written. *)
Lemma tbx_index_spec fuel fp min_shift cf rep lg bt :
  fmt_tag cf <> TBX_GAF ->
  tbx_index sv push fuel fp min_shift cf rep lg = Built bt ->
  let data := data_lines cf 0 (read_lines fp) in
  let names := distinct (line_names cf data) in
  conf (bt_tbx bt) = cf
  /\ length (bt_records bt) = length data
  /\ (forall i l, data !! i = Some l ->
        exists k b e, bt_records bt !! i = Some (Z.of_nat k, b, e)
          /\ names !! k = Some (column l (Z.to_nat (sc cf)))
          /\ 0 <= b /\ 0 <= e)
  /\ (forall x, fst (tbx_name2id (bt_tbx bt) x)
                = default (-1) (Z.of_nat <$> index_of x names))
  /\ is_Some (bt_meta bt).
Proof.
  intros Hgaf Hrun. cbn zeta. unfold tbx_index in Hrun.
  destruct (if 0 <? min_shift then _ else _) as [[fmt ms] n_lvls].
  destruct (index_loop sv push fuel fmt ms fp _) as [| |[st ret]] eqn:El;
    [done|done|].
  apply index_loop_spec with (ds := []) in El; [|done|apply numbers_empty].
  cbn zeta in El. cbn [i_tbx conf i_lineno i_records] in El.
  destruct El as (Hcf & Hnum & new & Hrec & Hlen & Hall).
  destruct (ret <? -1); [done|]. injection Hrun as <-.
  cbn [bt_tbx bt_records bt_meta conf]. cbn in Hrec. subst new.
  fold (distinct (line_names cf (data_lines cf 0 (read_lines fp)))) in *.
  split; [done|]. split; [done|]. split.
  { intros i l Hl. destruct (Hall i l Hl) as (k & b & e & H1 & H2 & H3).
    exists k, b, e. split; [done|]. split; [|done].
    by apply index_of_lookup. }
  split.
  { intros x. rewrite Hcf. by apply get_tid_lookup. }
  unfold tbx_set_meta. cbn [dict conf].
  by rewrite (name_table_numbers (fun z => z) _ _ (fun z _ => eq_refl) Hnum).
Qed.

Theorem tbx_index_built fuel fp min_shift cf rep lg bt :
  fmt_tag cf <> TBX_GAF ->
  tbx_index sv push fuel fp min_shift cf rep lg = Built bt ->
  let data := data_lines cf 0 (read_lines fp) in
  let names := distinct (line_names cf data) in
  conf (bt_tbx bt) = cf
  /\ length (bt_records bt) = length data
  /\ (forall i l, data !! i = Some l ->
        exists k b e, bt_records bt !! i = Some (Z.of_nat k, b, e)
          /\ names !! k = Some (column l (Z.to_nat (sc cf)))
          /\ 0 <= b /\ 0 <= e)
  /\ (forall x, fst (tbx_name2id (bt_tbx bt) x)
                = default (-1) (Z.of_nat <$> index_of x names))
  /\ is_Some (bt_meta bt).
Proof. apply tbx_index_spec. Qed.

End IndexProps.

Section IndexChecks.

Variable sv : list Z -> bool.
Variable push : list (Z * Z * Z) -> Z * Z * Z -> bool.

Lemma get_tid_conf tbx x is_add : conf (snd (get_tid tbx x is_add)) = conf tbx.
Proof.
  unfold get_tid. destruct (fmt_tag (conf tbx) =? TBX_GAF); [done|].
  destruct is_add; [|done]. by destruct (default ∅ (dict tbx) !! x).
Qed.

(** The loop of [tbx_index] is left without a failure only by the read
    that ends it, after every data line has been parsed and every
    record has been accepted by [hts_idx_push]. *)
Lemma index_loop_checked fuel fmt ms fp : forall st st' ret,
  index_loop sv push fuel fmt ms fp st = Built (st', ret) ->
  let cf := conf (i_tbx st) in
  let data := data_lines cf (i_lineno st) (read_lines fp) in
  ret = read_end fp
  /\ conf (i_tbx st') = cf
  /\ (forall l, l ∈ data ->
        exists rep lg, fst (tbx_parse1 sv cf (length l) l rep lg) = 0)
  /\ exists new, i_records st' = i_records st ++ new
     /\ length new = length data
     /\ (fmt_tag cf = TBX_GAF -> forall r, r ∈ new -> fst (fst r) = 0)
     /\ forall i r, new !! i = Some r ->
          push (i_records st ++ take i new) r = true.
Proof.
  induction fp as [|[r l] fp' IH]; intros st st' ret Hrun; cbn zeta.
  - cbn in Hrun. injection Hrun as <- <-. cbn.
    split; [done|]. split; [done|].
    split; [by intros l0 H0%elem_of_nil|].
    exists []. rewrite app_nil_r. split; [done|]. split; [done|].
    split; [by intros _ r0 H0%elem_of_nil|]. by intros i r0.
  - cbn [index_loop] in Hrun. cbn [read_lines read_end].
    destruct (r <? 0) eqn:Er.
    { injection Hrun as <- <-. cbn.
      split; [done|]. split; [done|].
      split; [by intros l0 H0%elem_of_nil|].
      exists []. rewrite app_nil_r. split; [done|]. split; [done|].
      split; [by intros _ r0 H0%elem_of_nil|]. by intros i r0. }
    cbn zeta in Hrun. cbn [data_lines]. cbn zeta.
    destruct ((wrap64 (i_lineno st + 1) <=? line_skip (conf (i_tbx st)))
              || (rd l 0 =? meta_char (conf (i_tbx st)))) eqn:Eskip.
    { apply IH in Hrun. exact Hrun. }
    destruct (match i_idx st with
              | Some x => Some x
              | None => match fmt with
                        | HTS_FMT_CSI => _
                        | HTS_FMT_TBI => _
                        end
              end) as [x|]; [|done].
    pose proof (get_intv_spec sv (i_tbx st) (length l) l (i_rep st) (i_log st)
                  0 true) as Hg.
    cbn zeta in Hg.
    destruct (get_intv sv (i_tbx st) (length l) l (i_rep st) (i_log st) 0 true)
      as [[[g tid] v] tbx'] eqn:Eg.
    cbn [fst snd] in Hg. destruct Hg as (_ & Hbad & Hgood).
    destruct (Z.ltb_spec g 0) as [|Hg0]; [done|].
    destruct (Z.eq_dec (fst (tbx_parse1 sv (conf (i_tbx st)) (length l) l
                               (i_rep st) (i_log st))) 0) as [Hp|Hp].
    2:{ specialize (Hbad Hp). injection Hbad as -> _ _ _. lia. }
    destruct (Hgood Hp eq_refl) as (_ & Htid & Htbx & _).
    destruct (push (i_records st) (tid, beg v, end_ v)) eqn:Epush; [|done].
    assert (Hcf' : conf tbx' = conf (i_tbx st)).
    { rewrite Htbx. destruct (fmt_tag (conf (i_tbx st)) =? TBX_GAF); [done|].
      apply get_tid_conf. }
    apply IH in Hrun. cbn zeta in Hrun.
    cbn [i_tbx i_lineno i_records] in Hrun. rewrite Hcf' in Hrun.
    destruct Hrun as (Hret & Hcf & Hparse & new & Hrec & Hlen & Hgaf & Hall).
    split; [done|]. split; [done|]. split.
    { intros l0 [->|H0]%elem_of_cons; [|by apply Hparse].
      by exists (i_rep st), (i_log st). }
    exists ((tid, beg v, end_ v) :: new).
    split; [by rewrite Hrec, <- app_assoc|].
    split; [by cbn; rewrite Hlen|]. split.
    { intros Hfmt r0 [->|H0]%elem_of_cons; [|by apply Hgaf].
      cbn. rewrite Htid. by rewrite (proj2 (Z.eqb_eq _ _) Hfmt). }
    intros [|i] r0 Hr0; cbn in Hr0.
    + injection Hr0 as <-. by rewrite take_0, app_nil_r.
    + apply Hall in Hr0. cbn [take]. by rewrite <- app_assoc in Hr0.
Qed.

Lemma tbx_index_checked_spec fuel fp min_shift cf rep lg bt :
  tbx_index sv push fuel fp min_shift cf rep lg = Built bt ->
  let data := data_lines cf 0 (read_lines fp) in
  read_end fp = -1
  /\ length (bt_records bt) = length data
  /\ (forall l, l ∈ data ->
        exists rep' lg', fst (tbx_parse1 sv cf (length l) l rep' lg') = 0)
  /\ (forall i r, bt_records bt !! i = Some r ->
        push (take i (bt_records bt)) r = true)
  /\ (fmt_tag cf = TBX_GAF -> forall r, r ∈ bt_records bt -> fst (fst r) = 0).
Proof.
  intros Hrun. cbn zeta. unfold tbx_index in Hrun.
  destruct (if 0 <? min_shift then _ else _) as [[fmt ms] n_lvls].
  destruct (index_loop sv push fuel fmt ms fp _) as [| |[st ret]] eqn:El;
    [done|done|].
  apply index_loop_checked in El.
  cbn zeta in El. cbn [i_tbx conf i_lineno i_records] in El.
  destruct El as (Hret & Hcf & Hparse & new & Hrec & Hlen & Hgaf & Hall).
  destruct (Z.ltb_spec ret (-1)) as [|Hge]; [done|]. injection Hrun as <-.
  cbn [bt_records]. cbn in Hrec. subst new.
  split.
  { assert (Hneg : forall s, read_end s < 0).
    { induction s as [|[a b] s IHs]; cbn; [lia|].
      destruct (Z.ltb_spec a 0); lia. }
    specialize (Hneg fp). lia. }
  split; [done|]. split; [done|]. split; [|done].
  intros i r Hr. by apply Hall.
Qed.

(** What [tbx_index] never does.  It returns an index only when the
    reading ended at the end of the file and not with an error, every
    data line could be parsed, and [hts_idx_push] accepted every record,
    each one after those before it; there is one record for each data
    line, and under the GAF preset every record has tid [0]. *)
Theorem tbx_index_checked fuel fp min_shift cf rep lg bt :
  tbx_index sv push fuel fp min_shift cf rep lg = Built bt ->
  let data := data_lines cf 0 (read_lines fp) in
  read_end fp = -1
  /\ length (bt_records bt) = length data
  /\ (forall l, l ∈ data ->
        exists rep' lg', fst (tbx_parse1 sv cf (length l) l rep' lg') = 0)
  /\ (forall i r, bt_records bt !! i = Some r ->
        push (take i (bt_records bt)) r = true)
  /\ (fmt_tag cf = TBX_GAF -> forall r, r ∈ bt_records bt -> fst (fst r) = 0).
Proof. apply tbx_index_checked_spec. Qed.

(** The arguments of [hts_idx_init] in the loop: they are fixed at the
    first data line, from the header lines before it. *)
Lemma index_loop_idx fuel fmt ms fp : forall st st' ret,
  index_loop sv push fuel fmt ms fp st = Built (st', ret) ->
  let cf := conf (i_tbx st) in
  i_idx st' =
    match i_idx st with
    | Some x => Some x
    | None =>
        match data_lines cf (i_lineno st) (read_lines fp) with
        | [] => None
        | _ :: _ =>
            match fmt with
            | HTS_FMT_CSI =>
                tbx_index_levels fuel ms
                  (foldl (header_ref_len cf) (i_max_ref_len st)
                     (header_lines cf (i_lineno st) (read_lines fp)))
            | HTS_FMT_TBI => Some (HTS_FMT_TBI, ms, 5)
            end
        end
    end
  /\ (data_lines cf (i_lineno st) (read_lines fp) <> [] -> is_Some (i_idx st')).
Proof.
  induction fp as [|[r l] fp' IH]; intros st st' ret Hrun; cbn zeta.
  - cbn in Hrun. injection Hrun as <- <-. cbn. split; [|done].
    by destruct (i_idx st).
  - cbn [index_loop] in Hrun. cbn [read_lines].
    destruct (r <? 0) eqn:Er.
    { injection Hrun as <- <-. cbn. split; [|done]. by destruct (i_idx st). }
    cbn zeta in Hrun. cbn [data_lines header_lines]. cbn zeta.
    destruct ((wrap64 (i_lineno st + 1) <=? line_skip (conf (i_tbx st)))
              || (rd l 0 =? meta_char (conf (i_tbx st)))) eqn:Eskip.
    { apply IH in Hrun. cbn zeta in Hrun.
      cbn [i_tbx i_idx i_lineno i_max_ref_len] in Hrun.
      destruct Hrun as [Hrun Hsome]. split; [|done].
      rewrite Hrun. destruct (i_idx st); [done|].
      destruct (data_lines _ _ _); [done|].
      destruct fmt; [|done]. cbn [foldl]. f_equal. f_equal.
      unfold header_ref_len. rewrite andb_true_r.
      by destruct (rd l 0 =? meta_char (conf (i_tbx st))). }
    set (idx := match i_idx st with
                | Some x => Some x
                | None => match fmt with
                          | HTS_FMT_CSI => _
                          | HTS_FMT_TBI => _
                          end
                end) in *.
    destruct idx as [x|] eqn:Eidx; [|done].
    destruct (get_intv sv (i_tbx st) (length l) l (i_rep st) (i_log st) 0 true)
      as [[[g tid] v] tbx'] eqn:Eg.
    destruct (g <? 0); [done|].
    destruct (push (i_records st) (tid, beg v, end_ v)); [|done].
    apply IH in Hrun. cbn zeta in Hrun. cbn [i_idx] in Hrun.
    destruct Hrun as [Hrun _]. rewrite Hrun. split; [|by intros _; eexists].
    subst idx. destruct (i_idx st); [done|].
    destruct fmt; [|done]. cbn [foldl]. rewrite <- Eidx.
    apply orb_false_iff in Eskip as [_ ->]. done.
Qed.

Lemma tbx_index_shape_spec fuel fp min_shift cf rep lg bt :
  tbx_index sv push fuel fp min_shift cf rep lg = Built bt ->
  let lines := read_lines fp in
  Some (bt_idx bt) =
    if 0 <? min_shift then
      match data_lines cf 0 lines with
      | [] =>
          Some (HTS_FMT_CSI, min_shift,
                Z.quot (TBX_MAX_SHIFT - min_shift + 2) 3)
      | _ :: _ =>
          tbx_index_levels fuel min_shift
            (foldl (header_ref_len cf) 0 (header_lines cf 0 lines))
      end
    else Some (HTS_FMT_TBI, 14, 5).
Proof.
  intros Hrun. cbn zeta. unfold tbx_index in Hrun.
  destruct (0 <? min_shift) eqn:Ems.
  - destruct (index_loop sv push fuel HTS_FMT_CSI min_shift fp _)
      as [| |[st ret]] eqn:El; [done|done|].
    apply index_loop_idx in El. cbn zeta in El.
    cbn [i_tbx conf i_idx i_lineno i_max_ref_len] in El.
    destruct El as [El Hsome].
    destruct (ret <? -1); [done|]. injection Hrun as <-. cbn [bt_idx].
    destruct (data_lines cf 0 (read_lines fp)); [by rewrite El|].
    destruct Hsome as [x Hx]; [done|]. rewrite <- El, Hx. done.
  - destruct (index_loop sv push fuel HTS_FMT_TBI 14 fp _)
      as [| |[st ret]] eqn:El; [done|done|].
    apply index_loop_idx in El. cbn zeta in El.
    cbn [i_tbx conf i_idx i_lineno i_max_ref_len] in El.
    destruct El as [El Hsome].
    destruct (ret <? -1); [done|]. injection Hrun as <-. cbn [bt_idx].
    destruct (data_lines cf 0 (read_lines fp)); [by rewrite El|].
    destruct Hsome as [x Hx]; [done|]. rewrite <- El, Hx. done.
Qed.

(** The shape of the index.  When [tbx_index] returns an index, the
    arguments it gave to [hts_idx_init] are: for a [min_shift] that is
    not positive, the TBI format with [min_shift] 14 and 5 levels,
    whatever the header says; for a positive [min_shift], the CSI format
    with this [min_shift] and the number of levels that fits the longest
    reference length read from the header lines before the first data
    line (header lines after it are not used), or, in a file without
    data lines, the number of levels of the default. *)
Theorem tbx_index_shape fuel fp min_shift cf rep lg bt :
  tbx_index sv push fuel fp min_shift cf rep lg = Built bt ->
  let lines := read_lines fp in
  Some (bt_idx bt) =
    if 0 <? min_shift then
      match data_lines cf 0 lines with
      | [] =>
          Some (HTS_FMT_CSI, min_shift,
                Z.quot (TBX_MAX_SHIFT - min_shift + 2) 3)
      | _ :: _ =>
          tbx_index_levels fuel min_shift
            (foldl (header_ref_len cf) 0 (header_lines cf 0 lines))
      end
    else Some (HTS_FMT_TBI, 14, 5).
Proof. apply tbx_index_shape_spec. Qed.

End IndexChecks.

Lemma tbx_index_built_witness :
  exists bt,
    tbx_index symbolic_alt accept_all 64 vcf_file 0 tbx_conf_vcf false []
    = Built bt
    /\ bt_records bt = [(0, 99, 100); (1, 4, 5); (0, 299, 300)]
    /\ fst (tbx_name2id (bt_tbx bt) (lit "chr2")) = 1.
Proof.
  destruct (tbx_index symbolic_alt accept_all 64 vcf_file 0 tbx_conf_vcf
              false []) as [| |bt] eqn:E;
    [vm_compute in E; discriminate E..|].
  exists bt. split; [reflexivity|].
  assert (Hgaf : fmt_tag tbx_conf_vcf <> TBX_GAF) by (vm_compute; discriminate).
  destruct (tbx_index_built symbolic_alt accept_all 64 vcf_file 0
              tbx_conf_vcf false [] bt Hgaf E) as (_ & _ & _ & Hname & _).
  split; [|exact (Hname (lit "chr2"))].
  vm_compute in E. injection E as <-. reflexivity.
Defined.

Lemma tbx_index_checked_witness :
  exists bt,
    tbx_index symbolic_alt accept_all 64 vcf_file 0 tbx_conf_vcf false []
    = Built bt
    /\ read_end vcf_file = -1
    /\ length (bt_records bt) = 3%nat.
Proof.
  destruct (tbx_index symbolic_alt accept_all 64 vcf_file 0 tbx_conf_vcf
              false []) as [| |bt] eqn:E;
    [vm_compute in E; discriminate E..|].
  exists bt. split; [reflexivity|].
  destruct (tbx_index_checked symbolic_alt accept_all 64 vcf_file 0
              tbx_conf_vcf false [] bt E) as (Hend & Hlen & _).
  split; [exact Hend|exact Hlen].
Defined.

Lemma tbx_index_shape_witness :
  exists bt,
    tbx_index symbolic_alt accept_all 64 vcf_file 14 tbx_conf_vcf false []
    = Built bt
    /\ Some (bt_idx bt) = tbx_index_levels 64 14 1000.
Proof.
  destruct (tbx_index symbolic_alt accept_all 64 vcf_file 14 tbx_conf_vcf
              false []) as [| |bt] eqn:E;
    [vm_compute in E; discriminate E..|].
  exists bt. split; [reflexivity|].
  exact (tbx_index_shape symbolic_alt accept_all 64 vcf_file 14
           tbx_conf_vcf false [] bt E).
Defined.

(** ** The reference lengths of header lines *)

Lemma starts_with_prefix s : forall l,
  starts_with s l = true <-> exists r, l = s ++ r.
Proof.
  induction s as [|a s IH]; intros l; simpl.
  - split; [by exists l|done].
  - destruct l as [|x l]; [split; [done|by intros [r Hr]]|].
    rewrite andb_true_iff, Z.eqb_eq, IH. split.
    + intros [-> [r ->]]. by exists r.
    + intros [r [= -> ->]]. split; [done|by exists r].
Qed.

(** [strstr] finds the first occurrence. *)
Lemma find_str_first s : forall l k,
  s <> [] -> (0 ∉ take k l) -> (exists r, drop k l = s ++ r) ->
  absent_before s l k -> find_str s l = Some k.
Proof.
  intros l k Hs. revert k. induction l as [|x l IH]; intros k Hnul [r Hr] Hno.
  - rewrite drop_nil in Hr. by destruct s.
  - cbn [find_str]. destruct (starts_with s (x :: l)) eqn:E.
    + apply starts_with_prefix in E as [r' Hr'].
      destruct k as [|k]; [done|]. exfalso. apply (Hno O r'); [lia|done].
    + destruct k as [|k].
      { exfalso. apply not_true_iff_false in E. apply E.
        apply starts_with_prefix. by exists r. }
      cbn [take] in Hnul. apply not_elem_of_cons in Hnul as [Hx Hnul].
      rewrite (proj2 (Z.eqb_neq _ _) (not_eq_sym Hx)).
      rewrite (IH k); [done|done|by exists r|].
      intros j r' Hj. apply (Hno (S j) r'). lia.
Qed.

Lemma isdigit_digit_val c :
  isdigit_c c = true -> digit_val c = Some (c - 48) /\ 0 <= c - 48 < 10.
Proof.
  unfold isdigit_c, digit_val. intros H. rewrite H.
  apply andb_true_iff in H as [H1%Z.leb_le H2%Z.leb_le]. split; [done|lia].
Qed.

Lemma not_isdigit_digit_val c :
  isdigit_c c = false -> is_digit 10 c = false.
Proof.
  unfold isdigit_c, is_digit, digit_val. intros ->.
  destruct ((97 <=? c) && (c <=? 122)) eqn:E1.
  { apply andb_true_iff in E1 as [H1%Z.leb_le H2%Z.leb_le].
    apply Z.ltb_ge. lia. }
  destruct ((65 <=? c) && (c <=? 90)) eqn:E2; [|done].
  apply andb_true_iff in E2 as [H1%Z.leb_le H2%Z.leb_le]. apply Z.ltb_ge. lia.
Qed.

Lemma read_digits_decimal num rest : forall acc,
  Forall (fun c => isdigit_c c = true) num ->
  (forall c, head rest = Some c -> isdigit_c c = false) ->
  read_digits 10 acc (num ++ rest)
  = (foldl (fun acc c => acc * 10 + (c - 48)) acc num, length num).
Proof.
  intros acc Hnum Hrest. revert acc.
  induction Hnum as [|c num Hc Hnum IH]; intros acc; simpl.
  - destruct rest as [|c r]; [done|]. simpl.
    pose proof (not_isdigit_digit_val c (Hrest c eq_refl)) as H.
    unfold is_digit in H. destruct (digit_val c); [|done]. by rewrite H.
  - destruct (isdigit_digit_val c Hc) as [-> Hd].
    destruct (Z.ltb_spec (c - 48) 10); [|lia]. by rewrite IH.
Qed.

(** [strtoll] in base 10 on a text of decimal digits that no digit
    follows. *)
Lemma strtoll_list_decimal num rest :
  num <> [] -> Forall (fun c => isdigit_c c = true) num ->
  (forall c, head rest = Some c -> isdigit_c c = false) ->
  strtoll_list (num ++ rest) 10 = (clamp64 (decimal num), length num).
Proof.
  intros Hne Hnum Hrest. destruct num as [|c num]; [done|].
  pose proof (Forall_inv Hnum) as Hc.
  assert (Hsp : isspace c = false).
  { unfold isdigit_c in Hc.
    apply andb_true_iff in Hc as [H1%Z.leb_le H2%Z.leb_le].
    unfold isspace. apply orb_false_iff. split; [apply Z.eqb_neq; lia|].
    apply andb_false_iff. right. apply Z.leb_gt. lia. }
  unfold strtoll_list. cbn [app skip_space]. rewrite Hsp. cbn [drop].
  assert (Hsign : read_sign (c :: num ++ rest) = (false, O)).
  { unfold isdigit_c in Hc.
    apply andb_true_iff in Hc as [H1%Z.leb_le H2%Z.leb_le].
    unfold read_sign. destruct c as [|p|p]; try done.
    do 6 (destruct p as [p|p|]; try done); lia. }
  rewrite Hsign. cbn [drop].
  change (read_base 10 (c :: num ++ rest)) with
    (let hex := match c :: num ++ rest with
                | 48 :: x :: h :: _ => ((x =? 120) || (x =? 88)) && is_digit 16 h
                | _ => false
                end in (10, O)).
  cbn zeta. cbn [drop].
  change (c :: num ++ rest) with ((c :: num) ++ rest).
  by rewrite read_digits_decimal.
Qed.

Lemma skip_eq_app eqs l :
  Forall (fun c => c = 32 \/ c = 61) eqs ->
  (forall c, head l = Some c -> c <> 32 /\ c <> 61) ->
  skip_eq (eqs ++ l) = length eqs.
Proof.
  intros He Hl. induction He as [|c eqs Hc He IH]; simpl.
  - destruct l as [|c l]; [done|]. simpl.
    destruct (Hl c eq_refl) as [H1 H2].
    by rewrite (proj2 (Z.eqb_neq _ _) H1), (proj2 (Z.eqb_neq _ _) H2).
  - rewrite IH. by destruct Hc as [-> | ->].
Qed.

(** The number after the first [tag] of a line that starts with [pre]. *)
Lemma header_number pre tag mid num rest :
  tag <> [] -> (0 ∉ mid) ->
  absent_before tag (mid ++ tag ++ num ++ rest) (length mid) ->
  num <> [] -> Forall (fun c => isdigit_c c = true) num ->
  (forall c, head rest = Some c -> isdigit_c c = false) ->
  let str := pre ++ mid ++ tag ++ num ++ rest in
  starts_with pre str = true
  /\ strstr str (length pre) tag = Some (length pre + length mid)%nat
  /\ fst (strtoll str (length pre + length mid + length tag) 10)
     = clamp64 (decimal num).
Proof.
  intros Htag Hmid Hfirst Hne Hnum Hrest. cbn zeta.
  split; [apply starts_with_prefix; by eexists|].
  split.
  - unfold strstr. rewrite drop_app_length.
    rewrite (find_str_first _ _ (length mid)); [done|done| | |done].
    + by rewrite take_app_length.
    + rewrite drop_app_length. by eexists.
  - unfold strtoll.
    replace (length pre + length mid + length tag)%nat
      with (length (pre ++ mid ++ tag)) by (rewrite !length_app; lia).
    replace (pre ++ mid ++ tag ++ num ++ rest)
      with ((pre ++ mid ++ tag) ++ num ++ rest) by (by rewrite <- !app_assoc).
    by rewrite drop_app_length, strtoll_list_decimal.
Qed.

Lemma sam_header_length_spec mid num rest m :
  (0 ∉ mid) ->
  absent_before (TAB :: lit "LN:") (mid ++ (TAB :: lit "LN:") ++ num ++ rest)
    (length mid) ->
  num <> [] -> Forall (fun c => isdigit_c c = true) num ->
  (forall c, head rest = Some c -> isdigit_c c = false) ->
  adjust_max_ref_len_sam
    (lit "@SQ" ++ mid ++ (TAB :: lit "LN:") ++ num ++ rest) m
  = Z.max m (clamp64 (decimal num)).
Proof.
  intros Hmid Hfirst Hne Hnum Hrest. unfold adjust_max_ref_len_sam.
  destruct (header_number (lit "@SQ") (TAB :: lit "LN:") mid num rest)
    as (-> & Hs & Hn); try done.
  change (length (lit "@SQ")) with 3%nat in *.
  change (length (TAB :: lit "LN:")) with 4%nat in *.
  rewrite Hs. cbv zeta. rewrite Hn.
  destruct (Z.ltb_spec m (clamp64 (decimal num))); lia.
Qed.

(** Reading an [@SQ] line.  For a line that starts with [@SQ] and whose
    first [LN:] after a tab is followed by decimal digits,
    [adjust_max_ref_len_sam] raises the maximum to the number these
    digits write, capped at the largest [long long]. *)
Theorem sam_header_length mid num rest m :
  (0 ∉ mid) ->
  absent_before (TAB :: lit "LN:") (mid ++ (TAB :: lit "LN:") ++ num ++ rest)
    (length mid) ->
  num <> [] -> Forall (fun c => isdigit_c c = true) num ->
  (forall c, head rest = Some c -> isdigit_c c = false) ->
  adjust_max_ref_len_sam
    (lit "@SQ" ++ mid ++ (TAB :: lit "LN:") ++ num ++ rest) m
  = Z.max m (clamp64 (decimal num)).
Proof. apply sam_header_length_spec. Qed.

Lemma vcf_header_length_spec mid eqs num rest m :
  (0 ∉ mid) ->
  absent_before (lit "length") (mid ++ lit "length" ++ eqs ++ num ++ rest)
    (length mid) ->
  Forall (fun c => c = 32 \/ c = 61) eqs ->
  num <> [] -> Forall (fun c => isdigit_c c = true) num ->
  (forall c, head rest = Some c -> isdigit_c c = false) ->
  adjust_max_ref_len_vcf
    (lit "##contig" ++ mid ++ lit "length" ++ eqs ++ num ++ rest) m
  = Z.max m (clamp64 (decimal num)).
Proof.
  intros Hmid Hfirst Heqs Hne Hnum Hrest. unfold adjust_max_ref_len_vcf.
  set (str := lit "##contig" ++ mid ++ lit "length" ++ eqs ++ num ++ rest).
  assert (Hst : starts_with (lit "##contig") str = true)
    by (apply starts_with_prefix; by eexists).
  rewrite Hst.
  assert (Hs : strstr str 8 (lit "length") = Some (8 + length mid)%nat).
  { unfold strstr, str.
    change (drop 8 (lit "##contig" ++ ?l)) with l.
    rewrite (find_str_first _ _ (length mid)); [done|done| | |done].
    + by rewrite take_app_length.
    + rewrite drop_app_length. by eexists. }
  rewrite Hs. cbv zeta.
  assert (Hd : drop (8 + length mid + 6) str = eqs ++ num ++ rest).
  { unfold str.
    replace (8 + length mid + 6)%nat
      with (length (lit "##contig" ++ mid ++ lit "length"))
      by (rewrite !length_app; change (length (lit "##contig")) with 8%nat;
          change (length (lit "length")) with 6%nat; lia).
    replace (lit "##contig" ++ mid ++ lit "length" ++ eqs ++ num ++ rest)
      with ((lit "##contig" ++ mid ++ lit "length") ++ eqs ++ num ++ rest)
      by (by rewrite <- !app_assoc).
    by rewrite drop_app_length. }
  rewrite Hd, skip_eq_app; [|done|].
  2:{ destruct num as [|c num]; [done|]. intros c' [= <-].
      pose proof (Forall_inv Hnum) as Hc. unfold isdigit_c in Hc.
      apply andb_true_iff in Hc as [H1%Z.leb_le H2%Z.leb_le]. lia. }
  unfold strtoll. rewrite <- drop_drop, Hd, drop_app_length.
  rewrite strtoll_list_decimal by done. cbn [fst].
  destruct (Z.ltb_spec m (clamp64 (decimal num))); lia.
Qed.

(** Reading a [##contig] line.  For a line that starts with [##contig]
    and whose first [length] is followed by equals signs or blanks and
    then by decimal digits, [adjust_max_ref_len_vcf] raises the maximum
    to the number these digits write, capped at the largest
    [long long]. *)
Theorem vcf_header_length mid eqs num rest m :
  (0 ∉ mid) ->
  absent_before (lit "length") (mid ++ lit "length" ++ eqs ++ num ++ rest)
    (length mid) ->
  Forall (fun c => c = 32 \/ c = 61) eqs ->
  num <> [] -> Forall (fun c => isdigit_c c = true) num ->
  (forall c, head rest = Some c -> isdigit_c c = false) ->
  adjust_max_ref_len_vcf
    (lit "##contig" ++ mid ++ lit "length" ++ eqs ++ num ++ rest) m
  = Z.max m (clamp64 (decimal num)).
Proof. apply vcf_header_length_spec. Qed.

Lemma sam_header_length_witness :
  adjust_max_ref_len_sam (tabbed "@SQ|SN:chr1|LN:1000") 0 = 1000.
Proof.
  refine (sam_header_length (tabbed "|SN:chr1") (lit "1000") [] 0 _ _ _ _ _).
  - intros H. apply list_elem_of_In in H. vm_compute in H.
    intuition discriminate.
  - intros j r Hj.
    do 8 (destruct j as [|j]; [vm_compute; discriminate|]).
    vm_compute in Hj. lia.
  - discriminate.
  - repeat constructor.
  - intros c H. discriminate H.
Defined.

Lemma vcf_header_length_witness :
  adjust_max_ref_len_vcf (lit "##contig=<ID=chr1,length=1000>") 0 = 1000.
Proof.
  refine (vcf_header_length (lit "=<ID=chr1,") (lit "=") (lit "1000")
            (lit ">") 0 _ _ _ _ _ _).
  - intros H. apply list_elem_of_In in H. vm_compute in H.
    intuition discriminate.
  - intros j r Hj.
    do 10 (destruct j as [|j]; [vm_compute; discriminate|]).
    vm_compute in Hj. lia.
  - constructor; [by right|constructor].
  - discriminate.
  - repeat constructor.
  - intros c [= <-]. reflexivity.
Defined.

Section IndexReload.

Variable sv : list Z -> bool.
Variable push : list (Z * Z * Z) -> Z * Z * Z -> bool.

Lemma tbx_index_numbers fuel fp min_shift cf rep lg bt :
  fmt_tag cf <> TBX_GAF ->
  tbx_index sv push fuel fp min_shift cf rep lg = Built bt ->
  exists d, bt_tbx bt = mk_tbx cf (Some d)
    /\ numbers d (distinct (line_names cf (data_lines cf 0 (read_lines fp))))
    /\ bt_meta bt = tbx_set_meta (bt_tbx bt).
Proof.
  intros Hgaf Hrun. unfold tbx_index in Hrun.
  destruct (if 0 <? min_shift then _ else _) as [[fmt ms] n_lvls].
  destruct (index_loop sv push fuel fmt ms fp _) as [| |[st ret]] eqn:El;
    [done|done|].
  apply index_loop_spec with (ds := []) in El; [|done|apply numbers_empty].
  cbn zeta in El. cbn [i_tbx conf i_lineno i_records] in El.
  destruct El as (Hcf & Hnum & _).
  destruct (ret <? -1); [done|]. injection Hrun as <-.
  cbn [bt_tbx bt_meta]. rewrite Hcf. by eexists.
Qed.

Lemma names_bytes_length ds : (length ds <= length (names_bytes ds))%nat.
Proof.
  unfold names_bytes. induction ds as [|x ds IH]; [done|].
  cbn. rewrite !length_app. cbn. lia.
Qed.

Lemma tbx_index_reload_spec fuel fp min_shift cf rep lg bt :
  fmt_tag cf <> TBX_GAF ->
  Forall (fun z => - 2 ^ 31 <= z < 2 ^ 31)
    [preset cf; sc cf; bc cf; ec cf; meta_char cf; line_skip cf] ->
  tbx_index sv push fuel fp min_shift cf rep lg = Built bt ->
  let data := data_lines cf 0 (read_lines fp) in
  let names := distinct (line_names cf data) in
  data <> [] ->
  Z.of_nat (length (names_bytes names)) < 2 ^ 31 ->
  exists meta,
    bt_meta bt = Some meta
    /\ index_load meta = Some (bt_tbx bt)
    /\ tbx_seqnames (bt_tbx bt) = Some (Z.of_nat (length names), names).
Proof.
  intros Hgaf Hcf Hrun. cbn zeta. intros Hdata Hlen.
  destruct (tbx_index_numbers _ _ _ _ _ _ _ Hgaf Hrun) as (d & -> & Hnum & ->).
  set (names := distinct _) in *.
  destruct (set_meta_load_numbers cf d names) as (meta & Hm & Hl);
    try done.
  - apply Forall_forall. intros x Hx.
    apply distinct_from_subset in Hx as [Hx|Hx];
      [by apply elem_of_nil in Hx|].
    unfold line_names in Hx. apply list_elem_of_fmap in Hx as (l & -> & _).
    apply column_no_nul.
  - subst names.
    destruct (data_lines cf 0 (read_lines fp)) as [|l data]; [done|].
    assert (Hi : index_of (column l (Z.to_nat (sc cf)))
                   (distinct (line_names cf (l :: data))) = Some O).
    { unfold distinct, line_names. cbn [fmap list_fmap distinct_from].
      rewrite decide_False by apply not_elem_of_nil.
      apply distinct_from_index. cbn. by rewrite decide_True. }
    intros E. by rewrite E in Hi.
  - exists meta. split; [done|]. split; [done|].
    apply seqnames_numbers; [done|].
    pose proof (names_bytes_length names). lia.
Qed.

(** An index that is built and loaded again.  Under any preset but
    GAF, for a configuration of 32 bit integers and a file with at least
    one data line whose names block is shorter than [2^31] bytes: the
    header that [tbx_index] writes is read back by [index_load] into
    the configuration and the dictionary of the index built, and
    [tbx_seqnames] lists the distinct sequence names of the data lines
    in the order of their first appearance. *)
Theorem tbx_index_reload fuel fp min_shift cf rep lg bt :
  fmt_tag cf <> TBX_GAF ->
  Forall (fun z => - 2 ^ 31 <= z < 2 ^ 31)
    [preset cf; sc cf; bc cf; ec cf; meta_char cf; line_skip cf] ->
  tbx_index sv push fuel fp min_shift cf rep lg = Built bt ->
  let data := data_lines cf 0 (read_lines fp) in
  let names := distinct (line_names cf data) in
  data <> [] ->
  Z.of_nat (length (names_bytes names)) < 2 ^ 31 ->
  exists meta,
    bt_meta bt = Some meta
    /\ index_load meta = Some (bt_tbx bt)
    /\ tbx_seqnames (bt_tbx bt) = Some (Z.of_nat (length names), names).
Proof. apply tbx_index_reload_spec. Qed.

End IndexReload.

Lemma tbx_index_reload_witness :
  exists bt meta,
    tbx_index symbolic_alt accept_all 64 vcf_file 0 tbx_conf_vcf false []
    = Built bt
    /\ bt_meta bt = Some meta
    /\ index_load meta = Some (bt_tbx bt)
    /\ tbx_seqnames (bt_tbx bt) = Some (2, [lit "chr1"; lit "chr2"]).
Proof.
  destruct (tbx_index symbolic_alt accept_all 64 vcf_file 0 tbx_conf_vcf
              false []) as [| |bt] eqn:E;
    [vm_compute in E; discriminate E..|].
  assert (Hgaf : fmt_tag tbx_conf_vcf <> TBX_GAF) by (vm_compute; discriminate).
  assert (Hcf : Forall (fun z => - 2 ^ 31 <= z < 2 ^ 31)
                  [preset tbx_conf_vcf; sc tbx_conf_vcf; bc tbx_conf_vcf;
                   ec tbx_conf_vcf; meta_char tbx_conf_vcf;
                   line_skip tbx_conf_vcf])
    by (repeat constructor; by vm_compute).
  destruct (tbx_index_reload symbolic_alt accept_all 64 vcf_file 0
              tbx_conf_vcf false [] bt Hgaf Hcf E)
    as (meta & Hm & Hl & Hs).
  - vm_compute. discriminate.
  - by vm_compute.
  - exists bt, meta. split; [reflexivity|]. split; [exact Hm|].
    split; [exact Hl|exact Hs].
Defined.

(** ** Where [hts_parse_region] stops *)

Section RegionNext.

Variable getid : list Z -> Z.
Variable hts_parse_decimal : list Z -> Z -> Z * nat.

(** The adjustment of the flags leaves [HTS_PARSE_LIST] as it is. *)
Lemma list_flag_kept flags :
  has_flag (if has_flag flags HTS_PARSE_LIST
            then Z.land flags (Z.lnot HTS_PARSE_THOUSANDS_SEP)
            else Z.lor flags HTS_PARSE_THOUSANDS_SEP) HTS_PARSE_LIST
  = has_flag flags HTS_PARSE_LIST.
Proof.
  destruct (has_flag flags HTS_PARSE_LIST) eqn:E; unfold has_flag in *.
  - rewrite <- Z.land_assoc.
    change (Z.land (Z.lnot HTS_PARSE_THOUSANDS_SEP) HTS_PARSE_LIST)
      with HTS_PARSE_LIST. exact E.
  - rewrite Z.land_lor_distr_l.
    change (Z.land HTS_PARSE_THOUSANDS_SEP HTS_PARSE_LIST) with 0.
    by rewrite Z.lor_0_r.
Qed.

Lemma parse_region_next_spec s0 beg0 end0 flags p :
  r_ret (hts_parse_region getid hts_parse_decimal s0 beg0 end0 flags)
  = Some p ->
  let from :=
    if rd s0 0 =? LBRACE
    then default O (memchr_off RBRACE s0 (strlen s0)) else O in
  p = match (if has_flag flags HTS_PARSE_LIST
             then strchr s0 from COMMA else None) with
      | Some comma => S comma
      | None => strlen s0
      end.
Proof.
  cbn zeta. unfold hts_parse_region. rewrite list_flag_kept.
  set (flags' := if has_flag flags HTS_PARSE_LIST then _ else _).
  assert (Hname : forall tid ret,
    r_ret (mk_region (if 0 <=? tid then Some ret else None)
             tid 0 HTS_POS_MAX) = Some p -> p = ret).
  { intros tid ret. cbn. destruct (0 <=? tid); [|done]. by intros [= ->]. }
  assert (Hnamed : forall s colon quoted s_end b0 e0,
    r_ret (parse_named getid hts_parse_decimal s0 s colon quoted s_end
             flags' b0 e0) = Some p -> p = s_end).
  { intros s colon quoted s_end b0 e0 Hs.
    pose proof (parse_named_ok getid hts_parse_decimal s0 s colon quoted
                  s_end flags' b0 e0) as Hc.
    cbn zeta in Hc. destruct Hc as [_ Hok].
    destruct (Hok ltac:(by rewrite Hs)) as (Hr & _).
    rewrite Hs in Hr. by injection Hr. }
  destruct (rd s0 0 =? LBRACE).
  - destruct (memchr_off RBRACE s0 (strlen s0)) as [close|]; [|done].
    change (default O (Some close)) with close.
    destruct (has_flag flags HTS_PARSE_LIST).
    + destruct (strchr s0 close COMMA) as [comma|];
        (destruct (rd s0 (S close) =? COLON); [apply Hnamed|apply Hname]).
    + destruct (rd s0 (S close) =? COLON); [apply Hnamed|apply Hname].
  - assert (Hrest : forall s_len s_end,
      r_ret (match memrchr_off COLON s0 s_len with
             | None =>
                 let tid := getid (span s0 0 s_len) in
                 mk_region (if 0 <=? tid then Some s_end else None)
                   tid 0 HTS_POS_MAX
             | Some colon =>
                 let tid := getid (span s0 0 s_len) in
                 if 0 <=? tid then
                   if 0 <=? getid (span s0 0 (colon - 0)) then
                     mk_region None (-1) 0 HTS_POS_MAX
                   else mk_region (Some s_end) tid 0 HTS_POS_MAX
                 else if tid <? -1 then mk_region None tid 0 HTS_POS_MAX
                 else parse_named getid hts_parse_decimal s0 0 colon 0 s_end
                        flags' 0 HTS_POS_MAX
             end) = Some p -> p = s_end).
    { intros s_len s_end.
      destruct (memrchr_off COLON s0 s_len) as [colon|]; [|apply Hname].
      cbn zeta. destruct (0 <=? getid (span s0 0 s_len)).
      - destruct (0 <=? getid (span s0 0 (colon - 0))); [done|].
        cbn. by intros [= ->].
      - destruct (getid (span s0 0 s_len) <? -1); [done|]. apply Hnamed. }
    destruct (has_flag flags HTS_PARSE_LIST); [|apply Hrest].
    destruct (strchr s0 0 COMMA) as [comma|]; apply Hrest.
Qed.

(** Where an accepted region ends.  When [hts_parse_region] accepts a
    string, the pointer it returns is the end of the string, or, under
    [HTS_PARSE_LIST], the byte after the first comma, when there is
    one; in a string that starts with a brace the comma is looked for
    from the closing brace on. *)
Theorem parse_region_next s0 beg0 end0 flags p :
  r_ret (hts_parse_region getid hts_parse_decimal s0 beg0 end0 flags)
  = Some p ->
  let from :=
    if rd s0 0 =? LBRACE
    then default O (memchr_off RBRACE s0 (strlen s0)) else O in
  p = match (if has_flag flags HTS_PARSE_LIST
             then strchr s0 from COMMA else None) with
      | Some comma => S comma
      | None => strlen s0
      end.
Proof. apply parse_region_next_spec. Qed.

End RegionNext.

Lemma parse_region_next_witness :
  exists p,
    r_ret (hts_parse_region one_name plain_decimal (lit "chr1:100-200,chr1")
             7 7 HTS_PARSE_LIST) = Some p
    /\ p = 13%nat.
Proof.
  assert (H : r_ret (hts_parse_region one_name plain_decimal
                       (lit "chr1:100-200,chr1") 7 7 HTS_PARSE_LIST)
              = Some 13%nat) by (by vm_compute).
  exists 13%nat. split; [exact H|].
  exact (parse_region_next one_name plain_decimal (lit "chr1:100-200,chr1")
           7 7 HTS_PARSE_LIST 13 H).
Defined.
